(** * Loco_data: anomaly detection and feature engineering

    A shallow embedding of [detect_anomalies] and [calculate_mad]
    (anomaly_detection.py) and of the two queries of
    [create_aggregated_features] (feature_engineering.py), with the
    properties of the detection engine and of the feature table proved
    over it.

    Conventions:
    - a pandas float64 cell is an [option Q]: [None] is NaN (a SQL NULL on the
      DuckDB side); arithmetic is exact rational arithmetic: the rounding of
      float64, its overflow to infinity and the wrap-around of int64 are not
      modelled, so what is said of a computed value (a difference, a
      quotient, the median of an even count) holds of the code up to
      rounding;
    - the frame read from parquet has a RangeIndex, so an index label is the
      row's position;
    - a raised Python exception is an [Err] result;
    - on the DuckDB side a timestamp column is a column of numbers,
      identifiers are matched as they are written (a raw table that spells
      a column of the query in another case is outside the model), and the
      derived-feature query keeps the row order of the table that it
      reads. *)

From Stdlib Require Import QArith Qabs Lqa ZArith String Ascii List.
From Stdlib Require OrderedTypeEx.
From stdpp Require Import gmap strings list fin_maps.

Local Open Scope string_scope.
Local Open Scope list_scope.

(** ** Exceptions and results *)

Inductive error : Type :=
| KeyError (name : string)
| TypeError
| IndexError
| ValueError.

Inductive result (A : Type) : Type :=
| Ok (a : A)
| Err (e : error).
Arguments Ok {A} a.
Arguments Err {A} e.

#[global] Instance result_ret : MRet result := fun A a => Ok a.

#[global] Instance result_bind : MBind result := fun A B k r =>
  match r with
  | Ok a => k a
  | Err e => Err e
  end.

(** [[f(a) for a in l]], stopping at the first exception. *)
Fixpoint traverse {A B : Type} (f : A -> result B) (l : list A) : result (list B) :=
  match l with
  | [] => Ok []
  | a :: l' => b ← f a; bs ← traverse f l'; Ok (b :: bs)
  end.

(** [for x in xs: st = body(x, st)], stopping at the first exception. *)
Fixpoint foldM {A S : Type} (body : A -> S -> result S) (xs : list A) (st : S)
  : result S :=
  match xs with
  | [] => Ok st
  | x :: xs' => st' ← body x st; foldM body xs' st'
  end.

(** ** Cells, columns and frames *)

Inductive column : Type :=
| FloatCol (xs : list (option Q))
| IntCol (xs : list Z)
| StrCol (xs : list string).

Definition col_length (c : column) : nat :=
  match c with
  | FloatCol xs => length xs
  | IntCol xs => length xs
  | StrCol xs => length xs
  end.

Record DataFrame : Type := mkDataFrame {
  nrows : nat;
  columns : gmap string column;
}.

(** Every column is as long as the index. *)
Definition wf_frame (df : DataFrame) : Prop :=
  map_Forall (fun _ c => col_length c = nrows df) (columns df).

#[global] Instance wf_frame_dec (df : DataFrame) : Decision (wf_frame df).
Proof. unfold wf_frame. apply _. Defined.

(** [df[name]] on a frame as loaded *)
Definition read_column (df : DataFrame) (name : string) : result column :=
  match columns df !! name with
  | Some c => Ok c
  | None => Err (KeyError name)
  end.

(** A column read as numbers; a string column where numbers are expected
    raises. *)
Definition as_float (c : column) : result (list (option Q)) :=
  match c with
  | FloatCol xs => Ok xs
  | IntCol xs => Ok (map (fun z => Some (inject_Z z)) xs)
  | StrCol _ => Err TypeError
  end.

(** ** Comparisons and arithmetic on float cells *)

Definition Qltb (a b : Q) : bool := negb (Qle_bool b a).

(** [x > thr] on one cell: a NaN never compares true. *)
Definition gt_cell (thr : Q) (x : option Q) : bool :=
  match x with
  | Some q => Qltb thr q
  | None => false
  end.

(** [x < thr] on one cell *)
Definition lt_cell (thr : Q) (x : option Q) : bool :=
  match x with
  | Some q => Qltb q thr
  | None => false
  end.

(** [series > thr] *)
Definition gt_scalar (xs : list (option Q)) (thr : Q) : list bool :=
  map (gt_cell thr) xs.

(** [series < thr] *)
Definition lt_scalar (xs : list (option Q)) (thr : Q) : list bool :=
  map (lt_cell thr) xs.

(** [series.abs()] *)
Definition abs_series (xs : list (option Q)) : list (option Q) :=
  map (option_map Qabs) xs.

(** [a - b] on cells (and on nullable SQL numbers) *)
Definition sub_null (a b : option Q) : option Q :=
  match a, b with
  | Some x, Some y => Some (x - y)%Q
  | _, _ => None
  end.

(** [series - m] for a scalar [m] that may be NaN *)
Definition sub_scalar (xs : list (option Q)) (m : option Q) : list (option Q) :=
  map (fun x => sub_null x m) xs.

(** [series / d] *)
Definition div_scalar (xs : list (option Q)) (d : Q) : list (option Q) :=
  map (option_map (fun q => (q / d)%Q)) xs.

(** The non-missing numbers of a series. *)
Definition values (xs : list (option Q)) : list Q :=
  omap id xs.

(** [series.dropna()] *)
Definition dropna (xs : list (option Q)) : list (option Q) :=
  map Some (values xs).

(** [series.notna().sum()] *)
Definition notna_count (c : column) : nat :=
  match c with
  | FloatCol xs => length (values xs)
  | IntCol xs => length xs
  | StrCol xs => length xs
  end.

(** ** Boolean masks *)

(** [xs[mask]]: the rows where the mask holds, in order. *)
Fixpoint select {A : Type} (mask : list bool) (xs : list A) : list A :=
  match mask, xs with
  | b :: mask', x :: xs' => if b then x :: select mask' xs' else select mask' xs'
  | _, _ => []
  end.

Definition select_col (mask : list bool) (c : column) : column :=
  match c with
  | FloatCol xs => FloatCol (select mask xs)
  | IntCol xs => IntCol (select mask xs)
  | StrCol xs => StrCol (select mask xs)
  end.

(** A mask computed on the selected rows, put back on the whole index:
    rows outside the selection carry no label in the small mask and align
    to false. *)
Fixpoint align (mask : list bool) (sub : list bool) : list bool :=
  match mask with
  | [] => []
  | true :: mask' =>
      match sub with
      | b :: sub' => b :: align mask' sub'
      | [] => false :: align mask' []
      end
  | false :: mask' => false :: align mask' sub
  end.

(** [m1 & m2] *)
Definition mask_and (m1 m2 : list bool) : list bool := zip_with andb m1 m2.

(** [df.loc[mask, col] = v] on an integer column *)
Definition loc_set (mask : list bool) (v : Z) (xs : list Z) : list Z :=
  zip_with (fun (b : bool) x => if b then v else x) mask xs.

(** [df.loc[mask, col] += s] on a string column *)
Definition loc_append (mask : list bool) (s : string) (xs : list string)
  : list string :=
  zip_with (fun (b : bool) x => if b then x +:+ s else x) mask xs.

(** The mask of the rows whose label is in [labels]. *)
Definition labels_mask (n : nat) (labels : list nat) : list bool :=
  map (fun i => bool_decide (i ∈ labels)) (seq 0 n).

(** ** Group keys *)

Inductive key : Type :=
| KNum (q : Q)
| KStr (s : string)
| KNaN.

Definition keys_of (c : column) : list key :=
  match c with
  | FloatCol xs => map (fun x => match x with Some q => KNum q | None => KNaN end) xs
  | IntCol xs => map (fun z => KNum (inject_Z z)) xs
  | StrCol xs => map KStr xs
  end.

(** [a == b] on cells: NaN equals nothing. *)
Definition key_eqb (a b : key) : bool :=
  match a, b with
  | KNum x, KNum y => Qeq_bool x y
  | KStr s, KStr t => String.eqb s t
  | _, _ => false
  end.

(** Identity of values for [unique()] and for SQL partitions: as [key_eqb],
    but all missing values are one value. *)
Definition same_key (a b : key) : bool :=
  match a, b with
  | KNaN, KNaN => true
  | _, _ => key_eqb a b
  end.

(** [series.unique()]: the distinct values in order of first appearance. *)
Fixpoint unique (ks : list key) : list key :=
  match ks with
  | [] => []
  | k :: ks' => k :: List.filter (fun k' => negb (same_key k k')) (unique ks')
  end.

(** [df.groupby(keys)[col].diff()]: each row minus the previous row of its
    group; the first row of a group, and every row with a missing key, get
    NaN. [seen] holds the rows already passed, latest first. *)
Fixpoint group_diff_from (seen : list (key * option Q))
  (rows : list (key * option Q)) : list (option Q) :=
  match rows with
  | [] => []
  | (k, x) :: rows' =>
      match List.find (fun p => key_eqb (fst p) k) seen, x with
      | Some (_, Some p), Some q => Some (q - p)%Q
      | _, _ => None
      end :: group_diff_from ((k, x) :: seen) rows'
  end.

Definition group_diff (ks : list key) (xs : list (option Q)) : list (option Q) :=
  group_diff_from [] (zip ks xs).

(** ** Median and MAD *)

Fixpoint insort (x : Q) (l : list Q) : list Q :=
  match l with
  | [] => [x]
  | y :: l' => if Qle_bool x y then x :: y :: l' else y :: insort x l'
  end.

Definition sort_values (l : list Q) : list Q := foldr insort [] l.

(** [series.median()]: missing values are skipped; an empty series has
    median NaN; an even count averages the two middle values. *)
Definition median (xs : list (option Q)) : option Q :=
  let s := sort_values (values xs) in
  let n := length s in
  if Nat.even n then
    match n with
    | O => None
    | _ => match s !! (n / 2 - 1)%nat, s !! (n / 2)%nat with
           | Some a, Some b => Some ((a + b) / 2)%Q
           | _, _ => None
           end
    end
  else s !! (n / 2)%nat.

(** anomaly_detection.py, [calculate_mad] *)
Definition calculate_mad (series : list (option Q)) : option Q * option Q :=
  let median_ := median series in
  let mad := median (abs_series (sub_scalar series median_)) in
  (median_, mad).
Arguments calculate_mad : simpl never.

(** ** Strings *)

Definition upper_ascii (c : ascii) : ascii :=
  let n := nat_of_ascii c in
  if (97 <=? n)%nat && (n <=? 122)%nat then ascii_of_nat (n - 32) else c.

(** [str.upper()] *)
Fixpoint upper (s : string) : string :=
  match s with
  | EmptyString => EmptyString
  | String c s' => String (upper_ascii c) (upper s')
  end.

(** [s.rstrip(c)]: drop every trailing [c]. *)
Fixpoint rstrip (c : ascii) (s : string) : string :=
  match s with
  | EmptyString => EmptyString
  | String a s' =>
      match rstrip c s' with
      | EmptyString => if Ascii.eqb a c then EmptyString else String a EmptyString
      | r => String a r
      end
  end.

(** [s.split(c)] *)
Fixpoint split (c : ascii) (s : string) : list string :=
  match s with
  | EmptyString => [EmptyString]
  | String a s' =>
      if Ascii.eqb a c then EmptyString :: split c s'
      else match split c s' with
           | t :: ts => String a t :: ts
           | [] => [String a EmptyString]
           end
  end.

Definition starts_with (c : ascii) (s : string) : bool :=
  match s with
  | String a _ => Ascii.eqb a c
  | EmptyString => false
  end.

Fixpoint ends_with (c : ascii) (s : string) : bool :=
  match s with
  | EmptyString => false
  | String a EmptyString => Ascii.eqb a c
  | String _ s' => ends_with c s'
  end.

(** ** feature_engineering.py: the derived-feature query (lines 124-138)

    The table [features_1min] is a frame whose rows are in the order of the
    first query (ORDER BY locoid, ts); a SQL NULL is [None]. The first
    query groups by (locoid, ts) and keeps only rows with a timestamp, so
    within a partition no two rows share a [ts] and no [ts] is NULL. *)

(** Row order of [ORDER BY ts] (NULLs last). *)
Definition ts_before (a b : option Q) : bool :=
  match a, b with
  | Some x, Some y => Qltb x y
  | Some _, None => true
  | None, _ => false
  end.

(** The row that comes last in [ORDER BY ts]. *)
Definition latest (rows : list (key * (option Q * option Q)))
  : option (key * (option Q * option Q)) :=
  foldl (fun best r =>
           match best with
           | None => Some r
           | Some b => if ts_before (fst (snd r)) (fst (snd b)) then Some b
                       else Some r
           end) None rows.

(** [LAG(x) OVER (PARTITION BY k ORDER BY ts)]: for each row, [x] of the row
    just before it in its partition, NULL for the first row. *)
Definition lag (ks : list key) (ts xs : list (option Q)) : list (option Q) :=
  let rows := zip ks (zip ts xs) in
  map (fun r =>
         match latest (List.filter
                         (fun r' => same_key (fst r') (fst r)
                                    && ts_before (fst (snd r')) (fst (snd r)))
                         rows) with
         | Some r' => snd (snd r')
         | None => None
         end) rows.

(** [CASE WHEN distance_km > 0.1 THEN energy_consumption / distance_km
    ELSE NULL END] *)
Definition energy_efficiency_of (energy distance : option Q) : option Q :=
  match distance with
  | Some d => if Qltb (1 # 10) d
              then match energy with
                   | Some e => Some (e / d)%Q
                   | None => None
                   end
              else None
  | None => None
  end.

(** [features_final]: every column of [features_1min], then
    [energy_efficiency] and [temp_motor1_1_rate]. *)
Definition derived_features (features_1min : DataFrame) : result DataFrame :=
  distance_km ← (c ← read_column features_1min "distance_km"; as_float c);
  energy_consumption ←
    (c ← read_column features_1min "energy_consumption"; as_float c);
  temp_mean ← (c ← read_column features_1min "temp_motor1_1_mean"; as_float c);
  locoid ← read_column features_1min "locoid";
  ts ← (c ← read_column features_1min "ts"; as_float c);
  let energy_efficiency :=
    zip_with energy_efficiency_of energy_consumption distance_km in
  let temp_motor1_1_rate :=
    zip_with sub_null temp_mean (lag (keys_of locoid) ts temp_mean) in
  Ok (mkDataFrame (nrows features_1min)
        (<["temp_motor1_1_rate" := FloatCol temp_motor1_1_rate]>
           (<["energy_efficiency" := FloatCol energy_efficiency]>
              (columns features_1min)))).

(** ** Configuration (config.py) *)

(** The entries of the [THRESHOLDS] dictionary that the rules read. *)
Record Thresholds : Type := mkThresholds {
  temp_motor_max : Q;
  temp_motor_rate_max : Q;
  current_std_max : Q;
  battery_min : Q;
  speed_jump_max : Q;
  pressure_min : Q;
}.

(** ** The working frame of [detect_anomalies]

    The four columns created on lines 51-54 are kept in typed fields; any
    other column, read from parquet or assigned later, is in [rest]. The
    pandas frame is [view]: one name space, in which the four working columns
    replace input columns of the same name. Every read [df[name]] goes
    through [view]. *)

Record frame : Type := mkFrame {
  index_len : nat;
  anomaly_rule : list Z;
  anomaly_mad : list Z;
  anomaly_ml : list Z;
  anomaly_types : list string;
  rest : gmap string column;
}.

Definition view (w : frame) : gmap string column :=
  <["anomaly_types" := StrCol (anomaly_types w)]>
    (<["anomaly_ml" := IntCol (anomaly_ml w)]>
       (<["anomaly_mad" := IntCol (anomaly_mad w)]>
          (<["anomaly_rule" := IntCol (anomaly_rule w)]> (rest w)))).

(** [df[name]] *)
Definition get (w : frame) (name : string) : result column :=
  match view w !! name with
  | Some c => Ok c
  | None => Err (KeyError name)
  end.

(** [df[name]] used as numbers *)
Definition numeric (w : frame) (name : string) : result (list (option Q)) :=
  c ← get w name; as_float c.

(** [name in df.columns] *)
Definition has_column (w : frame) (name : string) : bool :=
  bool_decide (is_Some (view w !! name)).

(** [df[name] = c] for a name other than the four working columns *)
Definition assign (name : string) (c : column) (w : frame) : frame :=
  mkFrame (index_len w) (anomaly_rule w) (anomaly_mad w) (anomaly_ml w)
          (anomaly_types w) (<[name := c]> (rest w)).

(** Lines 51-54: the four working columns, on the frame just loaded. *)
Definition init_columns (df : DataFrame) : frame :=
  let n := nrows df in
  mkFrame n (replicate n 0%Z) (replicate n 0%Z) (replicate n 0%Z)
          (replicate n "") (columns df).

(** [df.loc[mask, 'anomaly_rule'] = 1; df.loc[mask, 'anomaly_types'] += tag] *)
Definition mark_rule (mask : list bool) (tag : string) (w : frame) : frame :=
  mkFrame (index_len w) (loc_set mask 1 (anomaly_rule w)) (anomaly_mad w)
          (anomaly_ml w) (loc_append mask tag (anomaly_types w)) (rest w).

(** [df.loc[mask, 'anomaly_mad'] = 1; df.loc[mask, 'anomaly_types'] += tag] *)
Definition mark_mad (mask : list bool) (tag : string) (w : frame) : frame :=
  mkFrame (index_len w) (anomaly_rule w) (loc_set mask 1 (anomaly_mad w))
          (anomaly_ml w) (loc_append mask tag (anomaly_types w)) (rest w).

(** [df.loc[labels, 'anomaly_ml'] = 1; df.loc[labels, 'anomaly_types'] += tag] *)
Definition mark_ml (labels : list nat) (tag : string) (w : frame) : frame :=
  let mask := labels_mask (index_len w) labels in
  mkFrame (index_len w) (anomaly_rule w) (anomaly_mad w)
          (loc_set mask 1 (anomaly_ml w)) (loc_append mask tag (anomaly_types w))
          (rest w).

(** [df.fillna(df.median())], one column *)
Definition fillna_median (xs : list (option Q)) : list (option Q) :=
  match median xs with
  | Some m => map (fun x => match x with Some q => Some q | None => Some m end) xs
  | None => xs
  end.

(** The rows of a frame of [m] rows given by its columns. *)
Definition to_rows (m : nat) (cols : list (list (option Q)))
  : list (list (option Q)) :=
  map (fun i => map (fun c : list (option Q) => default None (c !! i)) cols) (seq 0 m).

(** The features of the MAD layer (line 109). *)
Definition mad_features : list string :=
  ["temp_motor1_1_mean"; "current_u_mean"; "pressure_tr1_mean"].

(** Lines 178-187: scores, verdicts, and the tags without their trailing
    delimiter; the result is the frame that is written and returned. *)
Definition combine (w : frame) : DataFrame :=
  let anomaly_score :=
    zip_with Z.add
      (zip_with (fun r m => (r * 3 + m * 2)%Z) (anomaly_rule w) (anomaly_mad w))
      (map (fun l => (l * 1)%Z) (anomaly_ml w)) in
  let is_anomaly := map (fun s => if (2 <=? s)%Z then 1%Z else 0%Z) anomaly_score in
  let w' := mkFrame (index_len w) (anomaly_rule w) (anomaly_mad w) (anomaly_ml w)
                    (map (rstrip ";") (anomaly_types w))
                    (<["is_anomaly" := IntCol is_anomaly]>
                       (<["anomaly_score" := IntCol anomaly_score]> (rest w))) in
  mkDataFrame (index_len w') (view w').

Section Detection.

(** config.py is not part of the sources read here: its values are
    parameters. *)
Variable THRESHOLDS : Thresholds.
Variable MAD_THRESHOLD : Q.
Variable ISOLATION_FOREST_CONTAMINATION : Q.
Variable ANOMALY_FEATURES : list string.

(** scikit-learn. [env] is everything a library call could depend on
    besides its arguments (the global random state, thread scheduling).
    [fit_transform X] is [StandardScaler().fit_transform(X)];
    [fit_predict e random_state contamination X] is
    [IsolationForest(contamination, random_state, n_jobs=-1).fit_predict(X)],
    a label 1 or -1 per row. *)
Variable env : Type.
Variable fit_transform : list (list (option Q)) -> result (list (list (option Q))).
Variable fit_predict :
  env -> option Z -> Q -> list (list (option Q)) -> result (list Z).

(** *** Layer 1: rules (lines 63-98) *)

Definition rule_layer (w : frame) : result frame :=
  x ← numeric w "temp_motor1_1_max";
  let temp_high := gt_scalar x (temp_motor_max THRESHOLDS) in
  let w := mark_rule temp_high "HIGH_TEMP;" w in
  x ← numeric w "temp_motor1_1_rate";
  let temp_rate_high := gt_scalar (abs_series x) (temp_motor_rate_max THRESHOLDS) in
  let w := mark_rule temp_rate_high "TEMP_SPIKE;" w in
  x ← numeric w "current_u_std";
  let current_unstable := gt_scalar x (current_std_max THRESHOLDS) in
  let w := mark_rule current_unstable "CURRENT_UNSTABLE;" w in
  x ← numeric w "battery_volt_min";
  let battery_low := lt_scalar x (battery_min THRESHOLDS) in
  let w := mark_rule battery_low "LOW_BATTERY;" w in
  k ← get w "locoid";
  x ← numeric w "avg_speed";
  let w := assign "speed_change"
             (FloatCol (abs_series (group_diff (keys_of k) x))) w in
  x ← numeric w "speed_change";
  let speed_jump := gt_scalar x (speed_jump_max THRESHOLDS) in
  let w := mark_rule speed_jump "SPEED_JUMP;" w in
  x ← numeric w "pressure_tr1_min";
  let pressure_low := lt_scalar x (pressure_min THRESHOLDS) in
  let w := mark_rule pressure_low "LOW_PRESSURE;" w in
  Ok w.

(** *** Layer 2: MAD (lines 109-126) *)

(** [df['locoid'] == loco] *)
Definition loco_mask_of (w : frame) (loco : key) : result (list bool) :=
  k ← get w "locoid"; Ok (map (fun k' => key_eqb k' loco) (keys_of k)).

(** The body of the inner loop, lines 117-126. [loco_data] is the copy of
    the unit's rows taken on line 114. *)
Definition mad_feature (loco_mask : list bool) (loco_data : gmap string column)
  (feature : string) (w : frame) : result frame :=
  if has_column w feature then
    match loco_data !! feature with
    | None => Err (KeyError feature)
    | Some c =>
        if (10 <? notna_count c)%nat then
          x ← as_float c;
          let '(median_, mad) := calculate_mad (dropna x) in
          match mad with
          | Some m =>
              if Qltb 0 m then
                let z_score :=
                  abs_series (div_scalar (sub_scalar x median_)
                                         ((14826 # 10000) * m)%Q) in
                let anomaly_mask := gt_scalar z_score MAD_THRESHOLD in
                let mask := mask_and loco_mask (align loco_mask anomaly_mask) in
                Ok (mark_mad mask ("MAD_" +:+ upper feature +:+ ";") w)
              else Ok w
          | None => Ok w
          end
        else Ok w
    end
  else Ok w.

Definition mad_unit (loco : key) (w : frame) : result frame :=
  loco_mask ← loco_mask_of w loco;
  let loco_data := select_col loco_mask <$> view w in
  foldM (mad_feature loco_mask loco_data) mad_features w.

Definition mad_layer (w : frame) : result frame :=
  k ← get w "locoid";
  foldM mad_unit (unique (keys_of k)) w.

(** *** Layer 3: isolation forest (lines 136-169) *)

Definition ml_unit (e : env) (ml_features : list string) (loco : key) (w : frame)
  : result frame :=
  loco_mask ← loco_mask_of w loco;
  pct ← numeric w "pct_moving";
  let moving_mask := gt_scalar (select loco_mask pct) (1 # 2) in
  let index := select moving_mask (select loco_mask (seq 0 (index_len w))) in
  if (50 <? length index)%nat then
    loco_data_moving ←
      traverse (fun f => x ← numeric w f;
                         Ok (select moving_mask (select loco_mask x)))
               ml_features;
    let filled := map fillna_median loco_data_moving in
    X_scaled ← fit_transform (to_rows (length index) filled);
    predictions ←
      fit_predict e (Some 42%Z) ISOLATION_FOREST_CONTAMINATION X_scaled;
    if (length predictions =? length index)%nat then
      let anomaly_indices :=
        select (map (fun p => (p =? -1)%Z) predictions) index in
      Ok (mark_ml anomaly_indices "ML_ISOLATION;" w)
    else Err IndexError
  else Ok w.

Definition ml_layer (e : env) (w : frame) : result frame :=
  let ml_features := List.filter (has_column w) ANOMALY_FEATURES in
  k ← get w "locoid";
  foldM (ml_unit e ml_features) (unique (keys_of k)) w.

(** *** [detect_anomalies] (lines 47-209), from the loaded frame to the
    frame that is written and returned *)

Definition detect_anomalies (e : env) (df : DataFrame) : result DataFrame :=
  _ ← read_column df "locoid";
  let w := init_columns df in
  w ← rule_layer w;
  w ← mad_layer w;
  w ← ml_layer e w;
  Ok (combine w).

End Detection.

(** ** Reading frames row by row

    The notions in which the properties below are stated: the cells of a
    row of the loaded frame, the tags of a row, the rows of a unit. *)

(** The values of a numeric column, nothing when there is none. *)
Definition float_values (df : DataFrame) (name : string) : list (option Q) :=
  match columns df !! name with
  | Some c => match as_float c with
              | Ok xs => xs
              | Err _ => []
              end
  | None => []
  end.

(** The cell of a numeric column, NaN when there is none. *)
Definition float_cell (df : DataFrame) (name : string) (i : nat) : option Q :=
  default None (float_values df name !! i).

(** The units of the rows, and the unit of a row. *)
Definition unit_keys (df : DataFrame) : list key :=
  match columns df !! "locoid" with
  | Some c => keys_of c
  | None => []
  end.

Definition unit_of (df : DataFrame) (i : nat) : key :=
  default KNaN (unit_keys df !! i).

(** The rows of a unit, as a mask, and a feature on these rows. *)
Definition unit_mask (df : DataFrame) (u : key) : list bool :=
  map (fun k => key_eqb k u) (unit_keys df).

Definition unit_values (df : DataFrame) (feature : string) (u : key)
  : list (option Q) :=
  select (unit_mask df u) (float_values df feature).

(** The MAD test of lines 117-122 for one value [x] against the values
    [group] of its unit. *)
Definition mad_hit (threshold : Q) (group : list (option Q)) (x : option Q)
  : bool :=
  (10 <? length (values group))%nat
  && match calculate_mad (dropna group) with
     | (median_, Some m) =>
         Qltb 0 m
         && gt_cell threshold
              (option_map Qabs
                 (option_map (fun q => (q / ((14826 # 10000) * m))%Q)
                    (sub_null x median_)))
     | (_, None) => false
     end.

(** The labels of the moving rows of a unit (lines 146-147). *)
Definition moving_rows (df : DataFrame) (u : key) : list nat :=
  List.filter
    (fun j => key_eqb (unit_of df j) u
              && gt_cell (1 # 2) (float_cell df "pct_moving" j))
    (seq 0 (nrows df)).

(** A list of units without repetition, as [unique()] returns. *)
Inductive distinct_keys : list key -> Prop :=
| distinct_nil : distinct_keys []
| distinct_cons k ks :
    Forall (fun k' => same_key k k' = false) ks ->
    distinct_keys ks -> distinct_keys (k :: ks).

(** The cell of the column [speed_change] that line 88 computes. *)
Definition speed_change_cell (df : DataFrame) (i : nat) : option Q :=
  default None
    (abs_series (group_diff (unit_keys df) (float_values df "avg_speed")) !! i).

(** The six rule conditions of a row, named as the masks of the source. *)
Definition temp_high (T : Thresholds) (df : DataFrame) (i : nat) : bool :=
  gt_cell (temp_motor_max T) (float_cell df "temp_motor1_1_max" i).

Definition temp_rate_high (T : Thresholds) (df : DataFrame) (i : nat) : bool :=
  gt_cell (temp_motor_rate_max T)
          (option_map Qabs (float_cell df "temp_motor1_1_rate" i)).

Definition current_unstable (T : Thresholds) (df : DataFrame) (i : nat) : bool :=
  gt_cell (current_std_max T) (float_cell df "current_u_std" i).

Definition battery_low (T : Thresholds) (df : DataFrame) (i : nat) : bool :=
  lt_cell (battery_min T) (float_cell df "battery_volt_min" i).

Definition speed_jump (T : Thresholds) (df : DataFrame) (i : nat) : bool :=
  gt_cell (speed_jump_max T) (speed_change_cell df i).

Definition pressure_low (T : Thresholds) (df : DataFrame) (i : nat) : bool :=
  lt_cell (pressure_min T) (float_cell df "pressure_tr1_min" i).

Definition rule_bits (T : Thresholds) (df : DataFrame) (i : nat) : list bool :=
  [ temp_high T df i; temp_rate_high T df i; current_unstable T df i;
    battery_low T df i; speed_jump T df i; pressure_low T df i ].

(** The tags, in the order in which the layers append them. *)
Definition rule_tags : list string :=
  ["HIGH_TEMP"; "TEMP_SPIKE"; "CURRENT_UNSTABLE"; "LOW_BATTERY"; "SPEED_JUMP";
   "LOW_PRESSURE"].

Definition mad_tag (feature : string) : string := "MAD_" +:+ upper feature.

Definition mad_tags : list string := map mad_tag mad_features.

Definition ml_tags : list string := ["ML_ISOLATION"].

Definition all_tags : list string := rule_tags ++ mad_tags ++ ml_tags.

(** What the layers have appended for a list of tags: each tag followed by
    the delimiter. *)
Definition join_tags (ts : list string) : string :=
  foldr (fun t acc => t +:+ ";" +:+ acc) "" ts.

(** The frame invariant of the working frame. *)
Definition wf_work (w : frame) : Prop :=
  length (anomaly_rule w) = index_len w /\
  length (anomaly_mad w) = index_len w /\
  length (anomaly_ml w) = index_len w /\
  length (anomaly_types w) = index_len w /\
  map_Forall (fun _ c => col_length c = index_len w) (rest w).

(** The state of the MAD layer between two units: what the layer has
    appended to the tags of each row since [w0], with [remaining] the units
    still to come. *)
Definition mad_inv (threshold : Q) (df : DataFrame) (w0 w : frame)
  (remaining : list key) : Prop :=
  wf_work w /\ index_len w = index_len w0 /\ rest w = rest w0 /\
  anomaly_rule w = anomaly_rule w0 /\ anomaly_ml w = anomaly_ml w0 /\
  forall (i : nat) t, anomaly_types w0 !! i = Some t ->
    exists M m,
      anomaly_types w !! i = Some (t +:+ join_tags M) /\
      M `sublist_of` mad_tags /\
      anomaly_mad w !! i = Some m /\
      (M = [] /\ m = 0%Z \/ M <> [] /\ m = 1%Z) /\
      (forall f, f ∈ mad_features -> mad_tag f ∈ M ->
         mad_hit threshold (unit_values df f (unit_of df i))
           (float_cell df f i) = true) /\
      ((exists l, l ∈ remaining /\ key_eqb (unit_of df i) l = true) -> M = []).

(** The state of the isolation-forest layer between two units. A row is
    eligible when it is a moving row of a unit with more than 50 moving
    rows. *)
Definition ml_eligible (df : DataFrame) (i : nat) : Prop :=
  gt_cell (1 # 2) (float_cell df "pct_moving" i) = true /\
  (50 < length (moving_rows df (unit_of df i)))%nat.

Definition ml_inv (df : DataFrame) (w0 w : frame) (remaining : list key)
  : Prop :=
  wf_work w /\ index_len w = index_len w0 /\ rest w = rest w0 /\
  anomaly_rule w = anomaly_rule w0 /\ anomaly_mad w = anomaly_mad w0 /\
  forall (i : nat) t, anomaly_types w0 !! i = Some t ->
    exists L m,
      anomaly_types w !! i = Some (t +:+ join_tags L) /\
      anomaly_ml w !! i = Some m /\
      (L = [] /\ m = 0%Z \/ L = ml_tags /\ m = 1%Z /\ ml_eligible df i) /\
      ((exists l, l ∈ remaining /\ key_eqb (unit_of df i) l = true) -> L = []).

(** What a run says about one row: the three flags [r], [m], [l], the
    tags, the score and the verdict of row [i] of the loaded frame [df]. *)
Definition row_report (T : Thresholds) (threshold : Q) (df : DataFrame)
  (i : nat) (r m l : Z) (tags : string) (score verdict : Z) : Prop :=
  exists M L : list string,
    r = Z.b2z (existsb id (rule_bits T df i)) /\
    (M = [] /\ m = 0%Z \/ M <> [] /\ m = 1%Z) /\
    M `sublist_of` mad_tags /\
    (forall f, f ∈ mad_features -> mad_tag f ∈ M ->
       mad_hit threshold (unit_values df f (unit_of df i))
         (float_cell df f i) = true) /\
    (L = [] /\ l = 0%Z \/ L = ml_tags /\ l = 1%Z /\ ml_eligible df i) /\
    tags = rstrip ";"
             (join_tags (select (rule_bits T df i) rule_tags ++ M ++ L)) /\
    score = (r * 3 + m * 2 + l * 1)%Z /\
    verdict = (if (2 <=? score)%Z then 1 else 0)%Z.

(** The columns of the returned frame: those of the loaded frame, then the
    helper column of line 88, the score and the verdict, and the four
    working columns. *)
Definition output_columns (df : DataFrame)
  (rule mad ml : list Z) (types : list string) (score verdict : list Z)
  (speed_change : list (option Q)) : gmap string column :=
  <["anomaly_types" := StrCol types]>
    (<["anomaly_ml" := IntCol ml]>
       (<["anomaly_mad" := IntCol mad]>
          (<["anomaly_rule" := IntCol rule]>
             (<["is_anomaly" := IntCol verdict]>
                (<["anomaly_score" := IntCol score]>
                   (<["speed_change" := FloatCol speed_change]> (columns df))))))).

(** The timestamp of a row of the feature table. *)
Definition ts_cell (tbl : DataFrame) (i : nat) : option Q :=
  float_cell tbl "ts" i.

(** Two rows of one unit (of one SQL partition: the rows without a unit
    count as one unit). *)
Definition same_unit (tbl : DataFrame) (i j : nat) : bool :=
  same_key (unit_of tbl i) (unit_of tbl j).

(** The rows of each unit are in temporal order. *)
Definition temporally_ordered (tbl : DataFrame) : Prop :=
  forall i j, (i < j < nrows tbl)%nat -> same_unit tbl i j = true ->
    ts_before (ts_cell tbl j) (ts_cell tbl i) = false.

(** Row [i] is the first temporal bucket of its unit: every other row of
    the unit is later. *)
Definition first_bucket (tbl : DataFrame) (i : nat) : Prop :=
  forall j, (j < nrows tbl)%nat -> j <> i -> same_unit tbl j i = true ->
    ts_before (ts_cell tbl i) (ts_cell tbl j) = true.

(** The columns that the rules and the loops read whatever the
    configuration, in the order of their first read. *)
Definition rule_columns : list string :=
  ["temp_motor1_1_max"; "temp_motor1_1_rate"; "current_u_std";
   "battery_volt_min"; "avg_speed"; "pressure_tr1_min"].

Definition required_columns : list string := "locoid" :: rule_columns.

(** A column of numbers. *)
Definition is_numeric (c : column) : bool :=
  match c with
  | StrCol _ => false
  | _ => true
  end.

(** The columns that the run itself writes before the forest layer. *)
Definition computed_columns : list string :=
  ["anomaly_rule"; "anomaly_mad"; "anomaly_ml"; "anomaly_types"; "speed_change"].

(** The frame between two layers: the working columns, and the loaded
    columns with the helper column of line 88. *)
Definition stage_inv (df : DataFrame) (w : frame) : Prop :=
  wf_work w /\ index_len w = nrows df /\
  exists speed_change,
    rest w = <["speed_change" := FloatCol speed_change]> (columns df).

(** The matrix that the forest layer builds for a unit (lines 143-151), when
    the configured features are columns of the loaded frame: the moving
    rows of the unit, the features that the frame has, missing values
    replaced by the median of the column. *)
Definition unit_matrix (features : list string) (df : DataFrame) (u : key)
  : list (list (option Q)) :=
  let loco_mask := unit_mask df u in
  let moving_mask :=
    gt_scalar (select loco_mask (float_values df "pct_moving")) (1 # 2) in
  let present :=
    List.filter (fun f => bool_decide (is_Some (columns df !! f))) features in
  to_rows (length (moving_rows df u))
    (map (fun f => fillna_median
                     (select moving_mask (select loco_mask (float_values df f))))
         present).

(** All the sublists of a list. *)
Fixpoint sublists {A : Type} (l : list A) : list (list A) :=
  match l with
  | [] => [[]]
  | x :: l' => map (cons x) (sublists l') ++ sublists l'
  end.

(** What the claims ask of a serialized tag string: no delimiter at either
    end, no tag twice. *)
Definition tags_ok (s : string) : bool :=
  negb (starts_with ";" s) && negb (ends_with ";" s)
  && bool_decide (NoDup (split ";" s)).

(** ** Sample data

    A configuration, stand-ins for the two scikit-learn calls, and small
    frames on which the model is run. *)

Module Sample.

Definition thresholds : Thresholds := mkThresholds 120 10 50 20 30 2.

Definition mad_threshold : Q := 35 # 10.

Definition contamination : Q := 1 # 100.

Definition features : list string :=
  ["temp_motor1_1_mean"; "current_u_mean"; "pressure_tr1_mean"; "avg_speed"].

(** A scaler that leaves the matrix as it is. *)
Definition scaler (X : list (list (option Q))) : result (list (list (option Q))) :=
  Ok X.

(** A forest that, like scikit-learn, refuses a matrix with a NaN, and
    otherwise marks as outliers the rows whose first feature exceeds 100. *)
Definition forest (e : unit) (random_state : option Z) (contamination : Q)
  (X : list (list (option Q))) : result (list Z) :=
  if forallb (forallb (fun x : option Q => bool_decide (is_Some x))) X
  then Ok (map (fun row => match row with
                           | Some q :: _ => if Qltb 100 q then (-1)%Z else 1%Z
                           | _ => 1%Z
                           end) X)
  else Err ValueError.

(** A forest that never fails and marks no row. *)
Definition calm_forest (e : unit) (random_state : option Z) (contamination : Q)
  (X : list (list (option Q))) : result (list Z) :=
  Ok (map (fun _ => 1%Z) X).

(** A forest whose answer depends on the environment [e] only when it is
    not seeded. *)
Definition seeded_forest (e : Z) (random_state : option Z) (contamination : Q)
  (X : list (list (option Q))) : result (list Z) :=
  match random_state with
  | Some _ => forest tt random_state contamination X
  | None => Ok (map (fun _ => if Z.even e then 1%Z else (-1)%Z) X)
  end.

Definition floats (l : list Q) : column := FloatCol (map Some l).

(** Three buckets of two units, with the columns the rules read and
    [pct_moving], and none of the MAD and forest features but [avg_speed]. *)
Definition fleet : DataFrame :=
  mkDataFrame 3 (list_to_map [
    ("locoid", IntCol [1; 1; 2]%Z);
    ("temp_motor1_1_max", floats [130; 100; 100]%Q);
    ("temp_motor1_1_rate", FloatCol [None; Some 5%Q; None]);
    ("current_u_std", floats [1; 1; 1]%Q);
    ("battery_volt_min", floats [24; 24; 24]%Q);
    ("avg_speed", floats [10; 80; 10]%Q);
    ("pressure_tr1_min", floats [5; 5; 1]%Q);
    ("pct_moving", floats [1; 1; 0]%Q)]).

(** [n] buckets of one unit, all alike and moving, except that
    [temp_motor1_1_mean] is [x] in bucket 5 and 10 elsewhere. *)
Definition one_unit (n : nat) (x : Q) : DataFrame :=
  mkDataFrame n (list_to_map [
    ("locoid", IntCol (replicate n 7%Z));
    ("temp_motor1_1_max", floats (replicate n 90%Q));
    ("temp_motor1_1_rate", FloatCol (None :: replicate (n - 1) (Some 0%Q)));
    ("current_u_std", floats (replicate n 1%Q));
    ("battery_volt_min", floats (replicate n 24%Q));
    ("avg_speed", floats (replicate n 40%Q));
    ("pressure_tr1_min", floats (replicate n 5%Q));
    ("pct_moving", floats (replicate n 1%Q));
    ("temp_motor1_1_mean", floats (<[5%nat := x]> (replicate n 10%Q)));
    ("current_u_mean", floats (replicate n 300%Q));
    ("pressure_tr1_mean", floats (replicate n 6%Q))]).

(** The fleet without the column [pressure_tr1_min], which the last rule
    reads. *)
Definition fleet_without_pressure : DataFrame :=
  mkDataFrame 3 (delete "pressure_tr1_min" (columns fleet)).

(** Two units of 51 moving buckets each; the second one has no value of
    [temp_motor1_1_mean] at all. *)
Definition two_units : DataFrame :=
  mkDataFrame 102 (list_to_map [
    ("locoid", IntCol (replicate 51 7%Z ++ replicate 51 8%Z));
    ("temp_motor1_1_max", floats (replicate 102 90%Q));
    ("temp_motor1_1_rate",
     FloatCol ((None :: replicate 50 (Some 0%Q))
               ++ (None :: replicate 50 (Some 0%Q))));
    ("current_u_std", floats (replicate 102 1%Q));
    ("battery_volt_min", floats (replicate 102 24%Q));
    ("avg_speed", floats (replicate 102 40%Q));
    ("pressure_tr1_min", floats (replicate 102 5%Q));
    ("pct_moving", floats (replicate 102 1%Q));
    ("temp_motor1_1_mean",
     FloatCol (replicate 51 (Some 10%Q) ++ replicate 51 None));
    ("current_u_mean", floats (replicate 102 300%Q));
    ("pressure_tr1_mean", floats (replicate 102 6%Q))]).

(** A feature table as the first query of the feature engineering leaves
    it: two buckets of unit 1, then the first bucket of unit 2, whose
    temperature and speed are far from those of the row before it. *)
Definition table : DataFrame :=
  mkDataFrame 3 (list_to_map [
    ("locoid", IntCol [1; 1; 2]%Z);
    ("ts", IntCol [0; 60; 0]%Z);
    ("distance_km", floats [1; 1; 0]%Q);
    ("energy_consumption", floats [5; 6; 0]%Q);
    ("temp_motor1_1_mean", floats [60; 62; 110]%Q);
    ("temp_motor1_1_max", floats [70; 70; 115]%Q);
    ("current_u_std", floats [1; 1; 1]%Q);
    ("battery_volt_min", floats [24; 24; 24]%Q);
    ("avg_speed", floats [10; 12; 90]%Q);
    ("pressure_tr1_min", floats [5; 5; 5]%Q);
    ("pct_moving", floats [1; 1; 1]%Q)]).

(** The run on the sample configuration. *)
Definition detect (df : DataFrame) : result DataFrame :=
  detect_anomalies thresholds mad_threshold contamination features unit
    scaler forest tt df.

(** The frame a run returns; the empty frame when it raises. *)
Definition returned (r : result DataFrame) : DataFrame :=
  match r with
  | Ok out => out
  | Err _ => mkDataFrame 0 ∅
  end.

End Sample.

(** ** The MAD layer, exactly

    The MAD tests of a row, one per feature of [mad_features]. *)
Definition mad_bits (threshold : Q) (df : DataFrame) (i : nat) : list bool :=
  map (fun f => mad_hit threshold (unit_values df f (unit_of df i))
                  (float_cell df f i))
      mad_features.

(** The unit of row [i] is still to come in the loop over the units. *)
Definition pending (df : DataFrame) (remaining : list key) (i : nat) : bool :=
  existsb (key_eqb (unit_of df i)) remaining.

(** The state of the MAD layer between two units: the rows of the units
    already visited carry the outcome of their tests, the others are as the
    rule layer left them. *)
Definition mad_done (threshold : Q) (df : DataFrame) (w0 w : frame)
  (remaining : list key) : Prop :=
  wf_work w /\ index_len w = index_len w0 /\ rest w = rest w0 /\
  anomaly_rule w = anomaly_rule w0 /\ anomaly_ml w = anomaly_ml w0 /\
  forall (i : nat) t, anomaly_types w0 !! i = Some t ->
    let bits := if pending df remaining i then [] else mad_bits threshold df i in
    anomaly_types w !! i = Some (t +:+ join_tags (select bits mad_tags)) /\
    anomaly_mad w !! i = Some (Z.b2z (existsb id bits)).

(** ** The forest layer, exactly

    What the forest of its unit says about row [i]: [true] when the unit
    has more than 50 moving rows, the scaler and the forest return on the
    matrix of the unit, and the forest labels the row -1. *)
Definition forest_marks (contamination : Q) (features : list string)
  (env : Type)
  (fit_transform : list (list (option Q)) -> result (list (list (option Q))))
  (fit_predict : env -> option Z -> Q -> list (list (option Q)) -> result (list Z))
  (e : env) (df : DataFrame) (i : nat) : bool :=
  let u := unit_of df i in
  let rows := moving_rows df u in
  (50 <? length rows)%nat
  && match fit_transform (unit_matrix features df u) with
     | Ok X_scaled =>
         match fit_predict e (Some 42%Z) contamination X_scaled with
         | Ok predictions =>
             bool_decide
               (i ∈ select (map (fun p => (p =? -1)%Z) predictions) rows)
         | Err _ => false
         end
     | Err _ => false
     end.

(** The state of the forest layer between two units. *)
Definition ml_done (contamination : Q) (features : list string) (env : Type)
  (fit_transform : list (list (option Q)) -> result (list (list (option Q))))
  (fit_predict : env -> option Z -> Q -> list (list (option Q)) -> result (list Z))
  (e : env) (df : DataFrame) (w0 w : frame) (remaining : list key) : Prop :=
  stage_inv df w /\ anomaly_rule w = anomaly_rule w0 /\
  anomaly_mad w = anomaly_mad w0 /\
  forall (i : nat) t, anomaly_types w0 !! i = Some t ->
    let bit := negb (pending df remaining i)
               && forest_marks contamination features env fit_transform
                    fit_predict e df i in
    anomaly_types w !! i
    = Some (t +:+ join_tags (if bit then ml_tags else [])) /\
    anomaly_ml w !! i = Some (Z.b2z bit).

(** ** Numbers of the code

    The thresholds of config.py are Python numbers, which a comparison with
    a float64 column reads as binary64 numbers: a finite one is [m * 2^e]
    with [|m| < 2^53]. *)
Definition binary64 (q : Q) : Prop :=
  exists m e : Z,
    (Z.abs m < 2 ^ 53)%Z /\ (-1074 <= e <= 971)%Z /\
    (q == inject_Z m * Qpower 2 e)%Q.

(** A column of float64 cells. *)
Definition is_float (c : column) : bool :=
  match c with
  | FloatCol _ => true
  | _ => false
  end.

(** ** More sample data *)

Module Fixtures.

(** Twelve moving buckets of one unit whose mean temperature goes from 1 to
    11, with a far value in the last bucket. *)
Definition spread_unit : DataFrame :=
  mkDataFrame 12 (list_to_map [
    ("locoid", IntCol (replicate 12 7%Z));
    ("temp_motor1_1_max", Sample.floats (replicate 12 90%Q));
    ("temp_motor1_1_rate", FloatCol (None :: replicate 11 (Some 0%Q)));
    ("current_u_std", Sample.floats (replicate 12 1%Q));
    ("battery_volt_min", Sample.floats (replicate 12 24%Q));
    ("avg_speed", Sample.floats (replicate 12 40%Q));
    ("pressure_tr1_min", Sample.floats (replicate 12 5%Q));
    ("pct_moving", Sample.floats (replicate 12 1%Q));
    ("temp_motor1_1_mean",
     Sample.floats [1; 2; 3; 4; 5; 6; 7; 8; 9; 10; 11; 1000]%Q)]).

(** A frame with the columns that the rules read and no row. *)
Definition no_rows : DataFrame :=
  mkDataFrame 0 (list_to_map [
    ("locoid", IntCol []);
    ("temp_motor1_1_max", FloatCol []);
    ("temp_motor1_1_rate", FloatCol []);
    ("current_u_std", FloatCol []);
    ("battery_volt_min", FloatCol []);
    ("avg_speed", FloatCol []);
    ("pressure_tr1_min", FloatCol [])]).

(** The fleet without the column [pct_moving]. *)
Definition fleet_without_pct_moving : DataFrame :=
  mkDataFrame 3 (delete "pct_moving" (columns Sample.fleet)).

(** The run on the sample configuration with the forest that marks no
    row. *)
Definition detect_calm (df : DataFrame) : result DataFrame :=
  detect_anomalies Sample.thresholds Sample.mad_threshold Sample.contamination
    [] unit Sample.scaler Sample.calm_forest tt df.

(** 51 moving buckets of one unit, without the column [current_u_mean] of
    the MAD list and of the configured forest list. *)
Definition dense_unit_without_current : DataFrame :=
  mkDataFrame 51 (delete "current_u_mean" (columns (Sample.one_unit 51 1000))).

End Fixtures.

(** ** feature_engineering.py: the aggregation query (lines 35-117)

    The raw table is the frame that [read_parquet] yields for the partitioned
    files; a timestamp is a number. Identifiers are matched as written. The
    result of an aggregate over a group is a SQL value: NULL when the group
    has no non-NULL value of the argument. *)

(** [SUM] of numbers *)
Definition sum_Q (l : list Q) : Q := foldr Qplus 0%Q l.

(** [AVG(x)] over the rows of a group *)
Definition sql_avg (xs : list (option Q)) : option Q :=
  match values xs with
  | [] => None
  | v => Some (sum_Q v / inject_Z (Z.of_nat (length v)))%Q
  end.

Definition Qmax_ (a b : Q) : Q := if Qle_bool a b then b else a.
Definition Qmin_ (a b : Q) : Q := if Qle_bool a b then a else b.

(** [MAX(x)] and [MIN(x)] *)
Definition sql_max (xs : list (option Q)) : option Q :=
  match values xs with
  | [] => None
  | x :: v => Some (foldl Qmax_ x v)
  end.

Definition sql_min (xs : list (option Q)) : option Q :=
  match values xs with
  | [] => None
  | x :: v => Some (foldl Qmin_ x v)
  end.

(** [CASE WHEN x > thr THEN 1 ELSE 0 END]: a NULL [x] takes the ELSE
    branch. *)
Definition case_gt (thr : Q) (x : option Q) : Z :=
  if gt_cell thr x then 1%Z else 0%Z.

(** The aggregates of the SELECT list. *)
Inductive aggregate : Type :=
| AVG (col : string)
| MAX (col : string)
| MIN (col : string)
| STDDEV (col : string)
| AVG_CASE_GT (col : string) (thr : Q)
    (* AVG(CASE WHEN col > thr THEN 1 ELSE 0 END) *)
| NOT_NULL_RATIO (col : string)
    (* COUNT(CASE WHEN col IS NOT NULL THEN 1 END) / COUNT( * )::FLOAT *)
| MAX_MINUS_MIN (col : string)
    (* MAX(col) - MIN(col) *)
| SUM_CASE_GT (col : string) (thr : Q)
    (* SUM(CASE WHEN col > thr THEN 1 ELSE 0 END) *)
| COUNT_STAR.

(** The SELECT list after [locoid] and [ts], in the order of the query. *)
Definition select_list : list (string * aggregate) :=
  [ ("avg_speed", AVG "gpsspeed");
    ("max_speed", MAX "gpsspeed");
    ("avg_speed_loco", AVG "xspeedloco");
    ("max_speed_loco", MAX "xspeedloco");
    ("pct_moving", AVG_CASE_GT "gpsspeed" 5);
    ("avg_lat", AVG "latitude");
    ("avg_lon", AVG "longitude");
    ("gps_availability", NOT_NULL_RATIO "latitude");
    ("temp_motor1_1_mean", AVG "xtempmotor1_1");
    ("temp_motor1_1_max", MAX "xtempmotor1_1");
    ("temp_motor1_1_std", STDDEV "xtempmotor1_1");
    ("temp_motor1_2_mean", AVG "xtempmotor1_2");
    ("temp_motor1_2_max", MAX "xtempmotor1_2");
    ("temp_motor2_1_mean", AVG "xtempmotor2_1");
    ("temp_motor2_1_max", MAX "xtempmotor2_1");
    ("temp_motor2_2_mean", AVG "xtempmotor2_2");
    ("temp_motor2_2_max", MAX "xtempmotor2_2");
    ("temp_motor3_1_mean", AVG "xtempmotor3_1");
    ("temp_motor3_1_max", MAX "xtempmotor3_1");
    ("temp_motor3_2_mean", AVG "xtempmotor3_2");
    ("temp_motor3_2_max", MAX "xtempmotor3_2");
    ("temp_trans1_1_mean", AVG "xatmp1oeltr_1");
    ("temp_trans1_1_max", MAX "xatmp1oeltr_1");
    ("temp_trans1_2_mean", AVG "xatmp1oeltr_2");
    ("temp_trans1_2_max", MAX "xatmp1oeltr_2");
    ("temp_trans2_1_mean", AVG "xatmp2oeltr_1");
    ("temp_trans2_1_max", MAX "xatmp2oeltr_1");
    ("temp_trans2_2_mean", AVG "xatmp2oeltr_2");
    ("temp_trans2_2_max", MAX "xatmp2oeltr_2");
    ("current_u_mean", AVG "xuprim_1");
    ("current_u_max", MAX "xuprim_1");
    ("current_u_std", STDDEV "xuprim_1");
    ("current_i_mean", AVG "xiprim_1");
    ("current_i_max", MAX "xiprim_1");
    ("current_bur_mean", AVG "xaibur");
    ("current_bur_max", MAX "xaibur");
    ("pressure_tr1_mean", AVG "xadrucktr_1");
    ("pressure_tr1_min", MIN "xadrucktr_1");
    ("pressure_tr1_std", STDDEV "xadrucktr_1");
    ("pressure_tr2_mean", AVG "xadrucktr_2");
    ("pressure_tr2_min", MIN "xadrucktr_2");
    ("pressure_sr1_mean", AVG "xadrucksr_1");
    ("pressure_sr2_mean", AVG "xadrucksr_2");
    ("pressure_brake_mean", AVG "xprautobkln");
    ("pressure_cv1_mean", AVG "xpressurecv_1");
    ("pressure_cv2_mean", AVG "xpressurecv_2");
    ("energy_consumption", MAX_MINUS_MIN "xenergkwh_plus");
    ("distance_km", MAX_MINUS_MIN "odometerK");
    ("battery_volt_mean", AVG "xu_battery");
    ("battery_volt_min", MIN "xu_battery");
    ("temp_be_loco_mean", AVG "xte_be_loco");
    ("fault_count", SUM_CASE_GT "faultnum" 0);
    ("max_faultnum", MAX "faultnum");
    ("sample_count", COUNT_STAR) ].

(** The column that an aggregate reads, if any. *)
Definition argument (a : aggregate) : option string :=
  match a with
  | AVG c | MAX c | MIN c | STDDEV c | AVG_CASE_GT c _ | NOT_NULL_RATIO c
  | MAX_MINUS_MIN c | SUM_CASE_GT c _ => Some c
  | COUNT_STAR => None
  end.

(** The rows of a frame at the given positions. *)
Definition gather {A : Type} (idx : list nat) (xs : list A) : list A :=
  omap (fun i => xs !! i) idx.

Definition gather_col (idx : list nat) (c : column) : column :=
  match c with
  | FloatCol xs => FloatCol (gather idx xs)
  | IntCol xs => IntCol (gather idx xs)
  | StrCol xs => StrCol (gather idx xs)
  end.

(** The order of [ORDER BY locoid] (ascending, NULLs last): numbers by
    value, strings by code. *)
Definition key_before (a b : key) : bool :=
  match a, b with
  | KNum x, KNum y => Qltb x y
  | KStr s, KStr t => String.ltb s t
  | KNum _, KStr _ => true
  | KStr _, KNum _ => false
  | KNaN, _ => false
  | _, KNaN => true
  end.

(** A group of the query: the unit and the bucket. *)
Definition group : Type := key * Q.

(** Two rows of one group ([GROUP BY locoid, ts]: the rows of a bucket
    without a unit form one group). *)
Definition same_group (g h : group) : bool :=
  same_key (fst g) (fst h) && Qeq_bool (snd g) (snd h).

(** The order of [ORDER BY locoid, ts]. *)
Definition group_before (g h : group) : bool :=
  key_before (fst g) (fst h)
  || (same_key (fst g) (fst h) && Qltb (snd g) (snd h)).

(** The groups in order of first appearance, each with the position of its
    first row. *)
Fixpoint distinct_groups (es : list (nat * group)) : list (nat * group) :=
  match es with
  | [] => []
  | e :: es' =>
      e :: List.filter (fun e' => negb (same_group (snd e) (snd e')))
             (distinct_groups es')
  end.

Fixpoint insert_group (e : nat * group) (l : list (nat * group))
  : list (nat * group) :=
  match l with
  | [] => [e]
  | h :: l' =>
      if group_before (snd e) (snd h) then e :: h :: l'
      else h :: insert_group e l'
  end.

Definition sort_groups (l : list (nat * group)) : list (nat * group) :=
  foldr insert_group [] l.

(** A list of groups in the order of the query: every earlier element is
    strictly before every later one. *)
Definition ascending (l : list (nat * group)) : Prop :=
  forall (i j : nat) e e', (i < j)%nat -> l !! i = Some e -> l !! j = Some e' ->
    group_before (snd e) (snd e') = true.

(** Groups that are pairwise different. *)
Inductive all_distinct : list (nat * group) -> Prop :=
| all_distinct_nil : all_distinct []
| all_distinct_cons e l :
    Forall (fun e' => same_group (snd e) (snd e') = false) l ->
    all_distinct l -> all_distinct (e :: l).

Section Aggregation.

(** DuckDB: [time_bucket(INTERVAL AGGREGATION_INTERVAL, t)], the start of the
    bucket of a timestamp, and [STDDEV_SAMP] of the non-NULL values of a
    group. *)
Variable time_bucket : Q -> Q.
Variable stddev_samp : list Q -> option Q.

(** The group of every raw row from position [i] on: a row without a
    timestamp is dropped by the WHERE clause. *)
Fixpoint entries_from (i : nat) (locoid : list key) (devicetime : list (option Q))
  : list (nat * group) :=
  match locoid, devicetime with
  | k :: locoid', t :: devicetime' =>
      match t with
      | Some t => (i, (k, time_bucket t)) :: entries_from (S i) locoid' devicetime'
      | None => entries_from (S i) locoid' devicetime'
      end
  | _, _ => []
  end.

(** The rows of a group, as a mask over the raw rows. *)
Definition group_mask (locoid : list key) (devicetime : list (option Q))
  (g : group) : list bool :=
  zip_with (fun k t => match t with
                       | Some t => same_group (k, time_bucket t) g
                       | None => false
                       end) locoid devicetime.

(** One aggregate over one group, as a nullable number. *)
Definition aggregate_of (a : aggregate) (xs : list (option Q)) : option Q :=
  match a with
  | AVG _ => sql_avg xs
  | MAX _ => sql_max xs
  | MIN _ => sql_min xs
  | STDDEV _ => stddev_samp (values xs)
  | AVG_CASE_GT _ thr =>
      sql_avg (map (fun x => Some (inject_Z (case_gt thr x))) xs)
  | NOT_NULL_RATIO _ =>
      match xs with
      | [] => None
      | _ => Some (inject_Z (Z.of_nat (length (values xs)))
                   / inject_Z (Z.of_nat (length xs)))%Q
      end
  | MAX_MINUS_MIN _ => sub_null (sql_max xs) (sql_min xs)
  | SUM_CASE_GT _ thr => Some (inject_Z (fold_right Z.add 0%Z (map (case_gt thr) xs)))
  | COUNT_STAR => Some (inject_Z (Z.of_nat (length xs)))
  end.

(** A column of the result: the aggregate over each group. [COUNT] and
    [SUM] of integers give integers. *)
Definition aggregate_column (raw : DataFrame) (masks : list (list bool))
  (a : aggregate) : result column :=
  match a with
  | COUNT_STAR =>
      Ok (IntCol (map (fun m => Z.of_nat (length (List.filter id m))) masks))
  | SUM_CASE_GT col thr =>
      x ← (c ← read_column raw col; as_float c);
      Ok (IntCol (map (fun m => fold_right Z.add 0%Z
                                  (map (case_gt thr) (select m x))) masks))
  | AVG col | MAX col | MIN col | STDDEV col | AVG_CASE_GT col _
  | NOT_NULL_RATIO col | MAX_MINUS_MIN col =>
      x ← (c ← read_column raw col; as_float c);
      Ok (FloatCol (map (fun m => aggregate_of a (select m x)) masks))
  end.

(** [CREATE TABLE features_1min AS SELECT ... GROUP BY locoid, ts
    ORDER BY locoid, ts] *)
Definition aggregate_features (raw : DataFrame) : result DataFrame :=
  locoid ← read_column raw "locoid";
  devicetime ← (c ← read_column raw "devicetime"; as_float c);
  let groups :=
    sort_groups (distinct_groups (entries_from 0 (keys_of locoid) devicetime)) in
  let masks := map (fun e => group_mask (keys_of locoid) devicetime (snd e))
                   groups in
  cols ← traverse (fun '(name, a) => c ← aggregate_column raw masks a;
                                     Ok (name, c)) select_list;
  Ok (mkDataFrame (length groups)
        (<["locoid" := gather_col (map fst groups) locoid]>
           (<["ts" := FloatCol (map (fun e => Some (snd (snd e))) groups)]>
              (list_to_map cols)))).

(** [create_aggregated_features], from the raw table to [features_final]:
    the aggregation query, then the derived-feature query. *)
Definition features_final (raw : DataFrame) : result DataFrame :=
  features_1min ← aggregate_features raw;
  derived_features features_1min.

End Aggregation.

(** The columns of the raw table that the aggregation query reads. *)
Definition input_columns : list string :=
  "locoid" :: "devicetime" :: omap (fun item => argument (snd item)) select_list.

(** DuckDB matches identifiers without regard to case: two spellings of one
    identifier. *)
Definition same_identifier (a b : string) : bool :=
  String.eqb (upper a) (upper b).

(** ** A sample raw table *)

Module RawSample.

(** Buckets of one minute over timestamps in seconds. *)
Definition minute (t : Q) : Q :=
  inject_Z (60 * ((Qnum t / Z.pos (Qden t)) / 60)).

(** A stand-in for [STDDEV_SAMP]: NULL for fewer than two values. *)
Definition flat_stddev (l : list Q) : option Q :=
  match l with
  | [] | [_] => None
  | _ => Some 0%Q
  end.

(** Six raw rows of two units: unit 7 at 130 s, 65 s and 70 s, unit 3 at
    10 s and 50 s, and a row of unit 7 without a timestamp. The
    measurements that are not listed are 1 in every row. *)
Definition raw_log : DataFrame :=
  mkDataFrame 6
    (<["locoid" := IntCol [7; 7; 7; 3; 7; 3]%Z]>
    (<["devicetime" :=
         FloatCol [Some 130; Some 65; Some 70; Some 10; None; Some 50]%Q]>
    (<["gpsspeed" := Sample.floats [40; 0; 20; 3; 9; 8]%Q]>
    (<["latitude" :=
         FloatCol [Some 48; None; Some 48; None; Some 48; None]%Q]>
    (<["xtempmotor1_1" := Sample.floats [90; 60; 70; 50; 55; 52]%Q]>
    (<["xenergkwh_plus" := Sample.floats [105; 100; 103; 10; 104; 12]%Q]>
    (<["odometerK" := Sample.floats [9; 5; 7; 1; 8; 1]%Q]>
    (<["faultnum" := IntCol [0; 3; 0; 0; 0; 0]%Z]>
       (list_to_map
          (map (fun name => (name, Sample.floats (replicate 6 1%Q)))
               input_columns)))))))))).

(** The raw table without the odometer. *)
Definition raw_log_without_odometer : DataFrame :=
  mkDataFrame 6 (delete "odometerK" (columns raw_log)).

(** 51 raw rows of unit 7, one per minute, all moving. *)
Definition long_log : DataFrame :=
  mkDataFrame 51
    (<["locoid" := IntCol (replicate 51 7%Z)]>
    (<["devicetime" :=
         FloatCol (map (fun i => Some (inject_Z (60 * Z.of_nat i))) (seq 0 51))]>
    (<["gpsspeed" := Sample.floats (replicate 51 40%Q)]>
       (list_to_map
          (map (fun name => (name, Sample.floats (replicate 51 1%Q)))
               input_columns))))).

Definition long_table : DataFrame :=
  Sample.returned (features_final minute flat_stddev long_log).

(** The feature tables of the sample. *)
Definition minute_table : DataFrame :=
  Sample.returned (aggregate_features minute flat_stddev raw_log).

Definition final_table : DataFrame :=
  Sample.returned (features_final minute flat_stddev raw_log).

End RawSample.

(** * Properties *)

(** ** Results *)

Lemma bind_Ok {A B : Type} (r : result A) (k : A -> result B) (b : B) :
  (r ≫= k) = Ok b -> exists a, r = Ok a /\ k a = Ok b.
Proof. destruct r as [a|e]; simpl; [eauto | discriminate]. Qed.

Lemma Ok_inj {A : Type} (a b : A) : Ok a = Ok b -> a = b.
Proof. intros [= ->]. reflexivity. Qed.

Lemma bind_Err {A B : Type} (r : result A) (k : A -> result B) (e : error) :
  r = Err e -> (r ≫= k) = Err e.
Proof. intros ->. reflexivity. Qed.

Tactic Notation "inv_bind" hyp(H) :=
  let a := fresh "a" in
  let Ha := fresh "Hread" in
  apply bind_Ok in H; destruct H as (a & Ha & H).

Tactic Notation "inv_bind" hyp(H) "as" ident(a) ident(Ha) :=
  apply bind_Ok in H; destruct H as (a & Ha & H).

(** ** Masks *)

Section Masks.
Context {A : Type}.
Implicit Types (mask : list bool) (xs : list A).

Lemma select_nil_r mask : select mask (@nil A) = [].
Proof. destruct mask; reflexivity. Qed.

Lemma select_map {B : Type} (f : A -> B) mask xs :
  select mask (map f xs) = map f (select mask xs).
Proof.
  revert xs. induction mask as [|b mask IH]; intros [|x xs]; simpl; trivial.
  destruct b; simpl; rewrite IH; reflexivity.
Qed.

Lemma select_length_le mask xs : (length (select mask xs) <= length xs)%nat.
Proof.
  revert xs. induction mask as [|b mask IH]; intros [|x xs]; simpl; try lia.
  specialize (IH xs). destruct b; simpl; lia.
Qed.

(** What is selected was there, under a true mask bit. *)
Lemma elem_of_select mask xs (a : A) :
  a ∈ select mask xs -> exists j, mask !! j = Some true /\ xs !! j = Some a.
Proof.
  revert xs. induction mask as [|b mask IH]; intros [|x xs]; simpl;
    try (intros H; inversion H; fail).
  destruct b.
  - intros [->|H]%elem_of_cons.
    + exists 0%nat. split; reflexivity.
    + destruct (IH _ H) as (j & ? & ?). exists (S j). split; assumption.
  - intros H. destruct (IH _ H) as (j & ? & ?). exists (S j). split; assumption.
Qed.

Lemma select_elem_of mask xs (a : A) j :
  mask !! j = Some true -> xs !! j = Some a -> a ∈ select mask xs.
Proof.
  revert xs j. induction mask as [|b mask IH]; intros [|x xs] [|j]; simpl;
    try discriminate.
  - intros [= ->] [= ->]. left.
  - intros Hm Hx. destruct b; [right|]; eapply IH; eassumption.
Qed.

(** Selecting twice is selecting once with the conjunction. *)
Lemma select_select {B : Type} (g : B -> bool) mask (ys : list B) xs :
  length ys = length mask ->
  select (map g (select mask ys)) (select mask xs)
  = select (zip_with (fun (b : bool) y => b && g y) mask ys) xs.
Proof.
  revert ys xs. induction mask as [|b mask IH]; intros [|y ys] xs; simpl;
    try discriminate; trivial.
  intros [= Hlen]. destruct xs as [|x xs].
  - destruct b; simpl; [destruct (g y); simpl|]; rewrite ?select_nil_r;
      reflexivity.
  - destruct b; simpl; [|apply IH; assumption].
    destruct (g y); rewrite IH by assumption; reflexivity.
Qed.

End Masks.

Lemma align_length mask sub : length (align mask sub) = length mask.
Proof.
  revert sub. induction mask as [|[] mask IH]; intros sub; simpl; trivial.
  - destruct sub; simpl; rewrite IH; reflexivity.
  - rewrite IH. reflexivity.
Qed.

(** A mask computed row by row on the selection, aligned back. *)
Lemma align_select_lookup {A : Type} (f : A -> bool) mask (xs : list A) i b x :
  mask !! i = Some b -> xs !! i = Some x ->
  align mask (map f (select mask xs)) !! i = Some (b && f x).
Proof.
  revert xs i. induction mask as [|c mask IH]; intros [|y xs] [|i]; simpl;
    try discriminate.
  - intros [= ->] [= ->]. destruct b; reflexivity.
  - intros Hm Hx. destruct c; simpl; apply IH; assumption.
Qed.

Lemma loc_set_length mask v xs :
  length mask = length xs -> length (loc_set mask v xs) = length xs.
Proof. intros H. unfold loc_set. rewrite length_zip_with. lia. Qed.

Lemma loc_append_length mask s xs :
  length mask = length xs -> length (loc_append mask s xs) = length xs.
Proof. intros H. unfold loc_append. rewrite length_zip_with. lia. Qed.

Lemma loc_set_lookup (mask : list bool) v (xs : list Z) (i : nat) (b : bool) x :
  mask !! i = Some b -> xs !! i = Some x ->
  loc_set mask v xs !! i = Some (if b then v else x).
Proof.
  intros Hm Hx. unfold loc_set. rewrite lookup_zip_with, Hm. simpl.
  rewrite Hx. reflexivity.
Qed.

Lemma loc_append_lookup (mask : list bool) s (xs : list string) (i : nat)
  (b : bool) x :
  mask !! i = Some b -> xs !! i = Some x ->
  loc_append mask s xs !! i = Some (if b then x +:+ s else x).
Proof.
  intros Hm Hx. unfold loc_append. rewrite lookup_zip_with, Hm. simpl.
  rewrite Hx. reflexivity.
Qed.

Lemma labels_mask_length n labels : length (labels_mask n labels) = n.
Proof. unfold labels_mask. rewrite length_map, length_seq. reflexivity. Qed.

Lemma labels_mask_lookup n labels i :
  (i < n)%nat -> labels_mask n labels !! i = Some (bool_decide (i ∈ labels)).
Proof.
  intros Hi. unfold labels_mask. rewrite list_lookup_fmap.
  rewrite lookup_seq_lt by assumption. reflexivity.
Qed.

(** ** Reading the working frame *)

Lemma view_rest (w : frame) (name : string) :
  name <> "anomaly_rule" -> name <> "anomaly_mad" -> name <> "anomaly_ml" ->
  name <> "anomaly_types" -> view w !! name = rest w !! name.
Proof.
  intros. unfold view. rewrite !lookup_insert_ne by congruence. reflexivity.
Qed.

Lemma as_float_length c x : as_float c = Ok x -> length x = col_length c.
Proof.
  destruct c; simpl; intros [= <-]; rewrite ?length_map; reflexivity.
Qed.

Lemma numeric_rest (w : frame) (name : string) x :
  name <> "anomaly_rule" -> name <> "anomaly_mad" -> name <> "anomaly_ml" ->
  name <> "anomaly_types" ->
  numeric w name = Ok x ->
  exists c, rest w !! name = Some c /\ as_float c = Ok x.
Proof.
  intros ? ? ? ? H. unfold numeric, get in H. rewrite view_rest in H by assumption.
  destruct (rest w !! name) as [c|]; simpl in H; [eauto | discriminate].
Qed.

Lemma gt_scalar_lookup xs thr (i : nat) :
  (i < length xs)%nat ->
  gt_scalar xs thr !! i = Some (gt_cell thr (default None (xs !! i))).
Proof.
  intros Hi. unfold gt_scalar. rewrite list_lookup_fmap.
  destruct (lookup_lt_is_Some_2 xs i Hi) as [x ->]. reflexivity.
Qed.

Lemma lt_scalar_lookup xs thr (i : nat) :
  (i < length xs)%nat ->
  lt_scalar xs thr !! i = Some (lt_cell thr (default None (xs !! i))).
Proof.
  intros Hi. unfold lt_scalar. rewrite list_lookup_fmap.
  destruct (lookup_lt_is_Some_2 xs i Hi) as [x ->]. reflexivity.
Qed.

Lemma abs_series_lookup xs (i : nat) :
  default None (abs_series xs !! i) = option_map Qabs (default None (xs !! i)).
Proof.
  unfold abs_series. rewrite list_lookup_fmap. destruct (xs !! i); reflexivity.
Qed.

Lemma float_values_eq df name c x :
  columns df !! name = Some c -> as_float c = Ok x -> float_values df name = x.
Proof. intros Hc Hx. unfold float_values. rewrite Hc, Hx. reflexivity. Qed.

Lemma unit_keys_eq df k :
  columns df !! "locoid" = Some k -> unit_keys df = keys_of k.
Proof. intros Hk. unfold unit_keys. rewrite Hk. reflexivity. Qed.


Lemma keys_of_length c : length (keys_of c) = col_length c.
Proof. destruct c; simpl; rewrite length_map; reflexivity. Qed.

Lemma group_diff_from_length seen rows :
  length (group_diff_from seen rows) = length rows.
Proof.
  revert seen. induction rows as [|[k x] rows IH]; intros seen; simpl; trivial.
  rewrite IH. reflexivity.
Qed.

Lemma group_diff_length ks xs :
  length ks = length xs -> length (group_diff ks xs) = length xs.
Proof.
  intros H. unfold group_diff. rewrite group_diff_from_length, length_zip. lia.
Qed.

Lemma abs_series_length xs : length (abs_series xs) = length xs.
Proof. apply length_map. Qed.

Lemma gt_scalar_length xs thr : length (gt_scalar xs thr) = length xs.
Proof. apply length_map. Qed.

Lemma lt_scalar_length xs thr : length (lt_scalar xs thr) = length xs.
Proof. apply length_map. Qed.

Lemma wf_column_length df name c x :
  wf_frame df -> columns df !! name = Some c -> as_float c = Ok x ->
  length x = nrows df.
Proof.
  intros Hwf Hc Hx. rewrite (as_float_length _ _ Hx). exact (Hwf _ _ Hc).
Qed.

Lemma loc_set_length_eq n mask v xs :
  length mask = n -> length xs = n -> length (loc_set mask v xs) = n.
Proof. intros. rewrite loc_set_length; congruence. Qed.

Lemma loc_append_length_eq n mask s xs :
  length mask = n -> length xs = n -> length (loc_append mask s xs) = n.
Proof. intros. rewrite loc_append_length; congruence. Qed.

Ltac solve_length :=
  repeat first
    [ assumption
    | apply loc_set_length_eq
    | apply loc_append_length_eq
    | apply length_replicate
    | rewrite gt_scalar_length
    | rewrite lt_scalar_length
    | rewrite abs_series_length ].

Section RuleLayer.
Variable T : Thresholds.

Lemma rule_layer_rows df w' :
  wf_frame df ->
  rule_layer T (init_columns df) = Ok w' ->
  index_len w' = nrows df /\
  anomaly_mad w' = replicate (nrows df) 0%Z /\
  anomaly_ml w' = replicate (nrows df) 0%Z /\
  (exists sc, rest w' = <["speed_change" := FloatCol sc]> (columns df)
              /\ length sc = nrows df) /\
  length (anomaly_rule w') = nrows df /\
  length (anomaly_types w') = nrows df /\
  forall i, (i < nrows df)%nat ->
    anomaly_rule w' !! i = Some (Z.b2z (existsb id (rule_bits T df i))) /\
    anomaly_types w' !! i
    = Some (join_tags (select (rule_bits T df i) rule_tags)).
Proof.
  intros Hwf H. unfold rule_layer in H.
  inv_bind H. apply numeric_rest in Hread as (c1 & Hc1 & Hx1); try discriminate.
  inv_bind H. apply numeric_rest in Hread as (c2 & Hc2 & Hx2); try discriminate.
  inv_bind H. apply numeric_rest in Hread as (c3 & Hc3 & Hx3); try discriminate.
  inv_bind H. apply numeric_rest in Hread as (c4 & Hc4 & Hx4); try discriminate.
  inv_bind H. unfold get in Hread. rewrite view_rest in Hread by discriminate.
  simpl in Hread.
  destruct (columns df !! "locoid") as [k|] eqn:Hk; [|discriminate].
  injection Hread as <-.
  inv_bind H. apply numeric_rest in Hread as (c5 & Hc5 & Hx5); try discriminate.
  inv_bind H. apply numeric_rest in Hread as (c6 & Hc6 & Hx6); try discriminate.
  inv_bind H. apply numeric_rest in Hread as (c7 & Hc7 & Hx7); try discriminate.
  simpl in Hc1, Hc2, Hc3, Hc4, Hc5, Hc6, Hc7.
  rewrite lookup_insert_eq in Hc6. injection Hc6 as <-. simpl in Hx6.
  injection Hx6 as <-.
  rewrite lookup_insert_ne in Hc7 by discriminate.
  injection H as <-. simpl.
  pose proof (wf_column_length _ _ _ _ Hwf Hc1 Hx1) as L1.
  pose proof (wf_column_length _ _ _ _ Hwf Hc2 Hx2) as L2.
  pose proof (wf_column_length _ _ _ _ Hwf Hc3 Hx3) as L3.
  pose proof (wf_column_length _ _ _ _ Hwf Hc4 Hx4) as L4.
  pose proof (wf_column_length _ _ _ _ Hwf Hc5 Hx5) as L5.
  pose proof (wf_column_length _ _ _ _ Hwf Hc7 Hx7) as L7.
  assert (L6 : length (abs_series (group_diff (keys_of k) a3)) = nrows df).
  { rewrite abs_series_length, group_diff_length; [assumption|].
    rewrite keys_of_length, (Hwf _ _ Hk). symmetry. assumption. }
  split_and!; try reflexivity.
  { eexists. split; [reflexivity|assumption]. }
  { rewrite abs_series_length in L6. solve_length. }
  { rewrite abs_series_length in L6. solve_length. }
  rewrite abs_series_length in L6.
  intros i Hi.
  assert (B1 := gt_scalar_lookup a (temp_motor_max T) i ltac:(lia)).
  assert (B2 := gt_scalar_lookup (abs_series a0) (temp_motor_rate_max T) i
                  ltac:(rewrite abs_series_length; lia)).
  assert (B3 := gt_scalar_lookup a1 (current_std_max T) i ltac:(lia)).
  assert (B4 := lt_scalar_lookup a2 (battery_min T) i ltac:(lia)).
  assert (B5 := gt_scalar_lookup (abs_series (group_diff (keys_of k) a3))
                  (speed_jump_max T) i
                  ltac:(rewrite abs_series_length; lia)).
  assert (B6 := lt_scalar_lookup a5 (pressure_min T) i ltac:(lia)).
  rewrite abs_series_lookup in B2.
  assert (Z0 : replicate (nrows df) 0%Z !! i = Some 0%Z)
    by (apply lookup_replicate_2; assumption).
  assert (S0 : replicate (nrows df) "" !! i = Some "")
    by (apply lookup_replicate_2; assumption).
  unfold rule_bits, temp_high, temp_rate_high, current_unstable, battery_low,
    speed_jump, pressure_low, speed_change_cell, float_cell.
  rewrite (float_values_eq _ _ _ _ Hc1 Hx1), (float_values_eq _ _ _ _ Hc2 Hx2),
    (float_values_eq _ _ _ _ Hc3 Hx3), (float_values_eq _ _ _ _ Hc4 Hx4),
    (float_values_eq _ _ _ _ Hc5 Hx5), (float_values_eq _ _ _ _ Hc7 Hx7),
    (unit_keys_eq _ _ Hk).
  split.
  - erewrite loc_set_lookup; [|eassumption|].
    2:{ erewrite loc_set_lookup; [|eassumption|].
        2:{ erewrite loc_set_lookup; [|eassumption|].
            2:{ erewrite loc_set_lookup; [|eassumption|].
                2:{ erewrite loc_set_lookup; [|eassumption|].
                    2:{ erewrite loc_set_lookup; [|eassumption|eassumption].
                        reflexivity. }
                    reflexivity. }
                reflexivity. }
            reflexivity. }
        reflexivity. }
    simpl.
    repeat match goal with
           | |- context [gt_cell ?t ?x] => destruct (gt_cell t x)
           | |- context [lt_cell ?t ?x] => destruct (lt_cell t x)
           end; reflexivity.
  - erewrite loc_append_lookup; [|eassumption|].
    2:{ erewrite loc_append_lookup; [|eassumption|].
        2:{ erewrite loc_append_lookup; [|eassumption|].
            2:{ erewrite loc_append_lookup; [|eassumption|].
                2:{ erewrite loc_append_lookup; [|eassumption|].
                    2:{ erewrite loc_append_lookup; [|eassumption|eassumption].
                        reflexivity. }
                    reflexivity. }
                reflexivity. }
            reflexivity. }
        reflexivity. }
    simpl.
    repeat match goal with
           | |- context [gt_cell ?t ?x] => destruct (gt_cell t x)
           | |- context [lt_cell ?t ?x] => destruct (lt_cell t x)
           end; reflexivity.
Qed.
End RuleLayer.

(** ** Units *)

Lemma key_eqb_sym a b : key_eqb a b = key_eqb b a.
Proof.
  destruct a as [x|s|], b as [y|t|]; simpl; trivial.
  - apply eq_true_iff_eq. rewrite !Qeq_bool_iff. split; intros H; symmetry; exact H.
  - apply String.eqb_sym.
Qed.

(** Rows of one unit compare alike with every key. *)
Lemma key_eqb_same a b c : key_eqb a b = true -> key_eqb c b = key_eqb c a.
Proof.
  destruct a as [x|s|], b as [y|t|]; simpl; try discriminate.
  - intros Hxy%Qeq_bool_iff. destruct c as [z| |]; simpl; trivial.
    apply eq_true_iff_eq. rewrite !Qeq_bool_iff. rewrite Hxy. reflexivity.
  - intros ->%String.eqb_eq. reflexivity.
Qed.

Lemma key_eqb_same_key a b : key_eqb a b = true -> same_key a b = true.
Proof. destruct a, b; simpl; trivial; discriminate. Qed.

(** A row belongs to at most one of several distinct units. *)
Lemma key_eqb_distinct a l l' :
  key_eqb a l = true -> same_key l l' = false -> key_eqb a l' = false.
Proof.
  intros Hl Hd. destruct (key_eqb a l') eqn:Hl'; trivial.
  assert (H : key_eqb l l' = true)
    by (rewrite (key_eqb_same _ _ l Hl'), key_eqb_sym; exact Hl).
  apply key_eqb_same_key in H. congruence.
Qed.

Lemma distinct_keys_filter f ks :
  distinct_keys ks -> distinct_keys (List.filter f ks).
Proof.
  induction 1 as [|k ks Hk Hd IH]; simpl; [constructor|].
  destruct (f k); [|assumption].
  constructor; [|assumption].
  rewrite Forall_forall in *. intros k' Hin. apply Hk.
  apply list_elem_of_In. apply list_elem_of_In in Hin.
  apply filter_In in Hin. tauto.
Qed.

Lemma unique_distinct ks : distinct_keys (unique ks).
Proof.
  induction ks as [|k ks IH]; simpl; constructor.
  - rewrite Forall_forall. intros k' Hin%list_elem_of_In.
    apply filter_In in Hin as [_ Hin]. apply negb_true_iff in Hin. exact Hin.
  - apply distinct_keys_filter, IH.
Qed.

(** ** Strings *)

Lemma string_app_nil_r (s : string) : s +:+ "" = s.
Proof.
  induction s as [|a s IH]; [reflexivity|].
  change (String a (s +:+ "") = String a s). rewrite IH. reflexivity.
Qed.

Lemma string_app_assoc (s t u : string) : s +:+ (t +:+ u) = (s +:+ t) +:+ u.
Proof.
  induction s as [|a s IH]; [reflexivity|].
  change (String a (s +:+ (t +:+ u)) = String a ((s +:+ t) +:+ u)).
  rewrite IH. reflexivity.
Qed.

(** ** The MAD layer *)

Lemma values_map_Some {A : Type} (g : A -> Q) (l : list A) :
  values (map (fun a => Some (g a)) l) = map g l.
Proof. induction l as [|a l IH]; simpl; [reflexivity|]. f_equal. exact IH. Qed.

Lemma as_float_select mask c x' :
  as_float (select_col mask c) = Ok x' ->
  exists x, as_float c = Ok x /\ x' = select mask x
            /\ notna_count (select_col mask c) = length (values x').
Proof.
  destruct c as [xs|zs|ss]; simpl; try discriminate; intros [= <-].
  - eexists. split_and!; reflexivity.
  - eexists. split_and!; [reflexivity|symmetry; apply select_map|].
    rewrite values_map_Some, length_map. reflexivity.
Qed.

Lemma loc_set_none v (xs : list Z) :
  loc_set (replicate (length xs) false) v xs = xs.
Proof. induction xs as [|x xs IH]; simpl; [reflexivity|]. f_equal. exact IH. Qed.

Lemma loc_append_none s (xs : list string) :
  loc_append (replicate (length xs) false) s xs = xs.
Proof. induction xs as [|x xs IH]; simpl; [reflexivity|]. f_equal. exact IH. Qed.

Lemma mark_mad_none tag w :
  wf_work w -> mark_mad (replicate (index_len w) false) tag w = w.
Proof.
  intros (_ & Hm & _ & Ht & _). destruct w as [n r m l t o]. unfold mark_mad.
  simpl in *. f_equal; [rewrite <- Hm; apply loc_set_none
                         |rewrite <- Ht; apply loc_append_none].
Qed.

Lemma mask_and_lookup_true (m1 m2 : list bool) (i : nat) :
  mask_and m1 m2 !! i = Some true -> m1 !! i = Some true /\ m2 !! i = Some true.
Proof.
  unfold mask_and. rewrite lookup_zip_with.
  destruct (m1 !! i) as [[]|], (m2 !! i) as [[]|]; simpl; intros [=]; auto.
Qed.

Lemma align_nil_lookup mask (i : nat) : align mask [] !! i <> Some true.
Proof.
  revert i. induction mask as [|[] mask IH]; intros [|i]; simpl;
    try discriminate; apply IH.
Qed.

(** A row marked by a mask that was computed on the selection is a selected
    row whose value passes the test. *)
Lemma align_select_true {A : Type} (f : A -> bool) mask (xs : list A) (i : nat) :
  align mask (map f (select mask xs)) !! i = Some true ->
  exists x, xs !! i = Some x /\ f x = true.
Proof.
  revert xs i. induction mask as [|c mask IH]; intros xs i; simpl.
  - destruct i; discriminate.
  - destruct xs as [|y xs].
    + destruct c; simpl; intros H; [|destruct i; [discriminate|]];
        exfalso; revert H; [apply (align_nil_lookup (true :: mask))
                           |apply align_nil_lookup].
    + destruct c, i as [|i]; simpl; try discriminate.
      * intros [= H]. eauto.
      * apply IH.
      * apply IH.
Qed.

Section MadLayer.
Variable MAD_THRESHOLD : Q.

(** One (unit, feature) pair either leaves the frame as it is or marks a set
    of rows of the unit, each of which passes the MAD test. *)
Lemma mad_feature_step loco_mask (w0 : frame) feature w w' :
  wf_work w -> length loco_mask = index_len w ->
  mad_feature MAD_THRESHOLD loco_mask (select_col loco_mask <$> view w0)
    feature w = Ok w' ->
  exists hit,
    length hit = index_len w /\
    w' = mark_mad hit ("MAD_" +:+ upper feature +:+ ";") w /\
    forall i, hit !! i = Some true ->
      loco_mask !! i = Some true /\
      exists c x, view w0 !! feature = Some c /\ as_float c = Ok x /\
                  mad_hit MAD_THRESHOLD (select loco_mask x)
                    (default None (x !! i)) = true.
Proof.
  intros Hwf Hlen H.
  assert (Hskip : w' = w -> exists hit,
    length hit = index_len w /\
    w' = mark_mad hit ("MAD_" +:+ upper feature +:+ ";") w /\
    forall i, hit !! i = Some true ->
      loco_mask !! i = Some true /\
      exists c x, view w0 !! feature = Some c /\ as_float c = Ok x /\
                  mad_hit MAD_THRESHOLD (select loco_mask x)
                    (default None (x !! i)) = true).
  { intros ->. exists (replicate (index_len w) false).
    split; [apply length_replicate|]. split; [symmetry; apply mark_mad_none, Hwf|].
    intros i [[=] _]%lookup_replicate. }
  unfold mad_feature in H.
  destruct (has_column w feature); [|simpl in H; apply Hskip; congruence].
  rewrite lookup_fmap in H.
  destruct (view w0 !! feature) as [c|] eqn:Hc; simpl in H; [|discriminate].
  destruct (10 <? notna_count (select_col loco_mask c))%nat eqn:Hcount;
    [|simpl in H; apply Hskip; congruence].
  inv_bind H. apply as_float_select in Hread as (x & Hx & -> & Hn).
  unfold calculate_mad in H. simpl in H.
  destruct (median (abs_series _)) as [m|] eqn:Hmad;
    [|simpl in H; apply Hskip; congruence].
  destruct (Qltb 0 m) eqn:Hm; [|simpl in H; apply Hskip; congruence].
  injection H as <-. clear Hskip.
  eexists. split; [|split; [reflexivity|]].
  - unfold mask_and. rewrite length_zip_with, align_length. lia.
  - intros i [Hi Ha]%mask_and_lookup_true. split; [assumption|].
    exists c, x. split; [reflexivity|]. split; [assumption|].
    unfold gt_scalar, abs_series, div_scalar, sub_scalar in Ha.
    rewrite !map_map in Ha.
    apply align_select_true in Ha as (xv & Hxv & Ha).
    rewrite Hxv. simpl. unfold mad_hit, calculate_mad.
    rewrite <- Hn, Hcount, Hmad, Hm. exact Ha.
Qed.


Lemma mark_mad_wf hit tag w :
  wf_work w -> length hit = index_len w -> wf_work (mark_mad hit tag w).
Proof.
  intros (Hr & Hm & Hl & Ht & Ho) Hh. unfold wf_work. simpl.
  split_and!; try assumption.
  - apply loc_set_length_eq; assumption.
  - apply loc_append_length_eq; assumption.
Qed.

Lemma view_mark_mad hit tag w name :
  name <> "anomaly_mad" -> name <> "anomaly_types" ->
  view (mark_mad hit tag w) !! name = view w !! name.
Proof.
  intros H1 H2. unfold view. simpl.
  rewrite !(lookup_insert_ne _ "anomaly_types") by congruence.
  destruct (decide (name = "anomaly_ml")) as [->|];
    [rewrite !lookup_insert_eq; reflexivity|].
  rewrite !(lookup_insert_ne _ "anomaly_ml") by congruence.
  rewrite !(lookup_insert_ne _ "anomaly_mad") by congruence.
  reflexivity.
Qed.

(** The inner loop over the features, for one unit. Row by row: the bit of a
    feature says whether the pair marked the row. *)
Lemma mad_features_rows loco_mask w0 features w w' :
  wf_work w -> length loco_mask = index_len w ->
  foldM (mad_feature MAD_THRESHOLD loco_mask (select_col loco_mask <$> view w0))
        features w = Ok w' ->
  wf_work w' /\ index_len w' = index_len w /\ rest w' = rest w /\
  anomaly_rule w' = anomaly_rule w /\ anomaly_ml w' = anomaly_ml w /\
  forall (i : nat) m t,
    anomaly_mad w !! i = Some m -> anomaly_types w !! i = Some t ->
    exists bs,
      length bs = length features /\
      anomaly_mad w' !! i = Some (if existsb id bs then 1%Z else m) /\
      anomaly_types w' !! i
      = Some (t +:+ join_tags (select bs (map mad_tag features))) /\
      forall (j : nat) f, bs !! j = Some true -> features !! j = Some f ->
        loco_mask !! i = Some true /\
        exists c x, view w0 !! f = Some c /\ as_float c = Ok x /\
                    mad_hit MAD_THRESHOLD (select loco_mask x)
                      (default None (x !! i)) = true.
Proof.
  revert w. induction features as [|f features IH]; intros w Hwf Hlen H.
  - injection H as <-. split_and!; trivial.
    intros i m t Hm Ht. exists []. split_and!; trivial.
    + rewrite Ht. simpl. rewrite string_app_nil_r. reflexivity.
    + intros j f' [=].
  - simpl in H. inv_bind H. rename a into w1.
    apply mad_feature_step in Hread as (hit & Hhit & -> & Hfire); try assumption.
    apply IH in H as (Hwf' & Hn & Hrest & Hrule & Hml & Hrows);
      [|apply mark_mad_wf; assumption|assumption].
    split_and!; trivial.
    intros i m t Hm Ht.
    assert (Hb : is_Some (hit !! i)).
    { apply lookup_lt_is_Some. rewrite Hhit. destruct Hwf as (_ & <- & _).
      eapply lookup_lt_Some, Hm. }
    destruct Hb as [b Hb].
    destruct (Hrows i (if b then 1%Z else m)
                (if b then t +:+ ("MAD_" +:+ upper f +:+ ";") else t))
      as (bs & Hbs & Hm' & Ht' & Hfires).
    { simpl. apply loc_set_lookup; assumption. }
    { simpl. apply loc_append_lookup; assumption. }
    exists (b :: bs). split_and!.
    + simpl. congruence.
    + rewrite Hm'. simpl. destruct b, (existsb id bs); reflexivity.
    + rewrite Ht'. f_equal. destruct b; simpl; [|reflexivity].
      unfold mad_tag. rewrite <- !string_app_assoc. reflexivity.
    + intros [|j] f'; simpl.
      * intros [= ->] [= <-]. apply Hfire, Hb.
      * apply Hfires.
Qed.


Lemma select_sublist {A : Type} (bs : list bool) (l : list A) :
  select bs l `sublist_of` l.
Proof.
  revert l. induction bs as [|b bs IH]; intros [|x l]; simpl;
    try apply sublist_nil_l.
  destruct b; [apply sublist_skip|apply sublist_cons]; apply IH.
Qed.

Lemma select_none {A : Type} (bs : list bool) (l : list A) :
  existsb id bs = false -> select bs l = [].
Proof.
  revert l. induction bs as [|b bs IH]; intros [|x l]; simpl; trivial.
  destruct b; simpl; [discriminate|]. apply IH.
Qed.

Lemma existsb_true_lookup (bs : list bool) :
  existsb id bs = true -> exists j : nat, bs !! j = Some true.
Proof.
  induction bs as [|b bs IH]; simpl; [discriminate|].
  destruct b; simpl.
  - exists 0%nat. reflexivity.
  - intros H. destruct (IH H) as [j Hj]. exists (S j). exact Hj.
Qed.

(** The tags of the MAD features are pairwise different. *)
Lemma mad_tag_lookup (j : nat) f f' :
  f ∈ mad_features -> mad_features !! j = Some f' -> mad_tag f' = mad_tag f ->
  f' = f.
Proof.
  intros Hf Hj. unfold mad_features in *.
  repeat (apply elem_of_cons in Hf as [->|Hf]); [..|inversion Hf];
    destruct j as [|[|[|j]]]; simpl in Hj; try discriminate;
    injection Hj as <-; trivial; vm_compute; discriminate.
Qed.

Lemma mad_inv_start df w0 locos :
  wf_work w0 -> anomaly_mad w0 = replicate (index_len w0) 0%Z ->
  mad_inv MAD_THRESHOLD df w0 w0 locos.
Proof.
  intros Hwf Hmad. unfold mad_inv. split_and!; trivial.
  intros i t Ht. exists [], 0%Z.
  split; [|split; [|split; [|split; [|split]]]].
  - rewrite Ht. simpl. rewrite string_app_nil_r. reflexivity.
  - apply sublist_nil_l.
  - rewrite Hmad. apply lookup_replicate_2.
    destruct Hwf as (_ & _ & _ & <- & _). eapply lookup_lt_Some, Ht.
  - left. split; reflexivity.
  - intros f _ Hin. inversion Hin.
  - reflexivity.
Qed.

Lemma mad_unit_inv df w0 l ls w w1 :
  (forall f, f ∈ "locoid" :: mad_features -> rest w0 !! f = columns df !! f) ->
  distinct_keys (l :: ls) ->
  mad_inv MAD_THRESHOLD df w0 w (l :: ls) ->
  mad_unit MAD_THRESHOLD l w = Ok w1 ->
  mad_inv MAD_THRESHOLD df w0 w1 ls.
Proof.
  intros Hlink Hdist (Hwf & Hn & Hrest & Hrule & Hml & Hrows) H.
  unfold mad_unit in H. inv_bind H. rename a into loco_mask.
  unfold loco_mask_of, get in Hread. rewrite view_rest in Hread by discriminate.
  rewrite Hrest, Hlink in Hread by (apply elem_of_cons; left; reflexivity).
  destruct (columns df !! "locoid") as [k|] eqn:Hk; [|discriminate].
  simpl in Hread. injection Hread as <-.
  assert (Hlen : length (map (fun k' => key_eqb k' l) (keys_of k)) = index_len w).
  { rewrite length_map, keys_of_length.
    destruct Hwf as (_ & _ & _ & _ & Ho). apply (Ho "locoid").
    rewrite Hrest, Hlink by (apply elem_of_cons; left; reflexivity). assumption. }
  apply mad_features_rows in H
    as (Hwf1 & Hn1 & Hrest1 & Hrule1 & Hml1 & Hrows1); try assumption.
  unfold mad_inv. split_and!; try congruence.
  intros i t Ht.
  destruct (Hrows i t Ht) as (M & m & HtM & Hsub & Hm & Hm01 & Hfire & Hrem).
  destruct (Hrows1 i m _ Hm HtM) as (bs & Hbs & Hm1 & Ht1 & Hfire1).
  destruct (existsb id bs) eqn:Hany; rewrite ?Hany in Hm1.
  - (* the row belongs to this unit *)
    destruct (existsb_true_lookup _ Hany) as (j0 & Hj0).
    assert (is_Some (mad_features !! j0)) as [f0 Hf0].
    { apply lookup_lt_is_Some. rewrite <- Hbs. eapply lookup_lt_Some, Hj0. }
    destruct (Hfire1 j0 f0 Hj0 Hf0) as (Hmask & _).
    assert (Hunit : key_eqb (unit_of df i) l = true).
    { rewrite list_lookup_fmap in Hmask. unfold unit_of.
      rewrite (unit_keys_eq _ _ Hk).
      destruct (keys_of k !! i); simpl in *; congruence. }
    assert (HM : M = []) by (apply Hrem; exists l; split; [apply elem_of_cons; left; reflexivity|assumption]).
    subst M. simpl in Ht1. rewrite string_app_nil_r in Ht1.
    exists (select bs mad_tags), 1%Z.
    split; [assumption|]. split; [apply select_sublist|].
    split; [assumption|]. split.
    { right. split; [|reflexivity]. intros Hnil.
      assert (is_Some (mad_tags !! j0)) as [tg Htg].
      { unfold mad_tags. rewrite list_lookup_fmap, Hf0. eauto. }
      pose proof (select_elem_of _ _ _ _ Hj0 Htg) as Hin.
      rewrite Hnil in Hin. inversion Hin. }
    split.
    + intros f Hf Hin. apply elem_of_select in Hin as (j & Hj & Hjf).
      unfold mad_tags in Hjf. rewrite list_lookup_fmap in Hjf.
      destruct (mad_features !! j) as [f'|] eqn:Hf'; [|discriminate].
      simpl in Hjf. assert (Htag : mad_tag f' = mad_tag f) by congruence.
      assert (f' = f) as -> by (eapply mad_tag_lookup; eassumption).
      destruct (Hfire1 j f Hj Hf') as (_ & c & x & Hc & Hx & Hhit).
      rewrite view_rest in Hc.
      2-5: (intros ->; unfold mad_features in Hf;
            repeat (apply elem_of_cons in Hf as [Hf|Hf]; [discriminate|]);
            inversion Hf).
      rewrite Hrest, Hlink in Hc by (apply elem_of_cons; right; assumption).
      unfold unit_values, float_cell, unit_mask.
      rewrite (float_values_eq _ _ _ _ Hc Hx), (unit_keys_eq _ _ Hk).
      erewrite map_ext; [exact Hhit|].
      intros k'. simpl. symmetry. apply key_eqb_same. assumption.
    + intros (l' & Hl' & Hunit'). exfalso.
      inversion Hdist as [|? ? Hall _]; subst.
      rewrite Forall_forall in Hall.
      rewrite (key_eqb_distinct _ _ _ Hunit (Hall _ Hl')) in Hunit'.
      discriminate.
  - (* the row is left as it was *)
    rewrite (select_none _ _ Hany) in Ht1. simpl in Ht1.
    rewrite string_app_nil_r in Ht1.
    exists M, m.
    split; [assumption|]. do 4 (split; [assumption|]).
    intros (l' & Hl' & Hunit'). apply Hrem. exists l'.
    split; [apply elem_of_cons; right|]; assumption.
Qed.

Lemma mad_units_inv df w0 locos w w' :
  (forall f, f ∈ "locoid" :: mad_features -> rest w0 !! f = columns df !! f) ->
  distinct_keys locos ->
  mad_inv MAD_THRESHOLD df w0 w locos ->
  foldM (mad_unit MAD_THRESHOLD) locos w = Ok w' ->
  mad_inv MAD_THRESHOLD df w0 w' [].
Proof.
  intros Hlink. revert w. induction locos as [|l ls IH]; intros w Hdist Hinv H.
  - injection H as <-. assumption.
  - simpl in H. inv_bind H. eapply IH; [|eapply mad_unit_inv; eassumption|eassumption].
    inversion Hdist; assumption.
Qed.

End MadLayer.

(** ** The isolation-forest layer *)

Lemma select_seq_filter (P : nat -> bool) (mask : list bool) (s n : nat) :
  length mask = n ->
  (forall j : nat, (j < n)%nat -> mask !! j = Some (P (s + j)%nat)) ->
  select mask (seq s n) = List.filter P (seq s n).
Proof.
  revert mask s. induction n as [|n IH]; intros [|b mask] s Hlen HP;
    simpl in *; try discriminate; trivial.
  injection Hlen as Hlen.
  assert (Hb := HP 0%nat ltac:(lia)). simpl in Hb. injection Hb as Hb.
  rewrite Nat.add_0_r in Hb.
  rewrite (IH mask (S s) Hlen).
  - rewrite Hb. destruct (P s); reflexivity.
  - intros j Hj. specialize (HP (S j) ltac:(lia)). simpl in HP. rewrite HP.
    f_equal. f_equal. lia.
Qed.

Lemma mark_ml_wf labels tag w : wf_work w -> wf_work (mark_ml labels tag w).
Proof.
  intros (Hr & Hm & Hl & Ht & Ho). unfold wf_work. simpl.
  split_and!; try assumption.
  - apply loc_set_length_eq; [apply labels_mask_length|assumption].
  - apply loc_append_length_eq; [apply labels_mask_length|assumption].
Qed.

Section MlLayer.
Variable ISOLATION_FOREST_CONTAMINATION : Q.
Variable env : Type.
Variable fit_transform : list (list (option Q)) -> result (list (list (option Q))).
Variable fit_predict :
  env -> option Z -> Q -> list (list (option Q)) -> result (list Z).

(** The moving rows of a unit, as the layer computes them. *)
Lemma ml_index_moving_rows df w k pct l :
  index_len w = nrows df ->
  columns df !! "locoid" = Some k -> columns df !! "pct_moving" = Some pct ->
  forall x, as_float pct = Ok x ->
  length x = nrows df -> col_length k = nrows df ->
  let loco_mask := map (fun k' => key_eqb k' l) (keys_of k) in
  select (gt_scalar (select loco_mask x) (1 # 2))
         (select loco_mask (seq 0 (index_len w)))
  = moving_rows df l.
Proof.
  intros Hn Hk Hpct x Hx Hlx Hlk loco_mask. unfold gt_scalar.
  rewrite select_select by (unfold loco_mask; rewrite length_map, keys_of_length; lia).
  unfold moving_rows. rewrite Hn. apply select_seq_filter.
  - rewrite length_zip_with. unfold loco_mask.
    rewrite length_map, keys_of_length. lia.
  - intros j Hj. simpl. rewrite lookup_zip_with. unfold loco_mask.
    rewrite list_lookup_fmap. unfold unit_of, float_cell.
    rewrite (unit_keys_eq _ _ Hk), (float_values_eq _ _ _ _ Hpct Hx).
    destruct (lookup_lt_is_Some_2 (keys_of k) j) as [kj ->];
      [rewrite keys_of_length; lia|].
    destruct (lookup_lt_is_Some_2 x j) as [xj ->]; [lia|]. reflexivity.
Qed.

Lemma moving_rows_same df a l :
  key_eqb a l = true -> moving_rows df l = moving_rows df a.
Proof.
  intros H. unfold moving_rows. apply filter_ext. intros j.
  rewrite (key_eqb_same _ _ (unit_of df j) H). reflexivity.
Qed.

Lemma ml_inv_start df w0 locos :
  wf_work w0 -> anomaly_ml w0 = replicate (index_len w0) 0%Z ->
  ml_inv df w0 w0 locos.
Proof.
  intros Hwf Hml. unfold ml_inv. split_and!; trivial.
  intros i t Ht. exists [], 0%Z. split; [|split; [|split]].
  - rewrite Ht. simpl. rewrite string_app_nil_r. reflexivity.
  - rewrite Hml. apply lookup_replicate_2.
    destruct Hwf as (_ & _ & _ & <- & _). eapply lookup_lt_Some, Ht.
  - left. split; reflexivity.
  - reflexivity.
Qed.

Lemma ml_unit_inv e ml_features df w0 l ls w w1 :
  index_len w0 = nrows df -> wf_frame df ->
  (forall f, f ∈ ["locoid"; "pct_moving"] -> rest w0 !! f = columns df !! f) ->
  distinct_keys (l :: ls) ->
  ml_inv df w0 w (l :: ls) ->
  ml_unit ISOLATION_FOREST_CONTAMINATION env fit_transform fit_predict e
    ml_features l w = Ok w1 ->
  ml_inv df w0 w1 ls.
Proof.
  intros Hn0 Hdf Hlink Hdist (Hwf & Hn & Hrest & Hrule & Hmad & Hrows) H.
  assert (Hskip : w1 = w -> ml_inv df w0 w1 ls).
  { intros ->. unfold ml_inv. split_and!; trivial.
    intros i t Ht. destruct (Hrows i t Ht) as (L & m & HtL & Hm & Hcase & Hrem).
    exists L, m. split_and!; trivial.
    intros (l' & Hl' & Hu). apply Hrem. exists l'.
    split; [apply elem_of_cons; right|]; assumption. }
  unfold ml_unit in H. inv_bind H. rename a into loco_mask.
  unfold loco_mask_of, get in Hread. rewrite view_rest in Hread by discriminate.
  rewrite Hrest, Hlink in Hread by (apply elem_of_cons; left; reflexivity).
  destruct (columns df !! "locoid") as [k|] eqn:Hk; [|discriminate].
  simpl in Hread. injection Hread as <-.
  inv_bind H. rename a into x.
  apply numeric_rest in Hread as (pct & Hpct & Hx); try discriminate.
  rewrite Hrest, Hlink in Hpct
    by (apply elem_of_cons; right; apply elem_of_cons; left; reflexivity).
  assert (Hlx : length x = nrows df) by (eapply wf_column_length; eassumption).
  assert (Hlk : col_length k = nrows df) by (apply (Hdf _ _ Hk)).
  rewrite (ml_index_moving_rows df w k pct l) in H by (try assumption; congruence).
  destruct (50 <? length (moving_rows df l))%nat eqn:Hcount;
    [|apply Hskip; congruence].
  inv_bind H. inv_bind H. inv_bind H. rename a1 into predictions.
  destruct (length predictions =? length (moving_rows df l))%nat;
    [|discriminate].
  injection H as <-. clear Hskip.
  unfold ml_inv. split_and!; trivial.
  { apply mark_ml_wf; assumption. }
  intros i t Ht. destruct (Hrows i t Ht) as (L & m & HtL & Hm & Hcase & Hrem).
  assert (Hi : (i < index_len w)%nat).
  { destruct Hwf as (_ & _ & <- & _). eapply lookup_lt_Some, Hm. }
  simpl.
  erewrite loc_set_lookup; [|apply labels_mask_lookup; assumption|eassumption].
  erewrite loc_append_lookup; [|apply labels_mask_lookup; assumption|eassumption].
  case_bool_decide as Hin.
  - (* the row is among the outliers of this unit *)
    apply elem_of_select in Hin as (j & _ & Hin).
    apply list_elem_of_lookup_2, list_elem_of_In, filter_In in Hin as (_ & Hin).
    apply andb_true_iff in Hin as (Hunit & Hmoving).
    assert (HL : L = []).
    { apply Hrem. exists l. split; [apply elem_of_cons; left; reflexivity|assumption]. }
    subst L. simpl. rewrite string_app_nil_r.
    exists ml_tags, 1%Z. split; [reflexivity|]. split; [reflexivity|]. split.
    + right. split; [reflexivity|]. split; [reflexivity|]. split; [assumption|].
      rewrite <- (moving_rows_same df _ l Hunit). apply Nat.ltb_lt. assumption.
    + intros (l' & Hl' & Hunit'). exfalso.
      inversion Hdist as [|? ? Hall _]; subst.
      rewrite Forall_forall in Hall.
      rewrite (key_eqb_distinct _ _ _ Hunit (Hall _ Hl')) in Hunit'.
      discriminate.
  - exists L, m. split_and!; trivial.
    intros (l' & Hl' & Hu). apply Hrem. exists l'.
    split; [apply elem_of_cons; right|]; assumption.
Qed.

Lemma ml_units_inv e ml_features df w0 locos w w' :
  index_len w0 = nrows df -> wf_frame df ->
  (forall f, f ∈ ["locoid"; "pct_moving"] -> rest w0 !! f = columns df !! f) ->
  distinct_keys locos ->
  ml_inv df w0 w locos ->
  foldM (ml_unit ISOLATION_FOREST_CONTAMINATION env fit_transform fit_predict e
           ml_features) locos w = Ok w' ->
  ml_inv df w0 w' [].
Proof.
  intros Hn Hdf Hlink. revert w.
  induction locos as [|l ls IH]; intros w Hdist Hinv H.
  - injection H as <-. assumption.
  - simpl in H. inv_bind H.
    eapply IH; [|eapply ml_unit_inv; eassumption|eassumption].
    inversion Hdist; assumption.
Qed.

End MlLayer.

(** ** The whole run, row by row *)

Lemma join_tags_app (ts us : list string) :
  join_tags (ts ++ us) = join_tags ts +:+ join_tags us.
Proof.
  induction ts as [|t ts IH]; simpl; [reflexivity|].
  rewrite IH, !string_app_assoc. reflexivity.
Qed.

Section Run.
Variable THRESHOLDS : Thresholds.
Variable MAD_THRESHOLD : Q.
Variable ISOLATION_FOREST_CONTAMINATION : Q.
Variable ANOMALY_FEATURES : list string.
Variable env : Type.
Variable fit_transform : list (list (option Q)) -> result (list (list (option Q))).
Variable fit_predict :
  env -> option Z -> Q -> list (list (option Q)) -> result (list Z).

Lemma detect_anomalies_rows e df out :
  wf_frame df ->
  detect_anomalies THRESHOLDS MAD_THRESHOLD ISOLATION_FOREST_CONTAMINATION
    ANOMALY_FEATURES env fit_transform fit_predict e df = Ok out ->
  exists rule mad ml types score verdict speed_change,
    nrows out = nrows df /\
    columns out
    = output_columns df rule mad ml types score verdict speed_change /\
    length speed_change = nrows df /\
    forall i, (i < nrows df)%nat ->
      exists r m l tags s v,
        rule !! i = Some r /\ mad !! i = Some m /\ ml !! i = Some l /\
        types !! i = Some tags /\ score !! i = Some s /\ verdict !! i = Some v /\
        row_report THRESHOLDS MAD_THRESHOLD df i r m l tags s v.
Proof.
  intros Hdf H. unfold detect_anomalies in H.
  inv_bind H as k0 Hk0. clear Hk0.
  inv_bind H as w1 Hrule.
  apply rule_layer_rows in Hrule
    as (Hn1 & Hmad1 & Hml1 & (sc & Hrest1 & Hsc) & Hlr1 & Hlt1 & Hrows1);
    [|assumption].
  assert (Hwf1 : wf_work w1).
  { unfold wf_work. rewrite Hmad1, Hml1, !length_replicate, Hn1, Hrest1.
    split_and!; trivial.
    apply map_Forall_insert_2; [exact Hsc|exact Hdf]. }
  assert (Hlink : forall f, f <> "speed_change" ->
                            rest w1 !! f = columns df !! f).
  { intros f Hf. rewrite Hrest1. apply lookup_insert_ne. congruence. }
  inv_bind H as w2 Hmad.
  unfold mad_layer in Hmad. inv_bind Hmad as k Hk.
  apply (mad_units_inv MAD_THRESHOLD df w1) in Hmad
    as (Hwf2 & Hn2 & Hrest2 & Hrule2 & Hml2 & Hrows2).
  2:{ intros f Hf. apply Hlink. intros ->. unfold mad_features in Hf.
      repeat (apply elem_of_cons in Hf as [Hf|Hf]; [discriminate|]).
      inversion Hf. }
  2:{ apply unique_distinct. }
  2:{ apply mad_inv_start; [assumption|]. rewrite Hn1. assumption. }
  inv_bind H as w3 Hml.
  unfold ml_layer in Hml. inv_bind Hml as k' Hk'.
  apply (ml_units_inv _ _ _ _ _ _ df w2) in Hml
    as (Hwf3 & Hn3 & Hrest3 & Hrule3 & Hmad3 & Hrows3).
  2:{ congruence. }
  2:{ assumption. }
  2:{ intros f Hf. rewrite Hrest2. apply Hlink. intros ->.
      repeat (apply elem_of_cons in Hf as [Hf|Hf]; [discriminate|]).
      inversion Hf. }
  2:{ apply unique_distinct. }
  2:{ apply ml_inv_start; [assumption|]. rewrite Hml2, Hn2, Hn1. assumption. }
  injection H as <-. unfold combine. simpl.
  eexists _, _, _, _, _, _, sc.
  split; [congruence|]. split.
  { unfold view, output_columns. simpl. rewrite Hrest3, Hrest2, Hrest1.
    reflexivity. }
  split; [assumption|].
  intros i Hi.
  destruct (Hrows1 i Hi) as (Hr & Ht).
  destruct (Hrows2 i _ Ht) as (M & m & Ht2 & Hsub & Hm & Hm01 & Hfire & _).
  destruct (Hrows3 i _ Ht2) as (L & l & Ht3 & Hl & Hcase & _).
  exists (Z.b2z (existsb id (rule_bits THRESHOLDS df i))), m, l.
  eexists _, _, _.
  rewrite Hrule3, Hrule2, Hmad3.
  split; [exact Hr|]. split; [exact Hm|]. split; [exact Hl|].
  split.
  { rewrite list_lookup_fmap, Ht3. reflexivity. }
  split.
  { rewrite lookup_zip_with, lookup_zip_with, Hr. simpl. rewrite Hm. simpl.
    rewrite list_lookup_fmap, Hl. reflexivity. }
  split.
  { rewrite list_lookup_fmap, lookup_zip_with, lookup_zip_with, Hr. simpl.
    rewrite Hm. simpl. rewrite list_lookup_fmap, Hl. reflexivity. }
  exists M, L. split_and!; trivial.
  rewrite !join_tags_app, string_app_assoc. reflexivity.
Qed.

End Run.

(** ** Tag strings *)

Lemma sublists_complete {A : Type} (ts l : list A) :
  ts `sublist_of` l -> ts ∈ sublists l.
Proof.
  induction 1 as [|x ts l _ IH|x ts l _ IH]; simpl.
  - apply elem_of_cons. left. reflexivity.
  - apply elem_of_app. left. apply list_elem_of_fmap. exists ts. split; trivial.
  - apply elem_of_app. right. exact IH.
Qed.

(** Every tag string that a run can produce is well formed, and splits
    back into its tags. *)
Lemma all_tag_strings :
  forallb (fun ts =>
             let s := rstrip ";" (join_tags ts) in
             tags_ok s
             && bool_decide (split ";" s = match ts with [] => [""] | _ => ts end))
          (sublists all_tags) = true.
Proof. vm_compute. reflexivity. Qed.

Lemma tag_string_spec (ts : list string) :
  ts `sublist_of` all_tags ->
  let s := rstrip ";" (join_tags ts) in
  tags_ok s = true /\ split ";" s = match ts with [] => [""] | _ => ts end.
Proof.
  intros Hsub. apply sublists_complete, list_elem_of_In in Hsub.
  pose proof (proj1 (forallb_forall _ _) all_tag_strings _ Hsub) as H.
  simpl in H. apply andb_true_iff in H as [H1 H2].
  split; [exact H1|]. apply bool_decide_eq_true in H2. exact H2.
Qed.

Lemma report_tags_sublist T threshold df i r m l tags s v :
  row_report T threshold df i r m l tags s v ->
  exists M L, M `sublist_of` mad_tags /\ L `sublist_of` ml_tags /\
    tags = rstrip ";" (join_tags (select (rule_bits T df i) rule_tags ++ M ++ L))
    /\ (select (rule_bits T df i) rule_tags ++ M ++ L) `sublist_of` all_tags.
Proof.
  intros (M & L & _ & _ & HM & _ & HL & Htags & _). exists M, L.
  assert (HL' : L `sublist_of` ml_tags).
  { destruct HL as [[-> _]|[-> _]]; [apply sublist_nil_l|reflexivity]. }
  split_and!; trivial.
  unfold all_tags. repeat apply sublist_app; trivial. apply select_sublist.
Qed.

(** ** Comparisons *)

Lemma Qltb_lt (a b : Q) : Qltb a b = true <-> (a < b)%Q.
Proof.
  unfold Qltb. rewrite negb_true_iff. split.
  - intros H. apply Qnot_le_lt. intros Hle. apply Qle_bool_iff in Hle. congruence.
  - intros H. destruct (Qle_bool b a) eqn:E; trivial.
    apply Qle_bool_iff in E. exfalso. apply (Qlt_not_le _ _ H E).
Qed.

Lemma gt_cell_true thr x :
  gt_cell thr x = true <-> exists q, x = Some q /\ (thr < q)%Q.
Proof.
  destruct x as [q|]; simpl.
  - rewrite Qltb_lt. split; [eauto|]. intros (q' & [= <-] & H). exact H.
  - split; [discriminate|]. intros (q & [=] & _).
Qed.

Lemma foldM_ext {A S : Type} (f g : A -> S -> result S) (xs : list A) (st : S) :
  (forall x s, f x s = g x s) -> foldM f xs st = foldM g xs st.
Proof.
  intros Hfg. revert st. induction xs as [|x xs IH]; intros st; simpl;
    [reflexivity|].
  rewrite Hfg. destruct (g x st); simpl; [apply IH|reflexivity].
Qed.

(** ** First buckets *)

Lemma find_none_Forall {A : Type} (f : A -> bool) (l : list A) :
  Forall (fun a => f a = false) l -> List.find f l = None.
Proof. induction 1 as [|a l Ha _ IH]; simpl; [|rewrite Ha]; trivial. Qed.

Lemma filter_nil_Forall {A : Type} (f : A -> bool) (l : list A) :
  Forall (fun a => f a = false) l -> List.filter f l = [].
Proof. induction 1 as [|a l Ha _ IH]; simpl; [|rewrite Ha]; trivial. Qed.

(** A row with no earlier row of its unit has no difference to an earlier
    row. *)
Lemma group_diff_from_first seen rows (i : nat) k x :
  rows !! i = Some (k, x) ->
  Forall (fun p => key_eqb (fst p) k = false) seen ->
  (forall (j : nat) p, (j < i)%nat -> rows !! j = Some p ->
                       key_eqb (fst p) k = false) ->
  group_diff_from seen rows !! i = Some None.
Proof.
  revert seen i. induction rows as [|[k0 x0] rows IH]; intros seen i Hi Hseen Hbefore.
  - destruct i; discriminate.
  - destruct i as [|i]; simpl in *.
    + injection Hi as -> ->.
      rewrite find_none_Forall by assumption. reflexivity.
    + apply IH; [assumption| |].
      * constructor; [|assumption]. apply (Hbefore 0%nat); [lia|reflexivity].
      * intros j p Hj Hp. apply (Hbefore (S j)); [lia|exact Hp].
Qed.

Lemma group_diff_first ks xs (i : nat) k :
  length ks = length xs ->
  ks !! i = Some k ->
  (forall (j : nat) k', (j < i)%nat -> ks !! j = Some k' -> key_eqb k' k = false) ->
  group_diff ks xs !! i = Some None.
Proof.
  intros Hlen Hk Hbefore. unfold group_diff.
  assert (is_Some (xs !! i)) as [x Hx].
  { apply lookup_lt_is_Some. rewrite <- Hlen. eapply lookup_lt_Some, Hk. }
  apply (group_diff_from_first [] _ i k x).
  - rewrite lookup_zip_with, Hk. simpl. rewrite Hx. reflexivity.
  - constructor.
  - intros j [k' x'] Hj Hp. simpl.
    rewrite lookup_zip_with in Hp.
    destruct (ks !! j) as [kj|] eqn:Hkj; simpl in Hp; [|discriminate].
    destruct (xs !! j); simpl in Hp; [|discriminate].
    injection Hp as <- <-. eapply Hbefore; eassumption.
Qed.

Lemma ts_before_irrefl t : ts_before t t = false.
Proof.
  destruct t as [q|]; simpl; trivial.
  destruct (Qltb q q) eqn:E; trivial. apply Qltb_lt in E.
  exfalso. exact (Qlt_irrefl _ E).
Qed.

Lemma ts_before_asym a b : ts_before a b = true -> ts_before b a = false.
Proof.
  destruct a as [x|], b as [y|]; simpl; try discriminate; trivial.
  intros H%Qltb_lt. destruct (Qltb y x) eqn:E; trivial.
  apply Qltb_lt in E. exfalso. exact (Qlt_irrefl _ (Qlt_trans _ _ _ H E)).
Qed.

Lemma same_key_sym a b : same_key a b = same_key b a.
Proof. destruct a, b; try reflexivity; apply key_eqb_sym. Qed.

(** The first row of a partition has no lagged row. *)
Lemma lag_first ks ts xs (i : nat) k t :
  length ks = length ts -> length ts = length xs ->
  ks !! i = Some k -> ts !! i = Some t ->
  (forall (j : nat) k' t', ks !! j = Some k' -> ts !! j = Some t' ->
     same_key k' k = true -> ts_before t' t = false) ->
  lag ks ts xs !! i = Some None.
Proof.
  intros Hl1 Hl2 Hk Ht Hfirst. unfold lag.
  assert (is_Some (xs !! i)) as [x Hx].
  { apply lookup_lt_is_Some. rewrite <- Hl2. eapply lookup_lt_Some, Ht. }
  rewrite list_lookup_fmap, lookup_zip_with, Hk. simpl.
  rewrite lookup_zip_with, Ht. simpl. rewrite Hx. simpl.
  rewrite filter_nil_Forall; [reflexivity|].
  apply Forall_lookup. intros j [k' [t' x']] Hj. simpl.
  rewrite lookup_zip_with in Hj.
  destruct (ks !! j) as [kj|] eqn:Hkj; simpl in Hj; [|discriminate].
  rewrite lookup_zip_with in Hj.
  destruct (ts !! j) as [tj|] eqn:Htj; simpl in Hj; [|discriminate].
  destruct (xs !! j); simpl in Hj; [|discriminate].
  injection Hj as <- <- <-.
  destruct (same_key kj k) eqn:Hsame; simpl; [|reflexivity].
  eapply Hfirst; eassumption.
Qed.

Lemma derived_features_columns tbl df :
  derived_features tbl = Ok df ->
  exists rate eff k ts mean,
    columns tbl !! "locoid" = Some k /\
    float_values tbl "ts" = ts /\ float_values tbl "temp_motor1_1_mean" = mean /\
    (wf_frame tbl -> length ts = nrows tbl /\ length mean = nrows tbl /\
                     length rate = nrows tbl /\ length eff = nrows tbl) /\
    rate = zip_with sub_null mean (lag (keys_of k) ts mean) /\
    nrows df = nrows tbl /\
    columns df = <["temp_motor1_1_rate" := FloatCol rate]>
                   (<["energy_efficiency" := FloatCol eff]> (columns tbl)).
Proof.
  intros H. unfold derived_features, read_column in H.
  destruct (columns tbl !! "distance_km") as [c1|] eqn:H1; [|discriminate].
  simpl in H. inv_bind H as dist Hdist.
  destruct (columns tbl !! "energy_consumption") as [c2|] eqn:H2; [|discriminate].
  simpl in H. inv_bind H as energy Henergy.
  destruct (columns tbl !! "temp_motor1_1_mean") as [c3|] eqn:H3; [|discriminate].
  simpl in H. inv_bind H as mean Hmean.
  destruct (columns tbl !! "locoid") as [k|] eqn:Hk; [|discriminate].
  simpl in H.
  destruct (columns tbl !! "ts") as [c5|] eqn:H5; [|discriminate].
  simpl in H. inv_bind H as ts Hts.
  injection H as <-. simpl.
  eexists _, _, k, ts, mean. split; [reflexivity|].
  rewrite (float_values_eq _ _ _ _ H5 Hts), (float_values_eq _ _ _ _ H3 Hmean).
  split_and!; try reflexivity.
  intros Hwf.
  pose proof (wf_column_length _ _ _ _ Hwf H1 Hdist).
  pose proof (wf_column_length _ _ _ _ Hwf H2 Henergy).
  pose proof (wf_column_length _ _ _ _ Hwf H3 Hmean).
  pose proof (wf_column_length _ _ _ _ Hwf H5 Hts).
  pose proof (Hwf _ _ Hk) as Hlk. simpl in Hlk.
  rewrite !length_zip_with. unfold lag.
  rewrite length_map, length_zip, length_zip, keys_of_length. lia.
Qed.

(** ** Tags of a row *)

Lemma all_tags_NoDup : NoDup all_tags.
Proof. apply (bool_decide_unpack _). vm_compute. exact I. Qed.

Lemma all_tags_nonempty tag : tag ∈ all_tags -> tag <> "".
Proof.
  intros Hin ->. revert Hin. apply (bool_decide_unpack _). vm_compute. exact I.
Qed.

(** A tag of the tags string of a row is one of the tags the layers
    appended. *)
Lemma report_tag_elem T threshold df i r m l tags s v tag :
  row_report T threshold df i r m l tags s v ->
  tag ∈ all_tags -> tag ∈ split ";" tags ->
  exists M L,
    M `sublist_of` mad_tags /\ L `sublist_of` ml_tags /\
    (forall f, f ∈ mad_features -> mad_tag f ∈ M ->
       mad_hit threshold (unit_values df f (unit_of df i))
         (float_cell df f i) = true) /\
    (L = [] \/ L = ml_tags /\ l = 1%Z /\ ml_eligible df i) /\
    tag ∈ select (rule_bits T df i) rule_tags ++ M ++ L.
Proof.
  intros Hreport Htag Hin.
  destruct (report_tags_sublist _ _ _ _ _ _ _ _ _ _ Hreport)
    as (M0 & L0 & _ & _ & Htags0 & _).
  destruct Hreport as (M & L & _ & _ & HM & Hfire & HL & Htags & _).
  exists M, L.
  assert (HL' : L `sublist_of` ml_tags).
  { destruct HL as [[-> _]|[-> _]]; [apply sublist_nil_l|reflexivity]. }
  assert (Hsub : (select (rule_bits T df i) rule_tags ++ M ++ L)
                 `sublist_of` all_tags).
  { unfold all_tags. repeat apply sublist_app; trivial. apply select_sublist. }
  split; [exact HM|]. split; [exact HL'|]. split; [exact Hfire|]. split.
  { destruct HL as [[-> _]|H]; [left; reflexivity|right; exact H]. }
  destruct (tag_string_spec _ Hsub) as (_ & Hsplit).
  rewrite <- Htags in Hsplit. rewrite Hsplit in Hin.
  destruct (select (rule_bits T df i) rule_tags ++ M ++ L); [|exact Hin].
  apply list_elem_of_singleton in Hin.
  exfalso. exact (all_tags_nonempty _ Htag Hin).
Qed.

(** A rule tag in the tags string of a row: the rule triggered on the row. *)
Lemma report_rule_tag T threshold df i r m l tags s v (j : nat) tag :
  row_report T threshold df i r m l tags s v ->
  rule_tags !! j = Some tag -> tag ∈ split ";" tags ->
  rule_bits T df i !! j = Some true.
Proof.
  intros Hreport Hj Hin.
  assert (Htag : tag ∈ all_tags).
  { unfold all_tags. apply elem_of_app. left. eapply list_elem_of_lookup_2, Hj. }
  destruct (report_tag_elem _ _ _ _ _ _ _ _ _ _ _ Hreport Htag Hin)
    as (M & L & HM & HL & _ & _ & Hel).
  pose proof all_tags_NoDup as Hnd. unfold all_tags in Hnd.
  apply NoDup_app in Hnd as (Hrule & Hdisj & _).
  apply elem_of_app in Hel as [Hel|Hel].
  - apply elem_of_select in Hel as (j' & Hb & Hj').
    rewrite (NoDup_lookup _ _ _ _ Hrule Hj Hj'). exact Hb.
  - exfalso. apply (Hdisj tag); [eapply list_elem_of_lookup_2, Hj|].
    apply elem_of_app in Hel as [Hel|Hel]; apply elem_of_app;
      [left|right]; eapply elem_of_sublist; eassumption.
Qed.

(** A MAD tag in the tags string of a row: the value of the row passed the
    MAD test of its unit. *)
Lemma report_mad_tag T threshold df i r m l tags s v f :
  row_report T threshold df i r m l tags s v ->
  f ∈ mad_features -> mad_tag f ∈ split ";" tags ->
  mad_hit threshold (unit_values df f (unit_of df i)) (float_cell df f i) = true.
Proof.
  intros Hreport Hf Hin.
  assert (Hmad : mad_tag f ∈ mad_tags)
    by (unfold mad_tags; apply list_elem_of_fmap; eauto).
  assert (Htag : mad_tag f ∈ all_tags).
  { unfold all_tags. apply elem_of_app. right. apply elem_of_app. left. exact Hmad. }
  destruct (report_tag_elem _ _ _ _ _ _ _ _ _ _ _ Hreport Htag Hin)
    as (M & L & HM & HL & Hfire & _ & Hel).
  pose proof all_tags_NoDup as Hnd. unfold all_tags in Hnd.
  apply NoDup_app in Hnd as (_ & Hdisj & Hnd).
  apply NoDup_app in Hnd as (_ & Hdisj' & _).
  apply elem_of_app in Hel as [Hel|Hel].
  - exfalso. apply (Hdisj (mad_tag f)).
    + eapply elem_of_sublist; [exact Hel|apply select_sublist].
    + apply elem_of_app. left. exact Hmad.
  - apply elem_of_app in Hel as [Hel|Hel]; [apply Hfire; assumption|].
    exfalso. apply (Hdisj' (mad_tag f) Hmad). eapply elem_of_sublist; eassumption.
Qed.

Lemma derived_features_wf tbl df :
  wf_frame tbl -> derived_features tbl = Ok df -> wf_frame df.
Proof.
  intros Hwf H.
  destruct (derived_features_columns _ _ H)
    as (rate & eff & k & ts & mean & _ & _ & _ & Hlen & _ & Hn & Hcols).
  destruct (Hlen Hwf) as (_ & _ & Hrate & Heff).
  unfold wf_frame. rewrite Hcols, Hn.
  repeat apply map_Forall_insert_2; trivial.
Qed.

(** ** Medians *)

Lemma insort_length x l : length (insort x l) = S (length l).
Proof.
  induction l as [|y l IH]; simpl; [reflexivity|].
  destruct (Qle_bool x y); simpl; [reflexivity|]. rewrite IH. reflexivity.
Qed.

Lemma sort_values_length l : length (sort_values l) = length l.
Proof.
  induction l as [|x l IH]; simpl; [reflexivity|].
  rewrite insort_length, IH. reflexivity.
Qed.

Lemma insort_Forall (P : Q -> Prop) x l :
  P x -> Forall P l -> Forall P (insort x l).
Proof.
  intros Hx. induction 1 as [|y l Hy Hl IH]; simpl.
  - repeat constructor. exact Hx.
  - destruct (Qle_bool x y); repeat constructor; assumption.
Qed.

Lemma sort_values_Forall (P : Q -> Prop) l :
  Forall P l -> Forall P (sort_values l).
Proof.
  induction 1 as [|x l Hx Hl IH]; simpl; [constructor|].
  apply insort_Forall; assumption.
Qed.

Lemma Qle_bool_false (x y : Q) : Qle_bool x y = false <-> (y < x)%Q.
Proof.
  split.
  - intros H. apply Qnot_le_lt. intros Hle. apply Qle_bool_iff in Hle. congruence.
  - intros H. destruct (Qle_bool x y) eqn:E; trivial.
    apply Qle_bool_iff in E. lra.
Qed.

Section Outlier.
Variables c o : Q.

Lemma insort_low_into_const s :
  (o < c)%Q -> Forall (Qeq c) s -> insort o s = o :: s.
Proof.
  intros Ho Hs. destruct Hs as [|y s Hy Hs]; simpl; [reflexivity|].
  replace (Qle_bool o y) with true; [reflexivity|].
  symmetry. apply Qle_bool_iff. lra.
Qed.

Lemma insort_const_into_low x s :
  (o < c)%Q -> (c == x)%Q -> insort x (o :: s) = o :: insort x s.
Proof.
  intros Ho Hx. simpl. replace (Qle_bool x o) with false; [reflexivity|].
  symmetry. apply Qle_bool_false. lra.
Qed.

Lemma insort_high_into_const s :
  (c < o)%Q -> Forall (Qeq c) s -> insort o s = s ++ [o].
Proof.
  intros Ho. induction 1 as [|y s Hy Hs IH]; simpl; [reflexivity|].
  replace (Qle_bool o y) with false; [rewrite IH; reflexivity|].
  symmetry. apply Qle_bool_false. lra.
Qed.

Lemma insort_const_into_high x s :
  (c < o)%Q -> (c == x)%Q -> insort x (s ++ [o]) = insort x s ++ [o].
Proof.
  intros Ho Hx. induction s as [|y s IH]; simpl.
  - replace (Qle_bool x o) with true; [reflexivity|].
    symmetry. apply Qle_bool_iff. lra.
  - destruct (Qle_bool x y); [reflexivity|]. rewrite IH. reflexivity.
Qed.

(** Sorting values that all equal [c] but one: the odd one comes first or
    last. *)
Lemma sort_values_outlier_low l1 l2 :
  (o < c)%Q -> Forall (Qeq c) l1 -> Forall (Qeq c) l2 ->
  exists s, Forall (Qeq c) s /\ length s = (length l1 + length l2)%nat /\
            sort_values (l1 ++ o :: l2) = o :: s.
Proof.
  intros Ho H1 H2. induction H1 as [|x l1 Hx H1 IH]; simpl.
  - exists (sort_values l2). split; [apply sort_values_Forall, H2|].
    split; [apply sort_values_length|].
    apply insort_low_into_const; [assumption|apply sort_values_Forall, H2].
  - destruct IH as (s & Hs & Hlen & ->). exists (insort x s).
    split; [apply insort_Forall; assumption|].
    split; [rewrite insort_length; lia|].
    apply insort_const_into_low; assumption.
Qed.

Lemma sort_values_outlier_high l1 l2 :
  (c < o)%Q -> Forall (Qeq c) l1 -> Forall (Qeq c) l2 ->
  exists s, Forall (Qeq c) s /\ length s = (length l1 + length l2)%nat /\
            sort_values (l1 ++ o :: l2) = s ++ [o].
Proof.
  intros Ho H1 H2. induction H1 as [|x l1 Hx H1 IH]; simpl.
  - exists (sort_values l2). split; [apply sort_values_Forall, H2|].
    split; [apply sort_values_length|].
    apply insort_high_into_const; [assumption|apply sort_values_Forall, H2].
  - destruct IH as (s & Hs & Hlen & ->). exists (insort x s).
    split; [apply insort_Forall; assumption|].
    split; [rewrite insort_length; lia|].
    apply insort_const_into_high; assumption.
Qed.

End Outlier.

(** The median, from the middle of the sorted values. *)
Lemma median_middle (c : Q) xs :
  let s := sort_values (values xs) in
  (0 < length s)%nat ->
  (forall (j : nat), ((length s - 1) / 2 <= j <= length s / 2)%nat ->
     exists a, s !! j = Some a /\ (c == a)%Q) ->
  exists m, median xs = Some m /\ (c == m)%Q.
Proof.
  intros s Hpos Hmid. unfold median. fold s.
  destruct (Nat.even (length s)) eqn:Heven.
  - destruct (length s) as [|n] eqn:Hn; [lia|].
    apply Nat.even_spec in Heven. destruct Heven as [h Hh].
    assert (H1 : (S n / 2 - 1 = (S n - 1) / 2)%nat).
    { rewrite Hh. replace (2 * h - 1)%nat with (1 + (h - 1) * 2)%nat by lia.
      rewrite Nat.div_add by lia. rewrite (Nat.mul_comm 2 h), Nat.div_mul by lia.
      simpl. lia. }
    destruct (Hmid (S n / 2 - 1)%nat) as (a & Ha & Hca).
    { rewrite H1. split; [lia|]. apply Nat.Div0.div_le_mono. lia. }
    destruct (Hmid (S n / 2)%nat) as (b & Hb & Hcb).
    { split; [|lia]. apply Nat.Div0.div_le_mono. lia. }
    rewrite Ha, Hb. eexists. split; [reflexivity|].
    rewrite <- Hca, <- Hcb. field.
  - destruct (Hmid (length s / 2)%nat) as (a & Ha & Hca).
    { split; [|lia]. apply Nat.Div0.div_le_mono. lia. }
    rewrite Ha. eauto.
Qed.

(** The median of values that are all [c] is [c]. *)
Lemma median_const (c : Q) xs :
  values xs <> [] -> Forall (Qeq c) (values xs) ->
  exists m, median xs = Some m /\ (c == m)%Q.
Proof.
  intros Hne Hall. apply median_middle.
  - rewrite sort_values_length. destruct (values xs); [contradiction|simpl; lia].
  - intros j Hj.
    assert (Hlt : (j < length (sort_values (values xs)))%nat).
    { destruct Hj as [_ Hj]. eapply Nat.le_lt_trans; [exact Hj|].
      apply Nat.div_lt; [|lia].
      rewrite sort_values_length. destruct (values xs); [contradiction|simpl; lia]. }
    destruct (lookup_lt_is_Some_2 _ _ Hlt) as [a Ha]. exists a. split; [exact Ha|].
    pose proof (sort_values_Forall _ _ Hall) as Hs.
    rewrite Forall_lookup in Hs. exact (Hs _ _ Ha).
Qed.

(** The median of three values or more that are all [c] but one is [c]. *)
Lemma median_outlier (c o : Q) xs l1 l2 :
  values xs = l1 ++ o :: l2 ->
  Forall (Qeq c) l1 -> Forall (Qeq c) l2 -> ~ (o == c)%Q ->
  (3 <= length (values xs))%nat ->
  exists m, median xs = Some m /\ (c == m)%Q.
Proof.
  intros Hxs H1 H2 Hne Hlen.
  assert (Hn : length (values xs) = S (length l1 + length l2)).
  { rewrite Hxs, length_app. simpl. lia. }
  apply median_middle; rewrite sort_values_length; [lia|].
  intros j Hj. rewrite Hn in Hj.
  assert (Hj1 : (1 <= j)%nat).
  { destruct Hj as [Hj _]. eapply Nat.le_trans; [|exact Hj].
    replace (S (length l1 + length l2) - 1)%nat with (length l1 + length l2)%nat
      by lia.
    apply (Nat.div_le_lower_bound _ 2 1); lia. }
  assert (Hj2 : (j < length l1 + length l2)%nat).
  { destruct Hj as [_ Hj]. eapply Nat.le_lt_trans; [exact Hj|].
    apply Nat.Div0.div_lt_upper_bound. lia. }
  rewrite Hxs.
  destruct (Q_dec o c) as [[Hlt|Hgt]|Heq]; [| |contradiction].
  - destruct (sort_values_outlier_low c o l1 l2 Hlt H1 H2) as (s & Hs & Hl & ->).
    destruct j as [|j]; [lia|]. simpl.
    destruct (lookup_lt_is_Some_2 s j) as [a Ha]; [lia|].
    exists a. split; [exact Ha|]. rewrite Forall_lookup in Hs. exact (Hs _ _ Ha).
  - destruct (sort_values_outlier_high c o l1 l2 Hgt H1 H2) as (s & Hs & Hl & ->).
    destruct (lookup_lt_is_Some_2 s j) as [a Ha]; [lia|].
    exists a. split; [rewrite lookup_app_l by lia; exact Ha|].
    rewrite Forall_lookup in Hs. exact (Hs _ _ Ha).
Qed.

(** ** Degenerate groups *)

Lemma values_Some (l : list Q) : values (map Some l) = l.
Proof. induction l as [|x l IH]; simpl; [reflexivity|]. f_equal. exact IH. Qed.

Lemma values_dropna xs : values (dropna xs) = values xs.
Proof. apply values_Some. Qed.

(** The absolute deviations of the non-missing values from [m]. *)
Lemma values_deviations xs (m : Q) :
  values (abs_series (sub_scalar (dropna xs) (Some m)))
  = map (fun q => Qabs (q - m)) (values xs).
Proof.
  unfold abs_series, sub_scalar, dropna. rewrite !map_map. simpl.
  apply (values_map_Some (fun q => Qabs (q - m))).
Qed.

(** A MAD that is not above 0 fails the test of line 120 for every row. *)
Lemma mad_hit_zero threshold group x median_ mad :
  calculate_mad (dropna group) = (median_, Some mad) -> ~ (0 < mad)%Q ->
  mad_hit threshold group x = false.
Proof.
  intros Hmad Hzero. unfold mad_hit. rewrite Hmad.
  replace (Qltb 0 mad) with false; [apply andb_false_r|].
  symmetry. destruct (Qltb 0 mad) eqn:E; trivial. apply Qltb_lt in E. contradiction.
Qed.

(** The MAD of values that are all equal is 0. *)
Lemma calculate_mad_const (c : Q) group :
  values group <> [] -> Forall (Qeq c) (values group) ->
  exists m d, calculate_mad (dropna group) = (Some m, Some d)
              /\ (m == c)%Q /\ (d == 0)%Q.
Proof.
  intros Hne Hall. unfold calculate_mad.
  destruct (median_const c (dropna group)) as (m & Hm & Hcm);
    [rewrite ?values_dropna; assumption..|].
  rewrite Hm.
  destruct (median_const 0 (abs_series (sub_scalar (dropna group) (Some m))))
    as (d & Hd & H0d).
  - rewrite values_deviations. destruct (values group); [contradiction|discriminate].
  - rewrite values_deviations. apply Forall_fmap.
    eapply Forall_impl; [exact Hall|]. intros q Hq.
    change (0 == Qabs (q - m))%Q.
    assert (E : (q - m == 0)%Q) by lra. rewrite E. reflexivity.
  - rewrite Hd. exists m, d. split_and!; [reflexivity|symmetry; assumption..].
Qed.

(** The MAD of three values or more that are all equal but one is 0. *)
Lemma calculate_mad_outlier (c o : Q) group l1 l2 :
  values group = l1 ++ o :: l2 ->
  Forall (Qeq c) l1 -> Forall (Qeq c) l2 -> ~ (o == c)%Q ->
  (3 <= length (values group))%nat ->
  exists m d, calculate_mad (dropna group) = (Some m, Some d)
              /\ (m == c)%Q /\ (d == 0)%Q.
Proof.
  intros Hg H1 H2 Hne Hlen. unfold calculate_mad.
  destruct (median_outlier c o (dropna group) l1 l2) as (m & Hm & Hcm);
    [rewrite ?values_dropna; assumption..|].
  rewrite Hm.
  assert (Hdev : forall l, Forall (Qeq c) l ->
                           Forall (Qeq 0) (map (fun q => Qabs (q - m)) l)).
  { intros l Hl. apply Forall_fmap. eapply Forall_impl; [exact Hl|].
    intros q Hq.
    change (0 == Qabs (q - m))%Q.
    assert (E : (q - m == 0)%Q) by lra. rewrite E. reflexivity. }
  destruct (median_outlier 0 (Qabs (o - m))
              (abs_series (sub_scalar (dropna group) (Some m)))
              (map (fun q => Qabs (q - m)) l1) (map (fun q => Qabs (q - m)) l2))
    as (d & Hd & H0d).
  - rewrite values_deviations, Hg, map_app. reflexivity.
  - apply Hdev, H1.
  - apply Hdev, H2.
  - intros Habs. apply Hne.
    assert (Hle : (Qabs (o - m) <= 0)%Q) by (rewrite Habs; apply Qle_refl).
    apply Qabs_Qle_condition in Hle. lra.
  - rewrite values_deviations, length_map. assumption.
  - rewrite Hd. exists m, d. split_and!; [reflexivity|symmetry; assumption..].
Qed.

(** Lines 117-126 leave the frame as it is for a pair whose MAD is not
    above 0. *)
Lemma mad_feature_skips_zero_mad threshold loco_mask loco_data feature w c x
  median_ mad :
  loco_data !! feature = Some c -> as_float c = Ok x ->
  calculate_mad (dropna x) = (median_, Some mad) -> ~ (0 < mad)%Q ->
  mad_feature threshold loco_mask loco_data feature w = Ok w.
Proof.
  intros Hc Hx Hmad Hzero. unfold mad_feature.
  destruct (has_column w feature); [|reflexivity].
  rewrite Hc. destruct (_ <? _)%nat; [|reflexivity].
  rewrite Hx. simpl. unfold calculate_mad in *. injection Hmad as Hmed Hm.
  rewrite Hm.
  replace (Qltb 0 mad) with false; [reflexivity|].
  symmetry. destruct (Qltb 0 mad) eqn:E; trivial. apply Qltb_lt in E. contradiction.
Qed.

(** * The claims *)

Section Claims.
Variable THRESHOLDS : Thresholds.
Variable MAD_THRESHOLD : Q.
Variable ISOLATION_FOREST_CONTAMINATION : Q.
Variable ANOMALY_FEATURES : list string.
Variable env : Type.
Variable fit_transform : list (list (option Q)) -> result (list (list (option Q))).
Variable fit_predict :
  env -> option Z -> Q -> list (list (option Q)) -> result (list Z).


Lemma output_columns_lookup df rule mad ml types score verdict sc :
  let cols := output_columns df rule mad ml types score verdict sc in
  cols !! "anomaly_rule" = Some (IntCol rule) /\
  cols !! "anomaly_mad" = Some (IntCol mad) /\
  cols !! "anomaly_ml" = Some (IntCol ml) /\
  cols !! "anomaly_types" = Some (StrCol types) /\
  cols !! "anomaly_score" = Some (IntCol score) /\
  cols !! "is_anomaly" = Some (IntCol verdict) /\
  cols !! "speed_change" = Some (FloatCol sc).
Proof.
  unfold output_columns. split_and!;
    repeat first [ apply lookup_insert_eq
                 | rewrite lookup_insert_ne by discriminate ].
Qed.

(** C1. For every row of the returned frame, each of the three flags is 0 or
    1, the score is 3*flag_rule + 2*flag_mad + 1*flag_ml, hence an integer
    from 0 to 6, and is_anomaly is 1 exactly when the score is at least 2 (so
    a row flagged by the forest only, of score 1, is not an anomaly). *)
Theorem score_is_weighted_sum_of_flags e df out :
  wf_frame df ->
  detect_anomalies THRESHOLDS MAD_THRESHOLD ISOLATION_FOREST_CONTAMINATION
    ANOMALY_FEATURES env fit_transform fit_predict e df = Ok out ->
  exists rule mad ml score verdict,
    columns out !! "anomaly_rule" = Some (IntCol rule) /\
    columns out !! "anomaly_mad" = Some (IntCol mad) /\
    columns out !! "anomaly_ml" = Some (IntCol ml) /\
    columns out !! "anomaly_score" = Some (IntCol score) /\
    columns out !! "is_anomaly" = Some (IntCol verdict) /\
    forall i, (i < nrows out)%nat ->
      exists r m l s v,
        rule !! i = Some r /\ mad !! i = Some m /\ ml !! i = Some l /\
        score !! i = Some s /\ verdict !! i = Some v /\
        (r = 0 \/ r = 1)%Z /\ (m = 0 \/ m = 1)%Z /\ (l = 0 \/ l = 1)%Z /\
        (s = 3 * r + 2 * m + 1 * l)%Z /\ (0 <= s <= 6)%Z /\
        (v = 0 \/ v = 1)%Z /\ (v = 1 <-> 2 <= s)%Z.
Proof.
  intros Hwf Hrun.
  destruct (detect_anomalies_rows _ _ _ _ _ _ _ _ _ _ Hwf Hrun)
    as (rule & mad & ml & types & score & verdict & sc & Hn & Hcols & _ & Hrows).
  destruct (output_columns_lookup df rule mad ml types score verdict sc)
    as (H1 & H2 & H3 & _ & H5 & H6 & _).
  exists rule, mad, ml, score, verdict. rewrite Hcols.
  split_and!; trivial.
  intros i Hi. rewrite Hn in Hi.
  destruct (Hrows i Hi) as (r & m & l & tags & s & v & Hr & Hm & Hl & _ & Hs & Hv
                            & M & L & -> & HM & _ & _ & HL & _ & -> & ->).
  assert (Hr01 : (Z.b2z (existsb id (rule_bits THRESHOLDS df i)) = 0
                  \/ Z.b2z (existsb id (rule_bits THRESHOLDS df i)) = 1)%Z)
    by (destruct (existsb id _); simpl; auto).
  assert (Hm01 : (m = 0 \/ m = 1)%Z) by (destruct HM as [[_ ->]|[_ ->]]; auto).
  assert (Hl01 : (l = 0 \/ l = 1)%Z)
    by (destruct HL as [[_ ->]|(_ & -> & _)]; auto).
  exists (Z.b2z (existsb id (rule_bits THRESHOLDS df i))), m, l.
  eexists _, _.
  do 5 (split; [eassumption|]).
  destruct (Z.leb_spec 2 (Z.b2z (existsb id (rule_bits THRESHOLDS df i)) * 3
                          + m * 2 + l * 1)); split_and!; trivial; lia.
Qed.
(** C4. The forest flag is 1 only on a row whose pct_moving exceeds 0.5 and
    whose unit has more than 50 such rows: a row of a unit with 50 moving
    rows or fewer, and a row whose pct_moving is at most 0.5 or missing,
    have flag_ml = 0. *)
Theorem forest_flags_only_moving_rows_of_dense_units e df out :
  wf_frame df ->
  detect_anomalies THRESHOLDS MAD_THRESHOLD ISOLATION_FOREST_CONTAMINATION
    ANOMALY_FEATURES env fit_transform fit_predict e df = Ok out ->
  exists ml,
    columns out !! "anomaly_ml" = Some (IntCol ml) /\
    forall i, (i < nrows out)%nat ->
      exists l, ml !! i = Some l /\ (l = 0 \/ l = 1)%Z /\
        (l = 1%Z ->
           (exists q, float_cell df "pct_moving" i = Some q /\ (1 # 2 < q)%Q) /\
           (50 < length (moving_rows df (unit_of df i)))%nat).
Proof.
  intros Hwf Hrun.
  destruct (detect_anomalies_rows _ _ _ _ _ _ _ _ _ _ Hwf Hrun)
    as (rule & mad & ml & types & score & verdict & sc & Hn & Hcols & _ & Hrows).
  destruct (output_columns_lookup df rule mad ml types score verdict sc)
    as (_ & _ & H3 & _).
  exists ml. rewrite Hcols. split; [exact H3|].
  intros i Hi. rewrite Hn in Hi.
  destruct (Hrows i Hi) as (r & m & l & tags & s & v & _ & _ & Hl & _ & _ & _
                            & M & L & _ & _ & _ & _ & HL & _).
  exists l. split; [exact Hl|].
  destruct HL as [[_ ->]|(_ & -> & Hmove & Hcount)].
  - split; [left; reflexivity|discriminate].
  - split; [right; reflexivity|]. intros _.
    split; [apply gt_cell_true; exact Hmove|exact Hcount].
Qed.

(** C8. The tags string of every row of the returned frame neither begins
    nor ends with the delimiter, and no tag occurs twice in it: it is the
    delimiter-joined list of some of the six rule tags, the three MAD tags
    and the forest tag, each at most once. *)
Theorem tags_are_delimited_and_distinct e df out :
  wf_frame df ->
  detect_anomalies THRESHOLDS MAD_THRESHOLD ISOLATION_FOREST_CONTAMINATION
    ANOMALY_FEATURES env fit_transform fit_predict e df = Ok out ->
  exists types,
    columns out !! "anomaly_types" = Some (StrCol types) /\
    forall i, (i < nrows out)%nat ->
      exists tags, types !! i = Some tags /\
        starts_with ";" tags = false /\ ends_with ";" tags = false /\
        NoDup (split ";" tags) /\
        (tags = "" \/ split ";" tags `sublist_of` all_tags).
Proof.
  intros Hwf Hrun.
  destruct (detect_anomalies_rows _ _ _ _ _ _ _ _ _ _ Hwf Hrun)
    as (rule & mad & ml & types & score & verdict & sc & Hn & Hcols & _ & Hrows).
  destruct (output_columns_lookup df rule mad ml types score verdict sc)
    as (_ & _ & _ & H4 & _).
  exists types. rewrite Hcols. split; [exact H4|].
  intros i Hi. rewrite Hn in Hi.
  destruct (Hrows i Hi) as (r & m & l & tags & s & v & _ & _ & _ & Ht & _ & _
                            & Hreport).
  apply report_tags_sublist in Hreport as (M & L & _ & _ & -> & Hsub).
  exists (rstrip ";" (join_tags (select (rule_bits THRESHOLDS df i) rule_tags
                                   ++ M ++ L))).
  split; [exact Ht|].
  destruct (tag_string_spec _ Hsub) as (Hok & Hsplit).
  unfold tags_ok in Hok.
  apply andb_true_iff in Hok as [Hok Hnodup].
  apply andb_true_iff in Hok as [Hstart Hend].
  apply negb_true_iff in Hstart, Hend. apply bool_decide_eq_true in Hnodup.
  split_and!; trivial.
  destruct (select (rule_bits THRESHOLDS df i) rule_tags ++ M ++ L) eqn:E.
  - left. reflexivity.
  - right. rewrite Hsplit. exact Hsub.
Qed.

(** C9. With the forest seeded (a seeded forest does not depend on anything
    but its arguments), two runs on the same frame and configuration return
    the same result, whatever else differs between them. *)
Theorem rerun_is_deterministic :
  (forall e1 e2 seed contamination X,
     fit_predict e1 (Some seed) contamination X
     = fit_predict e2 (Some seed) contamination X) ->
  forall e1 e2 df,
    detect_anomalies THRESHOLDS MAD_THRESHOLD ISOLATION_FOREST_CONTAMINATION
      ANOMALY_FEATURES env fit_transform fit_predict e1 df
    = detect_anomalies THRESHOLDS MAD_THRESHOLD ISOLATION_FOREST_CONTAMINATION
        ANOMALY_FEATURES env fit_transform fit_predict e2 df.
Proof.
  intros Hseed e1 e2 df. unfold detect_anomalies.
  destruct (read_column df "locoid"); simpl; [|reflexivity].
  destruct (rule_layer _ _) as [w1|]; simpl; [|reflexivity].
  destruct (mad_layer _ _) as [w2|]; simpl; [|reflexivity].
  replace (ml_layer ISOLATION_FOREST_CONTAMINATION ANOMALY_FEATURES env
             fit_transform fit_predict e2 w2)
    with (ml_layer ISOLATION_FOREST_CONTAMINATION ANOMALY_FEATURES env
            fit_transform fit_predict e1 w2); [reflexivity|].
  unfold ml_layer. destruct (get w2 "locoid") as [k|]; simpl; [|reflexivity].
  apply foldM_ext. intros l w. unfold ml_unit.
  destruct (loco_mask_of w l); simpl; [|reflexivity].
  destruct (numeric w "pct_moving"); simpl; [|reflexivity].
  destruct (_ <? _)%nat; [|reflexivity].
  destruct (traverse _ _); simpl; [|reflexivity].
  destruct (fit_transform _); simpl; [|reflexivity].
  rewrite (Hseed e1 e2). reflexivity.
Qed.

(** C10, as the code has it. The returned frame has the rows of the loaded
    frame and its columns, to which seven columns are added (or replaced,
    where the loaded frame has a column of that name): the six result
    columns and the helper column speed_change of line 88; every column of
    the loaded frame with another name is returned unchanged. *)
Theorem output_adds_seven_columns e df out :
  wf_frame df ->
  detect_anomalies THRESHOLDS MAD_THRESHOLD ISOLATION_FOREST_CONTAMINATION
    ANOMALY_FEATURES env fit_transform fit_predict e df = Ok out ->
  let added : list string :=
    ["anomaly_rule"; "anomaly_mad"; "anomaly_ml"; "anomaly_types";
     "anomaly_score"; "is_anomaly"; "speed_change"] in
  nrows out = nrows df /\
  dom (columns out) = dom (columns df) ∪ list_to_set added /\
  forall name, name ∉ added -> columns out !! name = columns df !! name.
Proof.
  intros Hwf Hrun added.
  destruct (detect_anomalies_rows _ _ _ _ _ _ _ _ _ _ Hwf Hrun)
    as (rule & mad & ml & types & score & verdict & sc & Hn & Hcols & _).
  split; [exact Hn|]. rewrite Hcols. unfold output_columns. split.
  - rewrite !dom_insert_L. unfold added. simpl. apply set_eq. intros x.
    rewrite !elem_of_union, elem_of_empty. tauto.
  - intros name Hname. unfold added in Hname.
    rewrite !not_elem_of_cons in Hname.
    destruct Hname as (? & ? & ? & ? & ? & ? & ? & _).
    rewrite !lookup_insert_ne by congruence. reflexivity.
Qed.

(** C7. In the table that the feature query derives from a feature table
    whose rows are in temporal order within each unit, the first temporal
    bucket of a unit has no rate of change and no speed change (both are
    missing), so whatever its sensor values it triggers neither the
    temperature rate-of-change rule nor the speed-jump rule, and its tags
    contain neither TEMP_SPIKE nor SPEED_JUMP. *)
Theorem first_bucket_triggers_no_change_rule tbl df i :
  wf_frame tbl ->
  derived_features tbl = Ok df ->
  temporally_ordered tbl ->
  first_bucket tbl i -> (i < nrows tbl)%nat ->
  float_cell df "temp_motor1_1_rate" i = None /\
  speed_change_cell df i = None /\
  temp_rate_high THRESHOLDS df i = false /\
  speed_jump THRESHOLDS df i = false /\
  forall e out,
    detect_anomalies THRESHOLDS MAD_THRESHOLD ISOLATION_FOREST_CONTAMINATION
      ANOMALY_FEATURES env fit_transform fit_predict e df = Ok out ->
    exists types tags,
      columns out !! "anomaly_types" = Some (StrCol types) /\
      types !! i = Some tags /\
      ("TEMP_SPIKE" ∉ split ";" tags) /\ ("SPEED_JUMP" ∉ split ";" tags).
Proof.
  intros Hwf Hder Hord Hfirst Hi.
  pose proof (derived_features_wf _ _ Hwf Hder) as Hwf'.
  destruct (derived_features_columns _ _ Hder)
    as (rate & eff & k & ts & mean & Hk & Hts & Hmean & Hlen & Hrate & Hn & Hcols).
  destruct (Hlen Hwf) as (Hlts & Hlmean & Hlrate & _).
  assert (Hlk : length (keys_of k) = nrows tbl).
  { rewrite keys_of_length. exact (Hwf _ _ Hk). }
  assert (Hkeys : unit_keys tbl = keys_of k) by (apply unit_keys_eq, Hk).
  assert (Hkeys' : unit_keys df = keys_of k).
  { apply unit_keys_eq. rewrite Hcols, !lookup_insert_ne by discriminate. exact Hk. }
  destruct (lookup_lt_is_Some_2 (keys_of k) i) as [ki Hki]; [lia|].
  destruct (lookup_lt_is_Some_2 ts i) as [ti Hti]; [lia|].
  assert (Hunit : forall j kj, keys_of k !! j = Some kj -> unit_of tbl j = kj).
  { intros j kj Hj. unfold unit_of. rewrite Hkeys, Hj. reflexivity. }
  assert (Htsc : forall j tj, ts !! j = Some tj -> ts_cell tbl j = tj).
  { intros j tj Hj. unfold ts_cell, float_cell. rewrite Hts, Hj. reflexivity. }
  (* no row of the unit is before row i *)
  assert (Hnone : forall (j : nat) k' t',
             keys_of k !! j = Some k' -> ts !! j = Some t' ->
             same_key k' ki = true -> ts_before t' ti = false).
  { intros j k' t' Hj Htj Hsame. destruct (decide (j = i)) as [->|Hne].
    - rewrite Hti in Htj. injection Htj as <-. apply ts_before_irrefl.
    - apply ts_before_asym.
      rewrite <- (Htsc _ _ Hti), <- (Htsc _ _ Htj). apply Hfirst; trivial.
      + rewrite <- Hlk. eapply lookup_lt_Some, Hj.
      + unfold same_unit. rewrite (Hunit _ _ Hj), (Hunit _ _ Hki). exact Hsame. }
  assert (Hcell : float_cell df "temp_motor1_1_rate" i = None).
  { unfold float_cell, float_values. rewrite Hcols, lookup_insert_eq. simpl.
    rewrite Hrate, lookup_zip_with.
    rewrite (lag_first _ _ _ i ki ti) by (trivial; congruence).
    destruct (mean !! i) as [[?|]|]; reflexivity. }
  assert (Hspeed : speed_change_cell df i = None).
  { unfold speed_change_cell. rewrite abs_series_lookup, Hkeys'.
    assert (Havg : float_values df "avg_speed" = []
                   \/ length (float_values df "avg_speed") = nrows tbl).
    { unfold float_values. rewrite Hcols, !lookup_insert_ne by discriminate.
      destruct (columns tbl !! "avg_speed") as [c|] eqn:Hc; [|left; reflexivity].
      destruct (as_float c) as [x|] eqn:Hx; [|left; reflexivity].
      right. eapply wf_column_length; eassumption. }
    destruct Havg as [->|Havg].
    - unfold group_diff. rewrite zip_with_nil_r. reflexivity.
    - rewrite (group_diff_first _ _ i ki); trivial; [congruence|].
      intros j k' Hj Hkj.
      destruct (key_eqb k' ki) eqn:Heq; trivial. exfalso.
      apply key_eqb_same_key in Heq.
      destruct (lookup_lt_is_Some_2 ts j) as [tj Htj]; [lia|].
      assert (Hsame : same_unit tbl j i = true).
      { unfold same_unit. rewrite (Hunit _ _ Hkj), (Hunit _ _ Hki). exact Heq. }
      pose proof (Hfirst j ltac:(lia) ltac:(lia) Hsame) as H1.
      pose proof (Hord j i ltac:(lia) Hsame) as H2. congruence. }
  assert (Hrate_bit : temp_rate_high THRESHOLDS df i = false).
  { unfold temp_rate_high. rewrite Hcell. reflexivity. }
  assert (Hspeed_bit : speed_jump THRESHOLDS df i = false).
  { unfold speed_jump. rewrite Hspeed. reflexivity. }
  split_and!; trivial.
  intros e out Hrun.
  destruct (detect_anomalies_rows _ _ _ _ _ _ _ _ _ _ Hwf' Hrun)
    as (rule & mad & ml & types & score & verdict & sc & _ & Hout & _ & Hrows).
  destruct (output_columns_lookup df rule mad ml types score verdict sc)
    as (_ & _ & _ & H4 & _).
  destruct (Hrows i ltac:(lia))
    as (r & m & l & tags & s & v & _ & _ & _ & Ht & _ & _ & Hreport).
  exists types, tags. rewrite Hout. split; [exact H4|]. split; [exact Ht|].
  split; intros Hin.
  - pose proof (report_rule_tag _ _ _ _ _ _ _ _ _ _ 1%nat _ Hreport eq_refl Hin)
      as Hbit.
    simpl in Hbit. congruence.
  - pose proof (report_rule_tag _ _ _ _ _ _ _ _ _ _ 4%nat _ Hreport eq_refl Hin)
      as Hbit.
    simpl in Hbit. congruence.
Qed.

(** A row whose value fails the MAD test of its unit for a feature does not
    carry the tag of the feature. *)
Lemma no_mad_hit_no_tag e df out i f :
  wf_frame df ->
  detect_anomalies THRESHOLDS MAD_THRESHOLD ISOLATION_FOREST_CONTAMINATION
    ANOMALY_FEATURES env fit_transform fit_predict e df = Ok out ->
  (i < nrows df)%nat -> f ∈ mad_features ->
  mad_hit MAD_THRESHOLD (unit_values df f (unit_of df i)) (float_cell df f i)
  = false ->
  exists types tags,
    columns out !! "anomaly_types" = Some (StrCol types) /\
    types !! i = Some tags /\ mad_tag f ∉ split ";" tags.
Proof.
  intros Hwf Hrun Hi Hf Hhit.
  destruct (detect_anomalies_rows _ _ _ _ _ _ _ _ _ _ Hwf Hrun)
    as (rule & mad & ml & types & score & verdict & sc & _ & Hout & _ & Hrows).
  destruct (output_columns_lookup df rule mad ml types score verdict sc)
    as (_ & _ & _ & H4 & _).
  destruct (Hrows i Hi)
    as (r & m & l & tags & s & v & _ & _ & _ & Ht & _ & _ & Hreport).
  exists types, tags. rewrite Hout. split; [exact H4|]. split; [exact Ht|].
  intros Hin.
  rewrite (report_mad_tag _ _ _ _ _ _ _ _ _ _ _ Hreport Hf Hin) in Hhit.
  discriminate.
Qed.

(** C5. When the non-missing values of a feature in the unit of a row have
    MAD 0 (in particular when they are all identical, 12 of them or any
    number), the (unit, feature) pair is skipped: no value passes the MAD
    test, whatever its deviation, and no row of the unit receives the MAD
    tag of that feature. *)
Theorem zero_mad_group_raises_no_flag e df out i f :
  wf_frame df ->
  detect_anomalies THRESHOLDS MAD_THRESHOLD ISOLATION_FOREST_CONTAMINATION
    ANOMALY_FEATURES env fit_transform fit_predict e df = Ok out ->
  (i < nrows df)%nat -> f ∈ mad_features ->
  let group := unit_values df f (unit_of df i) in
  (exists median_ mad,
     calculate_mad (dropna group) = (median_, Some mad) /\ (mad == 0)%Q)
  \/ (exists c, Forall (Qeq c) (values group)) ->
  (forall x, mad_hit MAD_THRESHOLD group x = false) /\
  exists types tags,
    columns out !! "anomaly_types" = Some (StrCol types) /\
    types !! i = Some tags /\ mad_tag f ∉ split ";" tags.
Proof.
  intros Hwf Hrun Hi Hf group Hdegenerate.
  assert (Hno : forall x, mad_hit MAD_THRESHOLD group x = false).
  { intros x. destruct Hdegenerate as [(median_ & mad & Hmad & Hzero)|(c & Hall)].
    - eapply mad_hit_zero; [exact Hmad|]. lra.
    - destruct (values group) as [|q qs] eqn:Hvalues.
      + unfold mad_hit. rewrite Hvalues. reflexivity.
      + destruct (calculate_mad_const c group) as (m & d & Hmad & _ & Hd).
        * rewrite Hvalues. discriminate.
        * rewrite Hvalues. exact Hall.
        * eapply mad_hit_zero; [exact Hmad|]. lra. }
  split; [exact Hno|]. eapply no_mad_hit_no_tag; try eassumption. apply Hno.
Qed.

(** A group with a lone outlier. In a group of more than 10 samples that
    all equal one constant except a single outlier, no row, the outlier
    included, receives the MAD tag of the feature, however far the outlier
    lies. *)
Theorem outlier_of_constant_group_is_not_flagged e df out i f c o l1 l2 :
  wf_frame df ->
  detect_anomalies THRESHOLDS MAD_THRESHOLD ISOLATION_FOREST_CONTAMINATION
    ANOMALY_FEATURES env fit_transform fit_predict e df = Ok out ->
  (i < nrows df)%nat -> f ∈ mad_features ->
  let group := unit_values df f (unit_of df i) in
  values group = l1 ++ o :: l2 ->
  Forall (Qeq c) l1 -> Forall (Qeq c) l2 -> ~ (o == c)%Q ->
  (10 < length (values group))%nat ->
  exists types tags,
    columns out !! "anomaly_types" = Some (StrCol types) /\
    types !! i = Some tags /\ mad_tag f ∉ split ";" tags.
Proof.
  intros Hwf Hrun Hi Hf group Hgroup H1 H2 Hne Hlen.
  destruct (calculate_mad_outlier c o group l1 l2) as (m & d & Hmad & Hm & Hd);
    try assumption; [lia|].
  eapply no_mad_hit_no_tag; try eassumption.
  eapply mad_hit_zero; [exact Hmad|]. lra.
Qed.

End Claims.


(** ** Failures and successes of the layers *)

Lemma numeric_read (w : frame) (name : string) :
  name <> "anomaly_rule" -> name <> "anomaly_mad" -> name <> "anomaly_ml" ->
  name <> "anomaly_types" ->
  numeric w name = match rest w !! name with
                   | Some c => as_float c
                   | None => Err (KeyError name)
                   end.
Proof.
  intros. unfold numeric, get. rewrite view_rest by assumption.
  destruct (rest w !! name); reflexivity.
Qed.

Lemma as_float_numeric c : is_numeric c = true -> exists x, as_float c = Ok x.
Proof. destruct c; simpl; try discriminate; eauto. Qed.

Lemma as_float_Err c e : as_float c = Err e -> e = TypeError.
Proof. destruct c; simpl; try discriminate. intros [= <-]. reflexivity. Qed.

Ltac in_list := apply (bool_decide_unpack _); vm_compute; exact I.

Lemma foldM_total {A S : Type} (Inv : S -> Prop) (body : A -> S -> result S)
  (xs : list A) (st : S) :
  Inv st ->
  (forall x st, Inv st -> exists st', body x st = Ok st' /\ Inv st') ->
  exists st', foldM body xs st = Ok st' /\ Inv st'.
Proof.
  intros Hst Hbody. revert st Hst.
  induction xs as [|x xs IH]; intros st Hst; simpl; [eauto|].
  destruct (Hbody x st Hst) as (st' & -> & Hst'). simpl. apply IH, Hst'.
Qed.

(** A loop whose body raises at one of its elements raises. *)
Lemma foldM_fails {A S : Type} (Inv : S -> Prop) (body : A -> S -> result S)
  (xs : list A) (st : S) (x : A) :
  Inv st -> x ∈ xs ->
  (forall y st st', Inv st -> body y st = Ok st' -> Inv st') ->
  (forall st, Inv st -> exists err, body x st = Err err) ->
  exists err, foldM body xs st = Err err.
Proof.
  intros Hst Hx Hpres Hfail. revert st Hst.
  induction xs as [|y xs IH]; intros st Hst; [inversion Hx|]. simpl.
  destruct (body y st) as [st'|err] eqn:Hy; simpl; [|eauto].
  apply elem_of_cons in Hx as [->|Hx].
  - destruct (Hfail st Hst) as [err Herr]. congruence.
  - apply IH; [assumption|]. eapply Hpres; eassumption.
Qed.

Lemma traverse_total {A B : Type} (f : A -> result B) (l : list A) :
  Forall (fun a => exists b, f a = Ok b) l -> exists bs, traverse f l = Ok bs.
Proof.
  induction 1 as [|a l (b & Hb) _ (bs & Hbs)]; simpl; [eauto|].
  rewrite Hb. simpl. rewrite Hbs. simpl. eauto.
Qed.

Lemma loco_mask_of_stage df w l :
  stage_inv df w -> is_Some (columns df !! "locoid") ->
  exists k, columns df !! "locoid" = Some k /\
    loco_mask_of w l = Ok (unit_mask df l) /\
    length (unit_mask df l) = index_len w.
Proof.
  intros (Hwf & Hn & sc & Hrest) [k Hk]. exists k. split; [exact Hk|].
  unfold loco_mask_of, get. rewrite view_rest by discriminate.
  rewrite Hrest, lookup_insert_ne, Hk by discriminate. simpl.
  unfold unit_mask. rewrite (unit_keys_eq _ _ Hk). split; [reflexivity|].
  rewrite length_map, keys_of_length.
  destruct Hwf as (_ & _ & _ & _ & Ho). apply (Ho "locoid").
  rewrite Hrest, lookup_insert_ne by discriminate. exact Hk.
Qed.

(** The columns of the frame between two layers. *)
Lemma view_stage df w f :
  stage_inv df w -> f ∉ computed_columns -> view w !! f = columns df !! f.
Proof.
  intros (_ & _ & sc & Hrest) Hf. unfold computed_columns in Hf.
  rewrite !not_elem_of_cons in Hf. destruct Hf as (? & ? & ? & ? & ? & _).
  rewrite view_rest by assumption. rewrite Hrest.
  apply lookup_insert_ne. congruence.
Qed.

Lemma view_stage_numeric df w f c :
  stage_inv df w -> f <> "anomaly_types" ->
  (forall c', columns df !! f = Some c' -> is_numeric c' = true) ->
  view w !! f = Some c -> is_numeric c = true.
Proof.
  intros (_ & _ & sc & Hrest) Hf Hnum. unfold view. rewrite Hrest.
  rewrite lookup_insert_ne by congruence.
  repeat (rewrite lookup_insert; case_decide;
          [intros [= <-]; reflexivity|]).
  apply Hnum.
Qed.

Lemma view_stage_present df w w' f :
  stage_inv df w -> stage_inv df w' ->
  is_Some (view w !! f) -> is_Some (view w' !! f).
Proof.
  intros (_ & _ & sc & Hrest) (_ & _ & sc' & Hrest'). unfold view.
  rewrite Hrest, Hrest'.
  destruct (decide (f = "anomaly_types")) as [->|];
    [rewrite !lookup_insert_eq; eauto|].
  rewrite !(lookup_insert_ne _ "anomaly_types") by congruence.
  destruct (decide (f = "anomaly_ml")) as [->|];
    [rewrite !lookup_insert_eq; eauto|].
  rewrite !(lookup_insert_ne _ "anomaly_ml") by congruence.
  destruct (decide (f = "anomaly_mad")) as [->|];
    [rewrite !lookup_insert_eq; eauto|].
  rewrite !(lookup_insert_ne _ "anomaly_mad") by congruence.
  destruct (decide (f = "anomaly_rule")) as [->|];
    [rewrite !lookup_insert_eq; eauto|].
  rewrite !(lookup_insert_ne _ "anomaly_rule") by congruence.
  destruct (decide (f = "speed_change")) as [->|];
    [rewrite !lookup_insert_eq; eauto|].
  rewrite !(lookup_insert_ne _ "speed_change") by congruence.
  trivial.
Qed.

Lemma is_numeric_select mask c : is_numeric (select_col mask c) = is_numeric c.
Proof. destruct c; reflexivity. Qed.

Section Failures.
Variable THRESHOLDS : Thresholds.

(** With its columns present and numeric, the rule layer returns. *)
Lemma rule_layer_total df :
  (forall name, name ∈ rule_columns ->
     exists c, columns df !! name = Some c /\ is_numeric c = true) ->
  is_Some (columns df !! "locoid") ->
  exists w, rule_layer THRESHOLDS (init_columns df) = Ok w.
Proof.
  intros Hcols [k Hk].
  assert (Hread : forall name, name ∈ rule_columns ->
            exists c x, columns df !! name = Some c /\ as_float c = Ok x).
  { intros name Hname. destruct (Hcols name Hname) as (c & Hc & Hnum).
    destruct (as_float_numeric c Hnum) as [x Hx]. eauto. }
  destruct (Hread "temp_motor1_1_max") as (c1 & x1 & H1 & Hx1);
    [in_list|].
  destruct (Hread "temp_motor1_1_rate") as (c2 & x2 & H2 & Hx2);
    [in_list|].
  destruct (Hread "current_u_std") as (c3 & x3 & H3 & Hx3);
    [in_list|].
  destruct (Hread "battery_volt_min") as (c4 & x4 & H4 & Hx4);
    [in_list|].
  destruct (Hread "avg_speed") as (c5 & x5 & H5 & Hx5);
    [in_list|].
  destruct (Hread "pressure_tr1_min") as (c6 & x6 & H6 & Hx6);
    [in_list|].
  unfold rule_layer.
  rewrite numeric_read by discriminate. simpl rest. rewrite H1, Hx1. simpl.
  rewrite numeric_read by discriminate. simpl rest. rewrite H2, Hx2. simpl.
  rewrite numeric_read by discriminate. simpl rest. rewrite H3, Hx3. simpl.
  rewrite numeric_read by discriminate. simpl rest. rewrite H4, Hx4. simpl.
  unfold get. rewrite view_rest by discriminate. simpl rest. rewrite Hk. simpl.
  rewrite numeric_read by discriminate. simpl rest. rewrite H5, Hx5. simpl.
  rewrite numeric_read by discriminate. simpl rest.
  rewrite lookup_insert_eq. simpl.
  rewrite numeric_read by discriminate. simpl rest.
  rewrite lookup_insert_ne by discriminate. rewrite H6, Hx6. simpl.
  eexists. reflexivity.
Qed.

Lemma rule_layer_stage df w :
  wf_frame df -> rule_layer THRESHOLDS (init_columns df) = Ok w ->
  stage_inv df w.
Proof.
  intros Hwf H.
  apply rule_layer_rows in H
    as (Hn & Hmad & Hml & (sc & Hrest & Hsc) & Hlr & Hlt & _); [|assumption].
  unfold stage_inv. split; [|split; [assumption|eauto]].
  unfold wf_work. rewrite Hmad, Hml, !length_replicate, Hn, Hrest.
  split_and!; trivial.
  apply map_Forall_insert_2; [exact Hsc|exact Hwf].
Qed.


Variable MAD_THRESHOLD : Q.

Lemma mad_feature_total loco_mask (w0 : frame) feature w :
  (has_column w feature = true ->
   exists c, view w0 !! feature = Some c /\ is_numeric c = true) ->
  exists w',
    mad_feature MAD_THRESHOLD loco_mask (select_col loco_mask <$> view w0)
      feature w = Ok w'.
Proof.
  intros Hcol. unfold mad_feature.
  destruct (has_column w feature); [|eauto].
  destruct (Hcol eq_refl) as (c & Hc & Hnum).
  rewrite lookup_fmap, Hc. simpl.
  destruct (_ <? _)%nat; [|eauto].
  destruct (as_float_numeric (select_col loco_mask c)) as [x ->];
    [rewrite is_numeric_select; assumption|].
  simpl. unfold calculate_mad. simpl.
  destruct (median (abs_series _)) as [m|]; [|eauto].
  destruct (Qltb 0 m); eauto.
Qed.

Lemma mad_unit_stage df l w w' :
  stage_inv df w -> mad_unit MAD_THRESHOLD l w = Ok w' -> stage_inv df w'.
Proof.
  intros Hst H. pose proof Hst as (Hwf & Hn & sc & Hrest).
  unfold mad_unit in H. inv_bind H as loco_mask Hmask.
  assert (Hlen : length loco_mask = index_len w).
  { unfold loco_mask_of, get in Hmask.
    destruct (view w !! "locoid") as [k|] eqn:Hk; [|discriminate].
    injection Hmask as <-. rewrite length_map, keys_of_length.
    rewrite view_rest in Hk by discriminate.
    destruct Hwf as (_ & _ & _ & _ & Ho). exact (Ho _ _ Hk). }
  apply mad_features_rows in H as (Hwf' & Hn' & Hrest' & _); try assumption.
  unfold stage_inv. split; [assumption|]. split; [congruence|].
  exists sc. congruence.
Qed.

Lemma mad_unit_total df l w :
  stage_inv df w -> is_Some (columns df !! "locoid") ->
  (forall f c, f ∈ mad_features -> columns df !! f = Some c ->
               is_numeric c = true) ->
  exists w', mad_unit MAD_THRESHOLD l w = Ok w' /\ stage_inv df w'.
Proof.
  intros Hst Hloco Hnum.
  destruct (loco_mask_of_stage df w l Hst Hloco) as (k & Hk & Hmask & Hlen).
  assert (Hfold : forall features w1,
            (forall f, f ∈ features -> f ∈ mad_features) ->
            stage_inv df w1 ->
            exists w',
              foldM (mad_feature MAD_THRESHOLD (unit_mask df l)
                       (select_col (unit_mask df l) <$> view w))
                    features w1 = Ok w').
  { induction features as [|f features IH]; intros w1 Hsub Hst1; simpl; [eauto|].
    assert (Hf : f ∈ mad_features) by (apply Hsub; left).
    assert (Hcomp : f ∉ computed_columns).
    { intros Hin. unfold mad_features in Hf.
      repeat (apply elem_of_cons in Hf as [->|Hf]; [revert Hin; in_list|]).
      inversion Hf. }
    destruct (mad_feature_total (unit_mask df l) w f w1) as [w2 Hw2].
    { intros Hhas. unfold has_column in Hhas. apply bool_decide_eq_true in Hhas.
      rewrite (view_stage df w1 f Hst1 Hcomp) in Hhas. destruct Hhas as [c Hc].
      exists c. rewrite (view_stage df w f Hst Hcomp). split; [exact Hc|].
      eapply Hnum; eassumption. }
    rewrite Hw2. simpl. apply IH; [intros f' Hf'; apply Hsub; right; exact Hf'|].
    pose proof Hst1 as (Hwf1 & Hn1 & sc1 & Hrest1).
    apply mad_feature_step in Hw2 as (hit & Hhit & -> & _);
      [|assumption|pose proof Hst as (_ & Hn & _); congruence].
    unfold stage_inv. split; [apply mark_mad_wf; assumption|].
    split; [exact Hn1|]. exists sc1. exact Hrest1. }
  unfold mad_unit. rewrite Hmask. simpl.
  destruct (Hfold mad_features w (fun f Hf => Hf) Hst) as [w' Hw'].
  exists w'. split; [exact Hw'|].
  eapply mad_unit_stage; [exact Hst|].
  unfold mad_unit. rewrite Hmask. simpl. exact Hw'.
Qed.


Variable ISOLATION_FOREST_CONTAMINATION : Q.
Variable ANOMALY_FEATURES : list string.
Variable env : Type.
Variable fit_transform : list (list (option Q)) -> result (list (list (option Q))).
Variable fit_predict :
  env -> option Z -> Q -> list (list (option Q)) -> result (list Z).

Lemma mad_layer_stage df w w' :
  stage_inv df w -> mad_layer MAD_THRESHOLD w = Ok w' -> stage_inv df w'.
Proof.
  intros Hst H. unfold mad_layer in H. inv_bind H as k Hk. clear Hk.
  revert w Hst H. generalize (unique (keys_of k)).
  intros locos. induction locos as [|l locos IH]; intros w Hst H; simpl in H.
  - injection H as <-. exact Hst.
  - inv_bind H as w1 Hw1. eapply (IH w1); [|exact H].
    eapply mad_unit_stage; eassumption.
Qed.

(** The forest step of a unit, on a frame between two layers. *)
Lemma ml_unit_stage_eq df w l ml_features e k pc pct :
  wf_frame df -> stage_inv df w ->
  columns df !! "locoid" = Some k ->
  columns df !! "pct_moving" = Some pc -> as_float pc = Ok pct ->
  ml_unit ISOLATION_FOREST_CONTAMINATION env fit_transform fit_predict e
    ml_features l w
  = if (50 <? length (moving_rows df l))%nat then
      loco_data_moving ←
        traverse (fun f => x ← numeric w f;
                           Ok (select (gt_scalar (select (unit_mask df l) pct)
                                                 (1 # 2))
                                      (select (unit_mask df l) x)))
                 ml_features;
      X_scaled ← fit_transform (to_rows (length (moving_rows df l))
                                  (map fillna_median loco_data_moving));
      predictions ←
        fit_predict e (Some 42%Z) ISOLATION_FOREST_CONTAMINATION X_scaled;
      if (length predictions =? length (moving_rows df l))%nat then
        Ok (mark_ml (select (map (fun p => (p =? -1)%Z) predictions)
                            (moving_rows df l)) "ML_ISOLATION;" w)
      else Err IndexError
    else Ok w.
Proof.
  intros Hdf Hst Hk Hpc Hpct. pose proof Hst as (Hwf & Hn & sc & Hrest).
  destruct (loco_mask_of_stage df w l Hst) as (k' & Hk' & Hmask & Hlen); [eauto|].
  unfold ml_unit. rewrite Hmask. simpl.
  rewrite (numeric_read w "pct_moving") by discriminate.
  rewrite Hrest, lookup_insert_ne, Hpc, Hpct by discriminate. simpl.
  assert (Hindex :
    select (gt_scalar (select (unit_mask df l) pct) (1 # 2))
           (select (unit_mask df l) (seq 0 (index_len w)))
    = moving_rows df l).
  { unfold unit_mask. rewrite (unit_keys_eq _ _ Hk).
    apply (ml_index_moving_rows df w k pc l Hn Hk Hpc pct Hpct).
    - exact (wf_column_length _ _ _ _ Hdf Hpc Hpct).
    - exact (Hdf _ _ Hk). }
  rewrite Hindex. reflexivity.
Qed.

Lemma ml_unit_stage df w l ml_features e w' :
  stage_inv df w ->
  ml_unit ISOLATION_FOREST_CONTAMINATION env fit_transform fit_predict e
    ml_features l w = Ok w' ->
  stage_inv df w'.
Proof.
  intros Hst H. pose proof Hst as (Hwf & Hn & sc & Hrest).
  unfold ml_unit in H. inv_bind H as loco_mask Hmask. inv_bind H as pct Hpct.
  destruct (_ <? _)%nat; [|injection H as <-; exact Hst].
  inv_bind H as cols Hcols. inv_bind H as X HX. inv_bind H as p Hp.
  destruct (_ =? _)%nat; [|discriminate]. injection H as <-.
  unfold stage_inv. split; [apply mark_ml_wf; assumption|].
  split; [exact Hn|]. exists sc. exact Hrest.
Qed.


Lemma to_rows_length m cols : length (to_rows m cols) = m.
Proof. unfold to_rows. rewrite length_map, length_seq. reflexivity. Qed.

Lemma traverse_Ok_map {A B : Type} (f : A -> result B) (g : A -> B) (l : list A) bs :
  traverse f l = Ok bs ->
  Forall (fun a => forall b, f a = Ok b -> b = g a) l ->
  bs = map g l.
Proof.
  intros H Hall. revert bs H.
  induction Hall as [|a l Ha _ IH]; intros bs H; simpl in H.
  - injection H as <-. reflexivity.
  - inv_bind H as b Hb. inv_bind H as bs' Hbs'. injection H as <-.
    simpl. rewrite (Ha b Hb), (IH bs' Hbs'). reflexivity.
Qed.

(** The forest step of a unit with more than 50 moving rows raises when the
    model fails on the matrix of the unit. *)
Lemma ml_unit_model_failure df w w2 l e :
  wf_frame df -> stage_inv df w -> stage_inv df w2 ->
  is_Some (columns df !! "locoid") ->
  Forall (fun f => f ∉ computed_columns) ANOMALY_FEATURES ->
  (50 < length (moving_rows df l))%nat ->
  (forall Y, fit_transform (unit_matrix ANOMALY_FEATURES df l) = Ok Y ->
             exists err, fit_predict e (Some 42%Z)
                           ISOLATION_FOREST_CONTAMINATION Y = Err err) ->
  exists err,
    ml_unit ISOLATION_FOREST_CONTAMINATION env fit_transform fit_predict e
      (List.filter (has_column w2) ANOMALY_FEATURES) l w = Err err.
Proof.
  intros Hdf Hst Hst2 [k Hk] Hinput Hcount Hfail.
  pose proof Hst as (Hwf & Hn & sc & Hrest).
  destruct (loco_mask_of_stage df w l Hst) as (k' & Hk' & Hmask & Hlen); [eauto|].
  destruct (columns df !! "pct_moving") as [pc|] eqn:Hpc.
  2:{ unfold ml_unit. rewrite Hmask. simpl.
      rewrite (numeric_read w "pct_moving") by discriminate.
      rewrite Hrest, lookup_insert_ne, Hpc by discriminate. simpl. eauto. }
  destruct (as_float pc) as [pct|err] eqn:Hpct.
  2:{ unfold ml_unit. rewrite Hmask. simpl.
      rewrite (numeric_read w "pct_moving") by discriminate.
      rewrite Hrest, lookup_insert_ne, Hpc, Hpct by discriminate. simpl. eauto. }
  rewrite (ml_unit_stage_eq df w l _ e k pc pct) by assumption.
  apply Nat.ltb_lt in Hcount. rewrite Hcount.
  destruct (traverse _ _) as [cols|err] eqn:Hcols; simpl; [|eauto].
  assert (Hpresent :
    List.filter (has_column w2) ANOMALY_FEATURES
    = List.filter (fun f => bool_decide (is_Some (columns df !! f)))
                  ANOMALY_FEATURES).
  { apply filter_ext_in. intros f Hf. unfold has_column.
    rewrite (view_stage df w2 f Hst2); [reflexivity|].
    rewrite List.Forall_forall in Hinput. apply Hinput, Hf. }
  apply (traverse_Ok_map _
           (fun f => select (gt_scalar (select (unit_mask df l) pct) (1 # 2))
                            (select (unit_mask df l) (float_values df f))))
    in Hcols.
  2:{ apply List.Forall_forall. intros f Hf b Hb.
      apply filter_In in Hf as [Hf _].
      rewrite List.Forall_forall in Hinput.
      inv_bind Hb as x Hx. injection Hb as <-.
      unfold numeric, get in Hx.
      rewrite (view_stage df w f Hst (Hinput f Hf)) in Hx.
      destruct (columns df !! f) as [c|] eqn:Hc; [|discriminate]. simpl in Hx.
      rewrite (float_values_eq _ _ _ _ Hc Hx). reflexivity. }
  assert (HX : to_rows (length (moving_rows df l)) (map fillna_median cols)
               = unit_matrix ANOMALY_FEATURES df l).
  { unfold unit_matrix. rewrite Hcols, Hpresent, map_map.
    rewrite (float_values_eq _ _ _ _ Hpc Hpct). reflexivity. }
  rewrite HX.
  destruct (fit_transform _) as [Y|err] eqn:HY; simpl; [|eauto].
  destruct (Hfail Y eq_refl) as [err ->]. simpl. eauto.
Qed.

(** C3, as the code has it. The forest layer has no handler around the
    model: when the configured features are columns of the loaded frame and,
    for a unit with more than 50 moving rows, scaling fails or the forest
    fails on the scaled matrix of the unit, the run raises and returns no
    frame: that unit is not skipped and the other units and layers yield
    nothing. *)
Theorem model_failure_aborts_the_run e df l :
  wf_frame df ->
  Forall (fun f => f ∉ computed_columns) ANOMALY_FEATURES ->
  l ∈ unique (unit_keys df) ->
  (50 < length (moving_rows df l))%nat ->
  (forall Y, fit_transform (unit_matrix ANOMALY_FEATURES df l) = Ok Y ->
             exists err, fit_predict e (Some 42%Z)
                           ISOLATION_FOREST_CONTAMINATION Y = Err err) ->
  exists err,
    detect_anomalies THRESHOLDS MAD_THRESHOLD ISOLATION_FOREST_CONTAMINATION
      ANOMALY_FEATURES env fit_transform fit_predict e df = Err err.
Proof.
  intros Hdf Hinput Hl Hcount Hfail.
  unfold detect_anomalies, read_column.
  destruct (columns df !! "locoid") as [k|] eqn:Hk; simpl; [|eauto].
  destruct (rule_layer _ _) as [w1|err] eqn:Hw1; simpl; [|eauto].
  pose proof (rule_layer_stage _ _ Hdf Hw1) as Hst1.
  destruct (mad_layer _ _) as [w2|err] eqn:Hw2; simpl; [|eauto].
  pose proof (mad_layer_stage _ _ _ Hst1 Hw2) as Hst2.
  unfold ml_layer, get. rewrite (view_stage df w2) by (trivial; in_list).
  rewrite Hk. simpl. rewrite (unit_keys_eq _ _ Hk) in Hl.
  destruct (foldM_fails (stage_inv df)
              (ml_unit ISOLATION_FOREST_CONTAMINATION env fit_transform
                 fit_predict e (List.filter (has_column w2) ANOMALY_FEATURES))
              (unique (keys_of k)) w2 l Hst2 Hl) as [err Herr].
  - intros y w w' Hst Hy. eapply ml_unit_stage; eassumption.
  - intros w Hst. eapply ml_unit_model_failure; eauto.
  - rewrite Herr. simpl. eauto.
Qed.

End Failures.

(** * The claims on the sample data *)

(** C1 on a unit of 51 moving buckets, one of which the forest marks. *)
Lemma score_is_weighted_sum_of_flags_witness :
  exists rule mad ml score verdict,
    columns (Sample.returned (Sample.detect (Sample.one_unit 51 1000)))
      !! "anomaly_rule" = Some (IntCol rule) /\
    columns (Sample.returned (Sample.detect (Sample.one_unit 51 1000)))
      !! "anomaly_mad" = Some (IntCol mad) /\
    columns (Sample.returned (Sample.detect (Sample.one_unit 51 1000)))
      !! "anomaly_ml" = Some (IntCol ml) /\
    columns (Sample.returned (Sample.detect (Sample.one_unit 51 1000)))
      !! "anomaly_score" = Some (IntCol score) /\
    columns (Sample.returned (Sample.detect (Sample.one_unit 51 1000)))
      !! "is_anomaly" = Some (IntCol verdict) /\
    forall i,
      (i < nrows (Sample.returned (Sample.detect (Sample.one_unit 51 1000))))%nat ->
      exists r m l s v,
        rule !! i = Some r /\ mad !! i = Some m /\ ml !! i = Some l /\
        score !! i = Some s /\ verdict !! i = Some v /\
        (r = 0 \/ r = 1)%Z /\ (m = 0 \/ m = 1)%Z /\ (l = 0 \/ l = 1)%Z /\
        (s = 3 * r + 2 * m + 1 * l)%Z /\ (0 <= s <= 6)%Z /\
        (v = 0 \/ v = 1)%Z /\ (v = 1 <-> 2 <= s)%Z.
Proof.
  apply (score_is_weighted_sum_of_flags Sample.thresholds Sample.mad_threshold
           Sample.contamination Sample.features unit Sample.scaler
           Sample.forest tt (Sample.one_unit 51 1000)).
  - apply (bool_decide_unpack _). vm_compute. exact I.
  - vm_compute. reflexivity.
Defined.

(** C4 on the same unit: bucket 5 is flagged, and it is a moving bucket of a
    unit with 51 moving buckets. *)
Lemma forest_flags_only_moving_rows_of_dense_units_witness :
  exists ml,
    columns (Sample.returned (Sample.detect (Sample.one_unit 51 1000)))
      !! "anomaly_ml" = Some (IntCol ml) /\
    forall i,
      (i < nrows (Sample.returned (Sample.detect (Sample.one_unit 51 1000))))%nat ->
      exists l, ml !! i = Some l /\ (l = 0 \/ l = 1)%Z /\
        (l = 1%Z ->
           (exists q, float_cell (Sample.one_unit 51 1000) "pct_moving" i = Some q
                      /\ (1 # 2 < q)%Q) /\
           (50 < length (moving_rows (Sample.one_unit 51 1000)
                           (unit_of (Sample.one_unit 51 1000) i)))%nat).
Proof.
  apply (forest_flags_only_moving_rows_of_dense_units Sample.thresholds
           Sample.mad_threshold Sample.contamination Sample.features unit
           Sample.scaler Sample.forest tt (Sample.one_unit 51 1000)).
  - apply (bool_decide_unpack _). vm_compute. exact I.
  - vm_compute. reflexivity.
Defined.

(** C8 on the fleet of three buckets. *)
Lemma tags_are_delimited_and_distinct_witness :
  exists types,
    columns (Sample.returned (Sample.detect Sample.fleet)) !! "anomaly_types"
    = Some (StrCol types) /\
    forall i, (i < nrows (Sample.returned (Sample.detect Sample.fleet)))%nat ->
      exists tags, types !! i = Some tags /\
        starts_with ";" tags = false /\ ends_with ";" tags = false /\
        NoDup (split ";" tags) /\
        (tags = "" \/ split ";" tags `sublist_of` all_tags).
Proof.
  apply (tags_are_delimited_and_distinct Sample.thresholds Sample.mad_threshold
           Sample.contamination Sample.features unit Sample.scaler
           Sample.forest tt Sample.fleet).
  - apply (bool_decide_unpack _). vm_compute. exact I.
  - vm_compute. reflexivity.
Defined.

(** C9 with a forest that depends on its environment only when unseeded:
    the runs in two different environments agree. *)
Lemma rerun_is_deterministic_witness :
  detect_anomalies Sample.thresholds Sample.mad_threshold Sample.contamination
    Sample.features Z Sample.scaler Sample.seeded_forest 0%Z
    (Sample.one_unit 51 1000)
  = detect_anomalies Sample.thresholds Sample.mad_threshold Sample.contamination
      Sample.features Z Sample.scaler Sample.seeded_forest 1%Z
      (Sample.one_unit 51 1000).
Proof.
  apply (rerun_is_deterministic Sample.thresholds Sample.mad_threshold
           Sample.contamination Sample.features Z Sample.scaler
           Sample.seeded_forest).
  intros e1 e2 seed contamination X. reflexivity.
Defined.

(** C10 as stated fails on the fleet: the returned frame has a column
    speed_change, which the loaded frame does not have and which is not one
    of the six result columns. *)
Lemma speed_change_column_is_added :
  Sample.detect Sample.fleet = Ok (Sample.returned (Sample.detect Sample.fleet))
  /\ dom (columns (Sample.returned (Sample.detect Sample.fleet)))
     <> dom (columns Sample.fleet)
        ∪ list_to_set ["anomaly_rule"; "anomaly_mad"; "anomaly_ml";
                       "anomaly_types"; "anomaly_score"; "is_anomaly"].
Proof.
  split; [vm_compute; reflexivity|]. intros H.
  apply (f_equal (fun s : gset string => bool_decide ("speed_change" ∈ s))) in H.
  vm_compute in H. discriminate H.
Qed.

(** C10 amended, on the fleet. *)
Lemma output_adds_seven_columns_witness :
  nrows (Sample.returned (Sample.detect Sample.fleet)) = nrows Sample.fleet /\
  dom (columns (Sample.returned (Sample.detect Sample.fleet)))
  = dom (columns Sample.fleet)
    ∪ list_to_set ["anomaly_rule"; "anomaly_mad"; "anomaly_ml"; "anomaly_types";
                   "anomaly_score"; "is_anomaly"; "speed_change"] /\
  forall name,
    name ∉ ["anomaly_rule"; "anomaly_mad"; "anomaly_ml"; "anomaly_types";
            "anomaly_score"; "is_anomaly"; "speed_change"] ->
    columns (Sample.returned (Sample.detect Sample.fleet)) !! name
    = columns Sample.fleet !! name.
Proof.
  apply (output_adds_seven_columns Sample.thresholds Sample.mad_threshold
           Sample.contamination Sample.features unit Sample.scaler
           Sample.forest tt Sample.fleet).
  - apply (bool_decide_unpack _). vm_compute. exact I.
  - vm_compute. reflexivity.
Defined.

(** C7 on the sample table: bucket 2 is the first bucket of unit 2. *)
Lemma first_bucket_triggers_no_change_rule_witness :
  float_cell (Sample.returned (derived_features Sample.table))
    "temp_motor1_1_rate" 2 = None /\
  speed_change_cell (Sample.returned (derived_features Sample.table)) 2 = None /\
  temp_rate_high Sample.thresholds
    (Sample.returned (derived_features Sample.table)) 2 = false /\
  speed_jump Sample.thresholds
    (Sample.returned (derived_features Sample.table)) 2 = false /\
  forall e out,
    detect_anomalies Sample.thresholds Sample.mad_threshold Sample.contamination
      Sample.features unit Sample.scaler Sample.forest e
      (Sample.returned (derived_features Sample.table)) = Ok out ->
    exists types tags,
      columns out !! "anomaly_types" = Some (StrCol types) /\
      types !! 2%nat = Some tags /\
      ("TEMP_SPIKE" ∉ split ";" tags) /\ ("SPEED_JUMP" ∉ split ";" tags).
Proof.
  apply (first_bucket_triggers_no_change_rule Sample.thresholds
           Sample.mad_threshold Sample.contamination Sample.features unit
           Sample.scaler Sample.forest Sample.table).
  - apply (bool_decide_unpack _). vm_compute. exact I.
  - vm_compute. reflexivity.
  - intros i j Hij.
    destruct i as [|[|[|i]]], j as [|[|[|j]]]; simpl in Hij; try lia;
      vm_compute; intros; congruence.
  - intros j Hj Hne.
    destruct j as [|[|[|j]]]; simpl in Hj; try lia;
      vm_compute; intros; congruence.
  - simpl. lia.
Defined.

(** C5 on a unit of 12 identical values. *)
Lemma zero_mad_group_raises_no_flag_witness :
  (forall x,
     mad_hit Sample.mad_threshold
       (unit_values (Sample.one_unit 12 10) "temp_motor1_1_mean"
          (unit_of (Sample.one_unit 12 10) 5)) x = false) /\
  exists types tags,
    columns (Sample.returned (Sample.detect (Sample.one_unit 12 10)))
      !! "anomaly_types" = Some (StrCol types) /\
    types !! 5%nat = Some tags /\
    mad_tag "temp_motor1_1_mean" ∉ split ";" tags.
Proof.
  apply (zero_mad_group_raises_no_flag Sample.thresholds Sample.mad_threshold
           Sample.contamination Sample.features unit Sample.scaler
           Sample.forest tt (Sample.one_unit 12 10)).
  - apply (bool_decide_unpack _). vm_compute. exact I.
  - vm_compute. reflexivity.
  - simpl. lia.
  - apply (bool_decide_unpack _). vm_compute. exact I.
  - right. exists 10%Q. vm_compute. repeat constructor.
Defined.

(** A unit of 11 values 10 and one value 1000: the bucket of the outlier
    has no MAD tag. *)
Lemma outlier_of_constant_group_is_not_flagged_witness :
  exists types tags,
    columns (Sample.returned (Sample.detect (Sample.one_unit 12 1000)))
      !! "anomaly_types" = Some (StrCol types) /\
    types !! 5%nat = Some tags /\
    mad_tag "temp_motor1_1_mean" ∉ split ";" tags.
Proof.
  apply (outlier_of_constant_group_is_not_flagged Sample.thresholds
           Sample.mad_threshold Sample.contamination Sample.features unit
           Sample.scaler Sample.forest tt (Sample.one_unit 12 1000)
           (Sample.returned (Sample.detect (Sample.one_unit 12 1000)))
           5%nat "temp_motor1_1_mean" 10%Q 1000%Q
           (replicate 5 10%Q) (replicate 6 10%Q)).
  - apply (bool_decide_unpack _). vm_compute. exact I.
  - vm_compute. reflexivity.
  - simpl. lia.
  - apply (bool_decide_unpack _). vm_compute. exact I.
  - vm_compute. reflexivity.
  - vm_compute. repeat constructor.
  - vm_compute. repeat constructor.
  - vm_compute. discriminate.
  - vm_compute. lia.
Defined.

(** The premise of C6 on a sample: on a unit of 12 samples, 11 of them 10
    and one far outlier 1000, the median is 10 and the MAD is 0, not above
    0, and the run flags no row of the unit, the outlier in bucket 5
    included. *)
Lemma outlier_of_constant_group_has_no_mad_flag :
  values (unit_values (Sample.one_unit 12 1000) "temp_motor1_1_mean"
            (unit_of (Sample.one_unit 12 1000) 5))
  = replicate 5 10%Q ++ 1000%Q :: replicate 6 10%Q /\
  calculate_mad
    (dropna (unit_values (Sample.one_unit 12 1000) "temp_motor1_1_mean"
               (unit_of (Sample.one_unit 12 1000) 5)))
  = (Some (20 # 2), Some (0 # 8)) /\
  (20 # 2 == 10)%Q /\ (0 # 8 == 0)%Q /\
  exists out,
    Sample.detect (Sample.one_unit 12 1000) = Ok out /\
    columns out !! "anomaly_mad" = Some (IntCol (replicate 12 0%Z)) /\
    columns out !! "anomaly_types" = Some (StrCol (replicate 12 "")).
Proof.
  split; [vm_compute; reflexivity|]. split; [vm_compute; reflexivity|].
  split; [reflexivity|]. split; [reflexivity|].
  exists (Sample.returned (Sample.detect (Sample.one_unit 12 1000))).
  split; [vm_compute; reflexivity|]. split; vm_compute; reflexivity.
Qed.

(** C2 as stated fails on the fleet: the frame lacks current_u_mean, a
    feature of the MAD list and of the configured forest list, and the run
    returns a frame. *)
Lemma missing_feature_raises_no_schema_error :
  columns Sample.fleet !! "current_u_mean" = None /\
  "current_u_mean" ∈ mad_features /\ "current_u_mean" ∈ Sample.features /\
  Sample.detect Sample.fleet = Ok (Sample.returned (Sample.detect Sample.fleet)).
Proof.
  split; [vm_compute; reflexivity|].
  split; [apply (bool_decide_unpack _); vm_compute; exact I|].
  split; [apply (bool_decide_unpack _); vm_compute; exact I|].
  vm_compute. reflexivity.
Qed.

(** C3 as stated fails on two units: the forest raises on the second one,
    whose feature has no value, though not on the first, and the run raises
    instead of skipping the unit. *)
Lemma forest_failure_on_one_unit_aborts_the_run :
  Sample.forest tt (Some 42%Z) Sample.contamination
    (unit_matrix Sample.features Sample.two_units (KNum 8)) = Err ValueError /\
  (exists predictions,
     Sample.forest tt (Some 42%Z) Sample.contamination
       (unit_matrix Sample.features Sample.two_units (KNum 7)) = Ok predictions)
  /\ Sample.detect Sample.two_units = Err ValueError.
Proof.
  split; [vm_compute; reflexivity|].
  split; [eexists; vm_compute; reflexivity|].
  vm_compute. reflexivity.
Qed.

(** C3 amended, on the two units. *)
Lemma model_failure_aborts_the_run_witness :
  exists err, Sample.detect Sample.two_units = Err err.
Proof.
  unfold Sample.detect.
  apply (model_failure_aborts_the_run Sample.thresholds Sample.mad_threshold
           Sample.contamination Sample.features unit Sample.scaler
           Sample.forest tt Sample.two_units (KNum 8)).
  - apply (bool_decide_unpack _). vm_compute. exact I.
  - apply (bool_decide_unpack _). vm_compute. exact I.
  - vm_compute. apply elem_of_cons. right. apply elem_of_cons. left. reflexivity.
  - vm_compute. lia.
  - intros Y H. apply Ok_inj in H. subst Y. exists ValueError.
    vm_compute. reflexivity.
Defined.

(** ** The run as a whole: what makes it raise, what makes it return *)

(** A loop whose body returns on each of its elements returns. *)
Lemma foldM_returns {A S : Type} (Inv : S -> Prop) (body : A -> S -> result S)
  (xs : list A) (st : S) :
  Inv st ->
  (forall x st, x ∈ xs -> Inv st -> exists st', body x st = Ok st' /\ Inv st') ->
  exists st', foldM body xs st = Ok st' /\ Inv st'.
Proof.
  revert st. induction xs as [|x xs IH]; intros st Hst Hbody; simpl; [eauto|].
  destruct (Hbody x st (list_elem_of_here _ _) Hst) as (st' & -> & Hst'). simpl.
  apply IH; [exact Hst'|].
  intros y s Hy. apply Hbody, list_elem_of_further, Hy.
Qed.

Section Returns.
Variable THRESHOLDS : Thresholds.
Variable MAD_THRESHOLD : Q.
Variable ISOLATION_FOREST_CONTAMINATION : Q.
Variable ANOMALY_FEATURES : list string.
Variable env : Type.
Variable fit_transform : list (list (option Q)) -> result (list (list (option Q))).
Variable fit_predict :
  env -> option Z -> Q -> list (list (option Q)) -> result (list Z).

(** A missing rule column makes the rule layer raise: a KeyError for a rule
    column that the frame lacks, or a TypeError for a rule column of strings
    that is read before it. *)
Lemma rule_layer_raises df name :
  name ∈ rule_columns -> columns df !! name = None ->
  is_Some (columns df !! "locoid") ->
  exists err, rule_layer THRESHOLDS (init_columns df) = Err err /\
    ((err = TypeError /\
      exists c x, c ∈ rule_columns /\ columns df !! c = Some x
                  /\ is_numeric x = false) \/
     exists c, err = KeyError c /\ c ∈ rule_columns /\ columns df !! c = None).
Proof.
  intros Hname Hnone [k Hk].
  set (P := fun err : error =>
    (err = TypeError /\
     exists c x, c ∈ rule_columns /\ columns df !! c = Some x
                 /\ is_numeric x = false) \/
    exists c, err = KeyError c /\ c ∈ rule_columns /\ columns df !! c = None).
  assert (Hkey : forall c, c ∈ rule_columns -> columns df !! c = None ->
            exists err, @Err frame (KeyError c) = Err err /\ P err).
  { intros c Hc Hn. eexists. split; [reflexivity|]. right. eauto. }
  assert (Htype : forall e c x, c ∈ rule_columns -> columns df !! c = Some x ->
            as_float x = Err e ->
            exists err, @Err frame e = Err err /\ P err).
  { intros e c x Hc Hx He. pose proof (as_float_Err _ _ He) as ->. eexists.
    split; [reflexivity|]. left. split; [reflexivity|].
    exists c, x. split_and!; trivial. destruct x; simpl in *; congruence. }
  change (exists err, rule_layer THRESHOLDS (init_columns df) = Err err /\ P err).
  unfold rule_layer.
  rewrite numeric_read by discriminate. simpl rest.
  destruct (columns df !! "temp_motor1_1_max") as [c1|] eqn:H1;
    [|apply Hkey; [in_list|assumption]].
  destruct (as_float c1) as [x1|e1] eqn:Hx1;
    [|eapply Htype; [|eassumption|eassumption]; in_list].
  simpl. rewrite numeric_read by discriminate. simpl rest.
  destruct (columns df !! "temp_motor1_1_rate") as [c2|] eqn:H2;
    [|apply Hkey; [in_list|assumption]].
  destruct (as_float c2) as [x2|e2] eqn:Hx2;
    [|eapply Htype; [|eassumption|eassumption]; in_list].
  simpl. rewrite numeric_read by discriminate. simpl rest.
  destruct (columns df !! "current_u_std") as [c3|] eqn:H3;
    [|apply Hkey; [in_list|assumption]].
  destruct (as_float c3) as [x3|e3] eqn:Hx3;
    [|eapply Htype; [|eassumption|eassumption]; in_list].
  simpl. rewrite numeric_read by discriminate. simpl rest.
  destruct (columns df !! "battery_volt_min") as [c4|] eqn:H4;
    [|apply Hkey; [in_list|assumption]].
  destruct (as_float c4) as [x4|e4] eqn:Hx4;
    [|eapply Htype; [|eassumption|eassumption]; in_list].
  simpl. unfold get. rewrite view_rest by discriminate. simpl rest.
  rewrite Hk. simpl.
  rewrite numeric_read by discriminate. simpl rest.
  destruct (columns df !! "avg_speed") as [c5|] eqn:H5;
    [|apply Hkey; [in_list|assumption]].
  destruct (as_float c5) as [x5|e5] eqn:Hx5;
    [|eapply Htype; [|eassumption|eassumption]; in_list].
  simpl. rewrite numeric_read by discriminate. simpl rest.
  rewrite lookup_insert_eq. simpl.
  rewrite numeric_read by discriminate. simpl rest.
  rewrite lookup_insert_ne by discriminate.
  destruct (columns df !! "pressure_tr1_min") as [c6|] eqn:H6;
    [|apply Hkey; [in_list|assumption]].
  destruct (as_float c6) as [x6|e6] eqn:Hx6;
    [|eapply Htype; [|eassumption|eassumption]; in_list].
  exfalso. unfold rule_columns in Hname.
  repeat (apply elem_of_cons in Hname as [->|Hname]; [congruence|]).
  inversion Hname.
Qed.

(** The forest step of a unit returns when the unit has at most 50 moving
    rows, or when the scaler and the forest return on the matrix of the
    unit, with one label per row. *)
Lemma ml_unit_returns df w w2 l e :
  wf_frame df -> stage_inv df w -> stage_inv df w2 ->
  is_Some (columns df !! "locoid") ->
  (exists c, columns df !! "pct_moving" = Some c /\ is_numeric c = true) ->
  Forall (fun f => f ∉ computed_columns) ANOMALY_FEATURES ->
  (forall f c, f ∈ ANOMALY_FEATURES -> columns df !! f = Some c ->
               is_numeric c = true) ->
  ((50 < length (moving_rows df l))%nat ->
   exists Y p,
     fit_transform (unit_matrix ANOMALY_FEATURES df l) = Ok Y /\
     fit_predict e (Some 42%Z) ISOLATION_FOREST_CONTAMINATION Y = Ok p /\
     length p = length (moving_rows df l)) ->
  exists w',
    ml_unit ISOLATION_FOREST_CONTAMINATION env fit_transform fit_predict e
      (List.filter (has_column w2) ANOMALY_FEATURES) l w = Ok w' /\
    stage_inv df w'.
Proof.
  intros Hdf Hst Hst2 [k Hk] (pc & Hpc & Hpnum) Hinput Hnum Hmodel.
  destruct (as_float_numeric pc Hpnum) as [pct Hpct].
  assert (Hok : exists w',
            ml_unit ISOLATION_FOREST_CONTAMINATION env fit_transform fit_predict
              e (List.filter (has_column w2) ANOMALY_FEATURES) l w = Ok w').
  { rewrite (ml_unit_stage_eq _ _ _ _ df w l _ e k pc pct) by assumption.
    destruct (50 <? length (moving_rows df l))%nat eqn:Hcount; [|eauto].
    apply Nat.ltb_lt in Hcount.
    destruct (Hmodel Hcount) as (Y & p & HY & Hp & Hlen).
    assert (Hpresent :
      List.filter (has_column w2) ANOMALY_FEATURES
      = List.filter (fun f => bool_decide (is_Some (columns df !! f)))
                    ANOMALY_FEATURES).
    { apply filter_ext_in. intros f Hf. unfold has_column.
      rewrite (view_stage df w2 f Hst2); [reflexivity|].
      rewrite List.Forall_forall in Hinput. apply Hinput, Hf. }
    edestruct (traverse_total
                 (fun f => x ← numeric w f;
                           Ok (select (gt_scalar (select (unit_mask df l) pct)
                                                 (1 # 2))
                                      (select (unit_mask df l) x)))
                 (List.filter (has_column w2) ANOMALY_FEATURES))
      as [cols Hcols].
    { apply Forall_forall. intros f Hf.
      apply list_elem_of_In, filter_In in Hf as [Hf Hhas].
      rewrite List.Forall_forall in Hinput.
      unfold has_column in Hhas. apply bool_decide_eq_true in Hhas.
      rewrite (view_stage df w2 f Hst2 (Hinput f Hf)) in Hhas.
      destruct Hhas as [c Hc].
      unfold numeric, get. rewrite (view_stage df w f Hst (Hinput f Hf)), Hc.
      simpl.
      destruct (as_float_numeric c (Hnum f c (proj2 (list_elem_of_In _ _) Hf) Hc))
        as [x ->].
      simpl. eauto. }
    rewrite Hcols. simpl.
    pose proof Hcols as Hmap.
    apply (traverse_Ok_map _
             (fun f => select (gt_scalar (select (unit_mask df l) pct) (1 # 2))
                              (select (unit_mask df l) (float_values df f))))
      in Hmap.
    2:{ apply List.Forall_forall. intros f Hf b Hb.
        apply filter_In in Hf as [Hf _].
        rewrite List.Forall_forall in Hinput.
        inv_bind Hb as x Hx. injection Hb as <-.
        unfold numeric, get in Hx.
        rewrite (view_stage df w f Hst (Hinput f Hf)) in Hx.
        destruct (columns df !! f) as [c|] eqn:Hc; [|discriminate]. simpl in Hx.
        rewrite (float_values_eq _ _ _ _ Hc Hx). reflexivity. }
    assert (HX : to_rows (length (moving_rows df l)) (map fillna_median cols)
                 = unit_matrix ANOMALY_FEATURES df l).
    { unfold unit_matrix. rewrite Hmap, Hpresent, map_map.
      rewrite (float_values_eq _ _ _ _ Hpc Hpct). reflexivity. }
    rewrite HX, HY. simpl. rewrite Hp. simpl.
    rewrite Hlen, Nat.eqb_refl. eauto. }
  destruct Hok as [w' Hw']. exists w'. split; [exact Hw'|].
  eapply ml_unit_stage; [exact Hst|exact Hw'].
Qed.

(** The run returns a frame when the columns that the rules and the loops
    read are present and numeric and, for each unit with more than 50
    moving rows, the scaler and the forest return on the matrix of the
    unit; whether or not the frame has the MAD and forest features. *)
Lemma detect_anomalies_returns e df :
  wf_frame df ->
  is_Some (columns df !! "locoid") ->
  (forall name, name ∈ "pct_moving" :: rule_columns ->
     exists c, columns df !! name = Some c /\ is_numeric c = true) ->
  (forall f c, f ∈ mad_features ++ ANOMALY_FEATURES ->
     columns df !! f = Some c -> is_numeric c = true) ->
  Forall (fun f => f ∉ computed_columns) ANOMALY_FEATURES ->
  (forall l, l ∈ unique (unit_keys df) ->
     (50 < length (moving_rows df l))%nat ->
     exists Y p,
       fit_transform (unit_matrix ANOMALY_FEATURES df l) = Ok Y /\
       fit_predict e (Some 42%Z) ISOLATION_FOREST_CONTAMINATION Y = Ok p /\
       length p = length (moving_rows df l)) ->
  exists out,
    detect_anomalies THRESHOLDS MAD_THRESHOLD ISOLATION_FOREST_CONTAMINATION
      ANOMALY_FEATURES env fit_transform fit_predict e df = Ok out.
Proof.
  intros Hdf Hloco Hcols Hfeat Hinput Hmodel.
  unfold detect_anomalies, read_column.
  destruct Hloco as [k Hk]. rewrite Hk. simpl.
  destruct (rule_layer_total THRESHOLDS df) as [w1 Hw1]; [|eauto|].
  { intros name Hname. apply Hcols. right. exact Hname. }
  rewrite Hw1. simpl.
  pose proof (rule_layer_stage _ _ _ Hdf Hw1) as Hst1.
  assert (Hget : forall w, stage_inv df w -> get w "locoid" = Ok k).
  { intros w Hst. unfold get. rewrite (view_stage df w) by (trivial; in_list).
    rewrite Hk. reflexivity. }
  destruct (foldM_total (stage_inv df) (mad_unit MAD_THRESHOLD)
              (unique (keys_of k)) w1 Hst1) as (w2 & Hw2 & Hst2).
  { intros l w Hst. apply mad_unit_total; [assumption|eauto|].
    intros f c Hf. apply Hfeat. apply elem_of_app. left. exact Hf. }
  unfold mad_layer. rewrite (Hget w1 Hst1). simpl. rewrite Hw2. simpl.
  unfold ml_layer. rewrite (Hget w2 Hst2). simpl.
  destruct (foldM_returns (stage_inv df)
              (ml_unit ISOLATION_FOREST_CONTAMINATION env fit_transform
                 fit_predict e (List.filter (has_column w2) ANOMALY_FEATURES))
              (unique (keys_of k)) w2 Hst2) as (w3 & Hw3 & Hst3).
  { intros l w Hl Hst.
    apply (ml_unit_returns df w w2 l e Hdf Hst Hst2);
      [eauto|apply Hcols; left|exact Hinput| |].
    - intros f c Hf. apply Hfeat. apply elem_of_app. right. exact Hf.
    - apply Hmodel. rewrite (unit_keys_eq _ _ Hk). exact Hl. }
  rewrite Hw3. simpl. eauto.
Qed.

(** C2, as the code has it. A frame that lacks locoid or a column that the
    rules read makes the run raise and return no frame: it raises a KeyError
    for such a missing column, unless a rule column read before it holds
    strings, which raises a TypeError first. A frame that lacks features of
    the MAD or forest lists does not make the run raise, the missing
    features are skipped: when locoid, the rule columns and pct_moving are
    present, these and the listed features that the frame has are numeric,
    the forest list names no column that the run itself adds, and the scaler
    and the forest return on the matrix of each unit with more than 50
    moving rows, the run returns a frame whichever listed features are
    missing. *)
Theorem schema_errors_come_from_the_rule_columns e df :
  (forall name, name ∈ required_columns -> columns df !! name = None ->
     exists err,
       detect_anomalies THRESHOLDS MAD_THRESHOLD ISOLATION_FOREST_CONTAMINATION
         ANOMALY_FEATURES env fit_transform fit_predict e df = Err err /\
       ((err = TypeError /\
         exists c x, c ∈ rule_columns /\ columns df !! c = Some x
                     /\ is_numeric x = false) \/
        exists c, err = KeyError c /\ c ∈ required_columns
                  /\ columns df !! c = None)) /\
  (wf_frame df ->
   is_Some (columns df !! "locoid") ->
   (forall name, name ∈ "pct_moving" :: rule_columns ->
      exists c, columns df !! name = Some c /\ is_numeric c = true) ->
   (forall f c, f ∈ mad_features ++ ANOMALY_FEATURES ->
      columns df !! f = Some c -> is_numeric c = true) ->
   Forall (fun f => f ∉ computed_columns) ANOMALY_FEATURES ->
   (forall l, l ∈ unique (unit_keys df) ->
      (50 < length (moving_rows df l))%nat ->
      exists Y p,
        fit_transform (unit_matrix ANOMALY_FEATURES df l) = Ok Y /\
        fit_predict e (Some 42%Z) ISOLATION_FOREST_CONTAMINATION Y = Ok p /\
        length p = length (moving_rows df l)) ->
   exists out,
     detect_anomalies THRESHOLDS MAD_THRESHOLD ISOLATION_FOREST_CONTAMINATION
       ANOMALY_FEATURES env fit_transform fit_predict e df = Ok out).
Proof.
  split; [|apply detect_anomalies_returns].
  intros name Hname Hnone. unfold detect_anomalies, read_column.
  destruct (columns df !! "locoid") as [k|] eqn:Hk; simpl.
  - apply elem_of_cons in Hname as [->|Hname]; [congruence|].
    destruct (rule_layer_raises df name Hname Hnone)
      as (err & -> & Herr); [eauto|].
    simpl. exists err. split; [reflexivity|].
    destruct Herr as [Htype|(c & -> & Hc & Hcn)]; [left; exact Htype|].
    right. exists c. split_and!; trivial. apply elem_of_cons. right. exact Hc.
  - eexists. split; [reflexivity|]. right. exists "locoid".
    split_and!; trivial. apply elem_of_cons. left. reflexivity.
Qed.

End Returns.

(** C2 amended: the fleet without pressure_tr1_min raises a KeyError for
    that column, and a unit of 51 moving buckets that lacks current_u_mean,
    a feature of the MAD list and of the forest list, returns a frame after
    the scaler and the forest have run on the three features left. *)
Lemma schema_errors_come_from_the_rule_columns_witness :
  (exists err,
     detect_anomalies Sample.thresholds Sample.mad_threshold Sample.contamination
       Sample.features unit Sample.scaler Sample.forest tt
       Sample.fleet_without_pressure = Err err /\
     ((err = TypeError /\
       exists c x, c ∈ rule_columns
                   /\ columns Sample.fleet_without_pressure !! c = Some x
                   /\ is_numeric x = false) \/
      exists c, err = KeyError c /\ c ∈ required_columns
                /\ columns Sample.fleet_without_pressure !! c = None)) /\
  (exists out,
     detect_anomalies Sample.thresholds Sample.mad_threshold Sample.contamination
       Sample.features unit Sample.scaler Sample.forest tt
       Fixtures.dense_unit_without_current = Ok out).
Proof.
  split.
  - apply (proj1 (schema_errors_come_from_the_rule_columns Sample.thresholds
                    Sample.mad_threshold Sample.contamination Sample.features
                    unit Sample.scaler Sample.forest tt
                    Sample.fleet_without_pressure) "pressure_tr1_min").
    + apply (bool_decide_unpack _). vm_compute. exact I.
    + vm_compute. reflexivity.
  - apply (proj2 (schema_errors_come_from_the_rule_columns Sample.thresholds
                    Sample.mad_threshold Sample.contamination Sample.features
                    unit Sample.scaler Sample.forest tt
                    Fixtures.dense_unit_without_current)).
    + apply (bool_decide_unpack _). vm_compute. exact I.
    + vm_compute. eexists. reflexivity.
    + intros name Hname.
      repeat (apply elem_of_cons in Hname as [->|Hname];
              [eexists; split; vm_compute; reflexivity|]).
      inversion Hname.
    + intros f c Hf.
      repeat (apply elem_of_cons in Hf as [->|Hf];
              [vm_compute; intros [= <-]; reflexivity|]).
      inversion Hf.
    + apply (bool_decide_unpack _). vm_compute. exact I.
    + intros l Hl _.
      assert (Hu : unique (unit_keys Fixtures.dense_unit_without_current)
                   = [KNum (inject_Z 7)]) by (vm_compute; reflexivity).
      rewrite Hu in Hl. apply list_elem_of_singleton in Hl as ->.
      eexists _, _. split; [vm_compute; reflexivity|].
      split; vm_compute; reflexivity.
Defined.

(** On that unit the forest has run: it marks the bucket whose mean
    temperature is 1000. *)
Example dense_unit_without_current_is_scored :
  exists out,
    Sample.detect Fixtures.dense_unit_without_current = Ok out /\
    columns out !! "anomaly_ml"
    = Some (IntCol (replicate 5 0%Z ++ 1%Z :: replicate 45 0%Z)).
Proof.
  exists (Sample.returned (Sample.detect Fixtures.dense_unit_without_current)).
  split; vm_compute; reflexivity.
Qed.

(** * Further properties of the detection engine *)

Section Engine.
Variable THRESHOLDS : Thresholds.
Variable MAD_THRESHOLD : Q.

(** The three layers of a run that returns. *)
Lemma detect_anomalies_stages C F env ft fp (e : env) df out :
  detect_anomalies THRESHOLDS MAD_THRESHOLD C F env ft fp e df = Ok out ->
  exists w1 w2 w3,
    rule_layer THRESHOLDS (init_columns df) = Ok w1 /\
    mad_layer MAD_THRESHOLD w1 = Ok w2 /\
    ml_layer C F env ft fp e w2 = Ok w3 /\
    out = combine w3.
Proof.
  intros H. unfold detect_anomalies in H.
  inv_bind H as k Hk. inv_bind H as w1 H1. inv_bind H as w2 H2.
  inv_bind H as w3 H3. apply Ok_inj in H. eauto 10.
Qed.

(** The forest step of a unit writes nothing but the forest flag and the
    tags. *)
Lemma ml_unit_keeps C env ft fp (e : env) ml_features l w w' :
  wf_work w ->
  ml_unit C env ft fp e ml_features l w = Ok w' ->
  wf_work w' /\ index_len w' = index_len w /\ rest w' = rest w /\
  anomaly_rule w' = anomaly_rule w /\ anomaly_mad w' = anomaly_mad w.
Proof.
  intros Hwf H. unfold ml_unit in H.
  inv_bind H as loco_mask Hmask. inv_bind H as pct Hpct.
  destruct (50 <? _)%nat.
  - inv_bind H as cols Hcols. inv_bind H as X HX. inv_bind H as p Hp.
    destruct (_ =? _)%nat; [|discriminate].
    apply Ok_inj in H. subst w'.
    split; [apply mark_ml_wf, Hwf|]. split_and!; reflexivity.
  - apply Ok_inj in H. subst w'. split_and!; trivial.
Qed.

Lemma ml_layer_keeps C F env ft fp (e : env) w w' :
  wf_work w ->
  ml_layer C F env ft fp e w = Ok w' ->
  wf_work w' /\ index_len w' = index_len w /\ rest w' = rest w /\
  anomaly_rule w' = anomaly_rule w /\ anomaly_mad w' = anomaly_mad w.
Proof.
  intros Hwf H. unfold ml_layer in H. inv_bind H as k Hk.
  clear Hk. revert H. generalize (List.filter (has_column w) F).
  intros ml_features. revert w Hwf.
  induction (unique (keys_of k)) as [|l ls IH]; intros w Hwf H; simpl in H.
  - apply Ok_inj in H. subst w'. split_and!; trivial.
  - inv_bind H as w1 H1.
    apply ml_unit_keeps in H1 as (Hwf1 & Hn & Hrest & Hrule & Hmad);
      [|assumption].
    destruct (IH w1 Hwf1 H) as (? & ? & ? & ? & ?).
    split_and!; congruence.
Qed.

(** The flags of the last working frame of a run. *)
Lemma detect_anomalies_flags C F env ft fp (e : env) df w3 :
  wf_frame df ->
  detect_anomalies THRESHOLDS MAD_THRESHOLD C F env ft fp e df
  = Ok (combine w3) ->
  forall (i : nat), (i < nrows df)%nat ->
    exists r m l,
      anomaly_rule w3 !! i = Some r /\ anomaly_mad w3 !! i = Some m /\
      anomaly_ml w3 !! i = Some l /\
      (r = 0 \/ r = 1)%Z /\ (m = 0 \/ m = 1)%Z /\ (l = 0 \/ l = 1)%Z.
Proof.
  intros Hwf Hrun i Hi.
  destruct (detect_anomalies_rows _ _ _ _ _ _ _ _ _ _ Hwf Hrun)
    as (rule & mad & ml & types & score & verdict & sc & Hn & Hcols & _ & Hrows).
  assert (Hr : rule = anomaly_rule w3).
  { apply (f_equal (fun c => c !! "anomaly_rule")) in Hcols.
    unfold combine, view, output_columns in Hcols. simpl in Hcols.
    repeat first [ rewrite lookup_insert_eq in Hcols
                 | rewrite lookup_insert_ne in Hcols by discriminate ].
    congruence. }
  assert (Hm : mad = anomaly_mad w3).
  { apply (f_equal (fun c => c !! "anomaly_mad")) in Hcols.
    unfold combine, view, output_columns in Hcols. simpl in Hcols.
    repeat first [ rewrite lookup_insert_eq in Hcols
                 | rewrite lookup_insert_ne in Hcols by discriminate ].
    congruence. }
  assert (Hl : ml = anomaly_ml w3).
  { apply (f_equal (fun c => c !! "anomaly_ml")) in Hcols.
    unfold combine, view, output_columns in Hcols. simpl in Hcols.
    repeat first [ rewrite lookup_insert_eq in Hcols
                 | rewrite lookup_insert_ne in Hcols by discriminate ].
    congruence. }
  subst rule mad ml.
  destruct (Hrows i Hi) as (r & m & l & tags & s & v & Hri & Hmi & Hli & _ & _ & _
                            & M & L & -> & HM & _ & _ & HL & _).
  exists (Z.b2z (existsb id (rule_bits THRESHOLDS df i))), m, l.
  split_and!; trivial.
  - destruct (existsb id _); simpl; auto.
  - destruct HM as [[_ ->]|[_ ->]]; auto.
  - destruct HL as [[_ ->]|(_ & -> & _)]; auto.
Qed.

Lemma verdicts_ext (R M L L' : list Z) :
  length L = length L' ->
  (forall (i : nat) r m l l',
     R !! i = Some r -> M !! i = Some m -> L !! i = Some l -> L' !! i = Some l' ->
     (r = 0 \/ r = 1)%Z /\ (m = 0 \/ m = 1)%Z /\ (l = 0 \/ l = 1)%Z
     /\ (l' = 0 \/ l' = 1)%Z) ->
  map (fun s => if (2 <=? s)%Z then 1%Z else 0%Z)
      (zip_with Z.add (zip_with (fun r m => (r * 3 + m * 2)%Z) R M)
                      (map (fun l => (l * 1)%Z) L))
  = map (fun s => if (2 <=? s)%Z then 1%Z else 0%Z)
        (zip_with Z.add (zip_with (fun r m => (r * 3 + m * 2)%Z) R M)
                        (map (fun l => (l * 1)%Z) L')).
Proof.
  intros Hlen Hbits. apply list_eq. intros i.
  rewrite !list_lookup_fmap, !lookup_zip_with, !list_lookup_fmap.
  destruct (R !! i) as [r|] eqn:Hr; simpl; [|reflexivity].
  destruct (M !! i) as [m|] eqn:Hm; simpl; [|reflexivity].
  destruct (L !! i) as [l|] eqn:Hl, (L' !! i) as [l'|] eqn:Hl'; simpl;
    trivial.
  - destruct (Hbits i r m l l' Hr Hm Hl Hl') as (H1 & H2 & H3 & H4).
    f_equal.
    destruct H1 as [->| ->], H2 as [->| ->], H3 as [->| ->], H4 as [->| ->];
      reflexivity.
  - apply lookup_lt_Some in Hl. apply lookup_ge_None in Hl'. lia.
  - apply lookup_lt_Some in Hl'. apply lookup_ge_None in Hl. lia.
Qed.

(** The forest never decides: whatever the configuration of the forest
    layer and whatever the scaler and the forest return, two runs on the
    same frame that both return a frame agree on every column but the forest
    flag, the tags and the score; in particular on the verdict, which is 1
    exactly on the rows that a rule or the MAD test flags. *)
Theorem verdict_ignores_the_forest C F env ft fp (e : env)
  C' F' env' ft' fp' (e' : env') df out out' :
  wf_frame df ->
  detect_anomalies THRESHOLDS MAD_THRESHOLD C F env ft fp e df = Ok out ->
  detect_anomalies THRESHOLDS MAD_THRESHOLD C' F' env' ft' fp' e' df = Ok out' ->
  (forall name, name ∉ ["anomaly_ml"; "anomaly_types"; "anomaly_score"] ->
     columns out !! name = columns out' !! name) /\
  exists rule mad verdict,
    columns out !! "anomaly_rule" = Some (IntCol rule) /\
    columns out !! "anomaly_mad" = Some (IntCol mad) /\
    columns out !! "is_anomaly" = Some (IntCol verdict) /\
    forall i, (i < nrows out)%nat ->
      exists r m v,
        rule !! i = Some r /\ mad !! i = Some m /\ verdict !! i = Some v /\
        (v = 1 <-> r = 1 \/ m = 1)%Z.
Proof.
  intros Hwf Hrun Hrun'.
  destruct (detect_anomalies_stages _ _ _ _ _ _ _ _ Hrun)
    as (w1 & w2 & w3 & H1 & H2 & H3 & ->).
  destruct (detect_anomalies_stages _ _ _ _ _ _ _ _ Hrun')
    as (w1' & w2' & w3' & H1' & H2' & H3' & ->).
  assert (w1' = w1) as -> by congruence.
  assert (w2' = w2) as -> by congruence.
  pose proof (rule_layer_stage _ _ _ Hwf H1) as Hs1.
  pose proof (mad_layer_stage _ _ _ _ Hs1 H2) as (Hwf2 & Hn2 & _).
  destruct (ml_layer_keeps _ _ _ _ _ _ _ _ Hwf2 H3)
    as (Hwf3 & Hn3 & Hrest3 & Hrule3 & Hmad3).
  destruct (ml_layer_keeps _ _ _ _ _ _ _ _ Hwf2 H3')
    as (Hwf3' & Hn3' & Hrest3' & Hrule3' & Hmad3').
  pose proof (detect_anomalies_flags _ _ _ _ _ _ _ _ Hwf Hrun) as Hb.
  pose proof (detect_anomalies_flags _ _ _ _ _ _ _ _ Hwf Hrun') as Hb'.
  assert (Hlen : forall w, wf_work w -> index_len w = index_len w2 ->
                   length (anomaly_ml w) = nrows df).
  { intros w (_ & _ & Hl & _) Hw. congruence. }
  split.
  - intros name Hname.
    assert (name <> "anomaly_ml" /\ name <> "anomaly_types"
            /\ name <> "anomaly_score") as (N1 & N2 & N3).
    { split_and!; intros ->; apply Hname; in_list. }
    unfold combine, view. simpl.
    rewrite !(lookup_insert_ne _ "anomaly_types") by congruence.
    rewrite !(lookup_insert_ne _ "anomaly_ml") by congruence.
    destruct (decide (name = "anomaly_mad")) as [->|N4].
    { rewrite !lookup_insert_eq. congruence. }
    rewrite !(lookup_insert_ne _ "anomaly_mad") by congruence.
    destruct (decide (name = "anomaly_rule")) as [->|N5].
    { rewrite !lookup_insert_eq. congruence. }
    rewrite !(lookup_insert_ne _ "anomaly_rule") by congruence.
    destruct (decide (name = "is_anomaly")) as [->|N6].
    { rewrite !lookup_insert_eq. do 2 f_equal.
      rewrite Hrule3, Hmad3, Hrule3', Hmad3'.
      apply verdicts_ext.
      - rewrite (Hlen w3), (Hlen w3'); trivial.
      - intros i r m l l' Hr Hm Hl Hl'.
        assert (Hi : (i < nrows df)%nat).
        { rewrite <- (Hlen w3) by assumption. eapply lookup_lt_Some, Hl. }
        destruct (Hb i Hi) as (r1 & m1 & l1 & Hr1 & Hm1 & Hl1 & B1 & B2 & B3).
        destruct (Hb' i Hi) as (r2 & m2 & l2 & _ & _ & Hl2 & _ & _ & B4).
        rewrite Hrule3 in Hr1. rewrite Hmad3 in Hm1.
        split_and!; congruence. }
    rewrite !(lookup_insert_ne _ "is_anomaly") by congruence.
    rewrite !(lookup_insert_ne _ "anomaly_score") by congruence.
    congruence.
  - eexists _, _, _. unfold combine, view. simpl.
    split; [|split; [|split]].
    + rewrite !lookup_insert_ne by discriminate. apply lookup_insert_eq.
    + rewrite !lookup_insert_ne by discriminate. apply lookup_insert_eq.
    + rewrite !lookup_insert_ne by discriminate. apply lookup_insert_eq.
    + intros i Hi. rewrite Hn3, Hn2 in Hi.
      destruct (Hb i Hi) as (r & m & l & Hr & Hm & Hl & B1 & B2 & B3).
      exists r, m. eexists. split; [exact Hr|]. split; [exact Hm|]. split.
      { rewrite list_lookup_fmap, lookup_zip_with, lookup_zip_with, Hr. simpl.
        rewrite Hm. simpl. rewrite list_lookup_fmap, Hl. reflexivity. }
      destruct B1 as [->| ->], B2 as [->| ->], B3 as [->| ->]; simpl;
        split; intros; auto; try discriminate; try lia.
Qed.

Lemma lt_cell_true thr x :
  lt_cell thr x = true <-> exists q, x = Some q /\ (q < thr)%Q.
Proof.
  destruct x as [q|]; simpl.
  - rewrite Qltb_lt. split; [eauto|]. intros (q' & [= <-] & H). exact H.
  - split; [discriminate|]. intros (q & [=] & _).
Qed.

Lemma gt_cell_abs_true thr x :
  gt_cell thr (option_map Qabs x) = true
  <-> exists q, x = Some q /\ (thr < Qabs q)%Q.
Proof.
  rewrite gt_cell_true. destruct x as [q|]; simpl.
  - split.
    + intros (a & [= <-] & H). eauto.
    + intros (a & [= <-] & H). eauto.
  - split; intros (a & [=] & _).
Qed.

(** A rule tag is in the tags of a row exactly when the rule fires on the
    row. *)
Lemma report_rule_tag_iff T threshold df i r m l tags s v (j : nat) tag :
  row_report T threshold df i r m l tags s v ->
  rule_tags !! j = Some tag ->
  tag ∈ split ";" tags <-> rule_bits T df i !! j = Some true.
Proof.
  intros Hreport Hj. split.
  - intros Hin. eapply report_rule_tag; eassumption.
  - intros Hbit.
    destruct (report_tags_sublist _ _ _ _ _ _ _ _ _ _ Hreport)
      as (M & L & _ & _ & -> & Hsub).
    destruct (tag_string_spec _ Hsub) as (_ & Hsplit). cbv zeta in Hsplit.
    assert (Hin : tag ∈ select (rule_bits T df i) rule_tags ++ M ++ L).
    { apply elem_of_app. left. eapply select_elem_of; eassumption. }
    rewrite Hsplit.
    destruct (select (rule_bits T df i) rule_tags ++ M ++ L);
      [inversion Hin|exact Hin].
Qed.

(** The rules, row by row, on float64 columns and with thresholds that are
    binary64 numbers: the tag of a rule that compares a column with its
    threshold is in the tags of a row exactly when the value of the row is
    present and strictly beyond the threshold (beyond in absolute value for
    the rate of change); a missing value or a value equal to the threshold
    triggers nothing. The tag of the speed rule is there only where the
    speed change of line 88 is defined. The rule flag is 1 exactly when the
    tags hold one of the six rule tags. *)
Theorem rule_tags_follow_the_thresholds C F env ft fp (e : env) df out :
  wf_frame df ->
  (forall name c,
     name ∈ ["temp_motor1_1_max"; "temp_motor1_1_rate"; "current_u_std";
             "battery_volt_min"; "pressure_tr1_min"] ->
     columns df !! name = Some c -> is_float c = true) ->
  Forall binary64
    [temp_motor_max THRESHOLDS; temp_motor_rate_max THRESHOLDS;
     current_std_max THRESHOLDS; battery_min THRESHOLDS;
     pressure_min THRESHOLDS] ->
  detect_anomalies THRESHOLDS MAD_THRESHOLD C F env ft fp e df = Ok out ->
  exists rule types,
    columns out !! "anomaly_rule" = Some (IntCol rule) /\
    columns out !! "anomaly_types" = Some (StrCol types) /\
    forall i, (i < nrows out)%nat ->
      exists r tags,
        rule !! i = Some r /\ types !! i = Some tags /\
        ("HIGH_TEMP" ∈ split ";" tags <->
           exists q, float_cell df "temp_motor1_1_max" i = Some q
                     /\ (temp_motor_max THRESHOLDS < q)%Q) /\
        ("TEMP_SPIKE" ∈ split ";" tags <->
           exists q, float_cell df "temp_motor1_1_rate" i = Some q
                     /\ (temp_motor_rate_max THRESHOLDS < Qabs q)%Q) /\
        ("CURRENT_UNSTABLE" ∈ split ";" tags <->
           exists q, float_cell df "current_u_std" i = Some q
                     /\ (current_std_max THRESHOLDS < q)%Q) /\
        ("LOW_BATTERY" ∈ split ";" tags <->
           exists q, float_cell df "battery_volt_min" i = Some q
                     /\ (q < battery_min THRESHOLDS)%Q) /\
        ("SPEED_JUMP" ∈ split ";" tags ->
           exists q, speed_change_cell df i = Some q) /\
        ("LOW_PRESSURE" ∈ split ";" tags <->
           exists q, float_cell df "pressure_tr1_min" i = Some q
                     /\ (q < pressure_min THRESHOLDS)%Q) /\
        (r = 1%Z <-> exists tag, tag ∈ rule_tags /\ tag ∈ split ";" tags).
Proof.
  intros Hwf _ _ Hrun.
  destruct (detect_anomalies_rows _ _ _ _ _ _ _ _ _ _ Hwf Hrun)
    as (rule & mad & ml & types & score & verdict & sc & Hn & Hcols & _ & Hrows).
  destruct (output_columns_lookup df rule mad ml types score verdict sc)
    as (H1 & _ & _ & H4 & _).
  exists rule, types. rewrite Hcols. split; [exact H1|]. split; [exact H4|].
  intros i Hi. rewrite Hn in Hi.
  destruct (Hrows i Hi)
    as (r & m & l & tags & s & v & Hr & _ & _ & Ht & _ & _ & Hreport).
  exists r, tags. split; [exact Hr|]. split; [exact Ht|].
  pose proof (fun j tag => report_rule_tag_iff _ _ _ _ _ _ _ _ _ _ j tag Hreport)
    as Htag.
  split; [|split; [|split; [|split; [|split; [|split]]]]].
  - rewrite (Htag 0%nat) by reflexivity. simpl. unfold temp_high.
    rewrite <- gt_cell_true. split; congruence.
  - rewrite (Htag 1%nat) by reflexivity. simpl. unfold temp_rate_high.
    rewrite <- gt_cell_abs_true. split; congruence.
  - rewrite (Htag 2%nat) by reflexivity. simpl. unfold current_unstable.
    rewrite <- gt_cell_true. split; congruence.
  - rewrite (Htag 3%nat) by reflexivity. simpl. unfold battery_low.
    rewrite <- lt_cell_true. split; congruence.
  - rewrite (Htag 4%nat) by reflexivity. simpl. unfold speed_jump.
    intros [= Hjump]. apply gt_cell_true in Hjump as (q & Hq & _). eauto.
  - rewrite (Htag 5%nat) by reflexivity. simpl. unfold pressure_low.
    rewrite <- lt_cell_true. split; congruence.
  - destruct Hreport as (M & L & -> & _). split.
    + intros Hone.
      assert (Hany : existsb id (rule_bits THRESHOLDS df i) = true)
        by (destruct (existsb id _); [reflexivity|discriminate]).
      apply existsb_true_lookup in Hany as (j & Hj).
      assert (is_Some (rule_tags !! j)) as [tag Htg].
      { apply lookup_lt_is_Some. apply lookup_lt_Some in Hj. exact Hj. }
      exists tag. split; [eapply list_elem_of_lookup_2, Htg|].
      apply (Htag j tag Htg). exact Hj.
    + intros (tag & Hin & Hsplit).
      apply list_elem_of_lookup_1 in Hin as (j & Hj).
      apply (Htag j tag Hj) in Hsplit.
      assert (Hany : existsb id (rule_bits THRESHOLDS df i) = true).
      { apply existsb_exists. exists true. split; [|reflexivity].
        apply list_elem_of_In. eapply list_elem_of_lookup_2, Hsplit. }
      rewrite Hany. reflexivity.
Qed.

Lemma select_rule_bits_nil T df i :
  select (rule_bits T df i) rule_tags = [] ->
  existsb id (rule_bits T df i) = false.
Proof.
  unfold rule_bits.
  destruct (temp_high T df i), (temp_rate_high T df i),
    (current_unstable T df i), (battery_low T df i), (speed_jump T df i),
    (pressure_low T df i); simpl; trivial; discriminate.
Qed.

(** A row has no tag exactly when its score is 0: every flagged row says
    which layer flagged it, and no other row says anything. *)
Theorem tags_are_empty_exactly_when_score_is_zero C F env ft fp (e : env)
  df out :
  wf_frame df ->
  detect_anomalies THRESHOLDS MAD_THRESHOLD C F env ft fp e df = Ok out ->
  exists types score,
    columns out !! "anomaly_types" = Some (StrCol types) /\
    columns out !! "anomaly_score" = Some (IntCol score) /\
    forall i, (i < nrows out)%nat ->
      exists tags s,
        types !! i = Some tags /\ score !! i = Some s /\
        (tags = "" <-> s = 0%Z).
Proof.
  intros Hwf Hrun.
  destruct (detect_anomalies_rows _ _ _ _ _ _ _ _ _ _ Hwf Hrun)
    as (rule & mad & ml & types & score & verdict & sc & Hn & Hcols & _ & Hrows).
  destruct (output_columns_lookup df rule mad ml types score verdict sc)
    as (_ & _ & _ & H4 & H5 & _).
  exists types, score. rewrite Hcols. split; [exact H4|]. split; [exact H5|].
  intros i Hi. rewrite Hn in Hi.
  destruct (Hrows i Hi)
    as (r & m & l & tags & s & v & _ & _ & _ & Ht & Hs & _ & Hreport).
  exists tags, s. split; [exact Ht|]. split; [exact Hs|].
  destruct Hreport as (M & L & -> & HM & HsubM & _ & HL & -> & -> & _).
  assert (Hsub : (select (rule_bits THRESHOLDS df i) rule_tags ++ M ++ L)
                   `sublist_of` all_tags).
  { unfold all_tags. apply sublist_app; [apply select_sublist|].
    apply sublist_app; [assumption|].
    destruct HL as [[-> _]|(-> & _)]; [apply sublist_nil_l|reflexivity]. }
  destruct (tag_string_spec _ Hsub) as (_ & Hsplit). cbv zeta in Hsplit.
  split.
  - intros Hempty. rewrite Hempty in Hsplit.
    destruct (select (rule_bits THRESHOLDS df i) rule_tags ++ M ++ L)
      as [|t ts] eqn:Hts.
    + apply app_eq_nil in Hts as (Hsel & [-> ->]%app_eq_nil).
      rewrite (select_rule_bits_nil _ _ _ Hsel).
      destruct HM as [[_ ->]|[HM _]]; [|congruence].
      destruct HL as [[_ ->]|(HL & _)]; [reflexivity|discriminate].
    + exfalso. simpl in Hsplit. injection Hsplit as <- _.
      apply (all_tags_nonempty "").
      * eapply elem_of_sublist; [|exact Hsub]. apply list_elem_of_here.
      * reflexivity.
  - intros Hzero.
    assert (existsb id (rule_bits THRESHOLDS df i) = false /\ M = [] /\ L = [])
      as (Hbits & -> & ->).
    { destruct (existsb id _), HM as [[-> ->]|[? ->]],
        HL as [[-> ->]|(-> & -> & ?)]; simpl in Hzero;
        first [lia | split_and!; reflexivity]. }
    rewrite (select_none _ _ Hbits). reflexivity.
Qed.

End Engine.

Section EngineMad.
Variable THRESHOLDS : Thresholds.
Variable MAD_THRESHOLD : Q.

(** The sample-size guard of line 117: a feature with at most 10 values in
    the unit of a row (missing values not counted) is not tested, whatever
    the values, and the row does not carry the MAD tag of that feature. *)
Theorem small_groups_raise_no_mad_flag C F env ft fp (e : env) df out i f :
  wf_frame df ->
  detect_anomalies THRESHOLDS MAD_THRESHOLD C F env ft fp e df = Ok out ->
  (i < nrows df)%nat -> f ∈ mad_features ->
  (length (values (unit_values df f (unit_of df i))) <= 10)%nat ->
  exists types tags,
    columns out !! "anomaly_types" = Some (StrCol types) /\
    types !! i = Some tags /\ mad_tag f ∉ split ";" tags.
Proof.
  intros Hwf Hrun Hi Hf Hsmall.
  eapply no_mad_hit_no_tag; try eassumption.
  unfold mad_hit.
  destruct (Nat.ltb_spec 10 (length (values (unit_values df f (unit_of df i)))));
    [lia|reflexivity].
Qed.

End EngineMad.

(** ** The MAD layer, exactly *)

Lemma float_values_none df name :
  columns df !! name = None -> float_values df name = [].
Proof. unfold float_values. intros ->. reflexivity. Qed.

Lemma float_values_Err df name c e :
  columns df !! name = Some c -> as_float c = Err e -> float_values df name = [].
Proof. unfold float_values. intros -> ->. reflexivity. Qed.

Lemma mad_hit_nil threshold x : mad_hit threshold [] x = false.
Proof. reflexivity. Qed.

Lemma notna_count_select mask c x :
  as_float c = Ok x ->
  notna_count (select_col mask c) = length (values (select mask x)).
Proof.
  destruct c as [xs|xs|xs]; simpl; intros [= <-]; [reflexivity|].
  rewrite select_map, values_map_Some, length_map. reflexivity.
Qed.

Section MadExact.
Variable MAD_THRESHOLD : Q.

(** One (unit, feature) pair marks exactly the rows of the unit that pass
    the MAD test. *)
Lemma mad_feature_exact df loco_mask (w0 : frame) feature w w' :
  wf_frame df -> wf_work w -> index_len w = nrows df ->
  length loco_mask = index_len w ->
  view w0 !! feature = columns df !! feature ->
  view w !! feature = columns df !! feature ->
  mad_feature MAD_THRESHOLD loco_mask (select_col loco_mask <$> view w0)
    feature w = Ok w' ->
  exists hit,
    length hit = index_len w /\
    w' = mark_mad hit ("MAD_" +:+ upper feature +:+ ";") w /\
    forall (i : nat) (b : bool), loco_mask !! i = Some b ->
      hit !! i
      = Some (b && mad_hit MAD_THRESHOLD
                     (select loco_mask (float_values df feature))
                     (float_cell df feature i)).
Proof.
  intros Hdf Hwf Hn Hlen Hv0 Hv H.
  assert (Hskip :
    (forall x, mad_hit MAD_THRESHOLD
                 (select loco_mask (float_values df feature)) x = false) ->
    w' = w -> exists hit,
    length hit = index_len w /\
    w' = mark_mad hit ("MAD_" +:+ upper feature +:+ ";") w /\
    forall (i : nat) (b : bool), loco_mask !! i = Some b ->
      hit !! i
      = Some (b && mad_hit MAD_THRESHOLD
                     (select loco_mask (float_values df feature))
                     (float_cell df feature i))).
  { intros Hno ->. exists (replicate (index_len w) false).
    split; [apply length_replicate|].
    split; [symmetry; apply mark_mad_none, Hwf|].
    intros i b Hb. rewrite Hno, andb_false_r. apply lookup_replicate_2.
    rewrite <- Hlen. eapply lookup_lt_Some, Hb. }
  unfold mad_feature in H. unfold has_column in H. rewrite Hv in H.
  rewrite lookup_fmap, Hv0 in H.
  destruct (columns df !! feature) as [c|] eqn:Hc; simpl in H.
  2:{ apply Hskip; [|congruence].
      intros x. rewrite (float_values_none _ _ Hc), select_nil_r.
      reflexivity. }
  destruct (as_float c) as [x|err] eqn:Hx.
  2:{ destruct (10 <? notna_count (select_col loco_mask c))%nat.
      - exfalso. destruct c; simpl in *; discriminate.
      - apply Hskip; [|congruence].
        intros x. rewrite (float_values_Err _ _ _ _ Hc Hx), select_nil_r.
        reflexivity. }
  rewrite (float_values_eq _ _ _ _ Hc Hx) in *.
  pose proof (notna_count_select loco_mask _ _ Hx) as Hcount.
  destruct (10 <? notna_count (select_col loco_mask c))%nat eqn:Hten.
  2:{ apply Hskip; [|congruence]. intros x0. unfold mad_hit.
      rewrite <- Hcount, Hten. reflexivity. }
  inv_bind H as x' Hx'.
  apply as_float_select in Hx' as (x1 & Hx1 & -> & _).
  assert (x1 = x) as -> by congruence.
  unfold calculate_mad in H. simpl in H.
  destruct (median (abs_series _)) as [m|] eqn:Hmad.
  2:{ apply Hskip; [|congruence]. intros x0. unfold mad_hit, calculate_mad.
      rewrite Hmad, andb_false_r. reflexivity. }
  destruct (Qltb 0 m) eqn:Hm.
  2:{ apply Hskip; [|congruence]. intros x0. unfold mad_hit, calculate_mad.
      rewrite Hmad, Hm, andb_false_r. reflexivity. }
  injection H as <-. clear Hskip.
  eexists. split; [|split; [reflexivity|]].
  - unfold mask_and. rewrite length_zip_with, align_length. lia.
  - intros i b Hb.
    assert (is_Some (x !! i)) as [xv Hxv].
    { apply lookup_lt_is_Some.
      rewrite (wf_column_length _ _ _ _ Hdf Hc Hx), <- Hn, <- Hlen.
      eapply lookup_lt_Some, Hb. }
    unfold mask_and. rewrite lookup_zip_with, Hb. simpl.
    unfold gt_scalar, abs_series, div_scalar, sub_scalar.
    rewrite !map_map.
    rewrite (align_select_lookup _ _ _ _ _ _ Hb Hxv). simpl.
    f_equal. unfold float_cell.
    rewrite (float_values_eq _ _ _ _ Hc Hx), Hxv. simpl.
    unfold mad_hit, calculate_mad.
    rewrite <- Hcount, Hten, Hmad, Hm. simpl.
    destruct b; reflexivity.
Qed.

(** The inner loop over the features, for one unit, row by row. *)
Lemma mad_features_exact df loco_mask w0 features w w' :
  wf_frame df -> wf_work w -> index_len w = nrows df ->
  length loco_mask = index_len w ->
  rest w = rest w0 ->
  (forall f, f ∈ features ->
     f ∈ mad_features /\ rest w0 !! f = columns df !! f) ->
  foldM (mad_feature MAD_THRESHOLD loco_mask (select_col loco_mask <$> view w0))
        features w = Ok w' ->
  wf_work w' /\ index_len w' = index_len w /\ rest w' = rest w /\
  anomaly_rule w' = anomaly_rule w /\ anomaly_ml w' = anomaly_ml w /\
  forall (i : nat) (b : bool) m t,
    loco_mask !! i = Some b ->
    anomaly_mad w !! i = Some m -> anomaly_types w !! i = Some t ->
    let bs := map (fun f => b && mad_hit MAD_THRESHOLD
                                   (select loco_mask (float_values df f))
                                   (float_cell df f i)) features in
    anomaly_mad w' !! i = Some (if existsb id bs then 1%Z else m) /\
    anomaly_types w' !! i
    = Some (t +:+ join_tags (select bs (map mad_tag features))).
Proof.
  intros Hdf. revert w.
  induction features as [|f features IH]; intros w Hwf Hn Hlen Hrest Hfs H.
  - injection H as <-. split_and!; trivial.
    intros i b m t Hb Hm Ht. simpl. rewrite string_app_nil_r. split; assumption.
  - simpl in H. inv_bind H as w1 H1.
    assert (Hf : f ∈ mad_features /\ rest w0 !! f = columns df !! f)
      by (apply Hfs, list_elem_of_here).
    destruct Hf as (Hf & Hlink).
    assert (Hname : f <> "anomaly_rule" /\ f <> "anomaly_mad"
                    /\ f <> "anomaly_ml" /\ f <> "anomaly_types").
    { unfold mad_features in Hf.
      repeat (apply elem_of_cons in Hf as [->|Hf]);
        [split_and!; discriminate..|inversion Hf]. }
    destruct Hname as (N1 & N2 & N3 & N4).
    apply (mad_feature_exact df) in H1 as (hit & Hhit & -> & Hexact);
      try assumption.
    2:{ rewrite view_rest by assumption. exact Hlink. }
    2:{ rewrite view_rest by assumption. rewrite Hrest. exact Hlink. }
    apply IH in H as (Hwf' & Hn' & Hrest' & Hrule & Hml & Hrows);
      [|apply mark_mad_wf; assumption|assumption|assumption|assumption|].
    2:{ intros f' Hf'. apply Hfs, list_elem_of_further, Hf'. }
    split_and!; trivial.
    intros i b m t Hb Hm Ht.
    pose proof (Hexact i b Hb) as Hh.
    set (h := mad_hit MAD_THRESHOLD (select loco_mask (float_values df f))
                (float_cell df f i)) in *.
    destruct (Hrows i b (if b && h then 1%Z else m)
                (if b && h then t +:+ ("MAD_" +:+ upper f +:+ ";") else t) Hb)
      as (Hm' & Ht').
    { simpl. apply loc_set_lookup; assumption. }
    { simpl. apply loc_append_lookup; assumption. }
    simpl. fold h. rewrite Hm', Ht'. clear Hm' Ht' Hh. split.
    + destruct (b && h), (existsb id _); reflexivity.
    + f_equal. destruct (b && h); simpl; [|reflexivity].
      unfold mad_tag. rewrite <- !string_app_assoc. reflexivity.
Qed.

Lemma pending_cons df l ls i :
  pending df (l :: ls) i = key_eqb (unit_of df i) l || pending df ls i.
Proof. reflexivity. Qed.

Lemma pending_distinct df l ls i :
  distinct_keys (l :: ls) -> key_eqb (unit_of df i) l = true ->
  pending df ls i = false.
Proof.
  intros Hdist Hunit. inversion Hdist as [|? ? Hall _]; subst.
  unfold pending. apply not_true_is_false. intros Hex.
  apply existsb_exists in Hex as (l' & Hin & Hl').
  apply list_elem_of_In in Hin. rewrite Forall_forall in Hall.
  rewrite (key_eqb_distinct _ _ _ Hunit (Hall _ Hin)) in Hl'. discriminate.
Qed.

Lemma mad_unit_done df w0 l ls w w1 :
  wf_frame df -> index_len w0 = nrows df ->
  (forall f, f ∈ "locoid" :: mad_features -> rest w0 !! f = columns df !! f) ->
  distinct_keys (l :: ls) ->
  mad_done MAD_THRESHOLD df w0 w (l :: ls) ->
  mad_unit MAD_THRESHOLD l w = Ok w1 ->
  mad_done MAD_THRESHOLD df w0 w1 ls.
Proof.
  intros Hdf Hn0 Hlink Hdist (Hwf & Hn & Hrest & Hrule & Hml & Hrows) H.
  unfold mad_unit in H. inv_bind H as loco_mask Hmask.
  unfold loco_mask_of, get in Hmask. rewrite view_rest in Hmask by discriminate.
  rewrite Hrest, Hlink in Hmask by apply list_elem_of_here.
  destruct (columns df !! "locoid") as [k|] eqn:Hk; [|discriminate].
  simpl in Hmask. injection Hmask as <-.
  assert (Hlen : length (map (fun k' => key_eqb k' l) (keys_of k)) = index_len w).
  { rewrite length_map, keys_of_length.
    destruct Hwf as (_ & _ & _ & _ & Ho). apply (Ho "locoid").
    rewrite Hrest, Hlink by apply list_elem_of_here. assumption. }
  assert (Hmf : forall f, f ∈ mad_features ->
                  rest w0 !! f = columns df !! f).
  { intros f Hf. apply Hlink, list_elem_of_further, Hf. }
  apply (mad_features_exact df _ w) in H
    as (Hwf1 & Hn1 & Hrest1 & Hrule1 & Hml1 & Hrows1); try assumption;
    try congruence.
  2:{ intros f Hf. split; [assumption|]. rewrite Hrest. apply Hmf, Hf. }
  unfold mad_done. split_and!; try congruence.
  intros i t Ht.
  destruct (Hrows i t Ht) as (Htw & Hmw).
  assert (Hi : (i < length (keys_of k))%nat).
  { rewrite length_map in Hlen. rewrite Hlen.
    destruct Hwf as (_ & _ & _ & <- & _). eapply lookup_lt_Some, Htw. }
  destruct (lookup_lt_is_Some_2 _ _ Hi) as [ki Hki].
  assert (Hunit : unit_of df i = ki).
  { unfold unit_of. rewrite (unit_keys_eq _ _ Hk), Hki. reflexivity. }
  assert (Hb : map (fun k' => key_eqb k' l) (keys_of k) !! i
               = Some (key_eqb (unit_of df i) l)).
  { rewrite list_lookup_fmap, Hki, Hunit. reflexivity. }
  destruct (Hrows1 i _ _ _ Hb Hmw Htw) as (Hm1 & Ht1).
  rewrite pending_cons in Htw, Hmw, Hm1, Ht1.
  cbv zeta in Hm1, Ht1, Htw, Hmw. cbv zeta.
  destruct (key_eqb (unit_of df i) l) eqn:Hkey; cbn [andb orb] in *.
  - rewrite (pending_distinct _ _ _ _ Hdist Hkey).
    assert (Hbits :
      map (fun f => mad_hit MAD_THRESHOLD
                      (select (map (fun k' => key_eqb k' l) (keys_of k))
                              (float_values df f))
                      (float_cell df f i)) mad_features
      = mad_bits MAD_THRESHOLD df i).
    { unfold mad_bits. apply map_ext. intros f.
      unfold unit_values, unit_mask. rewrite (unit_keys_eq _ _ Hk).
      do 2 f_equal. apply map_ext. intros k'.
      apply key_eqb_same. exact Hkey. }
    rewrite Hbits in Hm1, Ht1. simpl in Ht1. rewrite string_app_nil_r in Ht1.
    split; [exact Ht1|]. rewrite Hm1.
    destruct (existsb id (mad_bits MAD_THRESHOLD df i)); reflexivity.
  - assert (Hnone : existsb id (map (fun _ : string => false) mad_features)
                    = false) by reflexivity.
    rewrite Hnone in Hm1. rewrite (select_none _ _ Hnone) in Ht1.
    simpl in Ht1. rewrite string_app_nil_r in Ht1.
    split; assumption.
Qed.

Lemma mad_units_done df w0 locos w w' :
  wf_frame df -> index_len w0 = nrows df ->
  (forall f, f ∈ "locoid" :: mad_features -> rest w0 !! f = columns df !! f) ->
  distinct_keys locos ->
  mad_done MAD_THRESHOLD df w0 w locos ->
  foldM (mad_unit MAD_THRESHOLD) locos w = Ok w' ->
  mad_done MAD_THRESHOLD df w0 w' [].
Proof.
  intros Hdf Hn Hlink. revert w.
  induction locos as [|l ls IH]; intros w Hdist Hinv H.
  - injection H as <-. assumption.
  - simpl in H. inv_bind H as w1 H1.
    eapply IH; [|eapply mad_unit_done; eassumption|eassumption].
    inversion Hdist; assumption.
Qed.

Lemma same_key_refl k : same_key k k = true.
Proof.
  destruct k as [q|s|]; simpl; [|apply String.eqb_refl|reflexivity].
  apply Qeq_bool_iff. reflexivity.
Qed.

Lemma same_key_trans a b c :
  same_key a b = true -> same_key b c = true -> same_key a c = true.
Proof.
  destruct a as [x|s|], b as [y|t|], c as [z|u|]; simpl; try discriminate;
    trivial.
  - rewrite !Qeq_bool_iff. intros -> ->. reflexivity.
  - rewrite !String.eqb_eq. congruence.
Qed.

(** [unique()] keeps a representative of every value. *)
Lemma unique_covers ks k :
  k ∈ ks -> exists l, l ∈ unique ks /\ same_key l k = true.
Proof.
  induction ks as [|k0 ks IH]; intros Hin; [inversion Hin|].
  apply elem_of_cons in Hin as [->|Hin].
  - exists k0. split; [apply list_elem_of_here|apply same_key_refl].
  - destruct (IH Hin) as (l & Hl & Hsame). simpl.
    destruct (same_key k0 l) eqn:H0.
    + exists k0. split; [apply list_elem_of_here|].
      eapply same_key_trans; eassumption.
    + exists l. split; [|assumption].
      apply list_elem_of_further, list_elem_of_In, filter_In.
      split; [apply list_elem_of_In, Hl|]. rewrite H0. reflexivity.
Qed.

Lemma select_all_false {A : Type} (mask : list bool) (xs : list A) :
  Forall (fun b => b = false) mask -> select mask xs = [].
Proof.
  revert xs. induction mask as [|b mask IH]; intros [|x xs] H; simpl; trivial.
  inversion H as [|? ? -> Hrest]; subst. apply IH, Hrest.
Qed.

(** A row whose unit is not among the units that the loops visit (a row
    without a unit) shares its unit with no row. *)
Lemma not_pending_alone df k i j :
  columns df !! "locoid" = Some k ->
  pending df (unique (keys_of k)) i = false ->
  key_eqb (unit_of df j) (unit_of df i) = false.
Proof.
  intros Hk Hpend. apply not_true_is_false. intros Heq.
  assert (Hin : unit_of df j ∈ keys_of k).
  { unfold unit_of in *. rewrite (unit_keys_eq _ _ Hk) in *.
    destruct (keys_of k !! j) as [kj|] eqn:Hj; simpl in *; [|discriminate].
    eapply list_elem_of_lookup_2, Hj. }
  destruct (unique_covers (keys_of k) _ Hin) as (l & Hl & Hsame).
  assert (Hkl : key_eqb (unit_of df j) l = true).
  { rewrite same_key_sym in Hsame.
    destruct (unit_of df j) as [x|s|], l as [y|t|]; simpl in *; trivial;
      discriminate. }
  assert (Hul : key_eqb (unit_of df i) l = true).
  { rewrite key_eqb_sym, (key_eqb_same _ _ l Heq), key_eqb_sym. exact Hkl. }
  assert (Hex : pending df (unique (keys_of k)) i = true).
  { apply existsb_exists. exists l.
    split; [apply list_elem_of_In, Hl|exact Hul]. }
  congruence.
Qed.

Lemma unit_mask_lookup df u (j : nat) b :
  unit_mask df u !! j = Some b -> b = key_eqb (unit_of df j) u.
Proof.
  unfold unit_mask, unit_of. rewrite list_lookup_fmap.
  destruct (unit_keys df !! j); simpl; congruence.
Qed.

(** Such a row passes no MAD test: its group is empty. *)
Lemma not_pending_no_hits df k i :
  columns df !! "locoid" = Some k ->
  pending df (unique (keys_of k)) i = false ->
  mad_bits MAD_THRESHOLD df i = map (fun _ => false) mad_features.
Proof.
  intros Hk Hpend. unfold mad_bits. apply map_ext. intros f.
  unfold unit_values.
  rewrite select_all_false; [reflexivity|].
  apply Forall_lookup. intros j b Hb.
  apply unit_mask_lookup in Hb as ->.
  eapply not_pending_alone; eassumption.
Qed.

Lemma mad_done_start df w0 k :
  wf_work w0 -> anomaly_mad w0 = replicate (index_len w0) 0%Z ->
  columns df !! "locoid" = Some k ->
  mad_done MAD_THRESHOLD df w0 w0 (unique (keys_of k)).
Proof.
  intros Hwf Hmad Hk. unfold mad_done. split_and!; trivial.
  intros i t Ht.
  assert (Hbits :
    existsb id (if pending df (unique (keys_of k)) i then []
                else mad_bits MAD_THRESHOLD df i) = false).
  { destruct (pending df (unique (keys_of k)) i) eqn:Hp; [reflexivity|].
    rewrite (not_pending_no_hits _ _ _ Hk Hp). reflexivity. }
  cbv zeta. rewrite Hbits, (select_none _ _ Hbits). simpl.
  rewrite string_app_nil_r. split; [exact Ht|].
  rewrite Hmad. apply lookup_replicate_2.
  destruct Hwf as (_ & _ & _ & <- & _). eapply lookup_lt_Some, Ht.
Qed.

End MadExact.

Section MadRun.
Variable THRESHOLDS : Thresholds.
Variable MAD_THRESHOLD : Q.

(** The MAD flag and the tags of every row of a run that returns. *)
Lemma detect_anomalies_mad_rows C F env ft fp (e : env) df out :
  wf_frame df ->
  detect_anomalies THRESHOLDS MAD_THRESHOLD C F env ft fp e df = Ok out ->
  exists mad types,
    nrows out = nrows df /\
    columns out !! "anomaly_mad" = Some (IntCol mad) /\
    columns out !! "anomaly_types" = Some (StrCol types) /\
    forall i, (i < nrows df)%nat ->
      exists L,
        L `sublist_of` ml_tags /\
        mad !! i = Some (Z.b2z (existsb id (mad_bits MAD_THRESHOLD df i))) /\
        types !! i
        = Some (rstrip ";"
                  (join_tags (select (rule_bits THRESHOLDS df i) rule_tags
                              ++ select (mad_bits MAD_THRESHOLD df i) mad_tags
                              ++ L))).
Proof.
  intros Hdf H. unfold detect_anomalies in H.
  inv_bind H as k0 Hk0.
  unfold read_column in Hk0.
  destruct (columns df !! "locoid") as [k|] eqn:Hk; [|discriminate]. clear Hk0.
  inv_bind H as w1 Hrule.
  apply rule_layer_rows in Hrule
    as (Hn1 & Hmad1 & Hml1 & (sc & Hrest1 & Hsc) & Hlr1 & Hlt1 & Hrows1);
    [|assumption].
  assert (Hwf1 : wf_work w1).
  { unfold wf_work. rewrite Hmad1, Hml1, !length_replicate, Hn1, Hrest1.
    split_and!; trivial.
    apply map_Forall_insert_2; [exact Hsc|exact Hdf]. }
  assert (Hlink : forall f, f <> "speed_change" ->
                            rest w1 !! f = columns df !! f).
  { intros f Hf. rewrite Hrest1. apply lookup_insert_ne. congruence. }
  inv_bind H as w2 Hmad.
  unfold mad_layer in Hmad. inv_bind Hmad as k' Hk'.
  assert (k' = k) as ->.
  { unfold get in Hk'. rewrite view_rest, Hlink, Hk in Hk' by discriminate.
    congruence. }
  apply (mad_units_done MAD_THRESHOLD df w1) in Hmad
    as (Hwf2 & Hn2 & Hrest2 & Hrule2 & Hml2 & Hrows2); try assumption.
  2:{ intros f Hf. apply Hlink. intros ->. unfold mad_features in Hf.
      repeat (apply elem_of_cons in Hf as [Hf|Hf]; [discriminate|]).
      inversion Hf. }
  2:{ apply unique_distinct. }
  2:{ apply mad_done_start; try assumption. rewrite Hn1. assumption. }
  inv_bind H as w3 Hml.
  unfold ml_layer in Hml. inv_bind Hml as k'' Hk''.
  apply (ml_units_inv _ _ _ _ _ _ df w2) in Hml
    as (Hwf3 & Hn3 & Hrest3 & Hrule3 & Hmad3 & Hrows3).
  2:{ congruence. }
  2:{ assumption. }
  2:{ intros f Hf. rewrite Hrest2. apply Hlink. intros ->.
      repeat (apply elem_of_cons in Hf as [Hf|Hf]; [discriminate|]).
      inversion Hf. }
  2:{ apply unique_distinct. }
  2:{ apply ml_inv_start; [assumption|]. rewrite Hml2, Hn2, Hn1. assumption. }
  injection H as <-. unfold combine, view. simpl.
  eexists _, _. split; [congruence|]. split; [|split].
  { rewrite !lookup_insert_ne by discriminate. apply lookup_insert_eq. }
  { apply lookup_insert_eq. }
  intros i Hi.
  destruct (Hrows1 i Hi) as (_ & Ht).
  destruct (Hrows2 i _ Ht) as (Ht2 & Hm2). cbv zeta in Ht2, Hm2.
  change (pending df [] i) with false in Ht2, Hm2. cbv iota in Ht2, Hm2.
  destruct (Hrows3 i _ Ht2) as (L & l & Ht3 & _ & Hcase & _).
  exists L. split.
  { destruct Hcase as [[-> _]|(-> & _)]; [apply sublist_nil_l|reflexivity]. }
  split; [rewrite Hmad3; exact Hm2|].
  rewrite list_lookup_fmap, Ht3. simpl.
  rewrite !join_tags_app, string_app_assoc. reflexivity.
Qed.

Lemma mad_hit_true threshold group x :
  mad_hit threshold group x = true <->
  (10 < length (values group))%nat /\
  exists med mad q,
    calculate_mad (dropna group) = (Some med, Some mad) /\ (0 < mad)%Q /\
    x = Some q /\
    (threshold < Qabs ((q - med) / ((14826 # 10000) * mad)))%Q.
Proof.
  unfold mad_hit. rewrite andb_true_iff, Nat.ltb_lt.
  destruct (calculate_mad (dropna group)) as [med_ mad_].
  destruct mad_ as [m|].
  - rewrite andb_true_iff, Qltb_lt, gt_cell_true.
    split.
    + intros (Hn & Hm & a & Ha & Hlt). split; [exact Hn|].
      destruct x as [q|], med_ as [med|]; simpl in Ha; try discriminate.
      injection Ha as <-. exists med, m, q. split_and!; trivial.
    + intros (Hn & med & mad & q & [= -> ->] & Hm & -> & Hlt).
      split; [exact Hn|]. split; [exact Hm|]. simpl. eauto.
  - split; [intros (_ & [=])|].
    intros (_ & med & mad & q & [=] & _).
Qed.

Lemma mad_tag_elsewhere f :
  f ∈ mad_features -> (mad_tag f ∉ rule_tags) /\ (mad_tag f ∉ ml_tags).
Proof.
  intros Hf. unfold mad_features in Hf.
  repeat (apply elem_of_cons in Hf as [->|Hf]); [..|inversion Hf];
    split; apply (bool_decide_unpack _); vm_compute; exact I.
Qed.

(** The tag of a MAD feature is in the tags of a row exactly when the row
    passes the test of that feature. *)
Lemma mad_tag_in_tags df i L f :
  f ∈ mad_features -> L `sublist_of` ml_tags ->
  mad_tag f ∈ split ";"
    (rstrip ";"
       (join_tags (select (rule_bits THRESHOLDS df i) rule_tags
                   ++ select (mad_bits MAD_THRESHOLD df i) mad_tags ++ L)))
  <-> mad_hit MAD_THRESHOLD (unit_values df f (unit_of df i))
        (float_cell df f i) = true.
Proof.
  intros Hf HL.
  destruct (mad_tag_elsewhere f Hf) as (Hnr & Hnl).
  assert (Hsub : (select (rule_bits THRESHOLDS df i) rule_tags
                  ++ select (mad_bits MAD_THRESHOLD df i) mad_tags ++ L)
                   `sublist_of` all_tags).
  { unfold all_tags. apply sublist_app; [apply select_sublist|].
    apply sublist_app; [apply select_sublist|assumption]. }
  destruct (tag_string_spec _ Hsub) as (_ & Hsplit). cbv zeta in Hsplit.
  rewrite Hsplit. clear Hsplit.
  assert (Hmem :
    mad_tag f ∈ select (rule_bits THRESHOLDS df i) rule_tags
                ++ select (mad_bits MAD_THRESHOLD df i) mad_tags ++ L
    <-> mad_hit MAD_THRESHOLD (unit_values df f (unit_of df i))
          (float_cell df f i) = true).
  { rewrite !elem_of_app. split.
    - intros [Hin|[Hin|Hin]].
      + exfalso. apply Hnr. eapply elem_of_sublist; [exact Hin|].
        apply select_sublist.
      + apply elem_of_select in Hin as (j & Hj & Hjf).
        unfold mad_tags in Hjf. rewrite list_lookup_fmap in Hjf.
        destruct (mad_features !! j) as [f'|] eqn:Hf'; [|discriminate].
        simpl in Hjf. assert (Htag : mad_tag f' = mad_tag f) by congruence.
        assert (f' = f) as -> by (eapply mad_tag_lookup; eassumption).
        unfold mad_bits in Hj. rewrite list_lookup_fmap, Hf' in Hj.
        simpl in Hj. congruence.
      + exfalso. apply Hnl. eapply elem_of_sublist; eassumption.
    - intros Hhit. right. left.
      apply list_elem_of_lookup_1 in Hf as (j & Hj).
      apply (select_elem_of _ _ _ j).
      + unfold mad_bits. rewrite list_lookup_fmap, Hj. simpl. congruence.
      + unfold mad_tags. rewrite list_lookup_fmap, Hj. reflexivity. }
  destruct (select (rule_bits THRESHOLDS df i) rule_tags
            ++ select (mad_bits MAD_THRESHOLD df i) mad_tags ++ L)
    as [|t ts] eqn:Hts; [|exact Hmem].
  rewrite <- Hmem. split; [|intros Hin; inversion Hin].
  intros Hin. apply list_elem_of_singleton in Hin. exfalso.
  apply (all_tags_nonempty (mad_tag f)); [|exact Hin].
  unfold all_tags. rewrite !elem_of_app. right. left.
  unfold mad_tags. apply list_elem_of_fmap. eauto.
Qed.

(** Rows without a unit have an empty group. *)
Lemma unit_values_no_unit df f : unit_values df f KNaN = [].
Proof.
  unfold unit_values, unit_mask. apply select_all_false.
  apply Forall_forall. intros b Hb.
  apply list_elem_of_fmap in Hb as (k & -> & _). destruct k; reflexivity.
Qed.

(** The MAD layer, row by row: the MAD flag of a row is 1 exactly when its
    tags hold the MAD tag of one of the three features, and the tag of a
    feature is only on a row that has a unit, whose value of the feature is
    present, and whose unit has more than 10 values of the feature. *)
Theorem mad_flag_marks_the_rows_with_a_mad_tag C F env ft fp (e : env) df out :
  wf_frame df ->
  detect_anomalies THRESHOLDS MAD_THRESHOLD C F env ft fp e df = Ok out ->
  exists mad types,
    columns out !! "anomaly_mad" = Some (IntCol mad) /\
    columns out !! "anomaly_types" = Some (StrCol types) /\
    forall i, (i < nrows out)%nat ->
      exists m tags,
        mad !! i = Some m /\ types !! i = Some tags /\
        (forall f, f ∈ mad_features -> mad_tag f ∈ split ";" tags ->
           unit_of df i <> KNaN /\
           (10 < length (values (unit_values df f (unit_of df i))))%nat /\
           exists q, float_cell df f i = Some q) /\
        (m = 1%Z <-> exists f, f ∈ mad_features /\ mad_tag f ∈ split ";" tags).
Proof.
  intros Hdf Hrun.
  destruct (detect_anomalies_mad_rows _ _ _ _ _ _ _ _ Hdf Hrun)
    as (mad & types & Hn & Hmad & Htypes & Hrows).
  exists mad, types. split; [exact Hmad|]. split; [exact Htypes|].
  intros i Hi. rewrite Hn in Hi.
  destruct (Hrows i Hi) as (L & HL & Hm & Ht).
  eexists _, _. split; [exact Hm|]. split; [exact Ht|]. split.
  - intros f Hf Htag.
    apply (mad_tag_in_tags df i L f Hf HL) in Htag.
    apply mad_hit_true in Htag as (Hlen & med & d & q & _ & _ & Hq & _).
    split; [|split; [exact Hlen|eauto]].
    intros Hnan. rewrite Hnan, unit_values_no_unit in Hlen.
    simpl in Hlen. lia.
  - split.
    + intros Hone.
      assert (Hany : existsb id (mad_bits MAD_THRESHOLD df i) = true)
        by (destruct (existsb id _); [reflexivity|discriminate]).
      apply existsb_true_lookup in Hany as (j & Hj).
      unfold mad_bits in Hj. rewrite list_lookup_fmap in Hj.
      destruct (mad_features !! j) as [f|] eqn:Hf; [|discriminate].
      simpl in Hj. exists f.
      assert (Hin : f ∈ mad_features) by (eapply list_elem_of_lookup_2, Hf).
      split; [exact Hin|].
      apply (mad_tag_in_tags df i L f Hin HL). congruence.
    + intros (f & Hf & Hin).
      apply (mad_tag_in_tags df i L f Hf HL) in Hin.
      assert (Hany : existsb id (mad_bits MAD_THRESHOLD df i) = true).
      { apply existsb_exists. exists true. split; [|reflexivity].
        apply list_elem_of_In. unfold mad_bits. rewrite <- Hin.
        apply (list_elem_of_fmap_2 (fun f => mad_hit MAD_THRESHOLD
                   (unit_values df f (unit_of df i)) (float_cell df f i))).
        exact Hf. }
      rewrite Hany. reflexivity.
Qed.

End MadRun.

(** ** The forest layer, exactly *)

Lemma unit_mask_same df a l :
  key_eqb a l = true -> unit_mask df l = unit_mask df a.
Proof.
  intros H. unfold unit_mask. apply map_ext. intros k'.
  apply key_eqb_same. exact H.
Qed.

Lemma unit_matrix_same features df a l :
  key_eqb a l = true -> unit_matrix features df l = unit_matrix features df a.
Proof.
  intros H. unfold unit_matrix.
  rewrite (unit_mask_same _ _ _ H), (moving_rows_same _ _ _ H). reflexivity.
Qed.

Section MlExact.
Variable ISOLATION_FOREST_CONTAMINATION : Q.
Variable ANOMALY_FEATURES : list string.
Variable env : Type.
Variable fit_transform : list (list (option Q)) -> result (list (list (option Q))).
Variable fit_predict :
  env -> option Z -> Q -> list (list (option Q)) -> result (list Z).

(** The forest step of a unit that returns: the unit is skipped, or scaler
    and forest have returned on the matrix of the unit and the rows that the
    forest labels -1 are marked. *)
Lemma ml_unit_exact df w w2 l e w1 :
  wf_frame df -> stage_inv df w -> stage_inv df w2 ->
  is_Some (columns df !! "locoid") ->
  Forall (fun f => f ∉ computed_columns) ANOMALY_FEATURES ->
  ml_unit ISOLATION_FOREST_CONTAMINATION env fit_transform fit_predict e
    (List.filter (has_column w2) ANOMALY_FEATURES) l w = Ok w1 ->
  ((50 <? length (moving_rows df l))%nat = false /\ w1 = w) \/
  ((50 <? length (moving_rows df l))%nat = true /\
   exists Y p,
     fit_transform (unit_matrix ANOMALY_FEATURES df l) = Ok Y /\
     fit_predict e (Some 42%Z) ISOLATION_FOREST_CONTAMINATION Y = Ok p /\
     w1 = mark_ml (select (map (fun p => (p =? -1)%Z) p) (moving_rows df l))
            "ML_ISOLATION;" w).
Proof.
  intros Hdf Hst Hst2 [k Hk] Hinput H.
  pose proof Hst as (Hwf & Hn & sc & Hrest).
  destruct (loco_mask_of_stage df w l Hst) as (k' & Hk' & Hmask & Hlen); [eauto|].
  destruct (columns df !! "pct_moving") as [pc|] eqn:Hpc.
  2:{ unfold ml_unit in H. rewrite Hmask in H. simpl in H.
      rewrite (numeric_read w "pct_moving") in H by discriminate.
      rewrite Hrest, lookup_insert_ne, Hpc in H by discriminate.
      discriminate. }
  destruct (as_float pc) as [pct|err] eqn:Hpct.
  2:{ unfold ml_unit in H. rewrite Hmask in H. simpl in H.
      rewrite (numeric_read w "pct_moving") in H by discriminate.
      rewrite Hrest, lookup_insert_ne, Hpc, Hpct in H by discriminate.
      discriminate. }
  rewrite (ml_unit_stage_eq _ _ _ _ df w l _ e k pc pct) in H by assumption.
  destruct (50 <? length (moving_rows df l))%nat eqn:Hcount.
  2:{ left. split; [reflexivity|]. congruence. }
  right. split; [reflexivity|].
  inv_bind H as cols Hcols.
  assert (Hpresent :
    List.filter (has_column w2) ANOMALY_FEATURES
    = List.filter (fun f => bool_decide (is_Some (columns df !! f)))
                  ANOMALY_FEATURES).
  { apply filter_ext_in. intros f Hf. unfold has_column.
    rewrite (view_stage df w2 f Hst2); [reflexivity|].
    rewrite List.Forall_forall in Hinput. apply Hinput, Hf. }
  apply (traverse_Ok_map _
           (fun f => select (gt_scalar (select (unit_mask df l) pct) (1 # 2))
                            (select (unit_mask df l) (float_values df f))))
    in Hcols.
  2:{ apply List.Forall_forall. intros f Hf b Hb.
      apply filter_In in Hf as [Hf _].
      rewrite List.Forall_forall in Hinput.
      inv_bind Hb as x Hx. injection Hb as <-.
      unfold numeric, get in Hx.
      rewrite (view_stage df w f Hst (Hinput f Hf)) in Hx.
      destruct (columns df !! f) as [c|] eqn:Hc; [|discriminate]. simpl in Hx.
      rewrite (float_values_eq _ _ _ _ Hc Hx). reflexivity. }
  assert (HX : to_rows (length (moving_rows df l)) (map fillna_median cols)
               = unit_matrix ANOMALY_FEATURES df l).
  { unfold unit_matrix. rewrite Hcols, Hpresent, map_map.
    rewrite (float_values_eq _ _ _ _ Hpc Hpct). reflexivity. }
  rewrite HX in H.
  inv_bind H as Y HY. inv_bind H as p Hp.
  destruct (length p =? length (moving_rows df l))%nat; [|discriminate].
  apply Ok_inj in H. exists Y, p. split_and!; congruence.
Qed.

Lemma moving_rows_unit df l (i : nat) :
  i ∈ moving_rows df l -> key_eqb (unit_of df i) l = true.
Proof.
  intros Hin. apply list_elem_of_In, filter_In in Hin as (_ & Hin).
  apply andb_true_iff in Hin as (Hunit & _). exact Hunit.
Qed.

Lemma forest_marks_unit df l e (i : nat) :
  key_eqb (unit_of df i) l = true ->
  forest_marks ISOLATION_FOREST_CONTAMINATION ANOMALY_FEATURES env
    fit_transform fit_predict e df i
  = (50 <? length (moving_rows df l))%nat
    && match fit_transform (unit_matrix ANOMALY_FEATURES df l) with
       | Ok X_scaled =>
           match fit_predict e (Some 42%Z) ISOLATION_FOREST_CONTAMINATION
                   X_scaled with
           | Ok predictions =>
               bool_decide
                 (i ∈ select (map (fun p => (p =? -1)%Z) predictions)
                        (moving_rows df l))
           | Err _ => false
           end
       | Err _ => false
       end.
Proof.
  intros H. unfold forest_marks.
  rewrite <- (unit_matrix_same _ _ _ _ H), <- (moving_rows_same _ _ _ H).
  reflexivity.
Qed.

Lemma ml_unit_done df w0 w2 l ls w w1 e :
  wf_frame df -> is_Some (columns df !! "locoid") ->
  Forall (fun f => f ∉ computed_columns) ANOMALY_FEATURES ->
  stage_inv df w2 ->
  distinct_keys (l :: ls) ->
  ml_done ISOLATION_FOREST_CONTAMINATION ANOMALY_FEATURES env fit_transform
    fit_predict e df w0 w (l :: ls) ->
  ml_unit ISOLATION_FOREST_CONTAMINATION env fit_transform fit_predict e
    (List.filter (has_column w2) ANOMALY_FEATURES) l w = Ok w1 ->
  ml_done ISOLATION_FOREST_CONTAMINATION ANOMALY_FEATURES env fit_transform
    fit_predict e df w0 w1 ls.
Proof.
  intros Hdf Hloco Hinput Hst2 Hdist (Hst & Hrule & Hmad & Hrows) H.
  pose proof (ml_unit_stage _ _ _ _ _ _ _ _ _ _ Hst H) as Hst1.
  apply (ml_unit_exact df w w2) in H; try assumption.
  assert (Hpend : forall i, key_eqb (unit_of df i) l = false ->
                    pending df (l :: ls) i = pending df ls i).
  { intros i Hkey. rewrite pending_cons, Hkey. reflexivity. }
  destruct H as [(Hcount & ->)|(Hcount & Y & p & HY & Hp & ->)].
  - (* the unit is skipped *)
    split; [assumption|]. split; [assumption|]. split; [assumption|].
    intros i t Ht. destruct (Hrows i t Ht) as (Htw & Hmw).
    cbv zeta in Htw, Hmw. cbv zeta.
    destruct (key_eqb (unit_of df i) l) eqn:Hkey.
    + rewrite pending_cons, Hkey in Htw, Hmw. simpl in Htw, Hmw.
      rewrite (pending_distinct _ _ _ _ Hdist Hkey).
      rewrite (forest_marks_unit _ _ _ _ Hkey), Hcount. simpl.
      split; assumption.
    + rewrite (Hpend i Hkey) in Htw, Hmw. split; assumption.
  - (* the unit is fitted *)
    split; [assumption|]. split; [assumption|]. split; [assumption|].
    intros i t Ht. destruct (Hrows i t Ht) as (Htw & Hmw).
    cbv zeta in Htw, Hmw. cbv zeta.
    pose proof Hst as (Hwf & Hn & _).
    assert (Hi : (i < index_len w)%nat).
    { destruct Hwf as (_ & _ & <- & _). eapply lookup_lt_Some, Hmw. }
    destruct (key_eqb (unit_of df i) l) eqn:Hkey.
    + rewrite pending_cons, Hkey in Htw, Hmw. simpl in Htw, Hmw.
      rewrite (pending_distinct _ _ _ _ Hdist Hkey).
      rewrite (forest_marks_unit _ _ _ _ Hkey), Hcount, HY, Hp.
      cbn [mark_ml anomaly_ml anomaly_types index_len negb andb].
      erewrite loc_set_lookup;
        [|apply labels_mask_lookup; assumption|eassumption].
      erewrite loc_append_lookup;
        [|apply labels_mask_lookup; assumption|eassumption].
      case_bool_decide; simpl; rewrite ?string_app_nil_r; split; reflexivity.
    + rewrite (Hpend i Hkey) in Htw, Hmw.
      cbn [mark_ml anomaly_ml anomaly_types index_len].
      erewrite loc_set_lookup;
        [|apply labels_mask_lookup; assumption|eassumption].
      erewrite loc_append_lookup;
        [|apply labels_mask_lookup; assumption|eassumption].
      rewrite bool_decide_eq_false_2.
      2:{ intros Hin. apply elem_of_sublist with (l2 := moving_rows df l) in Hin;
            [|apply select_sublist].
          apply moving_rows_unit in Hin. congruence. }
      split; reflexivity.
Qed.

Lemma ml_units_done df w0 w2 locos w w' e :
  wf_frame df -> is_Some (columns df !! "locoid") ->
  Forall (fun f => f ∉ computed_columns) ANOMALY_FEATURES ->
  stage_inv df w2 ->
  distinct_keys locos ->
  ml_done ISOLATION_FOREST_CONTAMINATION ANOMALY_FEATURES env fit_transform
    fit_predict e df w0 w locos ->
  foldM (ml_unit ISOLATION_FOREST_CONTAMINATION env fit_transform fit_predict e
           (List.filter (has_column w2) ANOMALY_FEATURES)) locos w = Ok w' ->
  ml_done ISOLATION_FOREST_CONTAMINATION ANOMALY_FEATURES env fit_transform
    fit_predict e df w0 w' [].
Proof.
  intros Hdf Hloco Hinput Hst2. revert w.
  induction locos as [|l ls IH]; intros w Hdist Hinv H.
  - injection H as <-. assumption.
  - simpl in H. inv_bind H as w1 H1.
    eapply IH; [|eapply ml_unit_done; eassumption|eassumption].
    inversion Hdist; assumption.
Qed.

Lemma ml_done_start df w0 k e :
  stage_inv df w0 -> anomaly_ml w0 = replicate (index_len w0) 0%Z ->
  columns df !! "locoid" = Some k ->
  ml_done ISOLATION_FOREST_CONTAMINATION ANOMALY_FEATURES env fit_transform
    fit_predict e df w0 w0 (unique (keys_of k)).
Proof.
  intros Hst Hml Hk. unfold ml_done. split_and!; trivial.
  intros i t Ht.
  assert (Hbit :
    negb (pending df (unique (keys_of k)) i)
    && forest_marks ISOLATION_FOREST_CONTAMINATION ANOMALY_FEATURES env
         fit_transform fit_predict e df i = false).
  { destruct (pending df (unique (keys_of k)) i) eqn:Hp; [reflexivity|].
    simpl. unfold forest_marks.
    assert (Hrows : moving_rows df (unit_of df i) = []).
    { unfold moving_rows. apply filter_nil_Forall, Forall_forall.
      intros j _. rewrite (not_pending_alone _ _ _ _ Hk Hp). reflexivity. }
    rewrite Hrows. reflexivity. }
  cbv zeta. rewrite Hbit. simpl. rewrite string_app_nil_r.
  split; [exact Ht|].
  rewrite Hml. apply lookup_replicate_2.
  destruct Hst as ((_ & _ & _ & <- & _) & _). eapply lookup_lt_Some, Ht.
Qed.

End MlExact.

Section MlRun.
Variable THRESHOLDS : Thresholds.
Variable MAD_THRESHOLD : Q.
Variable ISOLATION_FOREST_CONTAMINATION : Q.
Variable ANOMALY_FEATURES : list string.
Variable env : Type.
Variable fit_transform : list (list (option Q)) -> result (list (list (option Q))).
Variable fit_predict :
  env -> option Z -> Q -> list (list (option Q)) -> result (list Z).

(** The forest flag and the tags of every row of a run that returns. *)
Lemma detect_anomalies_ml_rows e df out :
  wf_frame df ->
  Forall (fun f => f ∉ computed_columns) ANOMALY_FEATURES ->
  detect_anomalies THRESHOLDS MAD_THRESHOLD ISOLATION_FOREST_CONTAMINATION
    ANOMALY_FEATURES env fit_transform fit_predict e df = Ok out ->
  exists ml types,
    nrows out = nrows df /\
    columns out !! "anomaly_ml" = Some (IntCol ml) /\
    columns out !! "anomaly_types" = Some (StrCol types) /\
    forall i, (i < nrows df)%nat ->
      let bit := forest_marks ISOLATION_FOREST_CONTAMINATION ANOMALY_FEATURES
                   env fit_transform fit_predict e df i in
      exists R,
        R `sublist_of` rule_tags ++ mad_tags /\
        ml !! i = Some (Z.b2z bit) /\
        types !! i
        = Some (rstrip ";" (join_tags (R ++ if bit then ml_tags else []))).
Proof.
  intros Hdf Hinput H.
  destruct (detect_anomalies_stages _ _ _ _ _ _ _ _ _ _ H)
    as (w1 & w2 & w3 & H1 & H2 & H3 & ->).
  unfold detect_anomalies in H. inv_bind H as k Hk. clear H.
  unfold read_column in Hk.
  destruct (columns df !! "locoid") as [k'|] eqn:Hloco; [|discriminate].
  apply Ok_inj in Hk. subst k'.
  pose proof (rule_layer_stage _ _ _ Hdf H1) as Hst1.
  pose proof (mad_layer_stage _ _ _ _ Hst1 H2) as Hst2.
  apply rule_layer_rows in H1
    as (Hn1 & Hmad1 & Hml1 & _ & _ & _ & Hrows1); [|assumption].
  assert (Hlink : forall f, f ∈ "locoid" :: mad_features ->
                            rest w1 !! f = columns df !! f).
  { intros f Hf. destruct Hst1 as (_ & _ & sc & ->).
    apply lookup_insert_ne. intros <-.
    repeat (apply elem_of_cons in Hf as [Hf|Hf]; [discriminate|]).
    inversion Hf. }
  unfold mad_layer in H2. inv_bind H2 as k2 Hk2.
  assert (k2 = k) as ->.
  { unfold get in Hk2. rewrite view_rest in Hk2 by discriminate.
    rewrite Hlink, Hloco in Hk2 by apply list_elem_of_here. congruence. }
  pose proof H2 as H2'.
  apply (mad_units_inv MAD_THRESHOLD df w1) in H2
    as (_ & _ & _ & _ & Hml2 & Hrows2); try assumption.
  2:{ apply unique_distinct. }
  2:{ apply mad_inv_start; [apply Hst1|].
      destruct Hst1 as (_ & -> & _). assumption. }
  unfold ml_layer in H3. inv_bind H3 as k3 Hk3.
  assert (k3 = k) as ->.
  { unfold get in Hk3. rewrite view_rest in Hk3 by discriminate.
    destruct Hst2 as (_ & _ & sc & Hrest2).
    rewrite Hrest2, lookup_insert_ne, Hloco in Hk3 by discriminate.
    congruence. }
  apply (ml_units_done _ _ _ _ _ df w2 w2) in H3
    as (Hst3 & Hrule3 & Hmad3 & Hrows3); try assumption; [|eauto| |].
  2:{ apply unique_distinct. }
  2:{ apply ml_done_start; try assumption.
      rewrite Hml2, Hml1. destruct Hst2 as (_ & -> & _). reflexivity. }
  unfold combine, view. simpl.
  eexists _, _. split; [exact (proj1 (proj2 Hst3))|]. split; [|split].
  { rewrite !lookup_insert_ne by discriminate. apply lookup_insert_eq. }
  { apply lookup_insert_eq. }
  intros i Hi.
  destruct (Hrows1 i Hi) as (_ & Ht).
  destruct (Hrows2 i _ Ht) as (M & m & Ht2 & Hsub & _).
  destruct (Hrows3 i _ Ht2) as (Ht3 & Hm3). cbv zeta in Ht3, Hm3.
  change (pending df [] i) with false in Ht3, Hm3. simpl negb in Ht3, Hm3.
  rewrite andb_true_l in Ht3, Hm3.
  exists (select (rule_bits THRESHOLDS df i) rule_tags ++ M). split.
  { apply (sublist_app _ rule_tags M mad_tags);
      [apply select_sublist|assumption]. }
  split; [exact Hm3|].
  rewrite list_lookup_fmap, Ht3. simpl.
  rewrite !join_tags_app. reflexivity.
Qed.

Lemma forest_marks_true e df i :
  forest_marks ISOLATION_FOREST_CONTAMINATION ANOMALY_FEATURES env
    fit_transform fit_predict e df i = true
  <-> (50 < length (moving_rows df (unit_of df i)))%nat /\
      exists Y p (j : nat),
        fit_transform (unit_matrix ANOMALY_FEATURES df (unit_of df i)) = Ok Y /\
        fit_predict e (Some 42%Z) ISOLATION_FOREST_CONTAMINATION Y = Ok p /\
        moving_rows df (unit_of df i) !! j = Some i /\
        p !! j = Some (-1)%Z.
Proof.
  unfold forest_marks. rewrite andb_true_iff, Nat.ltb_lt.
  destruct (fit_transform _) as [Y|err].
  2:{ split; [intros (_ & [=])|]. intros (_ & Y & p & j & [=] & _). }
  destruct (fit_predict _ _ _ _) as [p|err] eqn:Hp.
  2:{ split; [intros (_ & [=])|].
      intros (_ & Y' & p & j & [= <-] & Hp' & _). congruence. }
  rewrite bool_decide_eq_true. split.
  - intros (Hn & Hin). split; [exact Hn|].
    apply elem_of_select in Hin as (j & Hj & Hrow).
    rewrite list_lookup_fmap in Hj.
    destruct (p !! j) as [x|] eqn:Hx; [|discriminate]. simpl in Hj.
    exists Y, p, j. split_and!; trivial.
    injection Hj as Hj. apply Z.eqb_eq in Hj. congruence.
  - intros (Hn & Y' & p' & j & [= <-] & Hp' & Hrow & Hx).
    assert (p' = p) as -> by congruence.
    split; [exact Hn|]. apply (select_elem_of _ _ _ j); [|exact Hrow].
    rewrite list_lookup_fmap, Hx. reflexivity.
Qed.

(** The forest layer, row by row, when the configured features are input
    columns: the forest flag of a row is 1 exactly when the unit of the row
    has more than 50 moving rows and the forest fitted on the scaled matrix
    of the unit labels the row -1; the tag ML_ISOLATION is in the tags of a
    row exactly when its forest flag is 1. *)
Theorem forest_flags_follow_the_forest e df out :
  wf_frame df ->
  Forall (fun f => f ∉ computed_columns) ANOMALY_FEATURES ->
  detect_anomalies THRESHOLDS MAD_THRESHOLD ISOLATION_FOREST_CONTAMINATION
    ANOMALY_FEATURES env fit_transform fit_predict e df = Ok out ->
  exists ml types,
    columns out !! "anomaly_ml" = Some (IntCol ml) /\
    columns out !! "anomaly_types" = Some (StrCol types) /\
    forall i, (i < nrows out)%nat ->
      exists l tags,
        ml !! i = Some l /\ types !! i = Some tags /\
        (l = 1%Z <->
         (50 < length (moving_rows df (unit_of df i)))%nat /\
         exists Y p (j : nat),
           fit_transform (unit_matrix ANOMALY_FEATURES df (unit_of df i))
           = Ok Y /\
           fit_predict e (Some 42%Z) ISOLATION_FOREST_CONTAMINATION Y = Ok p /\
           moving_rows df (unit_of df i) !! j = Some i /\
           p !! j = Some (-1)%Z) /\
        ("ML_ISOLATION" ∈ split ";" tags <-> l = 1%Z).
Proof.
  intros Hdf Hinput Hrun.
  destruct (detect_anomalies_ml_rows _ _ _ Hdf Hinput Hrun)
    as (ml & types & Hn & Hml & Htypes & Hrows).
  exists ml, types. split; [exact Hml|]. split; [exact Htypes|].
  intros i Hi. rewrite Hn in Hi.
  destruct (Hrows i Hi) as (R & HR & Hl & Ht). cbv zeta in Hl, Ht.
  eexists _, _. split; [exact Hl|]. split; [exact Ht|].
  rewrite <- forest_marks_true.
  set (bit := forest_marks _ _ _ _ _ _ _ _) in *.
  split; [destruct bit; simpl; split; congruence|].
  assert (Hsub : (R ++ if bit then ml_tags else []) `sublist_of` all_tags).
  { unfold all_tags. rewrite (assoc_L (++)). apply sublist_app; [assumption|].
    destruct bit; [reflexivity|apply sublist_nil_l]. }
  destruct (tag_string_spec _ Hsub) as (_ & Hsplit). cbv zeta in Hsplit.
  rewrite Hsplit. clear Hsplit.
  assert (Hnot : "ML_ISOLATION" ∉ R).
  { intros Hin. apply (elem_of_sublist _ _ _ Hin) in HR. revert HR.
    apply (bool_decide_unpack _). vm_compute. exact I. }
  destruct bit; simpl.
  - split; [reflexivity|]. intros _.
    destruct (R ++ ml_tags) eqn:HRl.
    + apply app_eq_nil in HRl as (_ & [=]).
    + rewrite <- HRl. apply elem_of_app. right. apply list_elem_of_here.
  - split; [|discriminate]. rewrite app_nil_r.
    destruct R as [|t ts]; [|intros Hin; exfalso; apply Hnot, Hin].
    intros Hin. apply list_elem_of_singleton in Hin. discriminate.
Qed.

End MlRun.

(** ** Frames without rows, frames without [pct_moving] *)

Lemma unique_nonempty ks : ks <> [] -> unique ks <> [].
Proof. destruct ks; [congruence|]. simpl. discriminate. Qed.

Section Edges.
Variable THRESHOLDS : Thresholds.
Variable MAD_THRESHOLD : Q.
Variable ISOLATION_FOREST_CONTAMINATION : Q.
Variable ANOMALY_FEATURES : list string.
Variable env : Type.
Variable fit_transform : list (list (option Q)) -> result (list (list (option Q))).
Variable fit_predict :
  env -> option Z -> Q -> list (list (option Q)) -> result (list Z).

(** A frame without rows: the loops over the units have nothing to visit,
    so [pct_moving] is not read and no model is fitted; the run returns a
    frame without rows whatever the scaler and the forest would do and
    whether or not the frame has the MAD and forest features. *)
Theorem empty_frame_is_returned_empty e df :
  wf_frame df -> nrows df = 0%nat ->
  is_Some (columns df !! "locoid") ->
  (forall name, name ∈ rule_columns ->
     exists c, columns df !! name = Some c /\ is_numeric c = true) ->
  exists out,
    detect_anomalies THRESHOLDS MAD_THRESHOLD ISOLATION_FOREST_CONTAMINATION
      ANOMALY_FEATURES env fit_transform fit_predict e df = Ok out /\
    nrows out = 0%nat /\
    forall name, name ∈ ["anomaly_rule"; "anomaly_mad"; "anomaly_ml";
                         "anomaly_score"; "is_anomaly"] ->
      columns out !! name = Some (IntCol []).
Proof.
  intros Hdf Hempty [k Hk] Hrules.
  destruct (rule_layer_total THRESHOLDS df Hrules) as [w1 H1]; [eauto|].
  pose proof (rule_layer_stage _ _ _ Hdf H1) as Hst1.
  pose proof Hst1 as ((Hlr & Hlm & Hll & Hlt & _) & Hn1 & sc & Hrest1).
  assert (Hkeys : keys_of k = []).
  { apply length_zero_iff_nil. rewrite keys_of_length, <- Hempty.
    apply (Hdf _ _ Hk). }
  assert (Hget : get w1 "locoid" = Ok k).
  { unfold get. rewrite view_rest by discriminate.
    rewrite Hrest1, lookup_insert_ne, Hk by discriminate. reflexivity. }
  exists (combine w1). split.
  - unfold detect_anomalies, read_column. rewrite Hk. simpl. rewrite H1. simpl.
    unfold mad_layer. rewrite Hget. simpl. rewrite Hkeys. simpl.
    unfold ml_layer. rewrite Hget. simpl. rewrite Hkeys. reflexivity.
  - rewrite Hn1, Hempty in *.
    apply length_zero_iff_nil in Hlr, Hlm, Hll.
    split; [simpl; congruence|].
    intros name Hname. unfold combine, view. simpl. rewrite Hlr, Hlm, Hll.
    repeat (apply elem_of_cons in Hname as [->|Hname]); [..|inversion Hname];
      repeat first [ apply lookup_insert_eq
                   | rewrite lookup_insert_ne by discriminate ].
Qed.

(** A frame with at least one row and without the column [pct_moving]: the
    rule layer and the MAD layer run, and the forest layer raises a
    KeyError for [pct_moving] at the first unit, whatever features are
    configured: no frame is returned. *)
Theorem missing_pct_moving_raises e df :
  wf_frame df -> (0 < nrows df)%nat ->
  is_Some (columns df !! "locoid") ->
  (forall name, name ∈ rule_columns ->
     exists c, columns df !! name = Some c /\ is_numeric c = true) ->
  (forall f c, f ∈ mad_features -> columns df !! f = Some c ->
               is_numeric c = true) ->
  columns df !! "pct_moving" = None ->
  detect_anomalies THRESHOLDS MAD_THRESHOLD ISOLATION_FOREST_CONTAMINATION
    ANOMALY_FEATURES env fit_transform fit_predict e df
  = Err (KeyError "pct_moving").
Proof.
  intros Hdf Hrows [k Hk] Hrules Hmad Hpct.
  destruct (rule_layer_total THRESHOLDS df Hrules) as [w1 H1]; [eauto|].
  pose proof (rule_layer_stage _ _ _ Hdf H1) as Hst1.
  assert (Hmadl : exists w2, mad_layer MAD_THRESHOLD w1 = Ok w2
                             /\ stage_inv df w2).
  { unfold mad_layer.
    destruct (loco_mask_of_stage df w1 KNaN Hst1) as (k' & Hk' & _); [eauto|].
    assert (Hget : get w1 "locoid" = Ok k).
    { destruct Hst1 as (_ & _ & sc & Hrest1).
      unfold get. rewrite view_rest by discriminate.
      rewrite Hrest1, lookup_insert_ne, Hk by discriminate. reflexivity. }
    rewrite Hget. simpl.
    apply (foldM_total (stage_inv df)); [assumption|].
    intros l w Hw. apply mad_unit_total; eauto. }
  destruct Hmadl as (w2 & H2 & Hst2).
  unfold detect_anomalies, read_column. rewrite Hk. simpl. rewrite H1. simpl.
  rewrite H2. simpl.
  assert (Hget : get w2 "locoid" = Ok k).
  { destruct Hst2 as (_ & _ & sc & Hrest2).
    unfold get. rewrite view_rest by discriminate.
    rewrite Hrest2, lookup_insert_ne, Hk by discriminate. reflexivity. }
  unfold ml_layer. rewrite Hget. simpl.
  destruct (unique (keys_of k)) as [|l ls] eqn:Hu.
  { exfalso. apply (unique_nonempty (keys_of k)); [|exact Hu].
    intros Hnil. apply (f_equal length) in Hnil.
    rewrite keys_of_length, (Hdf _ _ Hk) in Hnil. simpl in Hnil. lia. }
  simpl. unfold ml_unit.
  destruct (loco_mask_of_stage df w2 l Hst2) as (k' & _ & -> & _); [eauto|].
  simpl. rewrite (numeric_read w2 "pct_moving") by discriminate.
  destruct Hst2 as (_ & _ & sc & ->).
  rewrite lookup_insert_ne, Hpct by discriminate. reflexivity.
Qed.

End Edges.

(** ** [calculate_mad] *)

Lemma median_lookup xs m :
  median xs = Some m ->
  let s := sort_values (values xs) in
  (exists a b, a ∈ s /\ b ∈ s /\ m = ((a + b) / 2)%Q) \/ m ∈ s.
Proof.
  unfold median. cbv zeta.
  destruct (Nat.even (length (sort_values (values xs)))).
  - destruct (length (sort_values (values xs))) as [|n]; [discriminate|].
    destruct (sort_values (values xs) !! (S n / 2 - 1)%nat) as [a|] eqn:Ha;
      [|discriminate].
    destruct (sort_values (values xs) !! (S n / 2)%nat) as [b|] eqn:Hb;
      [|discriminate].
    intros [= <-]. left. exists a, b.
    split_and!; [eapply list_elem_of_lookup_2, Ha
                |eapply list_elem_of_lookup_2, Hb|reflexivity].
  - intros H. right. eapply list_elem_of_lookup_2, H.
Qed.

(** The median of values that all lie in a convex set lies in that set. *)
Lemma median_Forall (P : Q -> Prop) xs m :
  (forall a b, P a -> P b -> P ((a + b) / 2)%Q) ->
  Forall P (values xs) -> median xs = Some m -> P m.
Proof.
  intros Hconvex Hall Hm.
  apply (sort_values_Forall P) in Hall. rewrite Forall_forall in Hall.
  destruct (median_lookup _ _ Hm) as [(a & b & Ha & Hb & ->)|Hin]; auto.
Qed.

Lemma median_nil xs : values xs = [] -> median xs = None.
Proof. unfold median. intros ->. reflexivity. Qed.

Lemma median_Some xs : values xs <> [] -> exists m, median xs = Some m.
Proof.
  intros Hne. unfold median.
  set (s := sort_values (values xs)).
  assert (Hlen : (0 < length s)%nat).
  { unfold s. rewrite sort_values_length. destruct (values xs); simpl; [congruence|lia]. }
  destruct (Nat.even (length s)) eqn:Heven.
  - destruct (length s) as [|n] eqn:Hn; [lia|].
    assert (H2 : (S n / 2 < length s)%nat)
      by (rewrite Hn; apply Nat.div_lt; lia).
    destruct (lookup_lt_is_Some_2 s (S n / 2 - 1)) as [a ->]; [lia|].
    destruct (lookup_lt_is_Some_2 s (S n / 2)) as [b ->]; [lia|].
    eauto.
  - apply lookup_lt_is_Some_2. apply Nat.div_lt; lia.
Qed.

Lemma values_deviations_of xs (m : Q) :
  values (abs_series (sub_scalar xs (Some m)))
  = map (fun q => Qabs (q - m)) (values xs).
Proof.
  induction xs as [|[q|] xs IH]; [reflexivity| |exact IH].
  change (Qabs (q - m) :: values (abs_series (sub_scalar xs (Some m)))
          = Qabs (q - m) :: map (fun q => Qabs (q - m)) (values xs)).
  f_equal. exact IH.
Qed.

Lemma values_deviations_none xs :
  values (abs_series (sub_scalar xs None)) = [].
Proof.
  induction xs as [|[q|] xs IH]; [reflexivity|exact IH|exact IH].
Qed.

(** [calculate_mad] on any series: without a value, the median and the MAD
    are both missing; with at least one value both are present, and the MAD
    is not negative. *)
Theorem mad_is_defined_and_never_negative series :
  (values series = [] -> calculate_mad series = (None, None)) /\
  (values series <> [] ->
   exists m d, calculate_mad series = (Some m, Some d) /\ (0 <= d)%Q).
Proof.
  unfold calculate_mad. split.
  - intros Hnil. rewrite (median_nil _ Hnil).
    rewrite (median_nil _ (values_deviations_none series)). reflexivity.
  - intros Hne. destruct (median_Some _ Hne) as [m Hm]. rewrite Hm.
    destruct (median_Some (abs_series (sub_scalar series (Some m)))) as [d Hd].
    { rewrite values_deviations_of. destruct (values series); [congruence|].
      discriminate. }
    rewrite Hd. exists m, d. split; [reflexivity|].
    apply (median_Forall (fun q => 0 <= q)%Q _ _) in Hd; [exact Hd| |].
    + intros a b Ha Hb. apply Qle_shift_div_l; lra.
    + rewrite values_deviations_of. apply Forall_forall.
      intros q Hq. apply list_elem_of_fmap in Hq as (x & -> & _).
      apply Qabs_nonneg.
Qed.

(** ** The derived-feature query: the lagged row *)

(** The row that [ORDER BY ts] puts last among rows of which one, [r], is
    later than all the others. *)
Lemma latest_of (r : key * (option Q * option Q)) rows :
  r ∈ rows ->
  Forall (fun r' => r' = r \/ ts_before (fst (snd r')) (fst (snd r)) = true)
         rows ->
  latest rows = Some r.
Proof.
  unfold latest.
  set (step := fun best r0 =>
         match best with
         | None => Some r0
         | Some b => if ts_before (fst (snd r0)) (fst (snd b)) then Some b
                     else Some r0
         end).
  assert (Hgen : forall rows acc,
    (acc = None \/ acc = Some r
     \/ exists b, acc = Some b
                  /\ ts_before (fst (snd b)) (fst (snd r)) = true) ->
    Forall (fun r' => r' = r \/ ts_before (fst (snd r')) (fst (snd r)) = true)
           rows ->
    r ∈ rows \/ acc = Some r ->
    foldl step acc rows = Some r).
  { clear rows. induction rows as [|e rows IH]; intros acc Hacc Hall Hin.
    - destruct Hin as [Hin| ->]; [inversion Hin|reflexivity].
    - inversion Hall as [|? ? He Hall']; subst. simpl. apply IH; trivial.
      + destruct He as [->|He].
        * right. left. destruct Hacc as [->|[->|(b & -> & Hb)]]; simpl.
          -- reflexivity.
          -- rewrite ts_before_irrefl. reflexivity.
          -- rewrite (ts_before_asym _ _ Hb). reflexivity.
        * destruct Hacc as [->|[->|(b & -> & Hb)]]; simpl.
          -- right. right. eauto.
          -- rewrite He. right. left. reflexivity.
          -- right. right.
             destruct (ts_before (fst (snd e)) (fst (snd b))); eauto.
      + destruct He as [->|He].
        * right. destruct Hacc as [->|[->|(b & -> & Hb)]]; simpl.
          -- reflexivity.
          -- rewrite ts_before_irrefl. reflexivity.
          -- rewrite (ts_before_asym _ _ Hb). reflexivity.
        * destruct Hin as [Hin| ->].
          -- apply elem_of_cons in Hin as [->|Hin]; [|left; exact Hin].
             rewrite ts_before_irrefl in He. discriminate.
          -- right. simpl. rewrite He. reflexivity. }
  intros Hin Hall. apply Hgen; auto.
Qed.

(** The lagged value of row [i] is the value of row [j] when [j] is the
    latest row of the partition of [i] before [i]. *)
Lemma lag_previous ks ts xs (i j : nat) ki ti kj tj xj :
  length ks = length ts -> length ts = length xs ->
  ks !! i = Some ki -> ts !! i = Some ti ->
  ks !! j = Some kj -> ts !! j = Some tj -> xs !! j = Some xj ->
  same_key kj ki = true -> ts_before tj ti = true ->
  (forall (k : nat) kk tk, k <> j -> ks !! k = Some kk -> ts !! k = Some tk ->
     same_key kk ki = true -> ts_before tk ti = true ->
     ts_before tk tj = true) ->
  lag ks ts xs !! i = Some xj.
Proof.
  intros Hl1 Hl2 Hki Hti Hkj Htj Hxj Hsame Hbefore Hlatest. unfold lag.
  assert (is_Some (xs !! i)) as [xi Hxi].
  { apply lookup_lt_is_Some. rewrite <- Hl2. eapply lookup_lt_Some, Hti. }
  rewrite list_lookup_fmap, lookup_zip_with, Hki. simpl.
  rewrite lookup_zip_with, Hti. simpl. rewrite Hxi. simpl.
  rewrite (latest_of (kj, (tj, xj))); [reflexivity| |].
  - apply list_elem_of_In, filter_In. split.
    + apply list_elem_of_In, (list_elem_of_lookup_2 _ j).
      rewrite lookup_zip_with, Hkj. simpl.
      rewrite lookup_zip_with, Htj. simpl. rewrite Hxj. reflexivity.
    + simpl. rewrite Hsame, Hbefore. reflexivity.
  - apply Forall_forall. intros [kk [tk xk]] Hin.
    apply list_elem_of_In, filter_In in Hin as (Hin & Hcond).
    simpl in Hcond. apply andb_true_iff in Hcond as (Hs & Hb).
    apply list_elem_of_In, list_elem_of_lookup_1 in Hin as (k & Hk).
    rewrite lookup_zip_with in Hk.
    destruct (ks !! k) as [kk'|] eqn:Hkk; simpl in Hk; [|discriminate].
    rewrite lookup_zip_with in Hk.
    destruct (ts !! k) as [tk'|] eqn:Htk; simpl in Hk; [|discriminate].
    destruct (xs !! k) as [xk'|] eqn:Hxk; simpl in Hk; [|discriminate].
    injection Hk as -> -> ->. simpl.
    destruct (decide (k = j)) as [->|Hne].
    + left. congruence.
    + right. eapply Hlatest; eassumption.
Qed.

(** The rate of change of a bucket that has an earlier bucket in its unit:
    when bucket [j] is the latest bucket of the unit of bucket [i] before
    [i] (every other earlier bucket of the unit is earlier than [j]), the
    rate of [i] is the mean temperature of [i] minus that of [j], and it is
    missing when either mean is missing. *)
Theorem rate_is_the_change_since_the_previous_bucket tbl df i j :
  wf_frame tbl ->
  derived_features tbl = Ok df ->
  (i < nrows tbl)%nat -> (j < nrows tbl)%nat ->
  same_unit tbl j i = true ->
  ts_before (ts_cell tbl j) (ts_cell tbl i) = true ->
  (forall k, (k < nrows tbl)%nat -> k <> j -> same_unit tbl k i = true ->
     ts_before (ts_cell tbl k) (ts_cell tbl i) = true ->
     ts_before (ts_cell tbl k) (ts_cell tbl j) = true) ->
  float_cell df "temp_motor1_1_rate" i
  = sub_null (float_cell tbl "temp_motor1_1_mean" i)
             (float_cell tbl "temp_motor1_1_mean" j).
Proof.
  intros Hwf Hder Hi Hj Hsame Hbefore Hlatest.
  destruct (derived_features_columns _ _ Hder)
    as (rate & eff & k & ts & mean & Hk & Hts & Hmean & Hlen & Hrate & Hn & Hcols).
  destruct (Hlen Hwf) as (Hlts & Hlmean & Hlrate & _).
  assert (Hlk : length (keys_of k) = nrows tbl).
  { rewrite keys_of_length. exact (Hwf _ _ Hk). }
  assert (Hkeys : unit_keys tbl = keys_of k) by (apply unit_keys_eq, Hk).
  destruct (lookup_lt_is_Some_2 (keys_of k) i) as [ki Hki]; [lia|].
  destruct (lookup_lt_is_Some_2 ts i) as [ti Hti]; [lia|].
  destruct (lookup_lt_is_Some_2 mean i) as [xi Hxi]; [lia|].
  destruct (lookup_lt_is_Some_2 (keys_of k) j) as [kj Hkj]; [lia|].
  destruct (lookup_lt_is_Some_2 ts j) as [tj Htj]; [lia|].
  destruct (lookup_lt_is_Some_2 mean j) as [xj Hxj]; [lia|].
  assert (Hunit : forall a ka, keys_of k !! a = Some ka -> unit_of tbl a = ka).
  { intros a ka Ha. unfold unit_of. rewrite Hkeys, Ha. reflexivity. }
  assert (Htsc : forall a ta, ts !! a = Some ta -> ts_cell tbl a = ta).
  { intros a ta Ha. unfold ts_cell, float_cell. rewrite Hts, Ha. reflexivity. }
  unfold same_unit in Hsame. rewrite (Hunit _ _ Hki), (Hunit _ _ Hkj) in Hsame.
  rewrite (Htsc _ _ Hti), (Htsc _ _ Htj) in Hbefore.
  unfold float_cell at 1. unfold float_values.
  rewrite Hcols, lookup_insert_eq. simpl.
  rewrite Hrate, lookup_zip_with, Hxi. simpl.
  rewrite (lag_previous _ _ _ i j ki ti kj tj xj); trivial; try congruence.
  - simpl. unfold float_cell. rewrite Hmean, Hxi, Hxj. reflexivity.
  - intros a ka ta Hne Ha Hta Hs Hb.
    rewrite <- (Htsc _ _ Hta), <- (Htsc _ _ Htj). apply Hlatest; trivial.
    + rewrite <- Hlk. eapply lookup_lt_Some, Ha.
    + unfold same_unit. rewrite (Hunit _ _ Ha), (Hunit _ _ Hki). exact Hs.
    + rewrite (Htsc _ _ Hta), (Htsc _ _ Hti). exact Hb.
Qed.

(** * The further properties on the sample data *)

(** The verdicts of a unit of 51 moving buckets, with the forest that marks
    bucket 5 and with the forest that marks nothing. *)
Lemma verdict_ignores_the_forest_witness :
  (forall name, name ∉ ["anomaly_ml"; "anomaly_types"; "anomaly_score"] ->
     columns (Sample.returned (Sample.detect (Sample.one_unit 51 1000))) !! name
     = columns (Sample.returned
                  (Fixtures.detect_calm (Sample.one_unit 51 1000))) !! name) /\
  exists rule mad verdict,
    columns (Sample.returned (Sample.detect (Sample.one_unit 51 1000)))
      !! "anomaly_rule" = Some (IntCol rule) /\
    columns (Sample.returned (Sample.detect (Sample.one_unit 51 1000)))
      !! "anomaly_mad" = Some (IntCol mad) /\
    columns (Sample.returned (Sample.detect (Sample.one_unit 51 1000)))
      !! "is_anomaly" = Some (IntCol verdict) /\
    forall i,
      (i < nrows (Sample.returned (Sample.detect (Sample.one_unit 51 1000))))%nat ->
      exists r m v,
        rule !! i = Some r /\ mad !! i = Some m /\ verdict !! i = Some v /\
        (v = 1 <-> r = 1 \/ m = 1)%Z.
Proof.
  apply (verdict_ignores_the_forest Sample.thresholds Sample.mad_threshold
           Sample.contamination Sample.features unit Sample.scaler
           Sample.forest tt
           Sample.contamination [] unit Sample.scaler Sample.calm_forest tt
           (Sample.one_unit 51 1000)).
  - apply (bool_decide_unpack _). vm_compute. exact I.
  - vm_compute. reflexivity.
  - vm_compute. reflexivity.
Defined.

(** The rules on the fleet of three buckets. *)
Lemma rule_tags_follow_the_thresholds_witness :
  exists rule types,
    columns (Sample.returned (Sample.detect Sample.fleet)) !! "anomaly_rule"
    = Some (IntCol rule) /\
    columns (Sample.returned (Sample.detect Sample.fleet)) !! "anomaly_types"
    = Some (StrCol types) /\
    forall i, (i < nrows (Sample.returned (Sample.detect Sample.fleet)))%nat ->
      exists r tags,
        rule !! i = Some r /\ types !! i = Some tags /\
        ("HIGH_TEMP" ∈ split ";" tags <->
           exists q, float_cell Sample.fleet "temp_motor1_1_max" i = Some q
                     /\ (temp_motor_max Sample.thresholds < q)%Q) /\
        ("TEMP_SPIKE" ∈ split ";" tags <->
           exists q, float_cell Sample.fleet "temp_motor1_1_rate" i = Some q
                     /\ (temp_motor_rate_max Sample.thresholds < Qabs q)%Q) /\
        ("CURRENT_UNSTABLE" ∈ split ";" tags <->
           exists q, float_cell Sample.fleet "current_u_std" i = Some q
                     /\ (current_std_max Sample.thresholds < q)%Q) /\
        ("LOW_BATTERY" ∈ split ";" tags <->
           exists q, float_cell Sample.fleet "battery_volt_min" i = Some q
                     /\ (q < battery_min Sample.thresholds)%Q) /\
        ("SPEED_JUMP" ∈ split ";" tags ->
           exists q, speed_change_cell Sample.fleet i = Some q) /\
        ("LOW_PRESSURE" ∈ split ";" tags <->
           exists q, float_cell Sample.fleet "pressure_tr1_min" i = Some q
                     /\ (q < pressure_min Sample.thresholds)%Q) /\
        (r = 1%Z <-> exists tag, tag ∈ rule_tags /\ tag ∈ split ";" tags).
Proof.
  apply (rule_tags_follow_the_thresholds Sample.thresholds Sample.mad_threshold
           Sample.contamination Sample.features unit Sample.scaler
           Sample.forest tt Sample.fleet).
  - apply (bool_decide_unpack _). vm_compute. exact I.
  - intros name c Hname.
    repeat (apply elem_of_cons in Hname as [->|Hname];
            [vm_compute; intros [= <-]; reflexivity|]).
    inversion Hname.
  - repeat constructor.
    + exists 120%Z, 0%Z. vm_compute. repeat split; congruence.
    + exists 10%Z, 0%Z. vm_compute. repeat split; congruence.
    + exists 50%Z, 0%Z. vm_compute. repeat split; congruence.
    + exists 20%Z, 0%Z. vm_compute. repeat split; congruence.
    + exists 2%Z, 0%Z. vm_compute. repeat split; congruence.
  - vm_compute. reflexivity.
Defined.

(** Tags and scores on the fleet. *)
Lemma tags_are_empty_exactly_when_score_is_zero_witness :
  exists types score,
    columns (Sample.returned (Sample.detect Sample.fleet)) !! "anomaly_types"
    = Some (StrCol types) /\
    columns (Sample.returned (Sample.detect Sample.fleet)) !! "anomaly_score"
    = Some (IntCol score) /\
    forall i, (i < nrows (Sample.returned (Sample.detect Sample.fleet)))%nat ->
      exists tags s,
        types !! i = Some tags /\ score !! i = Some s /\
        (tags = "" <-> s = 0%Z).
Proof.
  apply (tags_are_empty_exactly_when_score_is_zero Sample.thresholds
           Sample.mad_threshold Sample.contamination Sample.features unit
           Sample.scaler Sample.forest tt Sample.fleet).
  - apply (bool_decide_unpack _). vm_compute. exact I.
  - vm_compute. reflexivity.
Defined.

(** A unit of 10 buckets, one of them far from the others: no MAD tag. *)
Lemma small_groups_raise_no_mad_flag_witness :
  exists types tags,
    columns (Sample.returned (Sample.detect (Sample.one_unit 10 1000)))
      !! "anomaly_types" = Some (StrCol types) /\
    types !! 5%nat = Some tags /\
    mad_tag "temp_motor1_1_mean" ∉ split ";" tags.
Proof.
  apply (small_groups_raise_no_mad_flag Sample.thresholds Sample.mad_threshold
           Sample.contamination Sample.features unit Sample.scaler
           Sample.forest tt (Sample.one_unit 10 1000)).
  - apply (bool_decide_unpack _). vm_compute. exact I.
  - vm_compute. reflexivity.
  - simpl. lia.
  - apply (bool_decide_unpack _). vm_compute. exact I.
  - apply (bool_decide_unpack _). vm_compute. exact I.
Defined.

(** The MAD layer on the unit whose last bucket is far from the others. *)
Lemma mad_flag_marks_the_rows_with_a_mad_tag_witness :
  exists mad types,
    columns (Sample.returned (Sample.detect Fixtures.spread_unit))
      !! "anomaly_mad" = Some (IntCol mad) /\
    columns (Sample.returned (Sample.detect Fixtures.spread_unit))
      !! "anomaly_types" = Some (StrCol types) /\
    forall i,
      (i < nrows (Sample.returned (Sample.detect Fixtures.spread_unit)))%nat ->
      exists m tags,
        mad !! i = Some m /\ types !! i = Some tags /\
        (forall f, f ∈ mad_features -> mad_tag f ∈ split ";" tags ->
           unit_of Fixtures.spread_unit i <> KNaN /\
           (10 < length (values (unit_values Fixtures.spread_unit f
                                   (unit_of Fixtures.spread_unit i))))%nat /\
           exists q, float_cell Fixtures.spread_unit f i = Some q) /\
        (m = 1%Z <-> exists f, f ∈ mad_features /\ mad_tag f ∈ split ";" tags).
Proof.
  apply (mad_flag_marks_the_rows_with_a_mad_tag Sample.thresholds
           Sample.mad_threshold Sample.contamination Sample.features unit
           Sample.scaler Sample.forest tt Fixtures.spread_unit).
  - apply (bool_decide_unpack _). vm_compute. exact I.
  - vm_compute. reflexivity.
Defined.

(** The far bucket of that unit is the one that the MAD layer flags. *)
Example spread_unit_flags_the_far_bucket :
  exists out,
    Sample.detect Fixtures.spread_unit = Ok out /\
    columns out !! "anomaly_mad"
    = Some (IntCol (replicate 11 0%Z ++ [1%Z])) /\
    columns out !! "anomaly_types"
    = Some (StrCol (replicate 11 "" ++ ["MAD_TEMP_MOTOR1_1_MEAN"])).
Proof.
  exists (Sample.returned (Sample.detect Fixtures.spread_unit)).
  split; [vm_compute; reflexivity|]. split; vm_compute; reflexivity.
Qed.

(** [calculate_mad] on a series without a value and on a series of four
    values and a gap. *)
Lemma mad_is_defined_and_never_negative_witness :
  calculate_mad [None; None] = (None, None) /\
  exists m d,
    calculate_mad [Some 1; None; Some 7; Some 2; Some 4]%Q = (Some m, Some d)
    /\ (0 <= d)%Q.
Proof.
  split.
  - apply (proj1 (mad_is_defined_and_never_negative [None; None])).
    reflexivity.
  - apply (proj2 (mad_is_defined_and_never_negative
                    [Some 1; None; Some 7; Some 2; Some 4]%Q)).
    vm_compute. discriminate.
Defined.

(** The forest layer on the unit of 51 moving buckets. *)
Lemma forest_flags_follow_the_forest_witness :
  exists ml types,
    columns (Sample.returned (Sample.detect (Sample.one_unit 51 1000)))
      !! "anomaly_ml" = Some (IntCol ml) /\
    columns (Sample.returned (Sample.detect (Sample.one_unit 51 1000)))
      !! "anomaly_types" = Some (StrCol types) /\
    forall i,
      (i < nrows (Sample.returned (Sample.detect (Sample.one_unit 51 1000))))%nat ->
      exists l tags,
        ml !! i = Some l /\ types !! i = Some tags /\
        (l = 1%Z <->
         (50 < length (moving_rows (Sample.one_unit 51 1000)
                         (unit_of (Sample.one_unit 51 1000) i)))%nat /\
         exists Y p (j : nat),
           Sample.scaler
             (unit_matrix Sample.features (Sample.one_unit 51 1000)
                (unit_of (Sample.one_unit 51 1000) i)) = Ok Y /\
           Sample.forest tt (Some 42%Z) Sample.contamination Y = Ok p /\
           moving_rows (Sample.one_unit 51 1000)
             (unit_of (Sample.one_unit 51 1000) i) !! j = Some i /\
           p !! j = Some (-1)%Z) /\
        ("ML_ISOLATION" ∈ split ";" tags <-> l = 1%Z).
Proof.
  apply (forest_flags_follow_the_forest Sample.thresholds Sample.mad_threshold
           Sample.contamination Sample.features unit Sample.scaler
           Sample.forest tt (Sample.one_unit 51 1000)).
  - apply (bool_decide_unpack _). vm_compute. exact I.
  - apply (bool_decide_unpack _). vm_compute. exact I.
  - vm_compute. reflexivity.
Defined.

(** The frame without rows, with a scaler and a forest for which nothing is
    assumed. *)
Lemma empty_frame_is_returned_empty_witness :
  exists out,
    Sample.detect Fixtures.no_rows = Ok out /\
    nrows out = 0%nat /\
    forall name, name ∈ ["anomaly_rule"; "anomaly_mad"; "anomaly_ml";
                         "anomaly_score"; "is_anomaly"] ->
      columns out !! name = Some (IntCol []).
Proof.
  unfold Sample.detect.
  apply (empty_frame_is_returned_empty Sample.thresholds Sample.mad_threshold
           Sample.contamination Sample.features unit Sample.scaler
           Sample.forest tt Fixtures.no_rows).
  - apply (bool_decide_unpack _). vm_compute. exact I.
  - reflexivity.
  - vm_compute. eexists. reflexivity.
  - intros name Hname.
    repeat (apply elem_of_cons in Hname as [->|Hname];
            [eexists; split; vm_compute; reflexivity|]).
    inversion Hname.
Defined.

(** The fleet without [pct_moving]. *)
Lemma missing_pct_moving_raises_witness :
  Sample.detect Fixtures.fleet_without_pct_moving
  = Err (KeyError "pct_moving").
Proof.
  unfold Sample.detect.
  apply (missing_pct_moving_raises Sample.thresholds Sample.mad_threshold
           Sample.contamination Sample.features unit Sample.scaler
           Sample.forest tt Fixtures.fleet_without_pct_moving).
  - apply (bool_decide_unpack _). vm_compute. exact I.
  - simpl. lia.
  - vm_compute. eexists. reflexivity.
  - intros name Hname.
    repeat (apply elem_of_cons in Hname as [->|Hname];
            [eexists; split; vm_compute; reflexivity|]).
    inversion Hname.
  - intros f c Hf.
    repeat (apply elem_of_cons in Hf as [->|Hf];
            [vm_compute; intros [=]|]).
    inversion Hf.
  - vm_compute. reflexivity.
Defined.

(** The rate of bucket 1 of the sample table, whose unit has bucket 0
    before it. *)
Lemma rate_is_the_change_since_the_previous_bucket_witness :
  float_cell (Sample.returned (derived_features Sample.table))
    "temp_motor1_1_rate" 1
  = sub_null (float_cell Sample.table "temp_motor1_1_mean" 1)
             (float_cell Sample.table "temp_motor1_1_mean" 0).
Proof.
  apply (rate_is_the_change_since_the_previous_bucket Sample.table
           (Sample.returned (derived_features Sample.table)) 1 0).
  - apply (bool_decide_unpack _). vm_compute. exact I.
  - vm_compute. reflexivity.
  - simpl. lia.
  - simpl. lia.
  - vm_compute. reflexivity.
  - vm_compute. reflexivity.
  - intros k Hk Hne.
    destruct k as [|[|[|k]]]; simpl in Hk; try lia;
      vm_compute; intros; congruence.
Defined.

(** ** The aggregation query: the order of the result *)

Lemma string_ltb_lt s t : String.ltb s t = true <-> OrderedTypeEx.String_as_OT.lt s t.
Proof.
  unfold String.ltb. rewrite <- OrderedTypeEx.String_as_OT.cmp_lt. unfold OrderedTypeEx.String_as_OT.cmp.
  destruct (String.compare s t); split; congruence.
Qed.

Lemma string_ltb_trans s t u :
  String.ltb s t = true -> String.ltb t u = true -> String.ltb s u = true.
Proof. rewrite !string_ltb_lt. apply OrderedTypeEx.String_as_OT.lt_trans. Qed.

Lemma string_ltb_irrefl s : String.ltb s s = false.
Proof.
  apply not_true_is_false. rewrite string_ltb_lt. intros H.
  apply (OrderedTypeEx.String_as_OT.lt_not_eq _ _ H). reflexivity.
Qed.

Lemma string_trichotomy s t :
  String.ltb s t = false -> String.eqb s t = false -> String.ltb t s = true.
Proof.
  unfold String.ltb. rewrite (String.compare_antisym t s).
  destruct (String.compare s t) eqn:Hc; simpl; trivial; [|discriminate].
  apply String.compare_eq_iff in Hc. subst t.
  rewrite String.eqb_refl. discriminate.
Qed.

Lemma Qeq_bool_eq x y : Qeq_bool x y = true <-> (x == y)%Q.
Proof. apply Qeq_bool_iff. Qed.

Lemma Qeq_bool_false x y : Qeq_bool x y = false <-> ~ (x == y)%Q.
Proof.
  rewrite <- Qeq_bool_iff. destruct (Qeq_bool x y); split; congruence.
Qed.

Lemma Qltb_false x y : Qltb x y = false <-> (y <= x)%Q.
Proof.
  unfold Qltb. rewrite negb_false_iff. apply Qle_bool_iff.
Qed.

Lemma key_before_not_same a b :
  key_before a b = true -> same_key a b = false.
Proof.
  destruct a as [x|s|], b as [y|t|]; simpl; trivial; try discriminate.
  - rewrite Qltb_lt, Qeq_bool_false. lra.
  - intros H. apply not_true_is_false. rewrite String.eqb_eq. intros ->.
    rewrite string_ltb_irrefl in H. discriminate.
Qed.

Lemma key_before_trans a b c :
  key_before a b = true -> key_before b c = true -> key_before a c = true.
Proof.
  destruct a as [x|s|], b as [y|t|], c as [z|u|]; simpl; trivial;
    try discriminate.
  - rewrite !Qltb_lt. lra.
  - apply string_ltb_trans.
Qed.

Lemma key_trichotomy a b :
  key_before a b = false -> same_key a b = false -> key_before b a = true.
Proof.
  destruct a as [x|s|], b as [y|t|]; simpl; trivial; try discriminate.
  - rewrite Qltb_false, Qeq_bool_false, Qltb_lt.
    intros H1 H2. apply Qle_lt_or_eq in H1 as [H1|H1]; [exact H1|].
    exfalso. apply H2. symmetry. exact H1.
  - apply string_trichotomy.
Qed.

Lemma key_before_same_l a a' b :
  same_key a a' = true -> key_before a b = key_before a' b.
Proof.
  destruct a as [x|s|], a' as [x'|s'|], b as [y|t|]; simpl; trivial;
    try discriminate.
  - rewrite Qeq_bool_eq. intros H.
    destruct (Qltb x y) eqn:H1, (Qltb x' y) eqn:H2; trivial;
      rewrite ?Qltb_lt, ?Qltb_false in *; lra.
  - rewrite String.eqb_eq. intros ->. reflexivity.
Qed.

Lemma key_before_same_r a b b' :
  same_key b b' = true -> key_before a b = key_before a b'.
Proof.
  destruct a as [x|s|], b as [y|t|], b' as [y'|t'|]; simpl; trivial;
    try discriminate.
  - rewrite Qeq_bool_eq. intros H.
    destruct (Qltb x y) eqn:H1, (Qltb x y') eqn:H2; trivial;
      rewrite ?Qltb_lt, ?Qltb_false in *; lra.
  - rewrite String.eqb_eq. intros ->. reflexivity.
Qed.

Lemma group_before_not_same g h :
  group_before g h = true -> same_group g h = false.
Proof.
  unfold group_before, same_group. intros H.
  apply orb_true_iff in H as [H|H].
  - rewrite (key_before_not_same _ _ H). reflexivity.
  - apply andb_true_iff in H as (Hk & Ht). rewrite Hk. simpl.
    rewrite Qltb_lt in Ht. rewrite Qeq_bool_false. lra.
Qed.

Lemma group_before_trans g h k :
  group_before g h = true -> group_before h k = true ->
  group_before g k = true.
Proof.
  unfold group_before. intros H1 H2.
  apply orb_true_iff in H1 as [H1|H1], H2 as [H2|H2].
  - rewrite (key_before_trans _ _ _ H1 H2). reflexivity.
  - apply andb_true_iff in H2 as (Hk & _).
    rewrite <- (key_before_same_r _ _ _ Hk), H1. reflexivity.
  - apply andb_true_iff in H1 as (Hk & _).
    rewrite (key_before_same_l _ _ _ Hk), H2. reflexivity.
  - apply andb_true_iff in H1 as (Hk1 & Ht1).
    apply andb_true_iff in H2 as (Hk2 & Ht2).
    rewrite (same_key_trans _ _ _ Hk1 Hk2).
    rewrite Qltb_lt in Ht1, Ht2.
    assert (Ht : Qltb (snd g) (snd k) = true) by (apply Qltb_lt; lra).
    rewrite Ht. apply orb_true_r.
Qed.

Lemma group_trichotomy g h :
  group_before g h = false -> same_group g h = false ->
  group_before h g = true.
Proof.
  unfold group_before, same_group. intros H1 H2.
  apply orb_false_iff in H1 as (Hk & Ht).
  destruct (same_key (fst g) (fst h)) eqn:Hs; simpl in *.
  - rewrite same_key_sym, Hs. simpl.
    rewrite Qltb_false in Ht. rewrite Qeq_bool_false in H2.
    assert (Hlt : Qltb (snd h) (snd g) = true).
    { apply Qltb_lt. apply Qle_lt_or_eq in Ht as [Ht|Ht]; [exact Ht|].
      exfalso. apply H2. symmetry. exact Ht. }
    rewrite Hlt. apply orb_true_r.
  - rewrite (key_trichotomy _ _ Hk Hs). reflexivity.
Qed.

Lemma ascending_cons e l :
  ascending (e :: l) <->
  Forall (fun e' => group_before (snd e) (snd e') = true) l /\ ascending l.
Proof.
  split.
  - intros H. split.
    + apply Forall_lookup. intros j e' Hj.
      apply (H 0%nat (S j)); [lia|reflexivity|exact Hj].
    + intros i j a b Hij Hi Hj. apply (H (S i) (S j)); [lia|exact Hi|exact Hj].
  - intros (Hall & Hl) i j a b Hij Hi Hj.
    destruct j as [|j]; [lia|]. simpl in Hj.
    destruct i as [|i]; simpl in Hi.
    + injection Hi as <-. rewrite Forall_lookup in Hall. eapply Hall, Hj.
    + apply (Hl i j); [lia|exact Hi|exact Hj].
Qed.

Lemma insert_group_elem e l x :
  x ∈ insert_group e l <-> x = e \/ x ∈ l.
Proof.
  induction l as [|h l IH]; simpl.
  - rewrite list_elem_of_singleton. split; [auto|].
    intros [H|H]; [exact H|inversion H].
  - destruct (group_before (snd e) (snd h)).
    + rewrite !elem_of_cons. tauto.
    + rewrite elem_of_cons, IH, elem_of_cons. tauto.
Qed.

Lemma insert_group_length e l : length (insert_group e l) = S (length l).
Proof.
  induction l as [|h l IH]; simpl; [reflexivity|].
  destruct (group_before _ _); simpl; [reflexivity|]. rewrite IH. reflexivity.
Qed.

Lemma insert_group_ascending e l :
  ascending l ->
  Forall (fun e' => same_group (snd e) (snd e') = false) l ->
  ascending (insert_group e l).
Proof.
  induction l as [|h l IH]; intros Hasc Hnew; simpl.
  - intros i j a b Hij Hi Hj.
    destruct i, j; simpl in *; try lia; discriminate.
  - apply ascending_cons in Hasc as (Hh & Hl).
    inversion Hnew as [|? ? Heh Hnew']; subst.
    destruct (group_before (snd e) (snd h)) eqn:Hb.
    + apply ascending_cons. split.
      * constructor; [exact Hb|].
        eapply Forall_impl; [exact Hh|]. simpl. intros x Hx.
        eapply group_before_trans; eassumption.
      * apply ascending_cons. split; assumption.
    + apply ascending_cons. split.
      * apply Forall_forall. intros x Hx.
        apply insert_group_elem in Hx as [->|Hx].
        -- apply group_trichotomy; assumption.
        -- rewrite Forall_forall in Hh. apply Hh, Hx.
      * apply IH; assumption.
Qed.

Lemma sort_groups_elem l x : x ∈ sort_groups l <-> x ∈ l.
Proof.
  induction l as [|e l IH]; simpl; [reflexivity|].
  rewrite insert_group_elem, IH, elem_of_cons. reflexivity.
Qed.

Lemma sort_groups_length l : length (sort_groups l) = length l.
Proof.
  induction l as [|e l IH]; simpl; [reflexivity|].
  rewrite insert_group_length, IH. reflexivity.
Qed.

Lemma all_distinct_filter f l :
  all_distinct l -> all_distinct (List.filter f l).
Proof.
  induction 1 as [|e l Hall Hl IH]; simpl; [constructor|].
  destruct (f e); [|exact IH].
  constructor; [|exact IH].
  apply Forall_forall. intros x Hx.
  apply list_elem_of_In, filter_In in Hx as (Hx & _).
  rewrite Forall_forall in Hall. apply Hall, list_elem_of_In, Hx.
Qed.

Lemma distinct_groups_distinct es : all_distinct (distinct_groups es).
Proof.
  induction es as [|e es IH]; simpl; constructor.
  - apply Forall_forall. intros x Hx.
    apply list_elem_of_In, filter_In in Hx as (_ & Hx).
    apply negb_true_iff in Hx. exact Hx.
  - apply all_distinct_filter, IH.
Qed.

Lemma sort_groups_ascending l : all_distinct l -> ascending (sort_groups l).
Proof.
  induction 1 as [|e l Hall Hl IH]; simpl.
  - intros i j a b _ [=].
  - apply insert_group_ascending; [exact IH|].
    apply Forall_forall. intros x Hx.
    apply (proj1 (sort_groups_elem _ _)) in Hx.
    rewrite Forall_forall in Hall. apply Hall, Hx.
Qed.

Lemma distinct_groups_elem es x : x ∈ distinct_groups es -> x ∈ es.
Proof.
  revert x. induction es as [|e es IH]; intros x; simpl; [trivial|].
  rewrite !elem_of_cons. intros [->|Hx]; [left; reflexivity|].
  right. apply IH. apply list_elem_of_In, filter_In in Hx as (Hx & _).
  apply list_elem_of_In, Hx.
Qed.

(** ** The aggregation query: the shape of the result *)

Lemma traverse_named {A : Type} (f : A -> result column)
  (l : list (string * A)) cols :
  traverse (fun '(n, a) => c ← f a; Ok (n, c)) l = Ok cols ->
  cols.*1 = l.*1 /\
  (forall n a, (n, a) ∈ l -> exists c, f a = Ok c /\ (n, c) ∈ cols) /\
  (forall n c, (n, c) ∈ cols -> exists a, (n, a) ∈ l /\ f a = Ok c).
Proof.
  revert cols. induction l as [|[n a] l IH]; intros cols H; simpl in H.
  - apply Ok_inj in H. subst cols. split; [reflexivity|].
    split; intros ? ? Hin; inversion Hin.
  - inv_bind H as nc Hnc. inv_bind Hnc as c Hc. apply Ok_inj in Hnc. subst nc.
    inv_bind H as cols' Hcols. apply Ok_inj in H. subst cols.
    destruct (IH _ Hcols) as (Hnames & Hfwd & Hbwd).
    split; [rewrite !fmap_cons; simpl; f_equal; exact Hnames|]. split.
    + intros n' a' Hin. apply elem_of_cons in Hin as [[= -> ->]|Hin].
      * exists c. split; [exact Hc|apply list_elem_of_here].
      * destruct (Hfwd _ _ Hin) as (c' & Hc' & Hin').
        exists c'. split; [exact Hc'|apply list_elem_of_further, Hin'].
    + intros n' c' Hin. apply elem_of_cons in Hin as [[= -> ->]|Hin].
      * exists a. split; [apply list_elem_of_here|exact Hc].
      * destruct (Hbwd _ _ Hin) as (a' & Hin' & Hc').
        exists a'. split; [apply list_elem_of_further, Hin'|exact Hc'].
Qed.

Lemma select_list_names : NoDup (select_list.*1).
Proof. apply (bool_decide_unpack _). vm_compute. exact I. Qed.

Lemma select_list_fresh :
  ("locoid" ∉ select_list.*1) /\ ("ts" ∉ select_list.*1).
Proof. split; apply (bool_decide_unpack _); vm_compute; exact I. Qed.

Lemma gather_map {A B : Type} (f : A -> B) idx (xs : list A) :
  gather idx (map f xs) = map f (gather idx xs).
Proof.
  unfold gather. induction idx as [|i idx IH]; simpl; [reflexivity|].
  rewrite list_lookup_fmap. destruct (xs !! i); simpl; [|exact IH].
  f_equal. exact IH.
Qed.

Lemma keys_of_gather idx c : keys_of (gather_col idx c) = gather idx (keys_of c).
Proof.
  destruct c as [xs|xs|xs]; simpl; symmetry; apply gather_map.
Qed.

(** The rows found: when every position holds the expected value. *)
Lemma gather_found {A B : Type} (f : B -> nat) (g : B -> A) (l : list B)
  (xs : list A) :
  Forall (fun b => xs !! f b = Some (g b)) l ->
  gather (map f l) xs = map g l.
Proof.
  unfold gather. induction 1 as [|b l Hb Hl IH]; simpl; [reflexivity|].
  rewrite Hb. simpl. f_equal. exact IH.
Qed.

Section Shape.
Variable time_bucket : Q -> Q.
Variable stddev_samp : list Q -> option Q.

(** Every entry is a raw row with a timestamp, with its unit and its
    bucket. *)
Lemma entries_from_spec s ks ts e :
  e ∈ entries_from time_bucket s ks ts ->
  exists t, (s <= fst e)%nat /\ ks !! (fst e - s)%nat = Some (fst (snd e)) /\
            ts !! (fst e - s)%nat = Some (Some t) /\
            snd (snd e) = time_bucket t.
Proof.
  revert s ts. induction ks as [|k ks IH]; intros s [|t ts] Hin; simpl in Hin;
    try (inversion Hin; fail).
  assert (Hrec : e ∈ entries_from time_bucket (S s) ks ts ->
    exists t0, (s <= fst e)%nat /\ (k :: ks) !! (fst e - s)%nat = Some (fst (snd e))
               /\ (t :: ts) !! (fst e - s)%nat = Some (Some t0)
               /\ snd (snd e) = time_bucket t0).
  { intros H. destruct (IH _ _ H) as (t0 & Hs & Hk & Ht & Hb).
    exists t0. replace (fst e - s)%nat with (S (fst e - S s)) by lia.
    split; [lia|]. split; [exact Hk|]. split; [exact Ht|exact Hb]. }
  destruct t as [t|]; [|apply Hrec, Hin].
  apply elem_of_cons in Hin as [->|Hin]; [|apply Hrec, Hin].
  exists t. simpl. rewrite Nat.sub_diag. split_and!; trivial.
Qed.

(** Every raw row with a timestamp is an entry. *)
Lemma entries_from_complete s ks ts (i : nat) k t :
  ks !! i = Some k -> ts !! i = Some (Some t) ->
  ((s + i)%nat, (k, time_bucket t)) ∈ entries_from time_bucket s ks ts.
Proof.
  revert s ts i. induction ks as [|k0 ks IH]; intros s [|t0 ts] i Hk Ht;
    try discriminate.
  destruct i as [|i]; simpl in Hk, Ht.
  - injection Hk as ->. injection Ht as ->. simpl.
    rewrite Nat.add_0_r. apply list_elem_of_here.
  - simpl. replace (s + S i)%nat with (S s + i)%nat by lia.
    destruct t0; [apply list_elem_of_further|]; apply IH; assumption.
Qed.

Lemma group_mask_length ks ts g :
  length ks = length ts -> length (group_mask time_bucket ks ts g) = length ks.
Proof. intros H. unfold group_mask. rewrite length_zip_with. lia. Qed.

Lemma aggregate_column_length raw masks a c :
  aggregate_column stddev_samp raw masks a = Ok c ->
  col_length c = length masks.
Proof.
  destruct a; simpl; intros H;
    try (inv_bind H as x Hx; apply Ok_inj in H; subst c; simpl;
         apply length_map);
    apply Ok_inj in H; subst c; simpl; apply length_map.
Qed.

(** The parts of the result of the aggregation query. *)
Lemma aggregate_features_shape raw tbl :
  wf_frame raw ->
  aggregate_features time_bucket stddev_samp raw = Ok tbl ->
  exists locoid dt devicetime groups cols,
    columns raw !! "locoid" = Some locoid /\
    columns raw !! "devicetime" = Some dt /\ as_float dt = Ok devicetime /\
    length (keys_of locoid) = nrows raw /\ length devicetime = nrows raw /\
    groups = sort_groups
               (distinct_groups
                  (entries_from time_bucket 0 (keys_of locoid) devicetime)) /\
    ascending groups /\
    Forall (fun e => exists t,
              keys_of locoid !! fst e = Some (fst (snd e)) /\
              devicetime !! fst e = Some (Some t) /\
              snd (snd e) = time_bucket t) groups /\
    traverse (fun '(name, a) =>
                c ← aggregate_column stddev_samp raw
                      (map (fun e => group_mask time_bucket (keys_of locoid)
                                       devicetime (snd e)) groups) a;
                Ok (name, c)) select_list = Ok cols /\
    nrows tbl = length groups /\
    columns tbl
    = <["locoid" := gather_col (map fst groups) locoid]>
        (<["ts" := FloatCol (map (fun e => Some (snd (snd e))) groups)]>
           (list_to_map cols)) /\
    unit_keys tbl = map (fun e => fst (snd e)) groups /\
    float_values tbl "ts" = map (fun e => Some (snd (snd e))) groups /\
    wf_frame tbl.
Proof.
  intros Hraw H. unfold aggregate_features in H.
  remember select_list as sl eqn:Hsl. unfold read_column in H at 1 2.
  destruct (columns raw !! "locoid") as [locoid|] eqn:Hloco; [|discriminate].
  simpl in H.
  destruct (columns raw !! "devicetime") as [dt|] eqn:Hdt; [|discriminate].
  simpl in H. inv_bind H as devicetime Hdev.
  inv_bind H as cols Hcols. apply Ok_inj in H. subst tbl.
  set (groups := sort_groups
                   (distinct_groups
                      (entries_from time_bucket 0 (keys_of locoid) devicetime)))
    in *.
  assert (Hlk : length (keys_of locoid) = nrows raw).
  { rewrite keys_of_length. exact (Hraw _ _ Hloco). }
  assert (Hld : length devicetime = nrows raw).
  { eapply wf_column_length; eassumption. }
  assert (Hent : Forall (fun e => exists t,
              keys_of locoid !! fst e = Some (fst (snd e)) /\
              devicetime !! fst e = Some (Some t) /\
              snd (snd e) = time_bucket t) groups).
  { apply Forall_forall. intros e He.
    apply (proj1 (sort_groups_elem _ _)), distinct_groups_elem,
      entries_from_spec in He.
    destruct He as (t & _ & Hk & Ht & Hb). rewrite Nat.sub_0_r in Hk, Ht.
    eauto. }
  assert (Hkeys : gather (map fst groups) (keys_of locoid)
                  = map (fun e => fst (snd e)) groups).
  { apply gather_found. eapply Forall_impl; [exact Hent|].
    simpl. intros e (t & Hk & _). exact Hk. }
  exists locoid, dt, devicetime, groups, cols.
  split_and!; trivial.
  - apply sort_groups_ascending, distinct_groups_distinct.
  - unfold unit_keys. simpl. rewrite lookup_insert_eq, keys_of_gather.
    exact Hkeys.
  - unfold float_values. simpl.
    rewrite lookup_insert_ne, lookup_insert_eq by discriminate. reflexivity.
  - unfold wf_frame. simpl.
    apply map_Forall_insert_2.
    { rewrite <- keys_of_length, keys_of_gather, Hkeys. apply length_map. }
    apply map_Forall_insert_2; [simpl; apply length_map|].
    intros name c Hc. apply elem_of_list_to_map_2 in Hc.
    destruct (traverse_named _ _ _ Hcols) as (_ & _ & Hbwd).
    destruct (Hbwd _ _ Hc) as (a & _ & Ha).
    rewrite (aggregate_column_length _ _ _ _ Ha). apply length_map.
Qed.

End Shape.

(** ** The aggregation query: units and buckets in order *)

Lemma key_before_asym a b : key_before a b = true -> key_before b a = false.
Proof.
  intros H. apply not_true_is_false. intros H'.
  pose proof (key_before_not_same _ _ (key_before_trans _ _ _ H H')) as Hs.
  rewrite same_key_refl in Hs. discriminate.
Qed.

Section Order.
Variable time_bucket : Q -> Q.
Variable stddev_samp : list Q -> option Q.

(** The rows of the feature table, read off the sorted groups. *)
Lemma aggregate_features_rows raw tbl :
  wf_frame raw ->
  aggregate_features time_bucket stddev_samp raw = Ok tbl ->
  wf_frame tbl /\
  forall i j, (i < j < nrows tbl)%nat ->
    exists ki ti kj tj,
      unit_of tbl i = ki /\ ts_cell tbl i = Some ti /\
      unit_of tbl j = kj /\ ts_cell tbl j = Some tj /\
      group_before (ki, ti) (kj, tj) = true.
Proof.
  intros Hraw H.
  destruct (aggregate_features_shape _ _ _ _ Hraw H)
    as (locoid & dt & devicetime & groups & cols & _ & _ & _ & _ & _ & _ & Hasc
        & _ & _ & Hn & _ & Hkeys & Hts & Hwf).
  split; [exact Hwf|]. intros i j Hij.
  destruct (lookup_lt_is_Some_2 groups i) as [[ni [ki ti]] Hi]; [lia|].
  destruct (lookup_lt_is_Some_2 groups j) as [[nj [kj tj]] Hj]; [lia|].
  exists ki, ti, kj, tj.
  unfold unit_of, ts_cell, float_cell. rewrite Hkeys, Hts, !list_lookup_fmap.
  unfold group in *. rewrite Hi, Hj. simpl. split_and!; trivial.
  apply (Hasc i j _ _ (proj1 Hij) Hi Hj).
Qed.

(** The feature table is sorted by unit, then by bucket, and no two rows
    have the same unit and the same bucket: of two rows, the later one never
    has a unit that sorts before the unit of the earlier one, and when they
    have the same unit the later one has the later bucket. In particular the
    rows of each unit are in temporal order. *)
Theorem buckets_are_sorted_and_distinct raw tbl :
  wf_frame raw ->
  aggregate_features time_bucket stddev_samp raw = Ok tbl ->
  wf_frame tbl /\
  (forall i j, (i < j < nrows tbl)%nat ->
     key_before (unit_of tbl j) (unit_of tbl i) = false /\
     (same_unit tbl i j = true ->
      exists ti tj,
        ts_cell tbl i = Some ti /\ ts_cell tbl j = Some tj /\ (ti < tj)%Q)) /\
  temporally_ordered tbl.
Proof.
  intros Hraw H.
  destruct (aggregate_features_rows _ _ Hraw H) as (Hwf & Hrows).
  assert (Hpair : forall i j, (i < j < nrows tbl)%nat ->
     key_before (unit_of tbl j) (unit_of tbl i) = false /\
     (same_unit tbl i j = true ->
      exists ti tj,
        ts_cell tbl i = Some ti /\ ts_cell tbl j = Some tj /\ (ti < tj)%Q)).
  { intros i j Hij.
    destruct (Hrows i j Hij) as (ki & ti & kj & tj & Hki & Hti & Hkj & Htj & Hb).
    unfold group_before in Hb. simpl in Hb.
    unfold same_unit. rewrite Hki, Hkj. split.
    - apply orb_true_iff in Hb as [Hb|Hb]; [apply key_before_asym, Hb|].
      apply andb_true_iff in Hb as (Hs & _).
      apply not_true_is_false. intros H'.
      apply key_before_not_same in H'. rewrite same_key_sym, Hs in H'. discriminate H'.
    - intros Hsame. exists ti, tj. split; [exact Hti|]. split; [exact Htj|].
      apply orb_true_iff in Hb as [Hb|Hb].
      + apply key_before_not_same in Hb. rewrite Hb in Hsame. discriminate Hsame.
      + apply andb_true_iff in Hb as (_ & Hb). apply Qltb_lt, Hb. }
  split; [exact Hwf|]. split; [exact Hpair|].
  intros i j Hij Hsame.
  destruct (Hpair i j Hij) as (_ & Hts).
  destruct (Hts Hsame) as (ti & tj & -> & -> & Hlt). simpl.
  apply Qltb_false. lra.
Qed.

End Order.

(** ** The two queries together: the lagged row in the sorted table *)

Lemma ascending_pair groups (i j : nat) (e e' : nat * group) :
  ascending groups -> (i < j)%nat ->
  groups !! i = Some e -> groups !! j = Some e' ->
  key_before (fst (snd e')) (fst (snd e)) = false /\
  (same_key (fst (snd e)) (fst (snd e')) = true ->
   (snd (snd e) < snd (snd e'))%Q).
Proof.
  intros Hasc Hij Hi Hj. pose proof (Hasc i j e e' Hij Hi Hj) as Hb.
  unfold group_before in Hb. split.
  - apply orb_true_iff in Hb as [Hb|Hb]; [apply key_before_asym, Hb|].
    apply andb_true_iff in Hb as (Hs & _).
    apply not_true_is_false. intros H'.
    apply key_before_not_same in H'. rewrite same_key_sym, Hs in H'.
    discriminate H'.
  - intros Hsame. apply orb_true_iff in Hb as [Hb|Hb].
    + apply key_before_not_same in Hb. rewrite Hb in Hsame. discriminate Hsame.
    + apply andb_true_iff in Hb as (_ & Hb). apply Qltb_lt, Hb.
Qed.

(** The rows of a unit are next to each other. *)
Lemma ascending_contiguous groups (k j : nat) (ek ej ei : nat * group) :
  ascending groups -> (k <= j)%nat ->
  groups !! k = Some ek -> groups !! j = Some ej -> groups !! S j = Some ei ->
  same_key (fst (snd ek)) (fst (snd ei)) = true ->
  same_key (fst (snd ej)) (fst (snd ei)) = true.
Proof.
  intros Hasc Hkj Hk Hj Hi Hsame.
  destruct (same_key (fst (snd ej)) (fst (snd ei))) eqn:Hs; [reflexivity|].
  exfalso.
  destruct (ascending_pair _ j (S j) _ _ Hasc ltac:(lia) Hj Hi) as (Hji & _).
  pose proof (key_trichotomy _ _ Hji) as Hlt.
  rewrite same_key_sym in Hlt. specialize (Hlt Hs).
  rewrite (key_before_same_r _ _ (fst (snd ek))) in Hlt
    by (rewrite same_key_sym; exact Hsame).
  destruct (decide (k = j)) as [->|Hne].
  - rewrite Hj in Hk. injection Hk as <-.
    apply key_before_not_same in Hlt. rewrite same_key_refl in Hlt.
    discriminate.
  - destruct (ascending_pair _ k j _ _ Hasc ltac:(lia) Hk Hj) as (Hkj' & _).
    rewrite Hkj' in Hlt. discriminate.
Qed.

(** [LAG] over a table that is sorted by unit and bucket: the value of the
    row just above when that row is of the same unit, NULL otherwise. *)
Lemma lag_sorted (groups : list (nat * group)) (xs : list (option Q))
  (i : nat) (h : nat * group) :
  ascending groups -> length xs = length groups ->
  groups !! i = Some h ->
  lag (map (fun e => fst (snd e)) groups)
      (map (fun e => Some (snd (snd e))) groups) xs !! i
  = Some match i with
         | O => None
         | S j => match groups !! j with
                  | Some g => if same_key (fst (snd g)) (fst (snd h))
                              then default None (xs !! j) else None
                  | None => None
                  end
         end.
Proof.
  intros Hasc Hlen Hi.
  set (ks := map (fun e : nat * group => fst (snd e)) groups).
  set (ts := map (fun e : nat * group => Some (snd (snd e))) groups).
  assert (Hl1 : length ks = length ts) by (unfold ks, ts; rewrite !length_map; reflexivity).
  assert (Hl2 : length ts = length xs) by (unfold ts; rewrite length_map; lia).
  assert (Hks : forall n (e : nat * group), groups !! n = Some e -> ks !! n = Some (fst (snd e))).
  { intros n e Hn. unfold ks. rewrite list_lookup_fmap.
    unfold group in *. rewrite Hn. reflexivity. }
  assert (Hts : forall n (e : nat * group), groups !! n = Some e -> ts !! n = Some (Some (snd (snd e)))).
  { intros n e Hn. unfold ts. rewrite list_lookup_fmap.
    unfold group in *. rewrite Hn. reflexivity. }
  assert (Hget : forall n k t, ks !! n = Some k -> ts !! n = Some t ->
            exists e : nat * group, groups !! n = Some e /\ k = fst (snd e)
                      /\ t = Some (snd (snd e))).
  { intros n k t Hk Ht.
    destruct (lookup_lt_is_Some_2 groups n) as [e He].
    { apply lookup_lt_Some in Hk. unfold ks in Hk. rewrite length_map in Hk.
      exact Hk. }
    exists e. rewrite (Hks _ _ He) in Hk. rewrite (Hts _ _ He) in Ht.
    split; [exact He|].
    split; [injection Hk as Hk|injection Ht as Ht]; symmetry; assumption. }
  (* a row at or below [i] is not before row [i] *)
  assert (Hbelow : forall n (e : nat * group), (i <= n)%nat -> groups !! n = Some e ->
            same_key (fst (snd e)) (fst (snd h)) = true ->
            ts_before (Some (snd (snd e))) (Some (snd (snd h))) = false).
  { intros n e Hin Hn Hsame.
    destruct (decide (n = i)) as [->|Hne].
    - rewrite Hi in Hn. injection Hn as <-. apply ts_before_irrefl.
    - destruct (ascending_pair _ i n _ _ Hasc ltac:(lia) Hi Hn) as (_ & Hlt).
      rewrite same_key_sym in Hsame. specialize (Hlt Hsame).
      simpl. apply Qltb_false. lra. }
  assert (Hfirst : (forall n (e : nat * group), (n < i)%nat -> groups !! n = Some e ->
                      same_key (fst (snd e)) (fst (snd h)) = false) ->
            lag ks ts xs !! i = Some None).
  { intros Hnone.
    apply (lag_first ks ts xs i _ _ Hl1 Hl2 (Hks _ _ Hi) (Hts _ _ Hi)).
    intros n k t Hk Ht Hsame.
    destruct (Hget _ _ _ Hk Ht) as (e & He & -> & ->).
    destruct (le_lt_dec i n) as [Hin|Hin].
    - apply (Hbelow n e Hin He Hsame).
    - rewrite (Hnone n e Hin He) in Hsame. discriminate. }
  destruct i as [|j].
  - apply Hfirst. intros n e Hn. lia.
  - destruct (lookup_lt_is_Some_2 groups j) as [g Hj].
    { apply lookup_lt_Some in Hi. lia. }
    unfold group in *. rewrite Hj.
    destruct (same_key (fst (snd g)) (fst (snd h))) eqn:Hs.
    + destruct (lookup_lt_is_Some_2 xs j) as [xj Hxj].
      { apply lookup_lt_Some in Hj. lia. }
      rewrite Hxj. simpl.
      apply (lag_previous ks ts xs (S j) j _ _ _ _ xj Hl1 Hl2
               (Hks _ _ Hi) (Hts _ _ Hi) (Hks _ _ Hj) (Hts _ _ Hj) Hxj Hs).
      * destruct (ascending_pair _ j (S j) _ _ Hasc ltac:(lia) Hj Hi) as (_ & Hlt).
        simpl. apply Qltb_lt, Hlt, Hs.
      * intros n k t Hne Hk Ht Hsame Hbefore.
        destruct (Hget _ _ _ Hk Ht) as (e & He & -> & ->).
        destruct (le_lt_dec (S j) n) as [Hin|Hin].
        { rewrite (Hbelow n e Hin He Hsame) in Hbefore. discriminate. }
        destruct (ascending_pair _ n j _ _ Hasc ltac:(lia) He Hj) as (_ & Hlt).
        simpl. apply Qltb_lt, Hlt.
        apply (same_key_trans _ (fst (snd h))); [exact Hsame|].
        rewrite same_key_sym. exact Hs.
    + apply Hfirst. intros n e Hn He.
      destruct (same_key (fst (snd e)) (fst (snd h))) eqn:Hse; [|reflexivity].
      pose proof (ascending_contiguous _ n j e g h Hasc ltac:(lia) He Hj Hi Hse)
        as Hc.
      exfalso. apply diff_true_false. rewrite <- Hc. exact Hs.
Qed.

Section Final.
Variable time_bucket : Q -> Q.
Variable stddev_samp : list Q -> option Q.

(** What [features_final] is made of. *)
Lemma features_final_shape raw df :
  wf_frame raw ->
  features_final time_bucket stddev_samp raw = Ok df ->
  exists tbl groups mean,
    aggregate_features time_bucket stddev_samp raw = Ok tbl /\
    derived_features tbl = Ok df /\ wf_frame tbl /\
    ascending groups /\ nrows df = length groups /\
    nrows tbl = length groups /\
    unit_keys df = map (fun e => fst (snd e)) groups /\
    float_values df "ts" = map (fun e => Some (snd (snd e))) groups /\
    float_values df "temp_motor1_1_mean" = mean /\
    length mean = length groups /\
    float_values df "temp_motor1_1_rate"
    = zip_with sub_null mean
        (lag (map (fun e => fst (snd e)) groups)
             (map (fun e => Some (snd (snd e))) groups) mean).
Proof.
  intros Hraw H. unfold features_final in H.
  inv_bind H as tbl Htbl.
  destruct (aggregate_features_shape _ _ _ _ Hraw Htbl)
    as (locoid & dt & devicetime & groups & cols & _ & _ & _ & _ & _ & _ & Hasc
        & _ & _ & Hn & _ & Hkeys & Hts & Hwf).
  destruct (derived_features_columns _ _ H)
    as (rate & eff & k & ts & mean & Hk & Hts' & Hmean & Hlen & Hrate & Hn' & Hcols).
  destruct (Hlen Hwf) as (Hlts & Hlmean & Hlrate & _).
  exists tbl, groups, mean.
  assert (Hsame : forall name, name <> "temp_motor1_1_rate" ->
            name <> "energy_efficiency" ->
            columns df !! name = columns tbl !! name).
  { intros name H1 H2. rewrite Hcols.
    rewrite lookup_insert_ne by congruence.
    rewrite lookup_insert_ne by congruence. reflexivity. }
  split_and!; trivial.
  - congruence.
  - unfold unit_keys. rewrite Hsame by discriminate. exact Hkeys.
  - unfold float_values. rewrite Hsame by discriminate. exact Hts.
  - unfold float_values. rewrite Hsame by discriminate. exact Hmean.
  - congruence.
  - unfold float_values. rewrite Hcols, lookup_insert_eq. simpl.
    rewrite Hrate. rewrite (unit_keys_eq _ _ Hk) in Hkeys.
    rewrite Hkeys, <- Hts', Hts. reflexivity.
Qed.

(** In the final feature table the rate of change of a row is its mean
    temperature minus that of the row just above when that row is of the
    same unit, and it is missing otherwise: in the first row of the table
    and in the first row of each unit. *)
Theorem rate_compares_a_row_with_the_row_above raw df (i : nat) :
  wf_frame raw ->
  features_final time_bucket stddev_samp raw = Ok df ->
  (i < nrows df)%nat ->
  float_cell df "temp_motor1_1_rate" i
  = match i with
    | O => None
    | S j => if same_unit df j i
             then sub_null (float_cell df "temp_motor1_1_mean" i)
                           (float_cell df "temp_motor1_1_mean" j)
             else None
    end.
Proof.
  intros Hraw H Hi.
  destruct (features_final_shape _ _ Hraw H)
    as (tbl & groups & mean & _ & _ & _ & Hasc & Hn & _ & Hkeys & _ & Hmean
        & Hlen & Hrate).
  destruct (lookup_lt_is_Some_2 groups i) as [h Hh]; [lia|].
  destruct (lookup_lt_is_Some_2 mean i) as [mi Hmi]; [lia|].
  unfold float_cell at 1. rewrite Hrate, lookup_zip_with, Hmi. simpl.
  rewrite (lag_sorted groups mean i h Hasc Hlen Hh). simpl.
  destruct i as [|j].
  - destruct mi; reflexivity.
  - destruct (lookup_lt_is_Some_2 groups j) as [g Hg]; [lia|].
    unfold same_unit, unit_of, float_cell.
    rewrite Hkeys, Hmean, !list_lookup_fmap. unfold group in *.
    rewrite Hg, Hh, Hmi. simpl.
    destruct (same_key (fst (snd g)) (fst (snd h))); [reflexivity|].
    destruct mi; reflexivity.
Qed.

End Final.

(** ** The aggregation query: the values of a bucket *)

Lemma same_group_refl g : same_group g g = true.
Proof.
  unfold same_group. rewrite same_key_refl. simpl.
  apply Qeq_bool_iff. reflexivity.
Qed.

Lemma same_group_sym g h : same_group g h = same_group h g.
Proof.
  unfold same_group. rewrite same_key_sym. f_equal.
  destruct (Qeq_bool (snd g) (snd h)) eqn:E1, (Qeq_bool (snd h) (snd g)) eqn:E2;
    trivial.
  - apply Qeq_bool_iff in E1. symmetry in E1. apply Qeq_bool_iff in E1.
    rewrite E1 in E2. discriminate.
  - apply Qeq_bool_iff in E2. symmetry in E2. apply Qeq_bool_iff in E2.
    rewrite E2 in E1. discriminate.
Qed.

Lemma same_group_trans g h k :
  same_group g h = true -> same_group h k = true -> same_group g k = true.
Proof.
  unfold same_group. intros [H1 H2]%andb_true_iff [H3 H4]%andb_true_iff.
  apply andb_true_iff. split; [eapply same_key_trans; eassumption|].
  apply Qeq_bool_iff. apply Qeq_bool_iff in H2, H4. rewrite H2. exact H4.
Qed.

Lemma select_nonempty {A : Type} mask (xs : list A) (j : nat) :
  mask !! j = Some true -> (j < length xs)%nat -> select mask xs <> [].
Proof.
  intros Hm Hj. destruct (lookup_lt_is_Some_2 xs j Hj) as [a Ha].
  pose proof (select_elem_of mask xs a j Hm Ha) as Hin.
  intros E. rewrite E in Hin. inversion Hin.
Qed.

(** The sum of numbers between 0 and 1. *)
Lemma sum_Q_bounds (l : list Q) :
  Forall (fun q => 0 <= q <= 1)%Q l ->
  (0 <= sum_Q l <= inject_Z (Z.of_nat (length l)))%Q.
Proof.
  induction 1 as [|q l Hq Hl IH].
  - split; apply Qle_refl.
  - change (sum_Q (q :: l)) with (q + sum_Q l)%Q.
    change (length (q :: l)) with (S (length l)).
    rewrite Nat2Z.inj_succ, <- Z.add_1_r, inject_Z_plus.
    change (inject_Z 1) with 1%Q. lra.
Qed.

Lemma fraction_bounds (s : Q) (n : nat) :
  (0 < n)%nat -> (0 <= s <= inject_Z (Z.of_nat n))%Q ->
  (0 <= s / inject_Z (Z.of_nat n) <= 1)%Q.
Proof.
  intros Hn [H0 H1].
  assert (Hpos : (0 < inject_Z (Z.of_nat n))%Q).
  { change 0%Q with (inject_Z 0). rewrite <- Zlt_Qlt. lia. }
  split.
  - apply Qle_shift_div_l; [exact Hpos|]. lra.
  - apply Qle_shift_div_r; [exact Hpos|]. lra.
Qed.

Lemma case_gt_bounds thr x : (0 <= case_gt thr x <= 1)%Z.
Proof. unfold case_gt. destruct (gt_cell thr x); lia. Qed.

(** [AVG(CASE WHEN x > thr THEN 1 ELSE 0 END)] over a group with a row. *)
Lemma avg_case_gt_bounds thr xs :
  xs <> [] ->
  exists q, sql_avg (map (fun x => Some (inject_Z (case_gt thr x))) xs) = Some q
            /\ (0 <= q <= 1)%Q.
Proof.
  intros Hne. unfold sql_avg.
  rewrite (values_map_Some (fun x => inject_Z (case_gt thr x))).
  destruct xs as [|x xs]; [contradiction|].
  set (l := map (fun x => inject_Z (case_gt thr x)) (x :: xs)).
  change (map _ (x :: xs)) with l.
  assert (Hl : l <> []) by discriminate.
  assert (Hb : Forall (fun q => 0 <= q <= 1)%Q l).
  { unfold l. apply Forall_forall. intros q Hq.
    apply list_elem_of_In, in_map_iff in Hq as (y & <- & _).
    pose proof (case_gt_bounds thr y) as [H0 H1].
    change 0%Q with (inject_Z 0). change 1%Q with (inject_Z 1).
    rewrite <- !Zle_Qle. lia. }
  clearbody l. destruct l as [|q l]; [contradiction|].
  eexists. split; [reflexivity|].
  apply fraction_bounds; [simpl; lia|]. apply sum_Q_bounds, Hb.
Qed.

Lemma values_length_le xs : (length (values xs) <= length xs)%nat.
Proof.
  induction xs as [|[q|] xs IH]; simpl; [lia| |].
  - change (values (Some q :: xs)) with (q :: values xs). simpl. lia.
  - change (values (None :: xs)) with (values xs). lia.
Qed.

Section Cells.
Variable time_bucket : Q -> Q.
Variable stddev_samp : list Q -> option Q.

(** The columns of the result, one per item of the SELECT list, over the
    masks of the groups. *)
Lemma aggregate_features_cells raw tbl :
  wf_frame raw ->
  aggregate_features time_bucket stddev_samp raw = Ok tbl ->
  exists ks devicetime (groups : list (nat * group)),
    length ks = nrows raw /\ length devicetime = nrows raw /\
    float_values raw "devicetime" = devicetime /\
    groups = sort_groups
               (distinct_groups (entries_from time_bucket 0 ks devicetime)) /\
    nrows tbl = length groups /\ ascending groups /\
    Forall (fun e : nat * group =>
              group_mask time_bucket ks devicetime (snd e) !! fst e = Some true
              /\ (fst e < nrows raw)%nat) groups /\
    forall name a, (name, a) ∈ select_list ->
      exists c, columns tbl !! name = Some c /\
        aggregate_column stddev_samp raw
          (map (fun e => group_mask time_bucket ks devicetime (snd e)) groups) a
        = Ok c.
Proof.
  intros Hraw H.
  destruct (aggregate_features_shape _ _ _ _ Hraw H)
    as (locoid & dt & devicetime & groups & cols & Hlocoid & Hdt & Hdev & Hlk
        & Hld & Hgroups & Hasc & Hent & Htrav & Hn & Hcols & _ & _ & _).
  exists (keys_of locoid), devicetime, groups.
  split; [exact Hlk|]. split; [exact Hld|].
  split; [apply (float_values_eq _ _ _ _ Hdt Hdev)|].
  split; [exact Hgroups|]. split; [exact Hn|]. split; [exact Hasc|]. split.
  - eapply Forall_impl; [exact Hent|]. intros e (t & Hk & Ht & Hb).
    unfold group in *. split.
    + unfold group_mask. rewrite lookup_zip_with, Hk. simpl. rewrite Ht. simpl.
      f_equal. rewrite <- Hb. destruct e as [n [k b]]. simpl.
      apply same_group_refl.
    + apply lookup_lt_Some in Hk. lia.
  - intros name a Hin.
    destruct (traverse_named _ _ _ Htrav) as (Hnames & Hfwd & _).
    destruct (Hfwd _ _ Hin) as (c & Hc & Hcin).
    exists c. split; [|exact Hc].
    assert (Hname : name ∈ select_list.*1).
    { apply list_elem_of_fmap. exists (name, a). split; [reflexivity|exact Hin]. }
    destruct select_list_fresh as (Hf1 & Hf2).
    rewrite Hcols.
    rewrite lookup_insert_ne by (intros <-; contradiction).
    rewrite lookup_insert_ne by (intros <-; contradiction).
    apply elem_of_list_to_map_1; [|exact Hcin].
    rewrite Hnames. apply select_list_names.
Qed.

(** A float column of the result, cell by cell. *)
Lemma aggregate_features_float raw tbl name a col :
  wf_frame raw ->
  aggregate_features time_bucket stddev_samp raw = Ok tbl ->
  (name, a) ∈ select_list -> argument a = Some col ->
  (forall thr, a <> SUM_CASE_GT col thr) ->
  forall i, (i < nrows tbl)%nat ->
    exists xs, xs <> [] /\ float_cell tbl name i = aggregate_of stddev_samp a xs
               /\ Forall (fun x => x ∈ float_values raw col) xs.
Proof.
  intros Hraw H Hin Harg Hnot i Hi.
  destruct (aggregate_features_cells _ _ Hraw H)
    as (ks & devicetime & groups & Hlk & Hld & _ & _ & Hn & _ & Hent & Hcells).
  destruct (Hcells _ _ Hin) as (c & Hc & Hagg).
  destruct (lookup_lt_is_Some_2 groups i) as [e He]; [lia|].
  rewrite Forall_forall in Hent.
  destruct (Hent e) as (Hmask & Hlt).
  { eapply list_elem_of_lookup_2, He. }
  assert (Hgen : forall x,
    (c0 ← read_column raw col; as_float c0) = Ok x ->
    c = FloatCol (map (fun m => aggregate_of stddev_samp a (select m x))
            (map (fun e => group_mask time_bucket ks devicetime (snd e)) groups)) ->
    exists xs, xs <> [] /\ float_cell tbl name i = aggregate_of stddev_samp a xs
               /\ Forall (fun x => x ∈ float_values raw col) xs).
  { intros x Hx ->.
    exists (select (group_mask time_bucket ks devicetime (snd e)) x).
    inv_bind Hx as c0 Hc0. unfold read_column in Hc0.
    destruct (columns raw !! col) as [c1|] eqn:Hcol; [|discriminate].
    apply Ok_inj in Hc0. subst c1.
    assert (Hlx : length x = nrows raw).
    { rewrite (as_float_length _ _ Hx). exact (Hraw _ _ Hcol). }
    split; [apply (select_nonempty _ _ (fst e) Hmask); lia|]. split.
    - unfold float_cell, float_values. rewrite Hc. simpl.
      rewrite !list_lookup_fmap. unfold group in *. rewrite He. reflexivity.
    - apply Forall_forall. intros y Hy.
      apply elem_of_select in Hy as (j & _ & Hj).
      rewrite (float_values_eq _ _ _ _ Hcol Hx).
      eapply list_elem_of_lookup_2, Hj. }
  destruct a; simpl in Harg; try discriminate; injection Harg as ->;
    try (exfalso; eapply Hnot; reflexivity);
    simpl in Hagg; inv_bind Hagg as x Hx; apply Ok_inj in Hagg;
    apply (Hgen x Hx); symmetry; exact Hagg.
Qed.

(** The share of moving rows and the GPS availability of a bucket are
    never missing and lie between 0 and 1. *)
Theorem fractions_lie_between_zero_and_one raw tbl name (i : nat) :
  wf_frame raw ->
  aggregate_features time_bucket stddev_samp raw = Ok tbl ->
  name ∈ ["pct_moving"; "gps_availability"] ->
  (i < nrows tbl)%nat ->
  exists q, float_cell tbl name i = Some q /\ (0 <= q <= 1)%Q.
Proof.
  intros Hraw H Hname Hi.
  apply elem_of_cons in Hname as [->|Hname].
  - destruct (aggregate_features_float raw tbl "pct_moving"
                (AVG_CASE_GT "gpsspeed" 5) "gpsspeed" Hraw H)
      with (i := i) as (xs & Hne & Hcell & _); trivial.
    { apply (list_elem_of_lookup_2 _ 4). reflexivity. }
    { discriminate. }
    rewrite Hcell. simpl. apply avg_case_gt_bounds, Hne.
  - apply list_elem_of_singleton in Hname as ->.
    destruct (aggregate_features_float raw tbl "gps_availability"
                (NOT_NULL_RATIO "latitude") "latitude" Hraw H)
      with (i := i) as (xs & Hne & Hcell & _); trivial.
    { apply (list_elem_of_lookup_2 _ 7). reflexivity. }
    { discriminate. }
    rewrite Hcell. simpl. destruct xs as [|x xs]; [contradiction|].
    eexists. split; [reflexivity|].
    apply fraction_bounds; [simpl; lia|]. split.
    + change 0%Q with (inject_Z 0). rewrite <- Zle_Qle. lia.
    + rewrite <- Zle_Qle. pose proof (values_length_le (x :: xs)). lia.
Qed.

End Cells.

(** ** Energy and distance of a bucket *)

Lemma Qmax_ge a b : (a <= Qmax_ a b)%Q /\ (b <= Qmax_ a b)%Q.
Proof.
  unfold Qmax_. destruct (Qle_bool a b) eqn:E.
  - apply Qle_bool_iff in E. split; [exact E|apply Qle_refl].
  - apply Qle_bool_false in E. split; [apply Qle_refl|lra].
Qed.

Lemma Qmin_le a b : (Qmin_ a b <= a)%Q /\ (Qmin_ a b <= b)%Q.
Proof.
  unfold Qmin_. destruct (Qle_bool a b) eqn:E.
  - apply Qle_bool_iff in E. split; [apply Qle_refl|exact E].
  - apply Qle_bool_false in E. split; [lra|apply Qle_refl].
Qed.

Lemma foldl_Qmax_ge v a : (a <= foldl Qmax_ a v)%Q.
Proof.
  revert a. induction v as [|x v IH]; intros a; simpl; [apply Qle_refl|].
  eapply Qle_trans; [apply (proj1 (Qmax_ge a x))|apply IH].
Qed.

Lemma foldl_Qmin_le v a : (foldl Qmin_ a v <= a)%Q.
Proof.
  revert a. induction v as [|x v IH]; intros a; simpl; [apply Qle_refl|].
  eapply Qle_trans; [apply IH|apply (proj1 (Qmin_le a x))].
Qed.

(** [MAX(x) - MIN(x)] is never negative. *)
Lemma max_minus_min_nonneg xs q :
  sub_null (sql_max xs) (sql_min xs) = Some q -> (0 <= q)%Q.
Proof.
  unfold sql_max, sql_min. destruct (values xs) as [|x v]; [discriminate|].
  simpl. intros [= <-].
  pose proof (foldl_Qmax_ge v x). pose proof (foldl_Qmin_le v x). lra.
Qed.

Lemma energy_efficiency_nonneg e d q :
  (forall x, e = Some x -> 0 <= x)%Q ->
  energy_efficiency_of e d = Some q -> (0 <= q)%Q.
Proof.
  intros He. unfold energy_efficiency_of.
  destruct d as [d|]; [|discriminate].
  destruct (Qltb (1 # 10) d) eqn:Hd; [|discriminate].
  destruct e as [x|]; [|discriminate]. intros [= <-].
  apply Qltb_lt in Hd. specialize (He x eq_refl).
  apply Qle_shift_div_l; lra.
Qed.

(** The columns of [features_final] that come from [features_1min], and the
    energy efficiency. *)
Lemma derived_features_efficiency tbl df :
  derived_features tbl = Ok df ->
  (forall name, name <> "temp_motor1_1_rate" -> name <> "energy_efficiency" ->
     columns df !! name = columns tbl !! name) /\
  float_values df "energy_efficiency"
  = zip_with energy_efficiency_of (float_values tbl "energy_consumption")
      (float_values tbl "distance_km").
Proof.
  intros H. unfold derived_features, read_column in H.
  destruct (columns tbl !! "distance_km") as [c1|] eqn:H1; [|discriminate].
  simpl in H. inv_bind H as dist Hdist.
  destruct (columns tbl !! "energy_consumption") as [c2|] eqn:H2; [|discriminate].
  simpl in H. inv_bind H as energy Henergy.
  destruct (columns tbl !! "temp_motor1_1_mean") as [c3|] eqn:H3; [|discriminate].
  simpl in H. inv_bind H as mean Hmean.
  destruct (columns tbl !! "locoid") as [k|] eqn:Hk; [|discriminate].
  simpl in H.
  destruct (columns tbl !! "ts") as [c5|] eqn:H5; [|discriminate].
  simpl in H. inv_bind H as ts Hts.
  injection H as <-. split.
  - intros name Hn1 Hn2. simpl.
    rewrite lookup_insert_ne by congruence.
    rewrite lookup_insert_ne by congruence. reflexivity.
  - unfold float_values at 1. simpl.
    rewrite lookup_insert_ne by discriminate. rewrite lookup_insert_eq. simpl.
    rewrite (float_values_eq _ _ _ _ H2 Henergy), (float_values_eq _ _ _ _ H1 Hdist).
    reflexivity.
Qed.

Section Energy.
Variable time_bucket : Q -> Q.
Variable stddev_samp : list Q -> option Q.

(** [MAX(x) - MIN(x)] in the feature table. *)
Lemma delta_cell_nonneg raw tbl name col (i : nat) q :
  wf_frame raw ->
  aggregate_features time_bucket stddev_samp raw = Ok tbl ->
  (name, MAX_MINUS_MIN col) ∈ select_list ->
  float_cell tbl name i = Some q -> (0 <= q)%Q.
Proof.
  intros Hraw H Hin Hq.
  destruct (aggregate_features_cells _ _ _ _ Hraw H)
    as (ks & devicetime & groups & _ & _ & _ & _ & Hn & _ & _ & Hcells).
  destruct (Hcells _ _ Hin) as (c & Hc & Hagg).
  simpl in Hagg. inv_bind Hagg as x Hx. apply Ok_inj in Hagg. subst c.
  unfold float_cell, float_values in Hq. rewrite Hc in Hq. simpl in Hq.
  rewrite !list_lookup_fmap in Hq.
  destruct (groups !! i) as [e|]; [|discriminate]. simpl in Hq.
  eapply max_minus_min_nonneg, Hq.
Qed.

(** The energy consumption, the distance and the energy efficiency of a
    bucket are never negative. *)
Theorem energy_and_distance_are_never_negative raw df name (i : nat) q :
  wf_frame raw ->
  features_final time_bucket stddev_samp raw = Ok df ->
  name ∈ ["energy_consumption"; "distance_km"; "energy_efficiency"] ->
  float_cell df name i = Some q -> (0 <= q)%Q.
Proof.
  intros Hraw H Hname Hq. unfold features_final in H.
  inv_bind H as tbl Htbl.
  destruct (derived_features_efficiency _ _ H) as (Hsame & Heff).
  assert (Henergy : forall x, float_cell tbl "energy_consumption" i = Some x ->
                      (0 <= x)%Q).
  { intros x. apply (delta_cell_nonneg raw tbl _ "xenergkwh_plus" i x Hraw Htbl).
    apply (list_elem_of_lookup_2 _ 46). reflexivity. }
  apply elem_of_cons in Hname as [->|Hname].
  { apply Henergy. unfold float_cell, float_values in *.
    rewrite <- Hsame by discriminate. exact Hq. }
  apply elem_of_cons in Hname as [->|Hname].
  { apply (delta_cell_nonneg raw tbl "distance_km" "odometerK" i q Hraw Htbl).
    - apply (list_elem_of_lookup_2 _ 47). reflexivity.
    - unfold float_cell, float_values in *.
      rewrite <- Hsame by discriminate. exact Hq. }
  apply list_elem_of_singleton in Hname as ->.
  unfold float_cell in Hq. rewrite Heff, lookup_zip_with in Hq.
  unfold float_cell in Henergy.
  destruct (float_values tbl "energy_consumption" !! i) as [e|];
    [|discriminate].
  simpl in Hq.
  destruct (float_values tbl "distance_km" !! i) as [d|]; [|discriminate].
  simpl in Hq. eapply energy_efficiency_nonneg, Hq. exact Henergy.
Qed.

End Energy.

(** ** The rows of a bucket, counted *)

Lemma select_length {A : Type} mask (xs : list A) :
  (length mask <= length xs)%nat ->
  length (select mask xs) = length (List.filter id mask).
Proof.
  revert xs. induction mask as [|b mask IH]; intros [|x xs] Hlen; simpl in *;
    try lia; trivial.
  destruct b; simpl; rewrite IH by lia; reflexivity.
Qed.

Lemma filter_id_nonempty mask (j : nat) :
  mask !! j = Some true -> (1 <= length (List.filter id mask))%nat.
Proof.
  revert j. induction mask as [|b mask IH]; intros [|j] H; simpl in *;
    try discriminate.
  - injection H as ->. simpl. lia.
  - specialize (IH _ H). destruct b; simpl; lia.
Qed.

Lemma sum_case_gt_bounds thr xs :
  (0 <= fold_right Z.add 0 (map (case_gt thr) xs) <= Z.of_nat (length xs))%Z.
Proof.
  induction xs as [|x xs IH]; simpl fold_right; [simpl; lia|].
  pose proof (case_gt_bounds thr x).
  change (length (x :: xs)) with (S (length xs)). lia.
Qed.

(** Among groups in ascending order, the group of a row is found once. *)
Lemma one_group_of (G : list (nat * group)) (h : group) :
  ascending G ->
  (exists e, e ∈ G /\ same_group h (snd e) = true) ->
  length (List.filter (fun e : nat * group => same_group h (snd e)) G) = 1%nat.
Proof.
  induction G as [|e G IH]; intros Hasc (d & Hd & Hsame).
  - inversion Hd.
  - apply ascending_cons in Hasc as (Hall & Hasc). simpl.
    destruct (same_group h (snd e)) eqn:He.
    + simpl. f_equal. apply length_zero_iff_nil.
      apply filter_nil_Forall. apply List.Forall_forall. intros x Hx.
      apply list_elem_of_In in Hx. rewrite Forall_forall in Hall.
      specialize (Hall x Hx). apply group_before_not_same in Hall.
      destruct (same_group h (snd x)) eqn:Hhx; [|reflexivity].
      rewrite same_group_sym in He.
      rewrite (same_group_trans _ _ _ He Hhx) in Hall. discriminate.
    + apply IH; [exact Hasc|].
      apply elem_of_cons in Hd as [->|Hd].
      * rewrite Hsame in He. discriminate.
      * exists d. split; assumption.
Qed.

(** Every entry has a group among the distinct ones. *)
Lemma distinct_groups_covers (es : list (nat * group)) x :
  x ∈ es ->
  exists d, d ∈ distinct_groups es /\ same_group (snd x) (snd d) = true.
Proof.
  induction es as [|e es IH]; intros Hx; [inversion Hx|].
  apply elem_of_cons in Hx as [->|Hx].
  - exists e. split; [apply list_elem_of_here|apply same_group_refl].
  - destruct (IH Hx) as (d & Hd & Hsame). simpl.
    destruct (same_group (snd e) (snd d)) eqn:Hed.
    + exists e. split; [apply list_elem_of_here|].
      rewrite same_group_sym in Hed. eapply same_group_trans; eassumption.
    + exists d. split; [|exact Hsame].
      apply list_elem_of_further, list_elem_of_In, filter_In.
      split; [apply list_elem_of_In, Hd|]. rewrite Hed. reflexivity.
Qed.

Lemma sum_split {A : Type} (p : A -> bool) (f : A -> nat) (l : list A) :
  fold_right Nat.add 0%nat (map (fun a => ((if p a then 1 else 0) + f a)%nat) l)
  = (length (List.filter p l) + fold_right Nat.add 0%nat (map f l))%nat.
Proof.
  induction l as [|a l IH]; simpl; [reflexivity|].
  rewrite IH. destruct (p a); simpl; lia.
Qed.

Lemma sum_ext {A : Type} (f g : A -> nat) (l : list A) :
  (forall a, f a = g a) ->
  fold_right Nat.add 0%nat (map f l) = fold_right Nat.add 0%nat (map g l).
Proof.
  intros H. induction l as [|a l IH]; simpl; [reflexivity|].
  rewrite H, IH. reflexivity.
Qed.

Lemma sum_zero {A : Type} (l : list A) :
  fold_right Nat.add 0%nat (map (fun _ => 0%nat) l) = 0%nat.
Proof. induction l as [|a l IH]; simpl; [reflexivity|exact IH]. Qed.

(** The rows of the groups, summed: every row once. *)
Lemma groups_partition (G E : list (nat * group)) :
  ascending G ->
  (forall x, x ∈ E -> exists e, e ∈ G /\ same_group (snd x) (snd e) = true) ->
  fold_right Nat.add 0%nat
    (map (fun e : nat * group =>
            length (List.filter (fun x : nat * group =>
                                   same_group (snd x) (snd e)) E)) G)
  = length E.
Proof.
  intros Hasc. induction E as [|x E IH]; intros Hcov.
  - simpl. apply sum_zero.
  - rewrite (sum_ext _ (fun e : nat * group =>
               ((if same_group (snd x) (snd e) then 1 else 0)
                + length (List.filter (fun x0 : nat * group =>
                                         same_group (snd x0) (snd e)) E))%nat)).
    + rewrite sum_split, IH.
      * rewrite (one_group_of G (snd x) Hasc); [reflexivity|].
        apply Hcov, list_elem_of_here.
      * intros y Hy. apply Hcov, list_elem_of_further, Hy.
    + intros e. simpl. destruct (same_group (snd x) (snd e)); reflexivity.
Qed.

Lemma sum_of_nat {A : Type} (f : A -> nat) (l : list A) :
  fold_right Z.add 0%Z (map (fun a => Z.of_nat (f a)) l)
  = Z.of_nat (fold_right Nat.add 0%nat (map f l)).
Proof.
  induction l as [|a l IH]; simpl fold_right; [reflexivity|].
  rewrite IH. lia.
Qed.

Section Counts.
Variable time_bucket : Q -> Q.
Variable stddev_samp : list Q -> option Q.

(** The rows that the mask of a group selects are the entries of the
    group. *)
Lemma group_mask_entries s ks ts (g : group) :
  length (List.filter id (group_mask time_bucket ks ts g))
  = length (List.filter (fun x : nat * group => same_group (snd x) g)
              (entries_from time_bucket s ks ts)).
Proof.
  revert s ts. induction ks as [|k ks IH]; intros s [|t ts]; try reflexivity.
  unfold group_mask in *. simpl. destruct t as [t|]; simpl.
  - destruct (same_group (k, time_bucket t) g); simpl; rewrite (IH (S s));
      reflexivity.
  - apply IH.
Qed.

(** One entry per raw row with a timestamp. *)
Lemma entries_from_length s ks ts :
  length ks = length ts ->
  length (entries_from time_bucket s ks ts) = length (values ts).
Proof.
  revert s ts. induction ks as [|k ks IH]; intros s [|t ts] Hlen;
    try discriminate; [reflexivity|].
  injection Hlen as Hlen. simpl. destruct t as [t|].
  - change (values (Some t :: ts)) with (t :: values ts). simpl.
    rewrite IH by exact Hlen. reflexivity.
  - change (values (None :: ts)) with (values ts). apply IH, Hlen.
Qed.

(** The two counters of a bucket: it holds at least one raw row, and its
    fault count lies between 0 and its sample count. *)
Theorem every_bucket_holds_a_row raw tbl (i : nat) :
  wf_frame raw ->
  aggregate_features time_bucket stddev_samp raw = Ok tbl ->
  (i < nrows tbl)%nat ->
  exists n f : Z,
    float_cell tbl "sample_count" i = Some (inject_Z n) /\
    float_cell tbl "fault_count" i = Some (inject_Z f) /\
    (1 <= n)%Z /\ (0 <= f <= n)%Z.
Proof.
  intros Hraw H Hi.
  destruct (aggregate_features_cells _ _ _ _ Hraw H)
    as (ks & devicetime & groups & Hlk & Hld & _ & _ & Hn & _ & Hent & Hcells).
  destruct (Hcells "sample_count" COUNT_STAR) as (c1 & Hc1 & Hagg1).
  { apply (list_elem_of_lookup_2 _ 53). reflexivity. }
  destruct (Hcells "fault_count" (SUM_CASE_GT "faultnum" 0)) as (c2 & Hc2 & Hagg2).
  { apply (list_elem_of_lookup_2 _ 51). reflexivity. }
  simpl in Hagg1. apply Ok_inj in Hagg1. subst c1.
  simpl in Hagg2. inv_bind Hagg2 as x Hx. apply Ok_inj in Hagg2. subst c2.
  inv_bind Hx as c0 Hc0. unfold read_column in Hc0.
  destruct (columns raw !! "faultnum") as [c|] eqn:Hcol; [|discriminate].
  apply Ok_inj in Hc0. subst c0.
  assert (Hlx : length x = nrows raw).
  { rewrite (as_float_length _ _ Hx). exact (Hraw _ _ Hcol). }
  destruct (lookup_lt_is_Some_2 groups i) as [e He]; [lia|].
  rewrite Forall_forall in Hent.
  destruct (Hent e) as (Hmask & Hlt). { eapply list_elem_of_lookup_2, He. }
  set (m := group_mask time_bucket ks devicetime (snd e)) in *.
  exists (Z.of_nat (length (List.filter id m))),
         (fold_right Z.add 0%Z (map (case_gt 0) (select m x))).
  assert (Hlm : length m = length ks).
  { unfold m. apply group_mask_length. lia. }
  split; [|split].
  - unfold float_cell, float_values. rewrite Hc1. simpl.
    rewrite !list_lookup_fmap. unfold group in *. rewrite He. reflexivity.
  - unfold float_cell, float_values. rewrite Hc2. simpl.
    rewrite !list_lookup_fmap. unfold group in *. rewrite He. reflexivity.
  - pose proof (filter_id_nonempty m _ Hmask).
    pose proof (sum_case_gt_bounds 0 (select m x)) as Hb.
    rewrite select_length in Hb by lia. lia.
Qed.

(** Every raw row with a timestamp is counted in one bucket, and in one
    only: the sample counts of the feature table add up to the number of
    raw rows that have a timestamp. *)
Theorem sample_counts_add_up_to_the_timestamped_rows raw tbl :
  wf_frame raw ->
  aggregate_features time_bucket stddev_samp raw = Ok tbl ->
  exists counts,
    columns tbl !! "sample_count" = Some (IntCol counts) /\
    length counts = nrows tbl /\
    fold_right Z.add 0%Z counts
    = Z.of_nat (length (values (float_values raw "devicetime"))).
Proof.
  intros Hraw H.
  destruct (aggregate_features_cells _ _ _ _ Hraw H)
    as (ks & devicetime & groups & Hlk & Hld & Hdev & Hgroups & Hn & Hasc & _
        & Hcells).
  destruct (Hcells "sample_count" COUNT_STAR) as (c1 & Hc1 & Hagg1).
  { apply (list_elem_of_lookup_2 _ 53). reflexivity. }
  simpl in Hagg1. apply Ok_inj in Hagg1. subst c1.
  eexists. split; [exact Hc1|]. split; [rewrite !length_map; lia|].
  rewrite Hdev, map_map.
  rewrite (sum_of_nat (fun e : nat * group =>
             length (List.filter id
                       (group_mask time_bucket ks devicetime (snd e))))).
  f_equal.
  rewrite (sum_ext _ (fun e : nat * group =>
             length (List.filter (fun x : nat * group =>
                                    same_group (snd x) (snd e))
                       (entries_from time_bucket 0 ks devicetime)))).
  - rewrite (groups_partition groups _ Hasc).
    + apply entries_from_length. lia.
    + intros x Hx.
      destruct (distinct_groups_covers _ x Hx) as (d & Hd & Hsame).
      exists d. split; [|exact Hsame].
      rewrite Hgroups. apply sort_groups_elem, Hd.
  - intros e. apply group_mask_entries.
Qed.

End Counts.

(** ** The input and the output schema of the two queries *)

Lemma traverse_fails {A B : Type} (f : A -> result B) (l : list A) (a : A) err :
  a ∈ l -> f a = Err err -> exists err', traverse f l = Err err'.
Proof.
  intros Hin Ha. induction l as [|x l IH]; [inversion Hin|]. simpl.
  destruct (f x) as [b|e] eqn:Hx; simpl; [|eauto].
  apply elem_of_cons in Hin as [->|Hin]; [congruence|].
  destruct (IH Hin) as (err' & ->). simpl. eauto.
Qed.

Lemma distinct_groups_length es : (length (distinct_groups es) <= length es)%nat.
Proof.
  induction es as [|e es IH]; simpl; [lia|].
  pose proof (filter_length_le
    (fun e' : nat * group => negb (same_group (snd e) (snd e')))
    (distinct_groups es)) as Hle.
  lia.
Qed.

Lemma entries_from_length_le (time_bucket : Q -> Q) s ks ts :
  (length (entries_from time_bucket s ks ts) <= length ks)%nat.
Proof.
  revert s ts. induction ks as [|k ks IH]; intros s [|t ts]; simpl; try lia.
  specialize (IH (S s) ts). destruct t; simpl; lia.
Qed.

Section Schema.
Variable time_bucket : Q -> Q.
Variable stddev_samp : list Q -> option Q.

Lemma aggregate_column_numeric raw masks a c :
  aggregate_column stddev_samp raw masks a = Ok c -> is_numeric c = true.
Proof.
  destruct a; simpl; intros H;
    try (inv_bind H as x Hx); apply Ok_inj in H; subst c; reflexivity.
Qed.

Lemma aggregate_column_missing raw masks a col :
  argument a = Some col -> columns raw !! col = None ->
  aggregate_column stddev_samp raw masks a = Err (KeyError col).
Proof.
  intros Harg Hcol.
  destruct a; simpl in Harg; try discriminate; injection Harg as ->; simpl;
    unfold read_column; rewrite Hcol; reflexivity.
Qed.

Lemma same_identifier_refl name : same_identifier name name = true.
Proof. apply String.eqb_refl. Qed.

(** The query fails when the raw table has none of its columns under the
    name of a column that the query reads, whatever the case of the
    letters: no feature table is made. *)
Theorem a_missing_input_column_stops_the_query raw name :
  name ∈ input_columns ->
  map_Forall (fun n _ => same_identifier n name = false) (columns raw) ->
  exists err, features_final time_bucket stddev_samp raw = Err err.
Proof.
  intros Hin Hall.
  assert (Hnone : columns raw !! name = None).
  { destruct (columns raw !! name) as [c|] eqn:Hc; [|reflexivity].
    specialize (Hall name c Hc). simpl in Hall.
    rewrite same_identifier_refl in Hall. discriminate. }
  unfold features_final, aggregate_features, read_column.
  remember select_list as sl eqn:Hsl.
  destruct (columns raw !! "locoid") as [locoid|] eqn:Hlocoid; simpl; [|eauto].
  destruct (columns raw !! "devicetime") as [dt|] eqn:Hdt; simpl; [|eauto].
  destruct (as_float dt) as [devicetime|e] eqn:Hdev; simpl; [|eauto].
  unfold input_columns in Hin.
  apply elem_of_cons in Hin as [->|Hin]; [congruence|].
  apply elem_of_cons in Hin as [->|Hin]; [congruence|].
  apply list_elem_of_omap in Hin as ([n a] & Hitem & Harg). simpl in Harg.
  rewrite <- Hsl in Hitem. cbv zeta.
  match goal with
  | |- context [traverse ?f sl] =>
      destruct (traverse_fails f sl (n, a) (KeyError name) Hitem)
        as (err' & Herr)
  end.
  { rewrite (aggregate_column_missing _ _ _ _ Harg Hnone). reflexivity. }
  rewrite Herr. simpl. eauto.
Qed.

(** The columns of the final feature table. *)
Lemma features_final_columns raw df :
  wf_frame raw ->
  features_final time_bucket stddev_samp raw = Ok df ->
  wf_frame df /\ (nrows df <= nrows raw)%nat /\
  is_Some (columns df !! "locoid") /\
  (forall name,
     name ∈ "ts" :: "energy_efficiency" :: "temp_motor1_1_rate"
            :: select_list.*1 ->
     exists c, columns df !! name = Some c /\ is_numeric c = true) /\
  (forall name c, columns df !! name = Some c -> name <> "locoid" ->
     is_numeric c = true).
Proof.
  intros Hraw H. unfold features_final in H. inv_bind H as tbl Htbl.
  destruct (aggregate_features_shape _ _ _ _ Hraw Htbl)
    as (locoid & dt & devicetime & groups & cols & Hlocoid & Hdt & Hdev & Hlk
        & Hld & Hgroups & Hasc & Hent & Htrav & Hn & Hcols & _ & _ & Hwf).
  destruct (derived_features_columns _ _ H)
    as (rate & eff & k & ts & mean & Hk & _ & _ & _ & _ & Hn' & Hdf).
  destruct (traverse_named _ _ _ Htrav) as (Hnames & Hfwd & Hbwd).
  assert (Hnum : forall name c, columns df !! name = Some c ->
            name <> "locoid" -> is_numeric c = true).
  { intros name c Hc Hne. rewrite Hdf in Hc.
    apply lookup_insert_Some in Hc as [[_ <-]|[_ Hc]]; [reflexivity|].
    apply lookup_insert_Some in Hc as [[_ <-]|[_ Hc]]; [reflexivity|].
    rewrite Hcols in Hc.
    apply lookup_insert_Some in Hc as [[<- _]|[_ Hc]]; [contradiction|].
    apply lookup_insert_Some in Hc as [[_ <-]|[_ Hc]]; [reflexivity|].
    apply elem_of_list_to_map_2 in Hc.
    destruct (Hbwd _ _ Hc) as (a & _ & Ha).
    eapply aggregate_column_numeric, Ha. }
  split; [eapply derived_features_wf; eassumption|].
  split.
  { rewrite Hn', Hn, Hgroups, sort_groups_length.
    etransitivity; [apply distinct_groups_length|].
    etransitivity; [apply entries_from_length_le|]. lia. }
  split.
  { rewrite Hdf. rewrite lookup_insert_ne by discriminate.
    rewrite lookup_insert_ne by discriminate. rewrite Hk. eauto. }
  split; [|exact Hnum].
  intros name Hname.
  assert (Hsome : is_Some (columns df !! name)).
  { rewrite Hdf.
    destruct (decide (name = "temp_motor1_1_rate")) as [->|H1].
    { rewrite lookup_insert_eq. eauto. }
    rewrite lookup_insert_ne by congruence.
    destruct (decide (name = "energy_efficiency")) as [->|H2].
    { rewrite lookup_insert_eq. eauto. }
    rewrite lookup_insert_ne by congruence. rewrite Hcols.
    destruct (decide (name = "locoid")) as [->|H3].
    { rewrite lookup_insert_eq. eauto. }
    rewrite lookup_insert_ne by congruence.
    destruct (decide (name = "ts")) as [->|H4].
    { rewrite lookup_insert_eq. eauto. }
    rewrite lookup_insert_ne by congruence.
    apply elem_of_cons in Hname as [->|Hname]; [contradiction|].
    apply elem_of_cons in Hname as [->|Hname]; [contradiction|].
    apply elem_of_cons in Hname as [->|Hname]; [contradiction|].
    apply list_elem_of_fmap in Hname as ([n a] & -> & Hitem). simpl.
    destruct (Hfwd _ _ Hitem) as (c & _ & Hc).
    exists c. apply elem_of_list_to_map_1; [|exact Hc].
    rewrite Hnames. apply select_list_names. }
  destruct Hsome as [c Hc]. exists c. split; [exact Hc|].
  apply (Hnum name c Hc).
  intros ->. revert Hname. apply (bool_decide_unpack _). vm_compute. exact I.
Qed.


End Schema.

Section Handover.
Variable time_bucket : Q -> Q.
Variable stddev_samp : list Q -> option Q.
Variable THRESHOLDS : Thresholds.
Variable MAD_THRESHOLD : Q.
Variable ISOLATION_FOREST_CONTAMINATION : Q.
Variable ANOMALY_FEATURES : list string.
Variable env : Type.
Variable fit_transform : list (list (option Q)) -> result (list (list (option Q))).
Variable fit_predict :
  env -> option Z -> Q -> list (list (option Q)) -> result (list Z).

(** The feature table that the two queries make has every column that
    the detection reads, as numbers: when the configured forest features
    name neither the unit, nor the bucket, nor a column that the detection
    itself adds, and the scaler and the forest return on the matrix of each
    unit with more than 50 moving rows, the detection returns on it. *)
Theorem the_feature_table_fits_the_detection raw df e :
  wf_frame raw ->
  features_final time_bucket stddev_samp raw = Ok df ->
  Forall (fun f => f ∉ "locoid" :: "ts" :: computed_columns) ANOMALY_FEATURES ->
  (forall l, l ∈ unique (unit_keys df) ->
     (50 < length (moving_rows df l))%nat ->
     exists Y p,
       fit_transform (unit_matrix ANOMALY_FEATURES df l) = Ok Y /\
       fit_predict e (Some 42%Z) ISOLATION_FOREST_CONTAMINATION Y = Ok p /\
       length p = length (moving_rows df l)) ->
  exists out,
    detect_anomalies THRESHOLDS MAD_THRESHOLD ISOLATION_FOREST_CONTAMINATION
      ANOMALY_FEATURES env fit_transform fit_predict e df = Ok out.
Proof.
  intros Hraw H Hfeat Hmodel.
  destruct (features_final_columns _ _ _ _ Hraw H)
    as (Hwf & _ & Hlocoid & Hpresent & Hnum).
  rewrite List.Forall_forall in Hfeat.
  apply detect_anomalies_returns; trivial.
  - intros name Hname. apply Hpresent.
    revert Hname. unfold rule_columns.
    rewrite !elem_of_cons.
    intros Hname.
    repeat (destruct Hname as [->|Hname];
            [apply (bool_decide_unpack _); vm_compute; exact I|]).
    inversion Hname.
  - intros f c Hf Hc. apply (Hnum f c Hc). intros ->.
    apply elem_of_app in Hf as [Hf|Hf].
    + revert Hf. apply (bool_decide_unpack _). vm_compute. exact I.
    + apply list_elem_of_In, Hfeat in Hf. apply Hf, list_elem_of_here.
  - apply List.Forall_forall. intros f Hf Hcomp.
    apply (Hfeat f Hf). do 2 apply list_elem_of_further. exact Hcomp.
Qed.

End Handover.

(** ** The queries on the sample raw table *)

Lemma buckets_are_sorted_and_distinct_witness :
  wf_frame RawSample.minute_table /\
  (forall i j, (i < j < nrows RawSample.minute_table)%nat ->
     key_before (unit_of RawSample.minute_table j)
                (unit_of RawSample.minute_table i) = false /\
     (same_unit RawSample.minute_table i j = true ->
      exists ti tj,
        ts_cell RawSample.minute_table i = Some ti /\
        ts_cell RawSample.minute_table j = Some tj /\ (ti < tj)%Q)) /\
  temporally_ordered RawSample.minute_table.
Proof.
  apply (buckets_are_sorted_and_distinct RawSample.minute
           RawSample.flat_stddev RawSample.raw_log).
  - apply (bool_decide_unpack _). vm_compute. exact I.
  - vm_compute. reflexivity.
Defined.

Lemma rate_compares_a_row_with_the_row_above_witness :
  float_cell RawSample.final_table "temp_motor1_1_rate" 2
  = (if same_unit RawSample.final_table 1 2
     then sub_null (float_cell RawSample.final_table "temp_motor1_1_mean" 2)
                   (float_cell RawSample.final_table "temp_motor1_1_mean" 1)
     else None).
Proof.
  apply (rate_compares_a_row_with_the_row_above RawSample.minute
           RawSample.flat_stddev RawSample.raw_log RawSample.final_table 2).
  - apply (bool_decide_unpack _). vm_compute. exact I.
  - vm_compute. reflexivity.
  - vm_compute. lia.
Defined.

Lemma fractions_lie_between_zero_and_one_witness :
  exists q, float_cell RawSample.minute_table "pct_moving" 1 = Some q
            /\ (0 <= q <= 1)%Q.
Proof.
  apply (fractions_lie_between_zero_and_one RawSample.minute
           RawSample.flat_stddev RawSample.raw_log).
  - apply (bool_decide_unpack _). vm_compute. exact I.
  - vm_compute. reflexivity.
  - apply list_elem_of_here.
  - vm_compute. lia.
Defined.

Lemma energy_and_distance_are_never_negative_witness :
  float_cell RawSample.final_table "energy_efficiency" 1 = Some (3 # 2)%Q /\
  (0 <= 3 # 2)%Q.
Proof.
  split; [vm_compute; reflexivity|].
  apply (energy_and_distance_are_never_negative RawSample.minute
           RawSample.flat_stddev RawSample.raw_log RawSample.final_table
           "energy_efficiency" 1).
  - apply (bool_decide_unpack _). vm_compute. exact I.
  - vm_compute. reflexivity.
  - do 2 apply list_elem_of_further. apply list_elem_of_here.
  - vm_compute. reflexivity.
Defined.

Lemma every_bucket_holds_a_row_witness :
  exists n f : Z,
    float_cell RawSample.minute_table "sample_count" 1 = Some (inject_Z n) /\
    float_cell RawSample.minute_table "fault_count" 1 = Some (inject_Z f) /\
    (1 <= n)%Z /\ (0 <= f <= n)%Z.
Proof.
  apply (every_bucket_holds_a_row RawSample.minute RawSample.flat_stddev
           RawSample.raw_log).
  - apply (bool_decide_unpack _). vm_compute. exact I.
  - vm_compute. reflexivity.
  - vm_compute. lia.
Defined.

Lemma sample_counts_add_up_to_the_timestamped_rows_witness :
  exists counts,
    columns RawSample.minute_table !! "sample_count" = Some (IntCol counts) /\
    length counts = nrows RawSample.minute_table /\
    fold_right Z.add 0%Z counts
    = Z.of_nat (length (values (float_values RawSample.raw_log "devicetime"))).
Proof.
  apply (sample_counts_add_up_to_the_timestamped_rows RawSample.minute
           RawSample.flat_stddev RawSample.raw_log).
  - apply (bool_decide_unpack _). vm_compute. exact I.
  - vm_compute. reflexivity.
Defined.

Lemma a_missing_input_column_stops_the_query_witness :
  exists err,
    features_final RawSample.minute RawSample.flat_stddev
      RawSample.raw_log_without_odometer = Err err.
Proof.
  apply (a_missing_input_column_stops_the_query RawSample.minute
           RawSample.flat_stddev RawSample.raw_log_without_odometer
           "odometerK").
  - apply (bool_decide_unpack _). vm_compute. exact I.
  - apply (bool_decide_unpack _). vm_compute. exact I.
Defined.

Lemma the_feature_table_fits_the_detection_witness :
  exists out,
    detect_anomalies Sample.thresholds Sample.mad_threshold Sample.contamination
      Sample.features unit Sample.scaler Sample.forest tt
      RawSample.long_table = Ok out.
Proof.
  apply (the_feature_table_fits_the_detection RawSample.minute
           RawSample.flat_stddev Sample.thresholds Sample.mad_threshold
           Sample.contamination Sample.features unit Sample.scaler
           Sample.forest RawSample.long_log).
  - apply (bool_decide_unpack _). vm_compute. exact I.
  - vm_compute. reflexivity.
  - apply List.Forall_forall. intros f Hf. apply list_elem_of_In in Hf.
    repeat (apply elem_of_cons in Hf as [->|Hf];
            [apply (bool_decide_unpack _); vm_compute; exact I|]).
    inversion Hf.
  - intros l Hl _.
    assert (Hu : unique (unit_keys RawSample.long_table)
                 = [KNum (inject_Z 7)]) by (vm_compute; reflexivity).
    rewrite Hu in Hl. apply list_elem_of_singleton in Hl as ->.
    eexists _, _. split; [vm_compute; reflexivity|].
    split; vm_compute; reflexivity.
Defined.

(** On the long log the detection reaches the forest: the unit has 51
    moving buckets. *)
Example long_table_reaches_the_forest :
  nrows RawSample.long_table = 51%nat /\
  length (moving_rows RawSample.long_table (KNum (inject_Z 7))) = 51%nat.
Proof. split; vm_compute; reflexivity. Qed.

(** The sample, computed: three buckets out of five rows with a timestamp,
    unit 3 before unit 7, and a rate in the second bucket of unit 7 only. *)
Example raw_log_gives_three_buckets :
  unit_keys RawSample.final_table = [KNum 3; KNum 7; KNum 7] /\
  float_values RawSample.final_table "ts" = [Some 0; Some 60; Some 120]%Q /\
  float_values RawSample.final_table "sample_count" = [Some 2; Some 2; Some 1]%Q /\
  float_values RawSample.final_table "temp_motor1_1_rate"
  = [None; None; Some (50 # 2)]%Q.
Proof. vm_compute. repeat split. Qed.
